(* ===== verification/_CoqProject ===== *)
-Q . S2P
Prelude.v
CInt.v
CFloat.v
CText.v
Kernel.v
UserApp.v
Mp1.v
Mp1App.v
Mp2.v
Mp2Facts.v
Mp2Sched.v
Mp2Ops.v
Mp2Admission.v
Mp2System.v
Mp2Yield.v
Mp2App.v
Mp2Types.v
Mp2Main.v
Mp3.v
Mp3Facts.v
Mp3System.v
Mp3Device.v
Mp3Interleave.v
Monitor.v
MonitorMain.v
MonitorRace.v
Work.v
Queue.v
QueueThreads.v
QueueProgress.v
Wire.v
Jobs.v
Frames.v
Streams.v
LostStream.v
JobsData.v
Throttle.v
JobsSystem.v
JobsTidy.v
JobsRun.v
JobsLive.v
JobsComplete.v
JobsSockets.v
NetSystem.v
NetRun.v
LostPeer.v
Server.v
Client.v
