(* ===== verification/Prelude.v ===== *)
(** * Verification of the four CS-423 machine problems

    The repository holds four C programs for one operating-systems course: three
    kernel modules with their user processes, and a pair of processes that share
    a computation over a socket.  This library translates them into executable
    definitions and proves what each part guarantees, and, where the code falls
    short of its intent, exactly how it does.

    ** 1. The programs and the files that model them

    MP1, a CPU-time monitor (src/MP1/mp1.c, mp1_given.h, userapp.c).  A write to the proc
    file registers a pid, a read prints the list, a timer queues a work item every
    five seconds that samples every entry and drops those whose process is gone.
    - [Mp1]: [mp1_read], [mp1_write], [_timer_callback], [bottom_fn], [mp1_init],
      [mp1_exit] and the module under its kernel ([Mp1.step]).
    - [Mp1App]: the application (userapp.c), its system calls run by the module.

    MP2, a rate-monotonic scheduler (src/MP2/mp2.c, mp2_given.h, userapp.c).  Tasks
    register through admission control, yield until their next period and
    deregister; a timer per task makes it READY; a dispatcher thread runs the
    READY task of smallest period.
    - [Mp2]: the state and every handler, thread, callback and entry point.
    - [Mp2Facts]: well-formed states, lookup by pid, the selection loop.
    - [Mp2Sched]: the dispatcher.  [Mp2Ops]: the behaviour of each handler.
    - [Mp2Admission]: the integer utilisation test against the sum it stands for.
    - [Mp2System]: requests, reads, timers and wake-ups in any order, each cut where
      another can come in between.  [Mp2Yield]: repeated and interrupted yields.
    - [Mp2Types]: the C types of the fields of a task object.
    - [Mp2App]: the messages of the application (userapp.c) and its search for its
      status line.  [Mp2Main]: the whole program, its system calls run by the
      module, which goes on by itself between them and while a yield sleeps.

    MP3, a page-fault profiler (src/MP3/mp3.c, mp3_given.h, monitor.c, work.c).
    While processes are registered a delayed work item samples their counters into
    a buffer that a character device maps into the monitor process.
    - [Mp3], [Mp3Facts]: the module.  [Mp3System]: the module as a transition
      system, one request after the other.  [Mp3Device]: requests, the mapping,
      unloading.  [Mp3Interleave]: the requests and samples cut at their unlocked
      windows, in any order.
    - [Monitor]: how the monitor process (monitor.c) reads the buffer as a ring.
      [MonitorMain]: the whole program; opening the device runs the module's
      [dev_mmap], and the words it clears are words of the module's buffer.
      [MonitorRace]: the program run between two stores of a sample.
    - [Work]: the workload that is profiled (work.c).

    MP4, a distributed computation (src/MP4/queue.c, utils.c, client.c, server.c).
    A vector is cut into jobs that two processes compute and balance.
    - [Queue]: the blocking queue as pointer code on a heap.  [QueueThreads]: its
      refinement of a FIFO, and the threads that share it.  [QueueProgress]: programs
      of producers and consumers that share it, and their termination.
    - [Wire]: complete reads and writes over a socket, and the encodings.
    - [Jobs]: the vector, the messages and every thread as an action on the state
      of its process.  [Frames]: the bytes of the messages and the readers that
      take them apart.  [JobsData]: the slices.  [JobsSystem]: client, server and
      the two channels as a transition system.  [JobsTidy]: what its steps keep
      besides the jobs.  [JobsRun]: the number of its steps is bounded.  [JobsLive]:
      the only fault, and where its readers can stall.  [JobsComplete]: its runs
      without load balancing end with the result of a single process.
      [JobsSockets]: all its runs, over sockets that can be full.  [Streams]: what a call on a
      healthy socket can return.  [NetSystem]: the same processes over the two byte
      streams, and the refinement between the two systems.  [NetRun]: the number of
      their steps is bounded as well.  [LostStream]: what the client's reader makes
      of the end of its stream.  [LostPeer]: the client whose server has gone.
    - [Throttle]: the sleep after a computed job and the two monitors of utils.c.
    - [Client], [Server]: the processes around the threads: set-up, the accept loop,
      the output file, signals.  [Client] takes the work of the threads from
      [JobsSystem].

    Shared layers: this file (outcomes, the state and trace monad, the rules and
    tactics of its proofs), [CInt] (machine integers and their memory images),
    [CFloat] (float and double on the Standard Library's executable IEEE 754),
    [CText] (C strings, sprintf and sscanf driven by the source's format strings)
    and [Kernel] (the calls the modules make, the interface [KList] of the kernel's
    linked list with its laws [KListLaws] and an instance, the lock discipline, the
    heap of list objects, the buffer of a proc read), [UserApp] (user processes:
    their events, system calls, streams, and the [while (n-- != 0)] loops).

    ** 2. How the code is represented

    - A C function is a command [cmd S E A]: from a state [S] it ends in [Ok] with a
      result, a new state and the trace of its calls to code outside the program,
      or in a [Fault] with its cause (NULL, out of bounds, use after free, division
      trap).  A fault is a defined outcome, so that its absence can be proved.
    - Objects live in heaps [gmap addr _] under the addresses the allocator returned,
      so sharing, freeing and dangling pointers are those of the code.  Membership
      of an embedded [list_head] is the membership of the object's address in the
      [klist] value of [head].
    - Integers are [Z]; each conversion and each operation that can leave its type is
      written out ([int32], [uint64], ...).  Signed arithmetic wraps, as the kernel's
      build flags make it; [cdiv32] traps as the processor does.
    - What the environment answers is an argument: the object an allocator returns,
      what uninitialised memory holds ([garbage], [stack_int]), the tick counter,
      process lookup, the unit conversions, [kstrtol], [rand], [malloc], page
      translation, the amounts a socket moves.  No law is assumed of them beyond
      what a statement names (an allocated address is not in use; a socket that
      keeps making progress, [Wire.ready]).
    - A handler that others can interrupt is the composition of its uninterrupted
      stretches: registrations of MP2 are [registration_check] and
      [registration_commit], those of MP3 [registration_prepare] and
      [registration_insert], unregistrations of MP3 [unregistration_remove],
      [read_empty], [unregistration_cancel] and [unregistration_free]; a yield of MP2
      is [yield_find], [yield_advance], [yield_program] and [yield_sleep]; a timer of
      MP2 is its expiry and its callback; a sample of MP3 is [work_sum],
      [work_write] and [requeue]; the queue's calls are split at their waits.
      [Mp2System.step] and [Mp3Interleave.step] interleave the stretches;
      [Mp2System.request_runs], [Mp2System.fire_runs] and the second part of
      [profiler_reachable] show that uninterrupted requests are among their runs.
      A handler of MP1 is one transition.
    - The threads of MP4 are split wherever another thread can tell the difference: a
      worker pulls a job in one action and computes and counts it in another, [adaptor]
      reads the queue length, asks for a rebalance, pulls a job and sends it in four,
      the state manager notes a length and sends it in two.  What is one action is
      private or under a lock: the slices of two jobs are disjoint ([JobsData]), only
      one thread takes from [job_tosend] and only one receives.
    - A user program is a command on the state of the module it talks to: a system
      call runs the module's handler there ([UserApp.syscall],
      [MonitorMain.in_module]).  What happens meanwhile is an argument: the samples
      of the module in [Mp1App.main]; in [Mp2Main.main] the timers that expire and
      the wake-ups of the dispatcher before each system call ([Mp2Main.before]) and
      while the process sleeps in a yield ([Mp2Main.asleep]), where [schedule]
      returns at the first event that wakes its thread, and the program ends
      [None] when none does.
    - In [Jobs] a blocked thread is an action that answers [None]; a message that
      makes its receiver block stays at the front of its channel.  A write to a
      socket is one message because the code holds [transfer_mutex] around it.
      The channels have no bound: a thread that waits for room in a socket has not
      taken its step, so the runs over every finite socket are among those of
      [JobsSystem] and [NetSystem].  What a socket lets through is
      [JobsSockets.takes]: a message is written when the socket has room for any
      message, or is empty while the peer's reader waits; the room is an argument of
      [jobs_progress] and [byte_runs_end].  A write that a slow reader takes in
      several pieces is the one step in which it ends.
      [NetSystem] replaces the channels by the byte streams: a receive is the step in
      which its last byte is there, since until then only local variables change.
    - [LostPeer] starts from any state of [NetSystem] and any prefix of the bytes on
      their way to the client ([lose]), so the server can go between two writes or
      inside one, and what has not arrived can be discarded; from then on a read at
      the end of the stream returns 0 or fails ([LostStream.fading]), and what the
      client sends reaches nobody.

    ** 3. What the theorems show

    Scheduling and admission: [dispatch_rate_monotonic]; [registration_keeps_budget],
    for benign tasks, on which the 32-bit product does not wrap;
    [yields_no_drift], [de_registration_spec]; over all reachable states,
    [mp2_reachable_safe] (with the dispatcher thread, which needs a thread for every
    listed task, and unloading) and [mp2_reachable_typed]; end to end with the
    application, [registration_reported] and [mp2_app_session], for benign tasks as
    well.  Limits: [dispatch_ignores_state], [admission_overflow], [yield_race], and
    [registration_race], two registrations that exceed the bound together.

    Monitoring: [bottom_fn_spec], [mp1_read_spec], [reachable_safe]; end to end with
    the application, [mp1_app_session].  What unloading leaves behind: [mp1_exit_spec].

    Profiling: [profiler_reachable] (with unloading; the sampler follows the list
    only in runs whose requests are not interrupted), [sample_conserves],
    [dev_mmap_spec], [monitor_main_ends], [work_balanced], and from the samples to
    the profiles printed by two runs of the monitor, [monitor_sessions].  Limits:
    [buffer_log_overruns], [unregistration_races], [torn_sample].

    Distribution: [queue_refines_fifo], [queue_threads_safe] (with destruction),
    [queue_progress], [transfer_any_chunking], [state_message], [jobs_conserved]
    under every interleaving, and [byte_system_refines], which carries it to the
    byte streams; [jobs_progress], whatever jobs are moved and however full the
    sockets are: the run ends with the vector of a single process unless a reader
    stalls in the loop of [adaptor] or both readers write there at the same time;
    [byte_runs_end] states it for the byte streams; [jobs_complete], without queue
    lengths: no reader stalls; [client_session] carries the result to the output
    file; [compute_with_throttle_spec],
    [server_serves_one].  When the server goes, [lost_connection]: the result is still
    right, or the job whose payload was cut short ends in zeros ([ex_left_result]
    reaches that), or a job is missing and the client never ends.  Limits:
    [balance_job_zero] and [balance_deadlock], both reached in [JobsSystem] by a
    schedule of the running system, and [sockets_deadlock], reached in
    [JobsSockets] over the smallest sockets.

    Every property with a hypothesis is followed by its witness: the property
    applied to a concrete state on which the hypotheses are evaluated.

    ** 4. Bounds and fuel

    - [Monitor.drain] has one unit of fuel more than the buffer has words: every
      record starts by clearing one; [monitor_main_ends] shows that it is enough.
    - [Mp3.map_pages] has 129 units of fuel for the at most 128 pages of the buffer;
      [dev_mmap_spec] covers every size that is a multiple of a page, which is all
      that mmap passes.
    - The socket loops spend one answer of the environment per iteration and answer
      [None] when they have used up all of them; [Wire.ready] is the condition under
      which they return, and [transfer_any_chunking] shows that they do.
    - [Queue.queue_destroy] spends one unit per node of the heap.
    - [Mp2App.find_line] and [Mp2Main.scan_status] spend one unit per line of the
      text they read.
    - [UserApp.while_down] is a well-founded recursion on the counter as an unsigned
      number, a negative counter included.
    - [jobs_progress] counts actions: [14 * (JOB_NUM / 2) + 18 + (4 * JOB_NUM + 6) * t]
      for [t] queue lengths, by a weight on states that every action decreases: a
      queue length weighs as much as the jobs it can make a process move.
      [byte_runs_end] has the same bound.
    - [Jobs] and [JobsSystem] hold for any positive JOB_NUM and JOB_SIZE (1024 and
      4096 in utils.h; JOB_NUM even), the queue for any bound, the monitor's lemmas
      for any ring; [Monitor.monitor] fixes BUFD_MAX to 48000.
    - [queue_progress] counts actions: [(n + 2)] for each call of [n] threads, since
      the completion of a call can wake every other thread, and one for each spurious
      wake-up.
    - The numbers of the vector are a type with one operation (the addition of the
      constant), so the result does not depend on floating-point laws.

    ** 5. What is not modelled

    - printk and the progress output of MP4, the argument count of [Work.main], and the return
      values the code ignores (proc_create, copy_to_user, nanosleep); the scratch
      buffer of a proc request is assumed to be allocated.
    - get_cpu_use of mp2_given.h, which no code calls, and the empty dev_open and
      dev_close of mp3.c.
    - Time: what a clock returns is an argument; how long a job or a sleep takes has
      no effect on the state.
    - Counters that are only written or printed (job_server_done, job_sent).
    - One run of the monitor is one step in [MonitorMain]; [Mp3Interleave] allows
      writes to the mapping at any time between two critical sections, and
      [MonitorRace] splits a sample at any of its stores.
    - In [Mp2Main] no other process makes requests while the application runs, and
      no signal wakes it.
    - The entries of [Mp2System.step] and [Mp3Interleave.step] are those that do not
      fault: a faulting stretch ends the module.
    - In [NetSystem] the socket neither closes nor fails; [LostPeer] has the client
      after the server has gone.  SIGPIPE, which can end the client at its next write
      to a closed socket, only shortens its runs.  A server that loses its client has
      no result to give: its reader returns ([server_take]) and [Server] goes on.
    - In [Client] and [Server] a queue is its pointer's life (unset, in use,
      destroyed); its contents are those of [Jobs] and its code that of [Queue].
    - Drafts outside the build (MP3/mmap.c, MP4/receiveJob.c, queueThread.cpp). *)
From stdpp Require Import prelude gmap.

(** ** Outcomes *)

(** Why a C execution has no defined continuation. *)
Inductive fault : Type :=
  | NullDeref      (* a NULL pointer is dereferenced or handed to a callee that does *)
  | OutOfBounds    (* an access outside an allocated object *)
  | UseAfterFree   (* an access through a pointer whose object was freed *)
  | DivByZero.     (* an integer division the hardware traps on *)

#[export] Instance fault_eq_dec : EqDecision fault.
Proof. solve_decision. Defined.

Inductive outcome (A : Type) : Type :=
  | Ok (a : A)
  | Fault (f : fault).
Arguments Ok {A} a.
Arguments Fault {A} f.

#[export] Instance outcome_ret : MRet outcome := λ A a, Ok a.
#[export] Instance outcome_bind : MBind outcome := λ A B k m,
  match m with Ok a => k a | Fault f => Fault f end.
#[export] Instance outcome_fmap : FMap outcome := λ A B f m,
  match m with Ok a => Ok (f a) | Fault e => Fault e end.

Definition from_option_or {A} (f : fault) (o : option A) : outcome A :=
  match o with Some a => Ok a | None => Fault f end.

Definition is_ok {A} (o : outcome A) : bool :=
  match o with Ok _ => true | Fault _ => false end.

(** ** Commands: state passing, faults and a trace of external calls *)

(** A command reads and writes a state [S], may fault, and records in order
    the calls [E] it makes to code outside the program. *)
Definition cmd (S E A : Type) : Type := S → outcome (A * S * list E).

Definition prepend {S E A} (t : list E) (o : outcome (A * S * list E)) :
    outcome (A * S * list E) :=
  match o with
  | Ok (a, s, t') => Ok (a, s, t ++ t')
  | Fault f => Fault f
  end.

#[export] Instance cmd_ret {S E} : MRet (cmd S E) := λ A a s, Ok (a, s, []).
#[export] Instance cmd_bind {S E} : MBind (cmd S E) := λ A B k m s,
  match m s with
  | Ok (a, s', t) => prepend t (k a s')
  | Fault f => Fault f
  end.

Section primitives.
Context {S E : Type}.

Definition get : cmd S E S := λ s, Ok (s, s, []).
Definition gets {A} (f : S → A) : cmd S E A := λ s, Ok (f s, s, []).
Definition modify (f : S → S) : cmd S E unit := λ s, Ok (tt, f s, []).
Definition emit (e : E) : cmd S E unit := λ s, Ok (tt, s, [e]).
Definition failwith {A} (f : fault) : cmd S E A := λ _, Fault f.
Definition lift {A} (o : outcome A) : cmd S E A := λ s,
  match o with Ok a => Ok (a, s, []) | Fault f => Fault f end.

(** [for (x : l) f x], in list order. *)
Fixpoint for_each {A} (l : list A) (f : A → cmd S E unit) : cmd S E unit :=
  match l with
  | [] => mret tt
  | x :: l' => f x ;; for_each l' f
  end.
End primitives.

(** ** A weakest-precondition calculus for commands *)

(** [wp m s Q F]: running [m] in [s] satisfies [Q] when it returns and [F]
    when it faults. [F := λ _, False] is total correctness. *)
Definition wp {S E A} (m : cmd S E A) (s : S)
    (Q : A → S → list E → Prop) (F : fault → Prop) : Prop :=
  match m s with
  | Ok (a, s', t) => Q a s' t
  | Fault f => F f
  end.

Section wp_rules.
Context {S E : Type}.
Implicit Types (s : S) (F : fault → Prop).

Lemma prepend_nil {A} (o : outcome (A * S * list E)) : prepend [] o = o.
Proof. by destruct o as [[[??]?]|]. Qed.

Lemma prepend_app {A} t1 t2 (o : outcome (A * S * list E)) :
  prepend (t1 ++ t2) o = prepend t1 (prepend t2 o).
Proof. destruct o as [[[??]?]|]; simpl; by rewrite ?app_assoc. Qed.

Lemma wp_ret {A} (a : A) s (Q : A → S → list E → Prop) F :
  wp (mret a) s Q F = Q a s [].
Proof. done. Qed.

Lemma wp_bind {A B} (m : cmd S E A) (k : A → cmd S E B) s Q F :
  wp (m ≫= k) s Q F =
  wp m s (λ a s' t, wp (k a) s' (λ b s'' t', Q b s'' (t ++ t')) F) F.
Proof.
  unfold wp, mbind, cmd_bind. destruct (m s) as [[[a s'] t]|f]; [|done].
  by destruct (k a s') as [[[b s''] t']|f].
Qed.

Lemma wp_get s (Q : S → S → list E → Prop) F : wp get s Q F = Q s s [].
Proof. done. Qed.

Lemma wp_gets {A} (f : S → A) s (Q : A → S → list E → Prop) F :
  wp (gets f) s Q F = Q (f s) s [].
Proof. done. Qed.

Lemma wp_modify (f : S → S) s (Q : unit → S → list E → Prop) F :
  wp (modify f) s Q F = Q tt (f s) [].
Proof. done. Qed.

Lemma wp_emit (e : E) s (Q : unit → S → list E → Prop) F :
  wp (emit e) s Q F = Q tt s [e].
Proof. done. Qed.

Lemma wp_lift {A} (o : outcome A) s (Q : A → S → list E → Prop) F :
  wp (lift o) s Q F = match o with Ok a => Q a s [] | Fault f => F f end.
Proof. unfold wp, lift. by destruct o. Qed.

Lemma wp_if {A} (P : Prop) `{Decision P} (m1 m2 : cmd S E A) s Q F :
  (P → wp m1 s Q F) → (¬ P → wp m2 s Q F) → wp (if decide P then m1 else m2) s Q F.
Proof. destruct (decide P); auto. Qed.

(** Total correctness yields a result. *)
Lemma wp_ok {A} (m : cmd S E A) s (Q : A → S → list E → Prop) :
  wp m s Q (λ _, False) → ∃ a s' t, m s = Ok (a, s', t) ∧ Q a s' t.
Proof. unfold wp. destruct (m s) as [[[??]?]|]; naive_solver. Qed.

Lemma wp_intro {A} (m : cmd S E A) s (Q : A → S → list E → Prop) F a s' t :
  m s = Ok (a, s', t) → Q a s' t → wp m s Q F.
Proof. unfold wp. by intros ->. Qed.

Lemma wp_mono {A} (m : cmd S E A) s (Q Q' : A → S → list E → Prop) F F' :
  wp m s Q F → (∀ a s' t, Q a s' t → Q' a s' t) → (∀ f, F f → F' f) →
  wp m s Q' F'.
Proof. unfold wp. destruct (m s) as [[[??]?]|]; auto. Qed.

(** Loop rule: the invariant is indexed by the visited and the remaining
    elements, and by the trace so far. *)
Lemma wp_for_each {A} (I : list A → list A → S → list E → Prop)
    (f : A → cmd S E unit) l s F :
  I [] l s [] →
  (∀ pre x post s' t, l = pre ++ x :: post → I pre (x :: post) s' t →
     wp (f x) s' (λ _ s'' t', I (pre ++ [x]) post s'' (t ++ t')) F) →
  wp (for_each l f) s (λ _ s' t, I l [] s' t) F.
Proof.
  intros H0 Hstep.
  cut (∀ pre post t s', l = pre ++ post → I pre post s' t →
         wp (for_each post f) s' (λ _ s'' t', I l [] s'' (t ++ t')) F).
  { intros Hc. apply (Hc [] l []); auto. }
  intros pre post. revert pre.
  induction post as [|x post IH]; intros pre t s' Hl HI; simpl.
  - rewrite wp_ret, app_nil_r. by rewrite app_nil_r in Hl; subst.
  - rewrite wp_bind. eapply wp_mono; [by eapply Hstep| |done].
    intros [] s'' t' HI'. eapply wp_mono; [apply (IH (pre ++ [x]) (t ++ t') s'')|..]; auto.
    + by rewrite <-app_assoc.
    + intros ? ? ?; by rewrite app_assoc.
Qed.

Lemma bind_ok {A B} (m : cmd S E A) (k : A → cmd S E B) s a s' t :
  m s = Ok (a, s', t) → (m ≫= k) s = prepend t (k a s').
Proof. intros H. unfold mbind, cmd_bind. by rewrite H. Qed.

Lemma bind_inv {A B} (m : cmd S E A) (k : A → cmd S E B) s b s' t :
  (m ≫= k) s = Ok (b, s', t) →
  ∃ a s1 t1 t2, m s = Ok (a, s1, t1) ∧ k a s1 = Ok (b, s', t2) ∧ t = t1 ++ t2.
Proof.
  unfold mbind, cmd_bind. destruct (m s) as [[[a s1] t1]|]; [|done].
  destruct (k a s1) as [[[b' s2] t2]|] eqn:Hk; [|done]. intros [= -> -> <-].
  by exists a, s1, t1, t2.
Qed.

Lemma bind_fault {A B} (m : cmd S E A) (k : A → cmd S E B) s f :
  m s = Fault f → (m ≫= k) s = Fault f.
Proof. intros H. unfold mbind, cmd_bind. by rewrite H. Qed.

Lemma for_each_app {A} (f : A → cmd S E unit) l1 l2 s :
  for_each (l1 ++ l2) f s = (for_each l1 f ;; for_each l2 f) s.
Proof.
  revert s. induction l1 as [|x l1 IH]; intros s; simpl.
  - unfold mbind at 1, cmd_bind at 1. simpl. by rewrite prepend_nil.
  - unfold mbind, cmd_bind in *. destruct (f x s) as [[[? s1] t1]|?]; [|done].
    rewrite IH. simpl. destruct (for_each l1 f s1) as [[[? s2] t2]|?]; simpl; [|done].
    by rewrite prepend_app.
Qed.
End wp_rules.

(** ** Positions in a list *)

Lemma elem_of_middle {A} (l1 l2 : list A) x : x ∈ l1 ++ x :: l2.
Proof. rewrite elem_of_app, elem_of_cons. auto. Qed.

Lemma NoDup_middle {A} (l1 l2 : list A) x :
  NoDup (l1 ++ x :: l2) ↔ x ∉ l1 ++ l2 ∧ NoDup (l1 ++ l2).
Proof. by rewrite <-Permutation_middle, NoDup_cons. Qed.

Lemma NoDup_middle_l {A} (l1 l2 : list A) x : NoDup (l1 ++ x :: l2) → x ∉ l1.
Proof. intros (_ & H & _)%NoDup_app Hx. by eapply H; [|left]. Qed.

Lemma NoDup_middle_r {A} (l1 l2 : list A) x : NoDup (l1 ++ x :: l2) → x ∉ l2.
Proof. by intros (_ & _ & [? _]%NoDup_cons)%NoDup_app. Qed.

Lemma elem_of_after {A} (l1 l2 : list A) x y :
  y ∈ l2 → ∃ j, (length l1 < j)%nat ∧ (l1 ++ x :: l2) !! j = Some y.
Proof.
  intros [i Hi]%list_elem_of_lookup. exists (length l1 + S i)%nat. split; [lia|].
  rewrite lookup_app_r by lia.
  replace (length l1 + S i - length l1)%nat with (S i) by lia. done.
Qed.

(** Keep part of a prefix: still no duplicates. *)
Lemma NoDup_filter_prefix {A} (P : A → Prop) `{∀ x, Decision (P x)} (l1 l2 : list A) :
  NoDup (l1 ++ l2) → NoDup (filter P l1 ++ l2).
Proof.
  intros (H1 & H2 & H3)%NoDup_app. apply NoDup_app.
  split; [by apply NoDup_filter|]. split; [|done].
  intros b [_ ?]%list_elem_of_filter. auto.
Qed.

Lemma elem_of_snoc {A} (l : list A) x y : y ∈ l ++ [x] ↔ y ∈ l ∨ y = x.
Proof. by rewrite elem_of_app, list_elem_of_singleton. Qed.

(** Destruct the scrutinee of every match of the goal that a hypothesis decides. *)
Ltac run_step :=
  first
    [ progress cbv beta iota zeta delta
        [mbind mret fmap cmd_bind cmd_ret outcome_bind outcome_ret
         outcome_fmap get gets modify emit failwith lift prepend for_each
         from_option_or]
    | progress cbn [app]
    | match goal with H : ?x = _ |- context [match ?x with _ => _ end] => rewrite H end ].
Ltac run := repeat run_step.

(** Symbolic execution of a [wp] goal up to the next case distinction. *)
Ltac wp_step :=
  first [ rewrite wp_bind | rewrite wp_ret | rewrite wp_get | rewrite wp_gets
        | rewrite wp_modify | rewrite wp_emit | rewrite wp_lift ]; cbv beta.
Ltac wp_go := cbn [from_option_or]; repeat wp_step; cbn [app].
