(* ===== verification/CInt.v ===== *)
(** * Machine integers of the target (LP64, two's complement)

    C integers are [Z] values kept in the range of their type; every
    operation that can leave the range says which conversion brings it back.
    The kernel modules are built with the kernel's flags
    ([-fno-strict-overflow]), so signed arithmetic wraps; a signed division
    traps on a zero divisor and on [INT_MIN / -1].  Memory images of integers
    are lists of byte values, little-endian as on the x86 target, big-endian
    for network order. *)
From stdpp Require Import prelude.
From S2P Require Import Prelude.
Open Scope Z_scope.

(** ** Conversions *)

Definition wrap (w x : Z) : Z := x mod 2 ^ w.
Definition swrap (w x : Z) : Z := (x + 2 ^ (w - 1)) mod 2 ^ w - 2 ^ (w - 1).

Definition uint32 (x : Z) : Z := wrap 32 x.      (* (unsigned) x, (uint32_t) x *)
Definition uint64 (x : Z) : Z := wrap 64 x.      (* (unsigned long) x, (size_t) x *)
Definition int32 (x : Z) : Z := swrap 32 x.      (* (int) x *)
Definition int64 (x : Z) : Z := swrap 64 x.      (* (long) x, (ssize_t) x *)

Definition INT_MAX : Z := 2147483647.
Definition INT_MIN : Z := -2147483648.

Definition is_uint (w x : Z) : Prop := 0 ≤ x < 2 ^ w.
Definition is_sint (w x : Z) : Prop := - 2 ^ (w - 1) ≤ x < 2 ^ (w - 1).

#[export] Instance is_uint_dec w x : Decision (is_uint w x).
Proof. unfold is_uint. apply _. Defined.
#[export] Instance is_sint_dec w x : Decision (is_sint w x).
Proof. unfold is_sint. apply _. Defined.

(** [a / b] of two [int]s. *)
Definition cdiv32 (a b : Z) : outcome Z :=
  if decide (b = 0) then Fault DivByZero
  else if decide (a = INT_MIN ∧ b = -1) then Fault DivByZero
  else Ok (Z.quot a b).

Section conversions.
Context (w : Z) (Hw : 0 < w).

Lemma wrap_range x : is_uint w (wrap w x).
Proof. unfold is_uint, wrap. apply Z.mod_pos_bound. lia. Qed.

Lemma wrap_small x : is_uint w x → wrap w x = x.
Proof. unfold is_uint, wrap. apply Z.mod_small. Qed.

Lemma pow_half : 2 ^ w = 2 * 2 ^ (w - 1).
Proof. rewrite <-Z.pow_succ_r by lia. f_equal. lia. Qed.

Lemma swrap_range x : is_sint w (swrap w x).
Proof.
  unfold is_sint, swrap.
  pose proof (Z.mod_pos_bound (x + 2 ^ (w - 1)) (2 ^ w)). pose proof pow_half. lia.
Qed.

Lemma swrap_small x : is_sint w x → swrap w x = x.
Proof.
  unfold is_sint, swrap. pose proof pow_half. intros.
  rewrite Z.mod_small by lia. lia.
Qed.

(** The signed reading of a wrapped value is the signed value. *)
Lemma swrap_wrap x : swrap w (wrap w x) = swrap w x.
Proof. unfold swrap, wrap. f_equal. by rewrite Zplus_mod_idemp_l. Qed.

Lemma wrap_swrap x : wrap w (swrap w x) = wrap w x.
Proof.
  unfold swrap, wrap. rewrite Zminus_mod_idemp_l. f_equal. lia.
Qed.

Lemma wrap_add_l x y : wrap w (wrap w x + y) = wrap w (x + y).
Proof. unfold wrap. by rewrite Zplus_mod_idemp_l. Qed.

Lemma wrap_add_r x y : wrap w (x + wrap w y) = wrap w (x + y).
Proof. unfold wrap. by rewrite Zplus_mod_idemp_r. Qed.

Lemma wrap_idemp x : wrap w (wrap w x) = wrap w x.
Proof. unfold wrap. by rewrite Zmod_mod. Qed.
End conversions.

Lemma uint32_range x : is_uint 32 (uint32 x).
Proof. by apply wrap_range. Qed.
Lemma uint64_range x : is_uint 64 (uint64 x).
Proof. by apply wrap_range. Qed.
Lemma int32_range x : is_sint 32 (int32 x).
Proof. by apply swrap_range. Qed.
Lemma uint32_small x : is_uint 32 x → uint32 x = x.
Proof. apply wrap_small. Qed.
Lemma uint64_small x : is_uint 64 x → uint64 x = x.
Proof. apply wrap_small. Qed.
Lemma int32_small x : is_sint 32 x → int32 x = x.
Proof. by apply swrap_small. Qed.
Lemma int64_small x : is_sint 64 x → int64 x = x.
Proof. by apply swrap_small. Qed.

Lemma uint64_add_l x y : uint64 (uint64 x + y) = uint64 (x + y).
Proof. apply wrap_add_l. Qed.
Lemma uint64_add_r x y : uint64 (x + uint64 y) = uint64 (x + y).
Proof. apply wrap_add_r. Qed.

(** The [int] a [uint32_t] image stands for. *)
Lemma int32_uint32 x : int32 (uint32 x) = int32 x.
Proof. by apply swrap_wrap. Qed.

Lemma cdiv32_pos a b : 0 ≤ a → 0 < b → cdiv32 a b = Ok (a / b).
Proof.
  intros. unfold cdiv32. rewrite !decide_False by lia.
  by rewrite Z.quot_div_nonneg.
Qed.

(** ** Byte images *)

(** A byte value. *)
Abbreviation byte := Z (only parsing).
Definition is_byte (b : byte) : Prop := is_uint 8 b.

Fixpoint le_bytes (n : nat) (x : Z) : list byte :=
  match n with
  | O => []
  | S n' => x mod 256 :: le_bytes n' (x / 256)
  end.

Fixpoint le_val (bs : list byte) : Z :=
  match bs with
  | [] => 0
  | b :: bs' => b + 256 * le_val bs'
  end.

Definition be_bytes (n : nat) (x : Z) : list byte := reverse (le_bytes n x).
Definition be_val (bs : list byte) : Z := le_val (reverse bs).

Lemma le_bytes_length n x : length (le_bytes n x) = n.
Proof. revert x. induction n; intros; simpl; auto. Qed.

Lemma be_bytes_length n x : length (be_bytes n x) = n.
Proof. unfold be_bytes. by rewrite length_reverse, le_bytes_length. Qed.

Lemma le_bytes_bytes n x : Forall is_byte (le_bytes n x).
Proof.
  revert x. induction n as [|n IH]; intros x; constructor; auto.
  red. apply Z.mod_pos_bound. lia.
Qed.

Lemma be_bytes_bytes n x : Forall is_byte (be_bytes n x).
Proof. apply Forall_reverse, le_bytes_bytes. Qed.

Lemma le_val_bytes n x : le_val (le_bytes n x) = wrap (8 * Z.of_nat n) x.
Proof.
  revert x. unfold wrap. induction n as [|n IH]; intros x.
  - simpl. by rewrite Z.mod_1_r.
  - cbn [le_bytes le_val]. rewrite IH.
    replace (8 * Z.of_nat (S n)) with (8 + 8 * Z.of_nat n) by lia.
    rewrite Z.pow_add_r by lia. change (2 ^ 8) with 256.
    rewrite Z.rem_mul_r by lia. done.
Qed.

Lemma be_val_bytes n x : be_val (be_bytes n x) = wrap (8 * Z.of_nat n) x.
Proof. unfold be_val, be_bytes. by rewrite reverse_involutive, le_val_bytes. Qed.

Lemma le_val_range bs : Forall is_byte bs → is_uint (8 * Z.of_nat (length bs)) (le_val bs).
Proof.
  unfold is_byte, is_uint. induction 1 as [|b bs Hb _ IH]; [by vm_compute|].
  cbn [le_val length]. replace (8 * Z.of_nat (S (length bs))) with (8 + 8 * Z.of_nat (length bs)) by lia.
  rewrite Z.pow_add_r by lia. lia.
Qed.

Lemma le_bytes_val bs : Forall is_byte bs → le_bytes (length bs) (le_val bs) = bs.
Proof.
  unfold is_byte, is_uint. induction 1 as [|b bs Hb _ IH]; [done|].
  cbn [le_val length le_bytes]. f_equal.
  - rewrite (Z.mul_comm 256), Z.mod_add, Z.mod_small; lia.
  - rewrite (Z.mul_comm 256), Z.div_add, Z.div_small by lia. apply IH.
Qed.

Create HintDb cint.
#[export] Hint Resolve uint32_range uint64_range int32_range wrap_range swrap_range
  le_bytes_bytes be_bytes_bytes : cint.
#[export] Hint Rewrite le_bytes_length be_bytes_length le_val_bytes be_val_bytes : cint.
