(* ===== verification/CFloat.v ===== *)
(** * Floating-point numbers of the target

    IEEE 754 binary32 and binary64 with rounding to nearest even, on the
    executable specification of the Standard Library, and the conversions
    between them and the integers; the time values the programs convert. *)
From Stdlib Require Import SpecFloat.
From stdpp Require Import prelude.
From S2P Require Import Prelude CInt.
Open Scope Z_scope.

Abbreviation cfloat := spec_float (only parsing).

(** [struct timeval]. *)
Record timeval : Type := Timeval { tv_sec : Z; tv_usec : Z }.

(** A format: [float] and [double]. *)
Record fformat : Type := FFormat { prec : Z; emax : Z }.
Definition single : fformat := FFormat 24 128.
Definition double : fformat := FFormat 53 1024.

Section ops.
Context (f : fformat).
Definition of_int (z : Z) : cfloat := binary_normalize (prec f) (emax f) z 0 false.
Definition fmul (x y : cfloat) : cfloat := SFmul (prec f) (emax f) x y.
Definition fdiv (x y : cfloat) : cfloat := SFdiv (prec f) (emax f) x y.
Definition fsub (x y : cfloat) : cfloat := SFsub (prec f) (emax f) x y.
End ops.

(** The integer part, rounded towards zero. *)
Definition trunc (x : cfloat) : option Z :=
  match x with
  | S754_zero _ => Some 0
  | S754_finite s m e =>
      let a := if decide (0 ≤ e) then Z.pos m * 2 ^ e else Z.pos m / 2 ^ (- e) in
      Some (if s : bool then - a else a)
  | _ => None
  end.

(** The conversion to a signed integer of [w] bits: the processor answers the
    smallest one when the value has none. *)
Definition to_sint (w : Z) (x : cfloat) : Z :=
  match trunc x with
  | Some z => if decide (is_sint w z) then z else - 2 ^ (w - 1)
  | None => - 2 ^ (w - 1)
  end.

(** A decimal literal [n / d]. *)
Definition literal (n d : Z) : cfloat := fdiv double (of_int double n) (of_int double d).

Lemma to_sint_range w x : 0 < w → is_sint w (to_sint w x).
Proof.
  intros Hw. assert (Hmin : is_sint w (- 2 ^ (w - 1))).
  { unfold is_sint. pose proof (Z.pow_pos_nonneg 2 (w - 1)). lia. }
  unfold to_sint. destruct (trunc x); [|done]. by case_decide.
Qed.

(** 1.2 is the nearest double. *)
Lemma literal_1_2 : literal 12 10 = S754_finite false 5404319552844595 (-52).
Proof. reflexivity. Qed.

(** ** Conversions of integers are finite *)

Lemma digits2_bound p k : Z.pos p < 2 ^ k → Z.pos (digits2_pos p) ≤ k.
Proof.
  revert k. induction p as [p IH|p IH|]; intros k Hk; cbn [digits2_pos].
  1,2: rewrite Pos2Z.inj_succ;
    assert (Hk1 : 0 < k) by (destruct (decide (0 < k)); [done|];
      assert (2 ^ k ≤ 1) by (destruct (decide (k = 0)) as [->|]; [done|rewrite Z.pow_neg_r; lia]); lia);
    specialize (IH (k - 1)); replace k with (Z.succ (k - 1)) in Hk by lia;
    rewrite Z.pow_succ_r in Hk by lia; lia.
  destruct (decide (0 < k)); [lia|]. destruct (decide (k = 0)) as [->|]; [done|].
  rewrite Z.pow_neg_r in Hk; lia.
Qed.

Lemma shr_1_bound mrs : 0 ≤ shr_m mrs → 0 ≤ shr_m (shr_1 mrs) ≤ shr_m mrs.
Proof. destruct mrs as [[|[p|p|]|p] r s]; cbn; lia. Qed.

Lemma iter_shr_bound p mrs : 0 ≤ shr_m mrs → 0 ≤ shr_m (SpecFloat.iter_pos shr_1 p mrs) ≤ shr_m mrs.
Proof.
  revert mrs. induction p as [p IH|p IH|]; intros mrs Hm; cbn [SpecFloat.iter_pos].
  - pose proof (shr_1_bound mrs Hm) as H1. pose proof (IH (shr_1 mrs) ltac:(lia)) as H2.
    pose proof (IH (SpecFloat.iter_pos shr_1 p (shr_1 mrs)) ltac:(lia)). lia.
  - pose proof (IH mrs Hm) as H1. pose proof (IH (SpecFloat.iter_pos shr_1 p mrs) ltac:(lia)). lia.
  - by apply shr_1_bound.
Qed.

(** A shift to the format's exponent: the mantissa does not grow, and the
    exponent is that of its highest digit or the one it had. *)
Lemma shr_fexp_bound f m e l k :
  0 ≤ m < 2 ^ k → 0 ≤ k →
  let r := shr_fexp (prec f) (emax f) m e l in
  0 ≤ shr_m r.1 ≤ m ∧
  r.2 ≤ Z.max e (Z.max (k + e - prec f) (emin (prec f) (emax f))).
Proof.
  intros Hm Hk. unfold shr_fexp. set (n := fexp _ _ _ - e).
  assert (Hm0 : shr_m (shr_record_of_loc m l) = m) by (by destruct l as [|[]]).
  assert (Hn : n + e ≤ Z.max (k + e - prec f) (emin (prec f) (emax f))).
  { unfold n, fexp. assert (Zdigits2 m ≤ k); [|lia].
    destruct m as [|p|p]; cbn [Zdigits2]; [done|apply digits2_bound; lia|lia]. }
  unfold shr. destruct n as [|p|p] eqn:Hp; cbn [fst snd]; rewrite ?Hm0; [lia| |lia].
  pose proof (iter_shr_bound p (shr_record_of_loc m l)) as Hi. rewrite Hm0 in Hi. lia.
Qed.

Definition finite (x : cfloat) : bool :=
  match x with S754_zero _ | S754_finite _ _ _ => true | _ => false end.

Lemma round_finite f s m e l k :
  0 ≤ m < 2 ^ k → 0 ≤ k → 0 < prec f →
  let b := Z.max e (Z.max (k + e - prec f) (emin (prec f) (emax f))) in
  Z.max b (Z.max (k + 1 + b - prec f) (emin (prec f) (emax f))) ≤ emax f - prec f →
  finite (binary_round_aux (prec f) (emax f) s m e l) = true.
Proof.
  intros Hm Hk Hprec b Hmax. unfold binary_round_aux.
  pose proof (shr_fexp_bound f m e l k Hm Hk) as H1.
  destruct (shr_fexp (prec f) (emax f) m e l) as [mrs e1]. cbn [fst snd] in H1.
  set (m1 := round_nearest_even _ _).
  assert (Hm1 : 0 ≤ m1 < 2 ^ (k + 1)).
  { rewrite Z.pow_add_r by lia. change (2 ^ 1) with 2. unfold m1, round_nearest_even.
    destruct (loc_of_shr_record mrs) as [|[]]; [lia| |lia|lia].
    destruct (Z.even (shr_m mrs)); lia. }
  pose proof (shr_fexp_bound f m1 e1 loc_Exact (k + 1) Hm1 ltac:(lia)) as H2.
  destruct (shr_fexp (prec f) (emax f) m1 e1 loc_Exact) as [mrs2 e2]. cbn [fst snd] in H2.
  destruct (shr_m mrs2) as [|p|p] eqn:Hp; [done| |lia].
  destruct (Z.leb_spec e2 (emax f - prec f)); [done|lia].
Qed.

Lemma digits2_spec p : Z.pos p < 2 ^ Z.pos (digits2_pos p).
Proof.
  induction p as [p IH|p IH|]; cbn [digits2_pos]; [..|done];
    rewrite Pos2Z.inj_succ, Z.pow_succ_r by lia; lia.
Qed.

Lemma iter_xO p d : Z.pos (Pos.iter xO p d) = Z.pos p * 2 ^ Z.pos d.
Proof.
  induction d as [|d IH] using Pos.peano_ind; [cbn; lia|].
  rewrite Pos.iter_succ, Pos2Z.inj_succ, Z.pow_succ_r by lia.
  change (Z.pos (xO (Pos.iter xO p d))) with (2 * Z.pos (Pos.iter xO p d)). lia.
Qed.

(** Integers of 64 bits are far below the overflow of both formats. *)
Definition roomy (f : fformat) : Prop := 0 < prec f ≤ 64 ∧ 128 ≤ emax f ∧ 24 ≤ prec f.

Lemma binary_round_finite f s p :
  roomy f → Z.pos p < 2 ^ 64 → finite (binary_round (prec f) (emax f) s p 0) = true.
Proof.
  intros (Hp & He & Hp2) Hz. unfold binary_round. rewrite Z.add_0_r.
  assert (Hmin : emin (prec f) (emax f) < 0) by (unfold emin; lia).
  unfold shl_align. rewrite Z.sub_0_r. set (ex := fexp _ _ _).
  assert (Hex : Z.pos (digits2_pos p) - prec f ≤ ex) by (unfold ex, fexp; lia).
  assert (Hround : ∀ m e, 0 ≤ m < 2 ^ 64 → e ≤ 0 →
    finite (binary_round_aux (prec f) (emax f) s m e loc_Exact) = true).
  { intros m e Hm Hle. apply (round_finite f s m e loc_Exact 64); lia. }
  destruct ex as [|d|d] eqn:Hd; [by apply Hround|by apply Hround|].
  apply Hround; [|lia]. rewrite iter_xO. split; [lia|].
  pose proof (digits2_spec p). assert (Hsum : Z.pos (digits2_pos p) + Z.pos d ≤ 64) by lia.
  eapply Z.lt_le_trans; [apply Z.mul_lt_mono_pos_r; [lia|eassumption]|].
  rewrite <-Z.pow_add_r by lia. apply Z.pow_le_mono_r; lia.
Qed.

Lemma of_int_finite f z : roomy f → - 2 ^ 64 < z < 2 ^ 64 → finite (of_int f z) = true.
Proof.
  intros Hf Hz. unfold of_int, binary_normalize.
  destruct z as [|p|p]; [done|apply binary_round_finite; [done|lia]..].
Qed.

(** ** Signs *)

Definition nonneg (x : cfloat) : bool :=
  match x with
  | S754_zero _ => true
  | S754_finite s _ _ | S754_infinity s => negb s
  | S754_nan => false
  end.

Lemma round_nonneg f m e l :
  0 ≤ m → nonneg (binary_round_aux (prec f) (emax f) false m e l) = true.
Proof.
  intros Hm. unfold binary_round_aux.
  assert (Hk : ∀ z, 0 ≤ z → 0 ≤ z < 2 ^ z) by (intros z Hz; split; [done|apply Z.pow_gt_lin_r; lia]).
  pose proof (shr_fexp_bound f m e l m (Hk m Hm) Hm) as H1.
  destruct (shr_fexp (prec f) (emax f) m e l) as [mrs e1]. cbn [fst snd] in H1.
  set (m1 := round_nearest_even _ _).
  assert (Hm1 : 0 ≤ m1).
  { unfold m1, round_nearest_even. destruct (loc_of_shr_record mrs) as [|[]]; [lia| |lia|lia].
    destruct (Z.even (shr_m mrs)); lia. }
  pose proof (shr_fexp_bound f m1 e1 loc_Exact m1 (Hk m1 Hm1) Hm1) as H2.
  destruct (shr_fexp (prec f) (emax f) m1 e1 loc_Exact) as [mrs2 e2]. cbn [fst snd] in H2.
  destruct (shr_m mrs2) as [|p|p] eqn:Hp; [done| |lia].
  by destruct (e2 <=? emax f - prec f).
Qed.

Lemma of_int_nonneg f z : 0 ≤ z → nonneg (of_int f z) = true.
Proof.
  intros Hz. unfold of_int, binary_normalize. destruct z as [|p|p]; [done| |lia].
  unfold binary_round. destruct (shl_align p 0 _) as [mz ez]. by apply round_nonneg.
Qed.

Lemma fmul_nonneg f x y :
  nonneg x = true → nonneg y = true → finite x = true → finite y = true →
  nonneg (fmul f x y) = true.
Proof.
  destruct x as [| | |[] mx ex], y as [| | |[] my ey]; try done.
  intros _ _ _ _. by apply round_nonneg.
Qed.

Lemma trunc_nonneg x z : nonneg x = true → trunc x = Some z → 0 ≤ z.
Proof.
  destruct x as [| | |[] m e]; cbn [nonneg negb trunc]; try done; [by intros _ [= <-]|].
  intros _ [= <-]. case_decide; [|apply Z.div_pos; lia]. apply Z.mul_nonneg_nonneg; lia.
Qed.

(** The product of a finite number and a zero is a zero. *)
Lemma fmul_zero f x s : finite x = true → trunc (fmul f x (S754_zero s)) = Some 0.
Proof. by destruct x. Qed.
