(* ===== verification/CText.v ===== *)
(** * C strings and formatted text

    Character buffers with [strlen] and [strcpy], decimal numerals, and the
    part of [sprintf] and [sscanf] the programs use, driven by the format
    strings of the source. *)
From Stdlib Require Import Ascii String.
From stdpp Require Import prelude strings.
From S2P Require Import Prelude CInt.
Open Scope Z_scope.

Abbreviation text := (list ascii).

(** The bytes of a C string literal, without the terminating NUL. *)
Definition lit (s : string) : text := list_ascii_of_string s.
Definition NUL : ascii := ascii_of_nat 0.
Definition NL : ascii := ascii_of_nat 10.

(** ** Character buffers *)

(** [strlen] on a pointer into a buffer whose remaining bytes are [b]. *)
Fixpoint strlen (b : text) : outcome nat :=
  match b with
  | [] => Fault OutOfBounds
  | c :: b' => if decide (c = NUL) then Ok O else S <$> strlen b'
  end.

(** The string a pointer designates: the bytes up to the first NUL. *)
Fixpoint c_str (b : text) : outcome text :=
  match b with
  | [] => Fault OutOfBounds
  | c :: b' => if decide (c = NUL) then Ok [] else cons c <$> c_str b'
  end.

(** [strcpy (b + off, src)]. *)
Definition strcpy (b : text) (off : nat) (src : text) : outcome text :=
  if decide (off + length src + 1 ≤ length b)%nat then
    Ok (take off b ++ src ++ NUL :: drop (off + length src + 1) b)
  else Fault OutOfBounds.

(** ** Decimal numerals *)

Definition digit (d : Z) : ascii := ascii_of_N (Z.to_N (48 + d)).
Definition digit_val (c : ascii) : Z := Z.of_N (N_of_ascii c) - 48.
Definition is_digit (c : ascii) : bool :=
  (0 <=? digit_val c) && (digit_val c <? 10).

Definition digits_val (t : text) : Z :=
  fold_left (λ a c, 10 * a + digit_val c) t 0.

Fixpoint dec_digits (fuel : nat) (n : Z) : text :=
  match fuel with
  | O => []
  | S f => if n <? 10 then [digit n] else dec_digits f (n / 10) ++ [digit (n mod 10)]
  end.

(** [log2 n + 1] binary digits bound the number of decimal ones. *)
Definition dec_nat (n : Z) : text := dec_digits (S (Z.to_nat (Z.log2 n))) n.
Definition dec (z : Z) : text :=
  if z <? 0 then "-"%char :: dec_nat (- z) else dec_nat z.

Definition is_space (c : ascii) : bool :=
  let n := N_of_ascii c in
  (n =? 32)%N || ((9 <=? n)%N && (n <=? 13)%N).

Fixpoint skip_space (t : text) : text :=
  match t with
  | c :: t' => if is_space c then skip_space t' else t
  | [] => []
  end.

Fixpoint span_digits (t : text) : text * text :=
  match t with
  | c :: t' =>
      if is_digit c then let '(ds, r) := span_digits t' in (c :: ds, r) else ([], t)
  | [] => ([], [])
  end.

(** A sign; the C library takes a plus ([plus]), the kernel's [sscanf] does
    not. *)
Definition scan_sign (plus : bool) (t : text) : bool * text :=
  match t with
  | c :: t' =>
      if decide (c = "-"%char) then (true, t')
      else if decide (c = "+"%char ∧ plus = true) then (false, t') else (false, t)
  | [] => (false, [])
  end.

(** The integer conversion of [%d]: white space, a sign, at least one digit. *)
Definition scan_int (plus : bool) (t : text) : option (Z * text) :=
  let '(neg, t1) := scan_sign plus (skip_space t) in
  let '(ds, r) := span_digits t1 in
  match ds with
  | [] => None
  | _ => Some (if neg then - digits_val ds else digits_val ds, r)
  end.

(** [atoi]: 0 when there is no numeral. *)
Definition atoi (t : text) : Z :=
  match scan_int true t with Some (z, _) => int32 z | None => 0 end.

(** ** Format strings *)

Inductive directive : Type :=
  | DChar (c : ascii)   (* an ordinary character *)
  | DInt                (* %d *)
  | DUInt               (* %u *)
  | DLong               (* %ld *)
  | DULong              (* %lu *)
  | DStr.               (* %s *)

Fixpoint parse_format (s : string) : list directive :=
  match s with
  | EmptyString => []
  | String "%" (String "d" s') => DInt :: parse_format s'
  | String "%" (String "i" s') => DInt :: parse_format s'   (* printf only *)
  | String "%" (String "u" s') => DUInt :: parse_format s'
  | String "%" (String "s" s') => DStr :: parse_format s'
  | String "%" (String "l" (String "d" s')) => DLong :: parse_format s'
  | String "%" (String "l" (String "u" s')) => DULong :: parse_format s'
  | String c s' => DChar c :: parse_format s'
  end.

Inductive arg : Type :=
  | AInt (z : Z)
  | AStr (t : text).

(** One conversion: the argument is read at the width of the conversion. *)
Definition convert (d : directive) (a : arg) : text :=
  match d, a with
  | DInt, AInt z => dec (int32 z)
  | DUInt, AInt z => dec (uint32 z)
  | DLong, AInt z => dec (int64 z)
  | DULong, AInt z => dec (uint64 z)
  | DStr, AStr t => t
  | _, _ => []           (* no call of the programs mismatches its format *)
  end.

Fixpoint format (ds : list directive) (args : list arg) : text :=
  match ds with
  | [] => []
  | DChar c :: ds' => c :: format ds' args
  | d :: ds' =>
      match args with
      | a :: args' => convert d a ++ format ds' args'
      | [] => format ds' []
      end
  end.

Definition sprintf (fmt : string) (args : list arg) : text :=
  format (parse_format fmt) args.

(** The kernel's [sscanf] for formats of [%d] and ordinary characters: the values assigned,
    in order, up to the first directive that does not match.  White space in
    the format matches any amount of white space, and an assigned value is
    stored through an [int]. *)
Fixpoint scan (ds : list directive) (t : text) : list Z :=
  match ds with
  | [] => []
  | DChar c :: ds' =>
      if is_space c then scan ds' (skip_space t)
      else match t with
           | c' :: t' => if decide (c = c') then scan ds' t' else []
           | [] => []
           end
  | _ :: ds' =>
      match scan_int false t with
      | Some (z, t') => int32 z :: scan ds' t'
      | None => []
      end
  end.

Definition sscanf (t : text) (fmt : string) : list Z := scan (parse_format fmt) t.

(** ** Buffers: lemmas *)

Lemma strlen_app t r : NUL ∉ t → strlen (t ++ NUL :: r) = Ok (length t).
Proof.
  induction t as [|c t IH]; intros Hn; cbn [app strlen c_str length].
  - by rewrite decide_True.
  - rewrite not_elem_of_cons in Hn. destruct Hn. rewrite decide_False, IH by congruence.
    done.
Qed.

Lemma c_str_app t r : NUL ∉ t → c_str (t ++ NUL :: r) = Ok t.
Proof.
  induction t as [|c t IH]; intros Hn; cbn [app strlen c_str length].
  - by rewrite decide_True.
  - rewrite not_elem_of_cons in Hn. destruct Hn. rewrite decide_False, IH by congruence.
    done.
Qed.

(** A terminated buffer designates a string. *)
Lemma c_str_terminated t : ∃ str, c_str (t ++ [NUL]) = Ok str.
Proof.
  induction t as [|c t [str IH]]; cbn [app c_str].
  - rewrite decide_True by done. eauto.
  - case_decide; [eauto|]. rewrite IH. eexists. done.
Qed.

Lemma strlen_lt b n : strlen b = Ok n → (n < length b)%nat.
Proof.
  revert n. induction b as [|c b IH]; intros n; cbn [strlen length]; [done|].
  case_decide; [intros [= <-]; lia|].
  unfold fmap, outcome_fmap. destruct (strlen b) as [m|]; [|done].
  intros [= <-]. specialize (IH m eq_refl). lia.
Qed.

Lemma strcpy_fits b off src :
  (off + length src + 1 ≤ length b)%nat →
  strcpy b off src = Ok (take off b ++ src ++ NUL :: drop (off + length src + 1) b).
Proof. intros. unfold strcpy. by rewrite decide_True. Qed.

Lemma strcpy_overflow b off src :
  (length b < off + length src + 1)%nat → strcpy b off src = Fault OutOfBounds.
Proof. intros. unfold strcpy. rewrite decide_False by lia. done. Qed.

(** ** Numerals: lemmas *)

Lemma digit_ok d : 0 ≤ d < 10 → digit_val (digit d) = d ∧ is_digit (digit d) = true.
Proof.
  intros H. assert (Hd : d = 0 ∨ d = 1 ∨ d = 2 ∨ d = 3 ∨ d = 4 ∨ d = 5 ∨ d = 6 ∨
    d = 7 ∨ d = 8 ∨ d = 9) by lia.
  repeat destruct Hd as [->|Hd]; try done. by subst.
Qed.

Lemma digits_val_snoc t c : digits_val (t ++ [c]) = 10 * digits_val t + digit_val c.
Proof. unfold digits_val. by rewrite fold_left_app. Qed.

Lemma dec_digits_spec fuel n :
  0 ≤ n < 10 ^ Z.of_nat fuel →
  digits_val (dec_digits fuel n) = n ∧
  Forall (λ c, is_digit c = true) (dec_digits fuel n).
Proof.
  revert n. induction fuel as [|f IH]; intros n Hn.
  { simpl in Hn. assert (n = 0) as -> by lia. done. }
  cbn [dec_digits]. destruct (Z.ltb_spec n 10).
  - destruct (digit_ok n) as [Hv Hd]; [lia|]. split; [|by constructor].
    unfold digits_val. cbn [fold_left]. lia.
  - rewrite Nat2Z.inj_succ, Z.pow_succ_r in Hn by lia.
    pose proof (Z.mod_pos_bound n 10). pose proof (Z.div_mod n 10).
    destruct (IH (n / 10)) as [Hv Hd].
    { split; [apply Z.div_pos; lia|]. apply Z.div_lt_upper_bound; lia. }
    destruct (digit_ok (n mod 10)) as [Hv' Hd']; [lia|].
    rewrite digits_val_snoc, Hv, Hv'. split; [lia|].
    apply Forall_app. split; [done|by constructor].
Qed.

Lemma dec_digits_length fuel n (k : nat) :
  0 ≤ n < 10 ^ Z.of_nat k → (1 ≤ k)%nat → (length (dec_digits fuel n) ≤ k)%nat.
Proof.
  revert n k. induction fuel as [|f IH]; intros n k Hn Hk; cbn [dec_digits]; [simpl; lia|].
  destruct (Z.ltb_spec n 10); [simpl; lia|].
  destruct k as [|[|k]]; [lia|simpl in Hn; lia|].
  rewrite length_app. cbn [length].
  rewrite Nat2Z.inj_succ, Z.pow_succ_r in Hn by lia.
  pose proof (IH (n / 10) (S k)) as HI.
  assert (0 ≤ n / 10 < 10 ^ Z.of_nat (S k)); [|lia].
  split; [apply Z.div_pos; lia|]. apply Z.div_lt_upper_bound; lia.
Qed.

Lemma dec_fuel n : 0 ≤ n → n < 10 ^ Z.of_nat (S (Z.to_nat (Z.log2 n))).
Proof.
  intros Hn. destruct (decide (n = 0)) as [->|]; [done|].
  pose proof (Z.log2_nonneg n). pose proof (Z.log2_spec n).
  rewrite Nat2Z.inj_succ, Z2Nat.id by done.
  eapply Z.lt_le_trans; [by apply H0; lia|]. apply Z.pow_le_mono_l. lia.
Qed.

Lemma dec_nat_val n : 0 ≤ n → digits_val (dec_nat n) = n.
Proof. intros. apply dec_digits_spec. pose proof (dec_fuel n). lia. Qed.

Lemma dec_nat_digits n : 0 ≤ n → Forall (λ c, is_digit c = true) (dec_nat n).
Proof. intros. apply dec_digits_spec. pose proof (dec_fuel n). lia. Qed.

Lemma dec_nat_cons n : ∃ c t, dec_nat n = c :: t.
Proof.
  unfold dec_nat. cbn [dec_digits]. destruct (n <? 10); [by eauto|].
  destruct (dec_digits _ _); simpl; by eauto.
Qed.

Lemma dec_nat_length n (k : nat) :
  0 ≤ n < 10 ^ Z.of_nat k → (1 ≤ k)%nat → (length (dec_nat n) ≤ k)%nat.
Proof. apply dec_digits_length. Qed.

Lemma digit_not_space c : is_digit c = true → is_space c = false.
Proof.
  unfold is_digit, digit_val, is_space. intros H.
  apply andb_prop in H as [H1%Z.leb_le H2%Z.ltb_lt].
  destruct (N.eqb_spec (N_of_ascii c) 32); [lia|]. simpl.
  destruct (N.leb_spec (N_of_ascii c) 13); [lia|]. apply andb_false_r.
Qed.

(** A character that cannot continue a numeral. *)
Definition stops (t : text) : Prop :=
  match t with c :: _ => is_digit c = false | [] => True end.

Lemma span_digits_app ds r :
  Forall (λ c, is_digit c = true) ds → stops r → span_digits (ds ++ r) = (ds, r).
Proof.
  intros Hds Hr. induction Hds as [|c ds Hc _ IH]; simpl.
  - destruct r as [|c r]; [done|]. simpl in *. by rewrite Hr.
  - by rewrite Hc, IH.
Qed.

Lemma skip_space_dec z r : skip_space (dec z ++ r) = dec z ++ r.
Proof.
  unfold dec. destruct (Z.ltb_spec z 0); [done|].
  pose proof (dec_nat_digits z) as Hd. destruct (dec_nat_cons z) as (c & t & Heq).
  rewrite Heq in *. cbn [app skip_space].
  rewrite digit_not_space; [done|]. specialize (Hd ltac:(lia)). by inv Hd.
Qed.

(** The conversion [%d] reads back what [%d] prints. *)
Lemma scan_int_dec plus z r : stops r → scan_int plus (dec z ++ r) = Some (z, r).
Proof.
  intros Hr. unfold scan_int. rewrite skip_space_dec. unfold dec.
  destruct (Z.ltb_spec z 0) as [Hz|Hz].
  - cbn [app scan_sign]. rewrite decide_True by done.
    rewrite span_digits_app by (auto using dec_nat_digits with lia).
    pose proof (dec_nat_val (- z)) as Hv. destruct (dec_nat_cons (- z)) as (c & t & Heq).
    rewrite Heq in *. rewrite Hv by lia. do 2 f_equal. lia.
  - pose proof (dec_nat_val z) as Hv. pose proof (dec_nat_digits z) as Hd.
    destruct (dec_nat_cons z) as (c & t & Heq). rewrite Heq in *. cbn [app].
    specialize (Hd Hz). inv Hd.
    assert (scan_sign plus (c :: t ++ r) = (false, c :: t ++ r)) as ->.
    { unfold scan_sign. rewrite !decide_False; [done|..]; [by intros [-> _]|by intros ->]. }
    change (c :: t ++ r) with ((c :: t) ++ r).
    rewrite span_digits_app by auto. by rewrite Hv.
Qed.

Lemma digit_not_nul c : is_digit c = true → c ≠ NUL.
Proof. by intros ? ->. Qed.

Lemma dec_no_nul z : NUL ∉ dec z.
Proof.
  assert (∀ n, 0 ≤ n → NUL ∉ dec_nat n).
  { intros n Hn Hin. apply dec_nat_digits in Hn. rewrite Forall_forall in Hn.
    by apply Hn, digit_not_nul in Hin. }
  unfold dec. destruct (Z.ltb_spec z 0); [|auto].
  rewrite not_elem_of_cons. split; [done|auto with lia].
Qed.

Lemma dec_uint_length w (k : nat) x :
  0 < w → 2 ^ w ≤ 10 ^ Z.of_nat k → (1 ≤ k)%nat → (length (dec (wrap w x)) ≤ k)%nat.
Proof.
  intros Hw Hk ?. pose proof (wrap_range w Hw x) as [H1 H2]. unfold dec.
  destruct (Z.ltb_spec (wrap w x) 0); [lia|]. apply dec_nat_length; lia.
Qed.

Lemma dec_uint64_length x : (length (dec (uint64 x)) ≤ 20)%nat.
Proof. apply dec_uint_length; vm_compute; congruence || lia. Qed.

Lemma dec_int32_length x : (length (dec (int32 x)) ≤ 11)%nat.
Proof.
  pose proof (int32_range x) as [H1 H2]. change (- 2 ^ (32 - 1)) with INT_MIN in H1.
  change (2 ^ (32 - 1)) with 2147483648 in H2. unfold INT_MIN in *. unfold dec.
  destruct (Z.ltb_spec (int32 x) 0); [|etrans; [apply (dec_nat_length _ 10)|]; lia].
  cbn [length]. pose proof (dec_nat_length (- int32 x) 10). lia.
Qed.

(** Absence of NUL in a closed text. *)
Ltac closed_no_nul := apply (bool_decide_unpack _); vm_compute; exact I.

Create HintDb ctext.
#[export] Hint Resolve dec_no_nul : ctext.
#[export] Hint Rewrite skip_space_dec : ctext.
