(* ===== verification/Kernel.v ===== *)
(** * What the modules use of the Linux kernel

    Kernel code is not part of the programs: the calls the modules make to it
    are recorded in a trace ([kcall]), its linked list is an interface with
    the documented laws of [<linux/list.h>], and its answers (allocated
    addresses, tick counts, process lookups) are arguments of the operations. *)
From Stdlib Require Import Ascii String.
From stdpp Require Import prelude gmap.
From S2P Require Import Prelude CInt CText.
Open Scope Z_scope.

(** Addresses of kernel objects; a pointer is [option addr], NULL is [None]. *)
Abbreviation addr := positive.

(** ** Calls out of the modules *)

Inductive task_ref : Type :=
  | Dispatcher               (* the kernel thread the module created *)
  | TaskStruct (t : addr).   (* the [task_struct] of a registered process *)

Inductive policy : Type := SCHED_NORMAL | SCHED_FIFO.

Inductive kcall : Type :=
  | Kspin_lock | Kspin_unlock
  | Kspin_lock_irqsave | Kspin_unlock_irqrestore
  | Klist_for_each                          (* list_for_each_entry[_safe] *)
  | Klist_first                             (* a read of head.next *)
  | Klist_empty
  | Klist_add (a : addr) | Klist_del (a : addr)
  | Kkfree (a : addr)                       (* kfree, kmem_cache_free *)
  | Kkmalloc (size : Z) | Kkfree_buf        (* a scratch buffer of the handler *)
  | Kcopy_to_user (bytes : text)
  | Ksetup_timer (t : option addr) (data : Z)       (* [None]: a static timer *)
  | Kmod_timer (t : option addr) (expires : Z)
  | Kdel_timer (t : option addr)
  | Kqueue_work
  | Kqueue_delayed_work (delay : Z)
  | Kcancel_delayed_work | Kflush_workqueue
  | Kcreate_workqueue | Kdestroy_workqueue
  | Kwake_up_process (t : task_ref)
  | Ksched_setscheduler (t : addr) (p : policy) (priority : Z)
  | Kset_task_interruptible (t : addr)
  | Kschedule
  | Kkthread_run | Kkthread_stop
  | Kkmem_cache_create | Kkmem_cache_destroy
  | Kproc_mkdir | Kproc_create | Kproc_remove
  | Kregister_chrdev | Kunregister_chrdev
  | Kvmalloc (bytes : Z) | Kvfree
  | Kremap_pfn_range (start pfn size : Z).

Abbreviation kern S := (cmd S kcall).

(** ** Lock discipline of a trace

    The module lock as an automaton over the calls: no relock, no unlock of a
    free lock, and every access to the shared list inside a critical section. *)
Definition lock_step (held : bool) (c : kcall) : option bool :=
  match c with
  | Kspin_lock | Kspin_lock_irqsave => if held then None else Some true
  | Kspin_unlock | Kspin_unlock_irqrestore => if held then Some false else None
  | Klist_for_each | Klist_first | Klist_empty | Klist_add _ | Klist_del _ =>
      if held then Some true else None
  | _ => Some held
  end.

Fixpoint lock_run (held : bool) (t : list kcall) : option bool :=
  match t with
  | [] => Some held
  | c :: t' => held' ← lock_step held c; lock_run held' t'
  end.

(** The calls form complete critical sections around every list access. *)
Definition disciplined (t : list kcall) : Prop := lock_run false t = Some false.

Lemma lock_run_app h t1 t2 :
  lock_run h (t1 ++ t2) = lock_run h t1 ≫= λ h', lock_run h' t2.
Proof.
  revert h. induction t1 as [|c t1 IH]; intros h; simpl; [done|].
  destruct (lock_step h c); simpl; auto.
Qed.

(** The objects a trace frees, in order. *)
Definition frees (t : list kcall) : list addr :=
  omap (λ c, match c with Kkfree a => Some a | _ => None end) t.

Lemma frees_app t1 t2 : frees (t1 ++ t2) = frees t1 ++ frees t2.
Proof. apply omap_app. Qed.

Lemma frees_kfree l : frees (Kkfree <$> l) = l.
Proof. induction l as [|a l IH]; simpl; [done|]. by f_equal. Qed.

(** The timers a trace programs and the threads it puts to sleep. *)
Definition programs (t : list kcall) : list (option addr * Z) :=
  omap (λ c, match c with Kmod_timer a e => Some (a, e) | _ => None end) t.
Definition sleeps (t : list kcall) : list addr :=
  omap (λ c, match c with Kset_task_interruptible th => Some th | _ => None end) t.

Lemma programs_app t1 t2 : programs (t1 ++ t2) = programs t1 ++ programs t2.
Proof. apply omap_app. Qed.
Lemma sleeps_app t1 t2 : sleeps (t1 ++ t2) = sleeps t1 ++ sleeps t2.
Proof. apply omap_app. Qed.

(** ** The intrusive list of [<linux/list.h>] *)

Class KList : Type := {
  klist : Type;
  LIST_HEAD : klist;
  list_for_each : klist → list addr;    (* the entries, in traversal order *)
  list_add : addr → klist → klist;
  list_del : addr → klist → klist;
  list_empty : klist → bool;
}.

(** "insert a new entry after the specified head", "deletes entry from list",
    "tests whether a list is empty". *)
Class KListLaws (KL : KList) : Prop := {
  entries_head : list_for_each LIST_HEAD = [];
  entries_add a l :
    a ∉ list_for_each l → list_for_each (list_add a l) = a :: list_for_each l;
  entries_del a l :
    NoDup (list_for_each l) → a ∈ list_for_each l →
    list_for_each (list_del a l) = filter (.≠ a) (list_for_each l);
  entries_empty l : list_empty l = bool_decide (list_for_each l = []);
}.

(** The laws hold of plain sequences. *)
Definition seq_klist : KList := {|
  klist := list addr;
  LIST_HEAD := [];
  list_for_each l := l;
  list_add a l := a :: l;
  list_del a l := filter (.≠ a) l;
  list_empty l := bool_decide (l = []);
|}.

Lemma seq_klist_laws : KListLaws seq_klist.
Proof. by split. Qed.

Lemma filter_ne_id (a : addr) (l : list addr) : a ∉ l → filter (.≠ a) l = l.
Proof.
  intros Ha. induction l as [|b l IH]; [done|].
  rewrite not_elem_of_cons in Ha. destruct Ha.
  rewrite filter_cons_True, IH by congruence. done.
Qed.

Lemma filter_ne_middle (a : addr) (l1 l2 : list addr) :
  NoDup (l1 ++ a :: l2) → filter (.≠ a) (l1 ++ a :: l2) = l1 ++ l2.
Proof.
  intros Hnd. apply NoDup_app in Hnd as (Hnd1 & Hdisj & [Ha Hnd2]%NoDup_cons).
  rewrite filter_app, filter_cons_False by naive_solver.
  rewrite !filter_ne_id; [done|done|]. intros ?. eapply Hdisj; [done|]. set_solver.
Qed.

(** ** Objects on the kernel heap *)

(** [p->...]: a NULL pointer and a dead object fault. *)
Definition deref {A} (h : gmap addr A) (p : option addr) : outcome A :=
  match p with
  | None => Fault NullDeref
  | Some a => from_option_or UseAfterFree (h !! a)
  end.

Lemma deref_live {A} (h : gmap addr A) a v : h !! a = Some v → deref h (Some a) = Ok v.
Proof. intros H. unfold deref. by rewrite H. Qed.

(** A list whose entries are pairwise distinct live objects. *)
Definition list_wf {A} (es : list addr) (h : gmap addr A) : Prop :=
  NoDup es ∧ ∀ a, a ∈ es → is_Some (h !! a).

Lemma list_wf_lookup {A} es (h : gmap addr A) a :
  list_wf es h → a ∈ es → ∃ v, h !! a = Some v.
Proof. intros [_ H] ?. by apply H. Qed.

Lemma list_wf_cons {A} a v es (h : gmap addr A) :
  list_wf es h → a ∉ es → list_wf (a :: es) (<[a:=v]> h).
Proof.
  intros [Hnd Hl] Ha. split; [by constructor|].
  intros b [->|Hb]%elem_of_cons; [rewrite lookup_insert_eq; eauto|].
  rewrite lookup_insert_ne by (by intros ->). auto.
Qed.

Lemma list_wf_update {A} a v es (h : gmap addr A) :
  list_wf es h → list_wf es (<[a:=v]> h).
Proof.
  intros [Hnd Hl]. split; [done|]. intros b Hb. rewrite lookup_insert. case_decide; eauto.
Qed.

Lemma list_wf_del {A} a es (h : gmap addr A) :
  list_wf es h → list_wf (filter (.≠ a) es) (delete a h).
Proof.
  intros [Hnd Hl]. split; [by apply NoDup_filter|].
  intros b [??]%list_elem_of_filter. rewrite lookup_delete_ne; auto.
Qed.

Lemma list_wf_filter {A} (P : addr → Prop) `{∀ a, Decision (P a)} es (h : gmap addr A) :
  list_wf es h → list_wf (filter P es) h.
Proof.
  intros [Hnd Hl]. split; [by apply NoDup_filter|].
  intros b [??]%list_elem_of_filter. auto.
Qed.

(** [list_for_each_entry (tmp, &head, node) if (P (tmp)) return tmp;]
    [return NULL;] *)
Fixpoint find_first {A} (P : A → Prop) `{∀ x, Decision (P x)} (h : gmap addr A)
    (es : list addr) : outcome (option addr) :=
  match es with
  | [] => Ok None
  | e :: es' =>
      tmp ← deref h (Some e);
      if decide (P tmp) then Ok (Some e) else find_first P h es'
  end.

(** The first entry of a list with a property of its object. *)
Definition first_with {A} (P : A → Prop) (h : gmap addr A) (es : list addr) (a : addr) : Prop :=
  ∃ l1 l2 n, es = l1 ++ a :: l2 ∧ h !! a = Some n ∧ P n ∧
    ∀ b m, b ∈ l1 → h !! b = Some m → ¬ P m.

Lemma first_with_elem {A} (P : A → Prop) h es a :
  first_with P h es a → a ∈ es ∧ ∃ n, h !! a = Some n ∧ P n.
Proof. intros (l1 & l2 & n & -> & Hn & HP & _). eauto using elem_of_middle. Qed.
Lemma first_with_unique {A} (P : A → Prop) h es a b :
  first_with P h es a → first_with P h es b → a = b.
Proof.
  intros (l1 & l2 & n & -> & Hn & HP & Hl1) (l1' & l2' & n' & Heq & Hn' & HP' & Hl1').
  destruct (app_eq_inv _ _ _ _ Heq) as [(k & -> & Hk)|(k & -> & Hk)].
  - destruct k as [|c k]; [by injection Hk|]. injection Hk as -> ->.
    exfalso. eapply (Hl1 c n'); [|done..]. rewrite elem_of_app, elem_of_cons. auto.
  - destruct k as [|c k]; [by injection Hk|]. injection Hk as -> ->.
    exfalso. eapply (Hl1' c n); [|done..]. rewrite elem_of_app, elem_of_cons. auto.
Qed.

Lemma list_wf_tail {A} e es (h : gmap addr A) : list_wf (e :: es) h → list_wf es h.
Proof. intros [[_ ?]%NoDup_cons Hl]. split; [done|]. intros a ?. apply Hl. by right. Qed.

Lemma list_wf_head {A} e es (h : gmap addr A) : list_wf (e :: es) h → ∃ n, h !! e = Some n.
Proof. intros [_ Hl]. apply Hl. by left. Qed.

Lemma find_first_spec {A} (P : A → Prop) `{∀ x, Decision (P x)} (h : gmap addr A) es :
  list_wf es h →
  ∃ r, find_first P h es = Ok r ∧
    match r with
    | Some a => first_with P h es a
    | None => ∀ a n, a ∈ es → h !! a = Some n → ¬ P n
    end.
Proof.
  induction es as [|e es IH]; intros Hwf; cbn [find_first].
  { eexists. split; [done|]. inversion 1. }
  destruct (list_wf_head _ _ _ Hwf) as [n Hn]. rewrite (deref_live _ _ n) by done.
  cbv [mbind outcome_bind]. destruct (decide (P n)) as [Hp|Hp].
  - eexists. split; [done|]. exists [], es, n. split_and!; try done. intros ???%not_elem_of_nil. done.
  - destruct (IH (list_wf_tail _ _ _ Hwf)) as (r & -> & Hr). exists r. split; [done|].
    destruct r as [a|].
    + destruct Hr as (l1 & l2 & m & -> & Hm & Hpm & Hl1). exists (e :: l1), l2, m.
      split_and!; try done. intros b m' [->|Hb]%elem_of_cons ?; [congruence|by eapply Hl1].
    + intros a m [->|Ha]%elem_of_cons ?; [congruence|by eapply Hr].
Qed.

(** The decision procedure, for concrete states. *)
Definition list_wfb {A} (es : list addr) (h : gmap addr A) : bool :=
  bool_decide (NoDup es) && forallb (λ a, bool_decide (is_Some (h !! a))) es.

Lemma list_wfb_ok {A} es (h : gmap addr A) : list_wfb es h = true → list_wf es h.
Proof.
  unfold list_wfb. intros [H1%bool_decide_eq_true H2]%andb_prop. split; [done|].
  intros a Ha. rewrite forallb_forall in H2. apply list_elem_of_In in Ha.
  by apply H2, bool_decide_eq_true in Ha.
Qed.

Create HintDb kernel.
#[export] Hint Resolve list_wf_cons list_wf_update list_wf_del list_wf_filter : kernel.

(** ** The buffer of a proc read

    Both read handlers print one line per entry at [buf + offset] and then
    recompute [offset = strlen (buf)]. *)
Fixpoint fill (buf : text) (offset : nat) (lines : list text) : outcome text :=
  match lines with
  | [] => Ok buf
  | temp :: lines' =>
      buf' ← strcpy buf offset temp;
      offset' ← strlen buf';
      fill buf' offset' lines'
  end.

(** [sprintf (temp, fmt, ...)] into an array of [size] bytes. *)
Definition sprintf_to (size : nat) (fmt : string) (args : list arg) : outcome text :=
  let out := sprintf fmt args in
  if decide (length out + 1 ≤ size)%nat then Ok out else Fault OutOfBounds.

Lemma mapM_outcome_ok {A B} (f : A → outcome B) (g : A → B) l :
  (∀ x, x ∈ l → f x = Ok (g x)) → mapM f l = Ok (map g l).
Proof.
  induction l as [|x l IH]; intros H; [done|].
  cbn [mapM]. rewrite H by set_solver. cbn [mbind outcome_bind].
  rewrite IH by set_solver. done.
Qed.

Lemma sprintf_to_fits size fmt args out :
  sprintf fmt args = out → (length out + 1 ≤ size)%nat →
  sprintf_to size fmt args = Ok out.
Proof. intros H Hl. unfold sprintf_to. rewrite H. by rewrite decide_True. Qed.

(** What a proc read hands to the user from a scratch buffer [buf]. *)
Definition fill_out (buf : text) (lines : list text) : outcome text :=
  match lines with
  | [] => len ← strlen buf; Ok (take (len + 1) buf)
  | _ =>
      if decide (length (concat lines) + 1 ≤ length buf)%nat
      then Ok (concat lines ++ [NUL]) else Fault OutOfBounds
  end.

Lemma fill_fits buf lines :
  ∀ t, take (length t) buf = t → NUL ∉ t → lines ≠ [] →
  Forall (λ l, NUL ∉ l) lines →
  (length t + length (concat lines) + 1 ≤ length buf)%nat →
  fill buf (length t) lines =
    Ok (t ++ concat lines ++ NUL ::
        drop (length t + length (concat lines) + 1) buf).
Proof.
  revert buf. induction lines as [|l lines IH]; intros buf t Ht Hn Hne Hl Hlen; [done|].
  inv Hl. cbn [fill concat] in *. rewrite length_app in *.
  rewrite strcpy_fits by lia. cbn [mbind outcome_bind]. rewrite Ht, app_assoc.
  assert (Hn' : NUL ∉ t ++ l) by (rewrite not_elem_of_app; auto).
  rewrite strlen_app by done. cbn [mbind outcome_bind].
  destruct lines as [|l' lines].
  - simpl. rewrite !app_nil_r. rewrite <-!app_assoc. do 4 f_equal. f_equal. simpl. lia.
  - rewrite IH; [|by rewrite take_app_length|done|done|done|].
    + rewrite !length_app, <-!app_assoc. do 5 f_equal.
      rewrite !drop_app_ge by lia.
      replace (_ - length t - _)%nat with (S (length (concat (l' :: lines)))) by lia.
      cbn [drop]. rewrite drop_drop. f_equal. lia.
    + rewrite !length_app, length_cons, length_drop. lia.
Qed.

Lemma fill_overflow buf lines :
  ∀ t, take (length t) buf = t → NUL ∉ t → lines ≠ [] →
  Forall (λ l, NUL ∉ l) lines →
  (length buf < length t + length (concat lines) + 1)%nat →
  fill buf (length t) lines = Fault OutOfBounds.
Proof.
  revert buf. induction lines as [|l lines IH]; intros buf t Ht Hn Hne Hl Hlen; [done|].
  inv Hl. cbn [fill concat] in *. rewrite length_app in *.
  destruct (decide (length t + length l + 1 ≤ length buf)%nat) as [Hle|Hgt].
  - rewrite strcpy_fits by lia. cbn [mbind outcome_bind]. rewrite Ht, app_assoc.
    assert (Hn' : NUL ∉ t ++ l) by (rewrite not_elem_of_app; auto).
    rewrite strlen_app by done. cbn [mbind outcome_bind].
    destruct lines as [|l' lines]; [simpl in *; lia|].
    apply IH; [by rewrite take_app_length|done|done|done|].
    rewrite !length_app, length_cons, length_drop. lia.
  - by rewrite strcpy_overflow by lia.
Qed.

Lemma concat_no_nul (lines : list text) : Forall (λ l, NUL ∉ l) lines → NUL ∉ concat lines.
Proof. induction 1; simpl; [inversion 1|]. by rewrite not_elem_of_app. Qed.

Lemma fill_strlen buf lines :
  Forall (λ l, NUL ∉ l) lines →
  (buf' ← fill buf 0 lines; len ← strlen buf'; Ok (take (len + 1) buf')) =
  fill_out buf lines.
Proof.
  intros Hl. destruct lines as [|l lines]; [done|]. unfold fill_out.
  case_decide as Hlen.
  - pose proof (fill_fits buf (l :: lines) []) as Hf. cbn [length app Nat.add] in Hf.
    rewrite Hf by (done || inversion 1). cbn [mbind outcome_bind].
    rewrite strlen_app by (by apply concat_no_nul). cbn [mbind outcome_bind].
    rewrite cons_middle, app_assoc, take_app_length'; [done|].
    rewrite length_app. done.
  - pose proof (fill_overflow buf (l :: lines) []) as Hf. cbn [length app Nat.add] in Hf.
    rewrite Hf; [done|done|inversion 1|done|done|lia].
Qed.
