(* ===== verification/UserApp.v ===== *)
(** * What the user applications share (src/MP1/userapp.c, src/MP2/userapp.c,
    src/MP3/monitor.c)

    A user process is a command on the state of the module it talks to: its
    system calls run the module's handlers, and its trace holds what it prints,
    the files it opens and what the module asked of its kernel meanwhile. *)
From Stdlib Require Import Ascii String.
From stdpp Require Import prelude.
From Equations Require Import Equations.
From S2P Require Import Prelude CInt CText Kernel.
Open Scope Z_scope.

Create HintDb uevents.

Definition newline : string := String NL EmptyString.

Inductive uevent : Type :=
  | Printed (t : text)
  | Computed (fact : Z)              (* a call of [factorial] *)
  | Fopen (path : text) | Fclose     (* streams *)
  | Open (path : text) | Close (fd : Z)
  | Malloc (size : Z)
  | Kernel (c : kcall).

Abbreviation user S := (cmd S uevent).

(** A system call that the module serves. *)
Definition syscall {S A} (m : kern S A) : user S A := λ s,
  match m s with
  | Ok (a, s', t) => Ok (a, s', Kernel <$> t)
  | Fault f => Fault f
  end.

Definition printf {S} (fmt : string) (args : list arg) : user S unit :=
  emit (Printed (sprintf fmt args)).

(** [fopen], which answers NULL when the file cannot be opened, and the first
    use of the stream. *)
Definition fopen {S} (ok : bool) (path : text) : user S bool :=
  if ok then emit (Fopen path) ;; mret true else mret false.
Definition use_file {S} (f : bool) : user S unit :=
  if f then mret tt else failwith NullDeref.

(** [argv[i]]: the vector ends with a NULL pointer, and every use in the
    programs dereferences the argument. *)
Definition arg_string (argv : list text) (i : nat) : outcome text :=
  match argv !! i with
  | Some t => Ok t
  | None => Fault (if decide (i = length argv) then NullDeref else OutOfBounds)
  end.

(** What a traced read delivers to the process. *)
Definition delivered (t : list kcall) : text :=
  concat (omap (λ c, match c with Kcopy_to_user out => Some out | _ => None end) t).

(** What a process printed. *)
Definition output (t : list uevent) : text :=
  concat (omap (λ e, match e with Printed l => Some l | _ => None end) t).

(** The calls of [factorial], by argument. *)
Definition computed (t : list uevent) : list Z :=
  omap (λ e, match e with Computed v => Some v | _ => None end) t.

(** The streams opened and not closed. *)
Fixpoint left_open (t : list uevent) : Z :=
  match t with
  | [] => 0
  | Fopen _ :: t' => 1 + left_open t'
  | Fclose :: t' => left_open t' - 1
  | _ :: t' => left_open t'
  end.

Lemma left_open_nil : left_open [] = 0.
Proof. done. Qed.

Lemma left_open_cons e t :
  left_open (e :: t) =
  match e with Fopen _ => 1 + left_open t | Fclose => left_open t - 1 | _ => left_open t end.
Proof. by destruct e. Qed.

Lemma left_open_app t1 t2 : left_open (t1 ++ t2) = left_open t1 + left_open t2.
Proof. induction t1 as [|[] t1 IH]; cbn [app left_open]; lia. Qed.

Lemma left_open_kernel t : left_open (Kernel <$> t) = 0.
Proof. by induction t. Qed.

Lemma left_open_replicate n v : left_open (replicate n (Computed v)) = 0.
Proof. by induction n. Qed.

Lemma output_app t1 t2 : output (t1 ++ t2) = output t1 ++ output t2.
Proof. unfold output. by rewrite omap_app, concat_app. Qed.

Lemma output_kernel t : output (Kernel <$> t) = [].
Proof. by induction t. Qed.

Lemma output_nil : output [] = [].
Proof. done. Qed.

Lemma computed_nil : computed [] = [].
Proof. done. Qed.

Lemma output_cons e t :
  output (e :: t) = match e with Printed l => l ++ output t | _ => output t end.
Proof. by destruct e. Qed.

Lemma computed_cons e t :
  computed (e :: t) = match e with Computed v => v :: computed t | _ => computed t end.
Proof. by destruct e. Qed.

Lemma computed_app t1 t2 : computed (t1 ++ t2) = computed t1 ++ computed t2.
Proof. apply omap_app. Qed.

Lemma computed_kernel t : computed (Kernel <$> t) = [].
Proof. by induction t. Qed.

Lemma output_computed n v : output (replicate n (Computed v)) = [].
Proof. by induction n. Qed.

Lemma computed_replicate n v : computed (replicate n (Computed v)) = replicate n v.
Proof. induction n as [|n IH]; [done|]. cbn. by f_equal. Qed.

Lemma syscall_ok {S A} (m : kern S A) s a s' t :
  m s = Ok (a, s', t) → syscall m s = Ok (a, s', Kernel <$> t).
Proof. intros H. unfold syscall. by rewrite H. Qed.

(** ** [while (n-- != 0)] *)

Lemma int32_zero n : int32 n = 0 ↔ uint32 n = 0.
Proof.
  unfold int32, uint32, swrap, wrap. change (2 ^ (32 - 1)) with 2147483648.
  change (2 ^ 32) with 4294967296. split; intros; Z.div_mod_to_equations; lia.
Qed.

Lemma uint32_pred n : int32 n ≠ 0 → uint32 (int32 (n - 1)) = uint32 n - 1.
Proof.
  rewrite int32_zero. unfold int32, uint32. rewrite wrap_swrap by lia. unfold wrap.
  change (2 ^ 32) with 4294967296. intros. Z.div_mod_to_equations. lia.
Qed.

(** The counter is an [int]; [body] sees it after the decrement.  A negative
    counter goes through [INT_MIN], where the decrement wraps. *)
Equations? while_down {A} (n : Z) (body : Z → A → A) (a : A) : A
    by wf (Z.to_nat (uint32 n)) lt :=
  while_down n body a with decide (int32 n = 0) => {
    | left _ := a;
    | right _ := while_down (int32 (n - 1)) body (body (int32 (n - 1)) a) }.
Proof.
  rewrite uint32_pred by done. pose proof (uint32_range n) as [Hn _].
  pose proof (proj2 (int32_zero n)). lia.
Qed.

(** The loop runs [(unsigned) n] times. *)
Lemma while_down_iter {A} (n : Z) (f : A → A) (a : A) :
  while_down n (λ _, f) a = Nat.iter (Z.to_nat (uint32 n)) f a.
Proof.
  remember (Z.to_nat (uint32 n)) as k eqn:Hk. revert n a Hk.
  induction k as [|k IH]; intros n a Hk; simp while_down; pose proof (uint32_range n) as [Hn _].
  - destruct (decide (int32 n = 0)) as [Hz|Hz]; simpl; [done|].
    rewrite int32_zero in Hz. lia.
  - destruct (decide (int32 n = 0)) as [Hz|Hz]; simpl.
    + apply int32_zero in Hz. lia.
    + rewrite (IH (int32 (n - 1))); [|rewrite uint32_pred by done; lia].
      symmetry. apply Nat.iter_succ_r.
Qed.

(** [factorial]: the final value of [val], which no caller uses. *)
Definition factorial (fact : Z) : Z := while_down fact (λ fact val, int32 (val * fact)) 1.

Lemma while_down_zero n val :
  int32 n ≠ 0 → while_down n (λ fact val, int32 (val * fact)) val = 0.
Proof.
  remember (Z.to_nat (uint32 n)) as k eqn:Hk. revert n val Hk.
  induction k as [|k IH]; intros n val Hk Hz; pose proof (uint32_range n) as [Hn _].
  - rewrite int32_zero in Hz. lia.
  - simp while_down. destruct (decide (int32 n = 0)) as [|Hn0]; [done|]. simpl.
    pose proof (uint32_pred n Hz) as Hp.
    destruct (decide (int32 (int32 (n - 1)) = 0)) as [Hlast|Hmore].
    + simp while_down. destruct (decide (int32 (int32 (n - 1)) = 0)); [simpl|done].
      rewrite int32_small in Hlast by apply int32_range. by rewrite Hlast, Z.mul_0_r.
    + apply IH; [lia|done].
Qed.

(** The loop multiplies by every number below [fact], the last of which is 0. *)
Lemma factorial_value fact : factorial fact = if decide (int32 fact = 0) then 1 else 0.
Proof.
  unfold factorial. case_decide as Hz; [|by apply while_down_zero].
  simp while_down. by destruct (decide (int32 fact = 0)).
Qed.

(** A call of [factorial] for its running time. *)
Definition call_factorial {S} (fact : Z) : user S unit := emit (Computed fact).

#[export] Hint Rewrite @app_nil_r output_nil computed_nil output_app output_cons output_kernel output_computed computed_app
  computed_cons computed_kernel computed_replicate left_open_nil left_open_cons left_open_app
  left_open_kernel  left_open_replicate : uevents.
(** [output] and [computed] of a concrete trace. *)
Ltac events := autorewrite with uevents; cbn [app].
