(* ===== verification/Mp1.v ===== *)
(** * MP1: the CPU-time monitor (src/MP1/mp1.c, src/MP1/mp1_given.h)

    The module keeps a list of registered pids with their last sampled CPU
    time.  A write to the proc file registers a pid, a read prints the list,
    and a timer queues every five seconds a work item that samples every
    entry and drops those whose process is gone. *)
From Stdlib Require Import Ascii String.
From stdpp Require Import prelude gmap.
From S2P Require Import Prelude CInt CText Kernel.
Open Scope Z_scope.

(** The field of [struct task_struct] the module reads. *)
Record task_struct : Type := { utime : Z }.

(** [struct mp1_list]; the embedded [list] field is the membership of the
    node's address in the [head] list. *)
Record mp1_list : Type := { cpu_time : Z; pid : Z }.

Section mp1.
Context `{KL : KList}.

(** Kernel services: [pid_task (find_vpid (nr), PIDTYPE_PID)] is the [procs]
    argument of the operations that look processes up; [kstrtol] gives
    [None] when it returns an error and leaves its result untouched. *)
Context (jiffies_to_msecs msecs_to_jiffies : Z → Z) (kstrtol : text → option Z).

(** The module's globals: the nodes on the heap and the list [head]. *)
Record state : Type := { nodes : gmap addr mp1_list; head : klist }.

Definition init_state : state := {| nodes := ∅; head := LIST_HEAD |}.
Definition set_node (a : addr) (n : mp1_list) (s : state) : state :=
  {| nodes := <[a:=n]> (nodes s); head := head s |}.
Definition set_head (l : klist) (s : state) : state :=
  {| nodes := nodes s; head := l |}.
Definition free_node (a : addr) (s : state) : state :=
  {| nodes := delete a (nodes s); head := head s |}.
Definition entries (s : state) : list addr := list_for_each (head s).

(** [get_cpu_use (pid, &cpu_use)]: the return code and the value of
    [cpu_use] afterwards. *)
Definition get_cpu_use (procs : Z → option task_struct) (pid cpu_use : Z) : Z * Z :=
  match procs pid with
  | Some task => (0, utime task)
  | None => (-1, cpu_use)
  end.

Definition line_format : string := "%lu: %lu ms" ++ String NL EmptyString.

(** [sprintf (temp, ...)] of one iteration of the read loop. *)
Definition read_line (s : state) (entry : addr) : outcome text :=
  n ← deref (nodes s) (Some entry);
  sprintf_to 256 line_format [AInt (pid n); AInt (jiffies_to_msecs (cpu_time n))].

Definition read_lines (s : state) : outcome (list text) :=
  mapM (read_line s) (entries s).

Definition mp1_read (buf : text) (count data : Z) : kern state (Z * Z) :=
  if decide (0 < data) then mret (0, data)
  else
    emit (Kkmalloc 2048) ;;
    emit Kspin_lock ;;
    emit Klist_for_each ;;
    s ← get;
    lines ← lift (read_lines s);
    buf ← lift (fill buf 0 lines);
    emit Kspin_unlock ;;
    len ← lift (strlen buf);
    let copied := Z.of_nat len + 1 in
    emit (Kcopy_to_user (take (len + 1) buf)) ;;
    emit Kkfree_buf ;;
    mret (copied, data + copied).

(** [new_node] is what [kmalloc] returns for the node and [garbage] the
    contents of that memory. *)
Definition mp1_write (buffer : text) (new_node : option addr) (garbage : mp1_list) :
    kern state Z :=
  let count := Z.of_nat (length buffer) in
  emit (Kkmalloc (count + 1)) ;;
  let buf := buffer ++ [NUL] in
  str ← lift (c_str buf);
  a ← lift (from_option_or NullDeref new_node);
  let node_pid := match kstrtol str with Some z => z | None => pid garbage end in
  modify (set_node a {| cpu_time := 1337; pid := node_pid |}) ;;
  emit Kspin_lock ;;
  emit (Klist_add a) ;;
  modify (λ s, set_head (list_add a (head s)) s) ;;
  emit Kspin_unlock ;;
  emit Klist_first ;;
  emit Kkfree_buf ;;
  mret count.

Definition _timer_callback (jiffies : Z) : kern state unit :=
  emit (Ksetup_timer None 0) ;;
  emit Kqueue_work ;;
  emit (Kmod_timer None (uint64 (jiffies + msecs_to_jiffies 5000))).

(** One iteration of the loop of [bottom_fn]; [entry->pid] is a [long] and
    the parameter of [get_cpu_use] an [int]. *)
Definition bottom_visit (procs : Z → option task_struct) (entry : addr) :
    kern state unit :=
  s ← get;
  n ← lift (deref (nodes s) (Some entry));
  let '(ret, cpu_value) := get_cpu_use procs (int32 (pid n)) 0 in
  if decide (ret = 0) then
    modify (set_node entry {| cpu_time := cpu_value; pid := pid n |})
  else
    emit (Klist_del entry) ;;
    modify (λ s, set_head (list_del entry (head s)) s).

Definition bottom_fn (procs : Z → option task_struct) : kern state unit :=
  emit Kspin_lock ;;
  emit Klist_for_each ;;
  s ← get;
  for_each (entries s) (bottom_visit procs) ;;
  emit Kspin_unlock.

Definition mp1_init (jiffies : Z) : kern state Z :=
  emit Kproc_mkdir ;;
  emit Kproc_create ;;
  emit (Ksetup_timer None 0) ;;
  emit (Kmod_timer None (uint64 (jiffies + msecs_to_jiffies 5000))) ;;
  emit Kcreate_workqueue ;;
  mret 0.

(** The walk reads [ptr->list.next] before it frees [ptr]; it holds no lock
    and leaves [head] as it was. *)
Definition exit_free (ptr : addr) : kern state unit :=
  s ← get;
  _ ← lift (deref (nodes s) (Some ptr));
  modify (free_node ptr) ;;
  emit (Kkfree ptr).

Definition mp1_exit : kern state unit :=
  emit Klist_first ;;
  s ← get;
  emit Kproc_remove ;;
  emit Kproc_remove ;;
  for_each (entries s) exit_free ;;
  emit (Kdel_timer None) ;;
  emit Kdestroy_workqueue.

(** ** Specifications *)

(** The process of an entry still exists. *)
Definition alive (procs : Z → option task_struct) (s : state) (a : addr) : bool :=
  match nodes s !! a with
  | Some n => match procs (int32 (pid n)) with Some _ => true | None => false end
  | None => false
  end.

(** A node after a sample. *)
Definition sampled (procs : Z → option task_struct) (n : mp1_list) : mp1_list :=
  match procs (int32 (pid n)) with
  | Some t => {| cpu_time := utime t; pid := pid n |}
  | None => n
  end.

(** The line a read prints for a node. *)
Definition status_line (n : mp1_list) : text :=
  dec (uint64 (pid n)) ++ lit ": " ++ dec (uint64 (jiffies_to_msecs (cpu_time n)))
    ++ lit " ms" ++ [NL].

Definition wf (s : state) : Prop := list_wf (entries s) (nodes s).

Definition status_lines (s : state) : list text :=
  map (λ a, match nodes s !! a with Some n => status_line n | None => [] end) (entries s).

(** ** The module under its kernel *)

(** The kernel's side: the tick counter, the pending expiry of the static
    timer and whether [bottom_work] sits on the work queue. *)
Record sys : Type := {
  module_state : state; jiffies : Z; timer : option Z; queued : bool }.

(** What a call does to the kernel's side. *)
Definition kernel_effect (w : option Z * bool) (c : kcall) : option Z * bool :=
  match c with
  | Kmod_timer None e => (Some e, w.2)
  | Kdel_timer None => (None, w.2)
  | Kqueue_work => (w.1, true)
  | _ => w
  end.

Definition after (s : state) (j : Z) (w : option Z * bool) (t : list kcall) : sys :=
  let w' := fold_left kernel_effect t w in
  {| module_state := s; jiffies := j; timer := w'.1; queued := w'.2 |}.

Inductive step : sys → sys → Prop :=
  | step_tick s j tm q :
      step {| module_state := s; jiffies := j; timer := tm; queued := q |}
           {| module_state := s; jiffies := j + 1; timer := tm; queued := q |}
  | step_read s j tm q buf count data r s' t :
      mp1_read buf count data s = Ok (r, s', t) →
      step {| module_state := s; jiffies := j; timer := tm; queued := q |}
           (after s' j (tm, q) t)
  | step_write s j tm q buffer a garbage r s' t :
      nodes s !! a = None →
      mp1_write buffer (Some a) garbage s = Ok (r, s', t) →
      step {| module_state := s; jiffies := j; timer := tm; queued := q |}
           (after s' j (tm, q) t)
  | step_timer s j e q s' t :
      e ≤ j →
      _timer_callback j s = Ok (tt, s', t) →
      step {| module_state := s; jiffies := j; timer := Some e; queued := q |}
           (after s' j (None, q) t)
  | step_work s j tm procs s' t :
      bottom_fn procs s = Ok (tt, s', t) →
      step {| module_state := s; jiffies := j; timer := tm; queued := true |}
           (after s' j (tm, false) t).

(** The state [insmod] leaves behind. *)
Definition loaded (j : Z) : sys :=
  match mp1_init j init_state with
  | Ok (_, s, t) => after s j (None, false) t
  | Fault _ => {| module_state := init_state; jiffies := j; timer := None; queued := false |}
  end.
End mp1.

Section theory.
Context {KL : KList} {KLL : KListLaws KL}.
Context (jiffies_to_msecs msecs_to_jiffies : Z → Z) (kstrtol : text → option Z).
Implicit Types s : state.

(** ** The bottom half *)

Lemma bottom_visit_ok procs a s n :
  nodes s !! a = Some n →
  bottom_visit procs a s =
    if alive procs s a then Ok (tt, set_node a (sampled procs n) s, [])
    else Ok (tt, set_head (list_del a (head s)) s, [Klist_del a]).
Proof.
  intros Hn. unfold bottom_visit, alive, sampled, get_cpu_use. run.
  unfold deref. run. by destruct (procs (int32 (pid n))).
Qed.

(** Loop invariant: the visited entries are sampled or gone, the others as
    they were. *)
Definition visited procs s (pre post : list addr) (s' : state) (t : list kcall) : Prop :=
  entries s' = filter (λ a, alive procs s a) pre ++ post ∧
  (∀ a, nodes s' !! a =
     if decide (a ∈ pre) then sampled procs <$> nodes s !! a else nodes s !! a) ∧
  t = Klist_del <$> filter (λ a, ¬ alive procs s a) pre.

Lemma bottom_fn_wp procs s F :
  wf s →
  wp (bottom_fn procs) s
    (λ _ s' t, ∃ t', visited procs s (entries s) [] s' t' ∧
       t = [Kspin_lock; Klist_for_each] ++ t' ++ [Kspin_unlock]) F.
Proof.
  intros [Hnd Hlive]. unfold bottom_fn. wp_go.
  eapply wp_mono; [apply (wp_for_each (visited procs s))|..].
  - split; [done|]. split; [|done]. intros a. rewrite decide_False; [done|]. inversion 1.
  - intros pre a post s' t Hes (Hent & Hnodes & ->). rewrite Hes in *.
    pose proof (NoDup_middle_l _ _ _ Hnd) as Ha.
    destruct (Hlive a (elem_of_middle _ _ _)) as [n Hn].
    assert (Hn' : nodes s' !! a = Some n) by (by rewrite Hnodes, decide_False).
    assert (Hal : alive procs s' a = alive procs s a) by (unfold alive; by rewrite Hn, Hn').
    assert (Hsn : ∀ b, (if decide (b ∈ pre ++ [a]) then sampled procs <$> nodes s !! b
                        else nodes s !! b) =
                       if decide (a = b) then Some (sampled procs n) else nodes s' !! b).
    { intros b. destruct (decide (a = b)) as [<-|Hne].
      - by rewrite decide_True, Hn by (rewrite elem_of_snoc; auto).
      - rewrite Hnodes. apply decide_ext. rewrite elem_of_snoc. naive_solver. }
    unfold wp. rewrite (bottom_visit_ok _ _ _ n), Hal by done.
    destruct (alive procs s a) eqn:Heq; unfold visited.
    all: rewrite !filter_app, !filter_cons, !filter_nil, Heq, fmap_app; simpl.
    + split; [by rewrite <-app_assoc|]. split; [|by rewrite app_nil_r].
      intros b. rewrite Hsn. by rewrite lookup_insert.
    + pose proof (NoDup_filter_prefix (λ a, alive procs s a) _ _ Hnd) as Hnd'.
      split; [|split; [|done]].
      * unfold entries in *. simpl.
        rewrite entries_del, Hent by (rewrite Hent; auto using elem_of_middle).
        rewrite filter_ne_middle by done. by rewrite app_nil_r.
      * intros b. rewrite Hsn. destruct (decide (a = b)) as [<-|]; [|done].
        rewrite Hn'. unfold sampled. unfold alive in Heq. rewrite Hn in Heq.
        by destruct (procs (int32 (pid n))).
  - intros [] s' t Hv. wp_go. by exists t.
  - done.
Qed.

Lemma bottom_fn_ok procs s :
  wf s →
  ∃ s' t, bottom_fn procs s = Ok (tt, s', [Kspin_lock; Klist_for_each] ++ t ++ [Kspin_unlock])
    ∧ visited procs s (entries s) [] s' t.
Proof.
  intros Hwf. destruct (wp_ok _ _ _ (bottom_fn_wp procs s _ Hwf))
    as ([] & s' & t & Heq & t' & Hv & ->). eauto.
Qed.

Lemma visited_wf procs s s' t : wf s → visited procs s (entries s) [] s' t → wf s'.
Proof.
  intros [Hnd Hlive] (Hent & Hnodes & _). rewrite app_nil_r in Hent.
  unfold wf. rewrite Hent. split; [by apply NoDup_filter|].
  intros a [_ Ha]%list_elem_of_filter. rewrite Hnodes, decide_True by done.
  rewrite fmap_is_Some. auto.
Qed.

(** ** Reads *)

Lemma status_line_sprintf n :
  sprintf line_format [AInt (pid n); AInt (jiffies_to_msecs (cpu_time n))] =
  status_line jiffies_to_msecs n.
Proof. reflexivity. Qed.

Lemma status_line_length n : (length (status_line jiffies_to_msecs n) ≤ 46)%nat.
Proof.
  unfold status_line. rewrite !length_app. simpl.
  pose proof (dec_uint64_length (pid n)).
  pose proof (dec_uint64_length (jiffies_to_msecs (cpu_time n))). lia.
Qed.

Lemma status_line_no_nul n : NUL ∉ status_line jiffies_to_msecs n.
Proof.
  unfold status_line. rewrite !not_elem_of_app.
  repeat split; first [apply dec_no_nul | closed_no_nul].
Qed.

Lemma status_lines_ok s :
  wf s →
  read_lines jiffies_to_msecs s = Ok (status_lines jiffies_to_msecs s).
Proof.
  intros Hwf. apply mapM_outcome_ok. intros a Ha.
  destruct (list_wf_lookup _ _ _ Hwf Ha) as [n Hn].
  unfold read_line. rewrite (deref_live _ _ n) by done. cbv [mbind outcome_bind]. rewrite Hn.
  apply sprintf_to_fits; [apply status_line_sprintf|].
  pose proof (status_line_length n). lia.
Qed.

Lemma status_lines_no_nul s :
  Forall (λ l, NUL ∉ l) (status_lines jiffies_to_msecs s).
Proof.
  apply Forall_forall. intros l Hl. unfold status_lines in Hl.
  apply list_elem_of_fmap in Hl as (a & -> & _).
  destruct (nodes s !! a); [apply status_line_no_nul|inversion 1].
Qed.

Lemma mp1_read_eq buf count data s :
  wf s →
  mp1_read jiffies_to_msecs buf count data s =
    if decide (0 < data) then Ok (0, data, s, [])
    else match fill_out buf (status_lines jiffies_to_msecs s) with
         | Ok out =>
             let copied := Z.of_nat (length out) in
             Ok (copied, data + copied, s,
               [Kkmalloc 2048; Kspin_lock; Klist_for_each; Kspin_unlock;
                Kcopy_to_user out; Kkfree_buf])
         | Fault f => Fault f
         end.
Proof.
  intros Hwf. unfold mp1_read. destruct (decide (0 < data)); [done|].
  rewrite <-(fill_strlen buf _ (status_lines_no_nul s)).
  pose proof (status_lines_ok s Hwf) as Hl. run.
  destruct (fill buf 0 (status_lines jiffies_to_msecs s)) as [buf'|]. 2: done. run.
  destruct (strlen buf') as [len|] eqn:Hlen; [|done]. run.
  apply strlen_lt in Hlen. rewrite length_take_le by lia.
  by rewrite Nat2Z.inj_add.
Qed.

(** ** Writes *)

Definition registered (a : addr) (z : Z) (s : state) : state :=
  set_head (list_add a (head s)) (set_node a {| cpu_time := 1337; pid := z |} s).

Definition write_trace (count : Z) (a : addr) : list kcall :=
  [Kkmalloc (count + 1); Kspin_lock; Klist_add a; Kspin_unlock; Klist_first; Kkfree_buf].

Lemma mp1_write_eq buffer str a garbage s :
  c_str (buffer ++ [NUL]) = Ok str →
  mp1_write kstrtol buffer (Some a) garbage s =
    Ok (Z.of_nat (length buffer),
        registered a (default (pid garbage) (kstrtol str)) s,
        write_trace (Z.of_nat (length buffer)) a).
Proof. intros Hstr. unfold mp1_write. run. by destruct (kstrtol str). Qed.

Lemma registered_entries a z s :
  wf s → nodes s !! a = None → entries (registered a z s) = a :: entries s.
Proof.
  intros [_ Hl] Ha. unfold entries, registered; simpl. apply entries_add.
  intros Hin. destruct (Hl a Hin). congruence.
Qed.

Lemma registered_wf a z s : wf s → nodes s !! a = None → wf (registered a z s).
Proof.
  intros Hwf Ha. unfold wf. rewrite registered_entries by done.
  apply list_wf_cons; [done|]. intros Hin.
  destruct (list_wf_lookup _ _ _ Hwf Hin). congruence.
Qed.

Lemma fill_out_cons buf lines :
  lines ≠ [] →
  fill_out buf lines =
    if decide (length (concat lines) + 1 ≤ length buf)%nat
    then Ok (concat lines ++ [NUL]) else Fault OutOfBounds.
Proof. by destruct lines. Qed.

Lemma status_lines_length s :
  (length (concat (status_lines jiffies_to_msecs s)) ≤ 46 * length (entries s))%nat.
Proof.
  unfold status_lines. induction (entries s) as [|a es IH]; [simpl; lia|].
  cbn [map concat length]. rewrite length_app.
  destruct (nodes s !! a) as [n|]; [pose proof (status_line_length n)|simpl]; lia.
Qed.

Lemma lock_run_dels l : lock_run true (Klist_del <$> l) = Some true.
Proof. by induction l. Qed.

(** ** Reachable states *)

Definition inv (y : sys) : Prop := wf (module_state y) ∧ is_Some (timer y).

Lemma kernel_effect_dels l w : fold_left kernel_effect (Klist_del <$> l) w = w.
Proof. revert w. induction l as [|a l IH]; intros [? ?]; simpl; auto. Qed.

Lemma mp1_step_inv x y :
  inv x → step jiffies_to_msecs msecs_to_jiffies kstrtol x y → inv y.
Proof.
  intros [Hwf Htm] Hstep. inv Hstep; simpl in *.
  - by split.
  - match goal with H : mp1_read _ _ _ _ _ = _ |- _ => rewrite mp1_read_eq in H by done end.
    case_decide; [by simplify_eq; split|].
    destruct (fill_out _ _); cbv zeta in *; simplify_eq; by split.
  - destruct (c_str_terminated buffer) as [str Hstr].
    match goal with H : mp1_write _ _ _ _ _ = _ |- _ => erewrite mp1_write_eq in H by done end.
    simplify_eq. split; [|done].
    by apply registered_wf.
  - match goal with H : _timer_callback _ _ _ = _ |- _ => injection H as <- <- end. done.
  - destruct (bottom_fn_ok procs s Hwf) as (s1 & t1 & Heq & Hv).
    rename select (bottom_fn procs s = Ok (_, s', _)) into Hb.
    rewrite Heq in Hb. simplify_eq. unfold after, inv; simpl.
    split; [by eapply visited_wf|].
    destruct Hv as (_ & _ & ->).
    cbn [app fold_left]. by rewrite fold_left_app, kernel_effect_dels.
Qed.

Lemma mp1_reachable_inv j y :
  rtc (step jiffies_to_msecs msecs_to_jiffies kstrtol) (loaded msecs_to_jiffies j) y →
  inv y.
Proof.
  apply (rtc_ind_r (λ y, inv y)).
  - unfold inv, wf, entries, list_wf; simpl. rewrite entries_head.
    split; [|done]. split; [constructor|inversion 1].
  - intros x z _ Hs Hi. by eapply mp1_step_inv.
Qed.

(** ** Unloading *)

Definition freed s (pre post : list addr) (s' : state) (t : list kcall) : Prop :=
  head s' = head s ∧
  (∀ a, nodes s' !! a = if decide (a ∈ pre) then None else nodes s !! a) ∧
  t = Kkfree <$> pre.

Lemma mp1_exit_ok s :
  wf s →
  ∃ s' t, mp1_exit s = Ok (tt, s', [Klist_first; Kproc_remove; Kproc_remove] ++ t ++
                                   [Kdel_timer None; Kdestroy_workqueue])
    ∧ freed s (entries s) [] s' t.
Proof.
  intros [Hnd Hlive].
  assert (Hwp : wp mp1_exit s (λ _ s' t', ∃ t, freed s (entries s) [] s' t ∧
    t' = [Klist_first; Kproc_remove; Kproc_remove] ++ t ++
         [Kdel_timer None; Kdestroy_workqueue]) (λ _, False)).
  { unfold mp1_exit. wp_go. eapply wp_mono; [apply (wp_for_each (freed s))|..].
    - split; [done|]. split; [|done]. intros a. rewrite decide_False; [done|inversion 1].
    - intros pre a post s' t Hes (Hhd & Hnodes & ->). rewrite Hes in *.
      destruct (Hlive a (elem_of_middle _ _ _)) as [n Hn].
      assert (Hn' : nodes s' !! a = Some n).
      { rewrite Hnodes, decide_False; [done|]. by eapply NoDup_middle_l. }
      unfold exit_free. wp_go. rewrite (deref_live _ _ n) by done. wp_go.
      split; [done|]. split; [|by rewrite fmap_app].
      intros b. simpl. rewrite lookup_delete, Hnodes. repeat case_decide; try done.
      all: rewrite elem_of_snoc in *; naive_solver.
    - intros [] s' t Hf. wp_go. by exists t.
    - intros f Hf. exact Hf. }
  destruct (wp_ok _ _ _ Hwp) as ([] & s' & t & Heq & t' & Hf & ->). eauto.
Qed.

(** ** Properties *)

(** C15: The bottom half, run on a well-formed list, faults nowhere; it keeps
    exactly the entries whose process exists, in order, gives each of them
    the process's current [utime] and leaves every other node alone, all in
    one critical section. *)
Theorem bottom_fn_spec procs s :
  wf s →
  ∃ s' t, bottom_fn procs s = Ok (tt, s', t) ∧
    entries s' = filter (λ a, alive procs s a) (entries s) ∧
    (∀ a, nodes s' !! a =
       if decide (a ∈ entries s) then sampled procs <$> nodes s !! a
       else nodes s !! a) ∧
    disciplined t.
Proof.
  intros Hwf. destruct (bottom_fn_ok procs s Hwf) as (s' & t & Heq & Hent & Hnodes & ->).
  rewrite app_nil_r in Hent. do 2 eexists. split; [done|]. split; [done|]. split; [done|].
  unfold disciplined. cbn [app lock_run lock_step mbind option_bind].
  rewrite lock_run_app, lock_run_dels. done.
Qed.

(** C34: A read at offset 0 of a non-empty list hands the user one line per
    entry in list order and a final NUL when the text fits the 2048-byte
    buffer, and writes past the buffer when it does not; 44 entries always fit;
    a later read returns 0.  With an empty list it hands the user whatever
    string the freshly allocated, never initialised buffer happens to hold. *)
Theorem mp1_read_spec buf count data s :
  let out := concat (status_lines jiffies_to_msecs s) in
  let handed text :=
    Ok (Z.of_nat (length text), Z.of_nat (length text), s,
        [Kkmalloc 2048; Kspin_lock; Klist_for_each; Kspin_unlock;
         Kcopy_to_user text; Kkfree_buf]) in
  wf s → length buf = 2048%nat →
  (0 < data → mp1_read jiffies_to_msecs buf count data s = Ok (0, data, s, [])) ∧
  (data = 0 → entries s ≠ [] → (length out < 2048)%nat →
     mp1_read jiffies_to_msecs buf count data s = handed (out ++ [NUL])) ∧
  (data = 0 → entries s ≠ [] → (2048 ≤ length out)%nat →
     mp1_read jiffies_to_msecs buf count data s = Fault OutOfBounds) ∧
  ((length (entries s) ≤ 44)%nat → (length out < 2048)%nat) ∧
  (∀ secret rest, data = 0 → entries s = [] → buf = secret ++ NUL :: rest → NUL ∉ secret →
     mp1_read jiffies_to_msecs buf count data s = handed (secret ++ [NUL])).
Proof.
  intros out handed Hwf Hbuf. rewrite mp1_read_eq by done.
  split; [intros; by rewrite decide_True|].
  assert (Hne : entries s ≠ [] → status_lines jiffies_to_msecs s ≠ []).
  { unfold status_lines. by destruct (entries s). }
  split; [|split; [|split]].
  - intros -> Hes Hlen. rewrite decide_False by lia. rewrite fill_out_cons by auto.
    rewrite Hbuf, decide_True by (fold out; lia). done.
  - intros -> Hes Hlen. rewrite decide_False by lia. rewrite fill_out_cons by auto.
    by rewrite Hbuf, decide_False by (fold out; lia).
  - intros Hes. pose proof (status_lines_length s). fold out in H. lia.
  - intros secret rest -> Hes -> Hn. rewrite decide_False by lia.
    unfold status_lines. rewrite Hes. cbn [map fill_out mbind outcome_bind].
    rewrite strlen_app by done. cbn [mbind outcome_bind].
    by rewrite cons_middle, app_assoc, take_app_length' by (by rewrite length_app).
Qed.

(** A write puts a fresh node with CPU time 1337 at the front of the list
    and returns the byte count, also when [kstrtol] rejects the text: the
    registered pid is then whatever the allocated memory held. *)
Theorem mp1_write_spec buffer a garbage s :
  wf s → nodes s !! a = None → NUL ∉ buffer →
  ∃ s' t, mp1_write kstrtol buffer (Some a) garbage s =
            Ok (Z.of_nat (length buffer), s', t) ∧
    entries s' = a :: entries s ∧
    nodes s' = <[a := {| cpu_time := 1337;
                         pid := match kstrtol buffer with
                                | Some z => z | None => pid garbage end |}]> (nodes s) ∧
    wf s'.
Proof.
  intros Hwf Ha Hb. rewrite (mp1_write_eq _ buffer) by (by apply c_str_app).
  do 2 eexists. split; [done|]. split; [by apply registered_entries|].
  split; [|by apply registered_wf]. simpl. by destruct (kstrtol buffer).
Qed.

(** C25: In every state reachable after loading, the sampling timer is armed,
    the list is well formed, and the work function faults for no state of
    the process table. *)
Theorem reachable_safe j y :
  rtc (step jiffies_to_msecs msecs_to_jiffies kstrtol) (loaded msecs_to_jiffies j) y →
  is_Some (timer y) ∧ wf (module_state y) ∧
  ∀ procs, is_ok (bottom_fn procs (module_state y)) = true.
Proof.
  intros [Hwf Htm]%mp1_reachable_inv. split; [done|]. split; [done|]. intros procs.
  destruct (bottom_fn_ok procs _ Hwf) as (s' & t & -> & _). done.
Qed.

(** C35: Unloading after a run of the bottom half frees every node that is
    still listed exactly once and none other: the nodes the bottom half dropped
    are never freed.  [head] keeps pointing at the freed nodes, and the queue is
    drained only afterwards: a work item still pending then reads freed
    memory. *)
Theorem mp1_exit_spec procs s :
  wf s →
  ∃ s1 t1 s2 t2, bottom_fn procs s = Ok (tt, s1, t1) ∧
    mp1_exit s1 = Ok (tt, s2, t2 ++ [Kdestroy_workqueue]) ∧
    frees t2 = filter (λ a, alive procs s a) (entries s) ∧
    (∀ a, a ∈ entries s → nodes s2 !! a =
      if alive procs s a then None else sampled procs <$> nodes s !! a) ∧
    (entries s1 ≠ [] → ∀ procs', bottom_fn procs' s2 = Fault UseAfterFree).
Proof.
  intros Hwf. destruct (bottom_fn_ok procs s Hwf) as (s1 & t1 & Heq1 & Hv).
  destruct (mp1_exit_ok s1) as (s2 & t2 & Heq2 & Hhd & Hfree & ->); [by eapply visited_wf|].
  destruct Hv as (Hent & Hnodes & _). rewrite app_nil_r in Hent.
  eexists s1, _, s2, ([_; _; _] ++ (Kkfree <$> entries s1) ++ [_]).
  split; [exact Heq1|]. split; [by rewrite Heq2, <-!app_assoc|]. split; [|split].
  - by rewrite !frees_app, frees_kfree, Hent, app_nil_r.
  - intros a Ha. rewrite Hfree, Hnodes, Hent, (decide_True _ _ Ha).
    destruct (alive procs s a) eqn:Hal.
    + rewrite decide_True; [done|]. apply list_elem_of_filter. by rewrite Hal.
    + rewrite decide_False; [done|]. rewrite list_elem_of_filter, Hal. by intros [[] _].
  - intros Hne procs'. unfold entries in Hne, Hfree.
    destruct (list_for_each (head s1)) as [|a es] eqn:Hes; [done|].
    unfold bottom_fn, entries. run. rewrite Hhd, Hes. unfold bottom_visit, deref.
    specialize (Hfree a). rewrite decide_True in Hfree by (by left). run. done.
Qed.
End theory.

(** ** Concrete instances *)

Definition ex_state : @state seq_klist :=
  @Build_state seq_klist
    {[ 1%positive := {| cpu_time := 1337; pid := 42 |};
       2%positive := {| cpu_time := 7; pid := 43 |} ]}
    [2%positive; 1%positive].
Definition ex_procs (nr : Z) : option task_struct :=
  if nr =? 42 then Some {| utime := 100 |} else None.
(** A [kstrtol] that accepts a decimal numeral and nothing else. *)
Definition ex_kstrtol (t : text) : option Z :=
  match scan_int true t with Some (z, []) => Some z | _ => None end.
Definition ex_msecs (z : Z) : Z := z / 4.
Definition ex_buf : text := replicate 2048 "x"%char.

Lemma ex_state_wf : wf ex_state.
Proof. by apply list_wfb_ok. Qed.

Lemma bottom_fn_spec_witness :
  ∃ s' t, bottom_fn ex_procs ex_state = Ok (tt, s', t) ∧
    entries s' = [1%positive] ∧
    (∀ a, nodes s' !! a =
       if decide (a ∈ [2%positive; 1%positive]) then sampled ex_procs <$> nodes ex_state !! a
       else nodes ex_state !! a) ∧
    disciplined t.
Proof. apply (bottom_fn_spec (KLL := seq_klist_laws) ex_procs ex_state), ex_state_wf. Defined.

Lemma mp1_read_spec_witness :
  mp1_read id ex_buf 64 0 ex_state =
    Ok (22, 22, ex_state,
        [Kkmalloc 2048; Kspin_lock; Klist_for_each; Kspin_unlock;
         Kcopy_to_user (lit "43: 7 ms" ++ NL :: lit "42: 1337 ms" ++ [NL; NUL]); Kkfree_buf]).
Proof.
  pose proof (mp1_read_spec (KL := seq_klist) id ex_buf 64 0 ex_state ex_state_wf)
    as [_ [H _]]; [reflexivity|].
  apply H; [reflexivity|discriminate|vm_compute; lia].
Defined.

Lemma mp1_write_spec_witness :
  ∃ s' t, mp1_write ex_kstrtol (lit "77") (Some 3%positive)
            {| cpu_time := 0; pid := -1 |} ex_state = Ok (2, s', t) ∧
    entries s' = [3%positive; 2%positive; 1%positive] ∧
    nodes s' = <[3%positive := {| cpu_time := 1337; pid := 77 |}]> (nodes ex_state) ∧
    wf s'.
Proof.
  apply (mp1_write_spec (KLL := seq_klist_laws) ex_kstrtol (lit "77") 3%positive
           {| cpu_time := 0; pid := -1 |} ex_state);
    [apply ex_state_wf|reflexivity|closed_no_nul].
Defined.

(** The module after a process has registered. *)
Definition ex_garbage : mp1_list := {| cpu_time := 0; pid := -1 |}.
Definition ex_loaded : @sys seq_klist := loaded ex_msecs 0.
Definition ex_registered : @sys seq_klist :=
  match mp1_write ex_kstrtol (lit "42") (Some 1%positive) ex_garbage (init_state (KL := seq_klist)) with
  | Ok (_, s', t) => after s' 0 (timer ex_loaded, queued ex_loaded) t
  | Fault _ => ex_loaded
  end.

Lemma reachable_safe_witness :
  let y := ex_registered in
  entries (module_state y) = [1%positive] ∧
  is_Some (timer y) ∧ wf (module_state y) ∧
  ∀ procs, is_ok (bottom_fn procs (module_state y)) = true.
Proof.
  split; [reflexivity|].
  apply (reachable_safe (KLL := seq_klist_laws) id ex_msecs ex_kstrtol 0 ex_registered).
  eapply rtc_l; [|apply rtc_refl].
  apply (step_write id ex_msecs ex_kstrtol (module_state ex_loaded) 0 (timer ex_loaded)
           (queued ex_loaded) (lit "42") 1%positive ex_garbage 2).
  - reflexivity.
  - vm_compute. reflexivity.
Defined.

Lemma mp1_exit_spec_witness :
  ∃ s1 t1 s2 t2, bottom_fn ex_procs ex_state = Ok (tt, s1, t1) ∧
    mp1_exit s1 = Ok (tt, s2, t2 ++ [Kdestroy_workqueue]) ∧ frees t2 = [1%positive] ∧
    (∀ a, a ∈ [2%positive; 1%positive] → nodes s2 !! a =
      if alive ex_procs ex_state a then None
      else sampled ex_procs <$> nodes ex_state !! a) ∧
    (entries s1 ≠ [] → ∀ procs', bottom_fn procs' s2 = Fault UseAfterFree).
Proof.
  apply (mp1_exit_spec (KLL := seq_klist_laws) ex_procs ex_state), ex_state_wf.
Defined.
