(* ===== verification/Mp1App.v ===== *)
(** * MP1: the user application (src/MP1/userapp.c)

    The process registers its pid, runs [factorial] a number of times, and
    prints what the module then knows.  Meanwhile the module may sample. *)
From Stdlib Require Import Ascii String.
From stdpp Require Import prelude gmap.
From Equations Require Import Equations.
From S2P Require Import Prelude CInt CText Kernel UserApp Mp1.
Open Scope Z_scope.

Definition status_path : text := lit "/proc/mp1/status".

Section app.
Context {KL : KList}.
Context (jiffies_to_msecs : Z → Z) (kstrtol : text → option Z).

(** What the process meets: whether the proc file can be opened, its pid, the
    list node the module is handed with its contents, the kernel buffer of the
    read, and the process's own buffer ([malloc] may answer NULL). *)
Record answers : Type := Answers {
  opens : bool;
  getpid : Z;
  new_node : option addr;
  garbage : mp1_list;
  page : text;
  buffer : option text;
}.

(** [read (fileno (f), buffer, n)] on a file just opened: what it returns, and
    what it copies out. *)
Definition sys_read (k : answers) (n : Z) : user state (Z * text) := λ s,
  match mp1_read jiffies_to_msecs (page k) n 0 s with
  | Ok (r, _, s', t) => Ok ((r, delivered t), s', Kernel <$> t)
  | Fault f => Fault f
  end.

(** The bytes a read copies to the start of [b]. *)
Definition copy_in (b bytes : text) : outcome text :=
  if decide (length bytes ≤ length b)%nat then Ok (bytes ++ drop (length bytes) b)
  else Fault OutOfBounds.
(** [b[i] = '\0'] *)
Definition put_nul (b : text) (i : Z) : outcome text :=
  if decide (0 ≤ i < Z.of_nat (length b)) then Ok (<[Z.to_nat i := NUL]> b)
  else Fault OutOfBounds.

Definition call_kernel (k : answers) : user state unit :=
  printf (newline ++ "=====This is the calling kernel starts and read, update the time."
          ++ newline) [] ;;
  f ← fopen (opens k) status_path;
  emit (Malloc 2048) ;;
  use_file f ;;
  r ← sys_read k 2048;
  b ← lift (from_option_or NullDeref (buffer k));
  b ← lift (copy_in b r.2);
  b ← lift (put_nul b (r.1 - 1));
  str ← lift (c_str b);
  printf ("The read stuff is:" ++ newline ++ "%s") [AStr str] ;;
  emit Fclose.

(** The write reaches the module when the stream is closed; the format ends at
    the NUL that the literal holds. *)
Definition register (k : answers) : user state unit :=
  f ← fopen (opens k) status_path;
  use_file f ;;
  _ ← syscall (mp1_write kstrtol (sprintf "%d" [AInt (getpid k)]) (new_node k) (garbage k));
  emit Fclose.

(** [while (time_factorial-- != 0) factorial (value_factorial);] *)
Definition rounds (time_factorial value_factorial : Z) : user state unit :=
  while_down time_factorial (λ _ m, m ;; call_factorial value_factorial) (mret tt).

(** [meanwhile] is what the module does while the factorials run. *)
Definition main (k : answers) (meanwhile : kern state unit) (argv : list text) : user state Z :=
  arg1 ← lift (arg_string argv 1);
  let time_factorial := atoi arg1 in
  arg2 ← lift (arg_string argv 2);
  let value_factorial := atoi arg2 in
  printf (newline ++ "=====I'm registering my process." ++ newline) [] ;;
  register k ;;
  printf ("My pid is %i, pid has been registered" ++ newline) [AInt (getpid k)] ;;
  printf ("Factorial and call kernel starts, this test has %d rounds." ++ newline)
    [AInt time_factorial] ;;
  rounds time_factorial value_factorial ;;
  syscall meanwhile ;;
  call_kernel k ;;
  mret 0.
End app.

Section theory.
Context {KL : KList} {KLL : KListLaws KL}.
Context (jiffies_to_msecs : Z → Z) (kstrtol : text → option Z).
Implicit Types s : state.

(** ** While the process computes *)

(** The node [a] is at the front of the list, for process [p] with [cpu]. *)
Record leads (a : addr) (p cpu : Z) (s : state) : Prop := {
  leads_wf : wf s;
  leads_front : ∃ es, entries s = a :: es ∧ (length es ≤ 43)%nat;
  leads_node : nodes s !! a = Some {| cpu_time := cpu; pid := p |};
}.

(** The CPU time the module knows after a sample. *)
Definition next_cpu (p cpu : Z) (procs : Z → option task_struct) : Z :=
  match procs p with Some t => utime t | None => cpu end.

Lemma sample_leads a p cpu procs s :
  is_sint 32 p → is_Some (procs p) → leads a p cpu s →
  ∃ s' t, bottom_fn procs s = Ok (tt, s', t) ∧ leads a p (next_cpu p cpu procs) s'.
Proof.
  intros Hp [task Ht] [Hwf (es & Hes & Hlen) Hn].
  destruct (bottom_fn_ok procs s Hwf) as (s' & t & Heq & Hv).
  do 2 eexists. split; [exact Heq|]. pose proof (visited_wf _ _ _ _ Hwf Hv) as Hwf'.
  destruct Hv as (Hent & Hnodes & _). rewrite app_nil_r in Hent.
  assert (Ha : alive procs s a = true).
  { unfold alive. rewrite Hn. cbn [pid]. by rewrite int32_small, Ht. }
  split; [done| |].
  - rewrite Hent, Hes, filter_cons_True by (by rewrite Ha). eexists. split; [done|].
    etrans; [apply length_filter|done].
  - rewrite Hnodes, decide_True, Hn by (rewrite Hes; by left). cbn [fmap option_fmap option_map].
    unfold sampled, next_cpu. cbn [pid]. by rewrite int32_small, Ht.
Qed.

Lemma samples_lead a p cpu samples s :
  is_sint 32 p → Forall (λ procs, is_Some (procs p)) samples → leads a p cpu s →
  ∃ s' t, for_each samples bottom_fn s = Ok (tt, s', t) ∧
    leads a p (fold_left (next_cpu p) samples cpu) s'.
Proof.
  intros Hp Hs. revert cpu s. induction Hs as [|procs samples Hpr _ IH]; intros cpu s Hl.
  - by exists s, [].
  - destruct (sample_leads a p cpu procs s Hp Hpr Hl) as (s1 & t1 & H1 & Hl1).
    destruct (IH _ _ Hl1) as (s2 & t2 & H2 & Hl2). exists s2, (t1 ++ t2). split; [|exact Hl2].
    cbn [for_each]. rewrite (bind_ok _ _ _ tt s1 t1) by done. by rewrite H2.
Qed.

Lemma rounds_ok n v s :
  rounds n v s = Ok (tt, s, replicate (Z.to_nat (uint32 n)) (Computed v)).
Proof.
  unfold rounds. rewrite while_down_iter. induction (Z.to_nat (uint32 n)) as [|k IH]; [done|].
  rewrite Nat.iter_succ, (bind_ok _ _ _ tt s (replicate k (Computed v))) by done.
  change (Ok (tt, s, replicate k (Computed v) ++ [Computed v]) =
          Ok (tt, s, Computed v :: replicate k (Computed v))).
  by rewrite <-replicate_cons_app.
Qed.

(** ** The final read *)

Lemma sys_read_ok k n s :
  wf s → length (page k) = 2048%nat → entries s ≠ [] →
  (length (concat (Mp1.status_lines jiffies_to_msecs s)) < 2048)%nat →
  let out := concat (Mp1.status_lines jiffies_to_msecs s) ++ [NUL] in
  ∃ t, sys_read jiffies_to_msecs k n s = Ok ((Z.of_nat (length out), out), s, Kernel <$> t).
Proof.
  intros Hwf Hpage Hne Hlen out. unfold sys_read. rewrite mp1_read_eq by done.
  rewrite decide_False by lia. rewrite fill_out_cons.
  - rewrite Hpage, decide_True by lia. fold out. eexists. repeat f_equal.
    unfold delivered. cbn. by rewrite app_nil_r.
  - unfold Mp1.status_lines. by destruct (entries s).
Qed.

(** The terminating NUL replaces the one the module sent. *)
Lemma printed_string (ubuf out : text) :
  length ubuf = 2048%nat → (length out < 2048)%nat → NUL ∉ out →
  ∃ b1 b2, copy_in ubuf (out ++ [NUL]) = Ok b1 ∧
    put_nul b1 (Z.of_nat (length (out ++ [NUL])) - 1) = Ok b2 ∧ c_str b2 = Ok out.
Proof.
  intros Hu Ho Hn. unfold copy_in. rewrite length_app. cbn [length].
  rewrite decide_True by lia. do 2 eexists. split; [done|]. unfold put_nul.
  rewrite decide_True by (rewrite !length_app; cbn [length]; lia).
  replace (Z.to_nat (Z.of_nat (length out + 1) - 1)) with (length out) by lia.
  split; [done|]. rewrite <-app_assoc. cbn [app].
  rewrite list_insert_id by (by apply list_lookup_middle). by apply c_str_app.
Qed.

Lemma call_kernel_ok k ubuf a p cpu s :
  leads a p cpu s → opens k = true → buffer k = Some ubuf → length ubuf = 2048%nat →
  length (page k) = 2048%nat →
  ∃ t, call_kernel jiffies_to_msecs k s = Ok (tt, s, t) ∧ computed t = [] ∧
    (lit "The read stuff is:" ++ NL :: concat (Mp1.status_lines jiffies_to_msecs s))
      `suffix_of` output t.
Proof.
  intros [Hwf (es & Hes & Hlen) Hn] Ho Hb Hu Hpage.
  assert (Hl : (length (concat (Mp1.status_lines jiffies_to_msecs s)) < 2048)%nat).
  { pose proof (status_lines_length jiffies_to_msecs s) as Hmax. rewrite Hes in Hmax.
    cbn [length] in Hmax. lia. }
  destruct (sys_read_ok k 2048 s Hwf Hpage) as [t Hr]; [by rewrite Hes|done|].
  assert (Hnul : NUL ∉ concat (Mp1.status_lines jiffies_to_msecs s)).
  { apply concat_no_nul, status_lines_no_nul. }
  destruct (printed_string ubuf _ Hu Hl Hnul) as (b1 & b2 & H1 & H2 & H3).
  unfold call_kernel, fopen, use_file, printf. run. cbn [fst snd]. run.
  eexists. split; [reflexivity|]. set (out := concat (Mp1.status_lines jiffies_to_msecs s)).
  split; [by events|]. events. apply suffix_app_r.
  change (sprintf ("The read stuff is:" ++ newline ++ "%s") [AStr out])
    with (lit "The read stuff is:" ++ NL :: out ++ []).
  by rewrite app_nil_r.
Qed.

Lemma register_ok k a s :
  wf s → opens k = true → new_node k = Some a → nodes s !! a = None → is_sint 32 (getpid k) →
  kstrtol (dec (getpid k)) = Some (getpid k) →
  ∃ t, register kstrtol k s = Ok (tt, registered a (getpid k) s, t) ∧ computed t = [].
Proof.
  intros Hwf Ho Ha Hfresh Hp Hk. unfold register, fopen, use_file.
  assert (Hs : sprintf "%d" [AInt (getpid k)] = dec (getpid k)).
  { change (sprintf "%d" [AInt (getpid k)]) with (dec (int32 (getpid k)) ++ []).
    by rewrite int32_small, app_nil_r. }
  pose proof (mp1_write_eq kstrtol (dec (getpid k)) (dec (getpid k)) a (garbage k) s) as Hw.
  rewrite Hk in Hw. specialize (Hw (c_str_app _ _ (dec_no_nul _))). cbn [default] in Hw.
  rewrite Hs, Ha. apply syscall_ok in Hw. run. eexists. split; [done|].
  by events.
Qed.

Lemma registered_leads a p s :
  wf s → nodes s !! a = None → (length (entries s) ≤ 43)%nat → leads a p 1337 (registered a p s).
Proof.
  intros Hwf Ha Hlen. split.
  - by apply registered_wf.
  - exists (entries s). split; [by apply registered_entries|done].
  - unfold registered, set_head, set_node. cbn [nodes]. apply lookup_insert_eq.
Qed.

(** ** Properties *)

(** C14: End to end, a process that registers on a list of at most 43 entries
    and runs [factorial] while the module samples as often as it likes is told,
    on the first line it prints, its own pid and the CPU time of the last sample
    (1337 if there was none), followed by the other processes; the module's list
    stays well formed.  Its first argument decides how often [factorial] runs,
    the conversion to unsigned included. *)
Theorem mp1_app_session k ubuf a samples argv arg1 arg2 s :
  let p := getpid k in
  let cpu := fold_left (next_cpu p) samples 1337 in
  wf s → (length (entries s) ≤ 43)%nat → opens k = true →
  new_node k = Some a → nodes s !! a = None → is_sint 32 p → kstrtol (dec p) = Some p →
  length (page k) = 2048%nat → buffer k = Some ubuf → length ubuf = 2048%nat →
  argv !! 1%nat = Some arg1 → argv !! 2%nat = Some arg2 →
  Forall (λ procs, is_Some (procs p)) samples →
  ∃ s' t others,
    main jiffies_to_msecs kstrtol k (for_each samples bottom_fn) argv s = Ok (0, s', t) ∧
    leads a p cpu s' ∧
    (lit "The read stuff is:" ++ NL ::
       Mp1.status_line jiffies_to_msecs {| cpu_time := cpu; pid := p |} ++ others)
      `suffix_of` output t ∧
    computed t = replicate (Z.to_nat (uint32 (atoi arg1))) (atoi arg2).
Proof.
  intros p cpu Hwf Hlen Ho Ha Hfresh Hp Hk Hpage Hbuf Hu H1 H2 Hs.
  destruct (register_ok k a s Hwf Ho Ha Hfresh Hp Hk) as (t1 & Hreg & Hc1).
  change (getpid k) with p in Hreg.
  destruct (samples_lead a p 1337 samples (registered a p s) Hp Hs) as (s' & t2 & Hsam & Hlead).
  { by apply registered_leads. }
  apply syscall_ok in Hsam. revert Hsam. generalize (for_each samples bottom_fn). intros m Hsam.
  destruct (call_kernel_ok k ubuf a p cpu s' Hlead Ho Hbuf Hu Hpage)
    as (t3 & Hcall & Hc3 & Hout).
  pose proof (rounds_ok (atoi arg1) (atoi arg2) (registered a p s)) as Hrounds.
  destruct (leads_front _ _ _ _ Hlead) as (es & Hes & _).
  assert (Harg1 : arg_string argv 1 = Ok arg1) by (unfold arg_string; by rewrite H1).
  assert (Harg2 : arg_string argv 2 = Ok arg2) by (unfold arg_string; by rewrite H2).
  assert (Hlines : concat (Mp1.status_lines jiffies_to_msecs s') =
    Mp1.status_line jiffies_to_msecs {| cpu_time := cpu; pid := p |} ++
    concat (map (λ b, match nodes s' !! b with
                      | Some n => Mp1.status_line jiffies_to_msecs n | None => [] end) es)).
  { unfold Mp1.status_lines. rewrite Hes. cbn [map concat].
    by rewrite (leads_node _ _ _ _ Hlead). }
  unfold main, printf. run.
  do 3 eexists. split; [reflexivity|]. split; [done|]. rewrite Hlines in Hout. split.
  - events. apply suffix_app_r, suffix_app_r, suffix_app_r, suffix_app_r. exact Hout.
  - events. rewrite Hc1, Hc3. cbn [app]. by rewrite app_nil_r.
Qed.
End theory.

(** ** Concrete instances *)

Definition ex_app : answers :=
  Answers true 42 (Some 3%positive) {| cpu_time := 0; pid := -1 |} ex_buf (Some ex_buf).

Lemma mp1_app_session_witness :
  ∃ s' t others,
    main id ex_kstrtol ex_app (for_each [ex_procs; ex_procs] bottom_fn)
      [lit "./userapp"; lit "3"; lit "20"] ex_state = Ok (0, s', t) ∧
    leads 3%positive 42 100 s' ∧
    (lit "The read stuff is:" ++ NL ::
       Mp1.status_line id {| cpu_time := 100; pid := 42 |} ++ others) `suffix_of` output t ∧
    computed t = [20; 20; 20].
Proof.
  apply (mp1_app_session (KLL := seq_klist_laws) id ex_kstrtol ex_app ex_buf 3%positive
    [ex_procs; ex_procs] [lit "./userapp"; lit "3"; lit "20"] (lit "3") (lit "20") ex_state).
  - apply ex_state_wf.
  - apply Nat.leb_le. reflexivity.
  - reflexivity.
  - reflexivity.
  - reflexivity.
  - apply (bool_decide_unpack _). vm_compute. exact I.
  - reflexivity.
  - reflexivity.
  - reflexivity.
  - reflexivity.
  - reflexivity.
  - reflexivity.
  - repeat constructor; eexists; reflexivity.
Defined.
