(* ===== verification/Mp2.v ===== *)
(** * MP2: the rate-monotonic scheduler (src/MP2/mp2.c, src/MP2/mp2_given.h)

    The module keeps a list of registered periodic tasks.  A write to the proc
    file registers a task (after admission control), yields it until its next
    period or deregisters it; a per-task timer makes a task READY again and a
    dispatcher thread picks the READY task with the smallest period. *)
From Stdlib Require Import Ascii String.
From stdpp Require Import prelude gmap.
From S2P Require Import Prelude CInt CText Kernel.
Open Scope Z_scope.

Definition SLEEPING : Z := 0.
Definition READY : Z := 1.
Definition RUNNING : Z := 2.

(** [struct mp_task_struct].  [task] is the [task_struct] pointer; of the
    embedded [timer_list] the module determines the expiry it last programmed
    ([None] while inactive) and the data word its callback receives. *)
Record mp_task_struct : Type := MpTask {
  task : option addr;
  task_timer : option Z;
  timer_data : Z;
  task_state : Z;
  next_period : Z;
  pid : Z;
  period : Z;
  processing_time : Z;
}.

Definition with_state (st : Z) (n : mp_task_struct) : mp_task_struct :=
  MpTask (task n) (task_timer n) (timer_data n) st (next_period n) (pid n) (period n)
    (processing_time n).
Definition with_timer (e : option Z) (n : mp_task_struct) : mp_task_struct :=
  MpTask (task n) e (timer_data n) (task_state n) (next_period n) (pid n) (period n)
    (processing_time n).
Definition with_next_period (z : Z) (n : mp_task_struct) : mp_task_struct :=
  MpTask (task n) (task_timer n) (timer_data n) (task_state n) z (pid n) (period n)
    (processing_time n).

Section mp2.
Context {KL : KList}.
(** [msecs_to_jiffies] of the kernel. *)
Context (msecs_to_jiffies : Z → Z).

(** The module's globals: the slab objects, the list [head] and
    [running_mptask]. *)
Record state : Type := State {
  tasks : gmap addr mp_task_struct;
  head : klist;
  running_mptask : option addr;
}.

Definition init_state : state := State ∅ LIST_HEAD None.
Definition entries (s : state) : list addr := list_for_each (head s).

Definition put_task (a : addr) (n : mp_task_struct) (s : state) : state :=
  State (<[a:=n]> (tasks s)) (head s) (running_mptask s).
Definition free_task (a : addr) (s : state) : state :=
  State (delete a (tasks s)) (head s) (running_mptask s).
Definition set_head (l : klist) (s : state) : state :=
  State (tasks s) l (running_mptask s).
Definition set_running (r : option addr) (s : state) : state :=
  State (tasks s) (head s) r.

(** [p->...] as a value, and an assignment to a field of [*p]. *)
Definition load (p : option addr) : kern state mp_task_struct :=
  s ← get; lift (deref (tasks s) p).
Definition store (p : option addr) (f : mp_task_struct → mp_task_struct) :
    kern state unit :=
  n ← load p;
  match p with
  | Some a => modify (put_task a (f n))
  | None => failwith NullDeref
  end.

(** The answers of the kernel to one request: the slab object handed out
    (NULL when there is none) with its contents, what an uninitialised [int]
    on the stack holds, the tick counter at its first and its second read,
    and [pid_task (find_vpid (nr))]. *)
Record answers : Type := Answers {
  new_object : option addr;
  garbage : mp_task_struct;
  stack_int : Z;
  jiffies : Z;
  jiffies_again : Z;
  find_task : Z → option addr;
}.

(** [find_task_by_pid], whose parameter is an [unsigned int]. *)
Definition find_task_by_pid (k : answers) (nr : Z) : option addr :=
  find_task k (uint32 nr).

Definition __get_task_by_pid (p : Z) : kern state (option addr) :=
  emit Klist_for_each ;;
  s ← get;
  lift (find_first (λ tmp, pid tmp = p) (tasks s) (entries s)).

(** ** Reads *)

Definition line_format : string := "%d[%d]: %d ms, %d ms" ++ String NL EmptyString.

Definition read_line (s : state) (entry : addr) : outcome text :=
  n ← deref (tasks s) (Some entry);
  sprintf_to 256 line_format
    [AInt (pid n); AInt (task_state n); AInt (period n); AInt (processing_time n)].

Definition read_lines (s : state) : outcome (list text) :=
  mapM (read_line s) (entries s).

Definition mp_read (buf : text) (count data : Z) : kern state (Z * Z) :=
  if decide (0 < data) then mret (0, data)
  else
    emit (Kkmalloc 2048) ;;
    emit Kspin_lock ;;
    emit Klist_for_each ;;
    s ← get;
    lines ← lift (read_lines s);
    buf ← lift (fill buf 0 lines);
    emit Kspin_unlock ;;
    len ← lift (strlen buf);
    let copied := Z.of_nat len + 1 in
    emit (Kcopy_to_user (take (len + 1) buf)) ;;
    emit Kkfree_buf ;;
    mret (copied, data + copied).

(** ** Admission and registration *)

(** [processing_time * 1000000 / period], in [int]. *)
Definition utilization (n : mp_task_struct) : outcome Z :=
  cdiv32 (int32 (processing_time n * 1000000)) (period n).

Fixpoint add_utilization (h : gmap addr mp_task_struct) (es : list addr)
    (total_util : Z) : outcome Z :=
  match es with
  | [] => Ok total_util
  | entry :: es' =>
      n ← deref h (Some entry);
      u ← utilization n;
      add_utilization h es' (uint64 (total_util + u))
  end.

Definition admission_control (new_task : addr) : kern state bool :=
  n ← load (Some new_task);
  u ← lift (utilization n);
  emit Kspin_lock ;;
  emit Klist_for_each ;;
  s ← get;
  total_util ← lift (add_utilization (tasks s) (entries s) (uint64 u));
  emit Kspin_unlock ;;
  mret (bool_decide (total_util <= 693000)).

Definition registration_format : string := "%d, %d, %d" ++ String NL EmptyString.

(** Allocation, parsing, initialisation and the admission test. *)
Definition registration_check (k : answers) (buf : text) : kern state (addr * bool) :=
  a ← lift (from_option_or NullDeref (new_object k));
  str ← lift (c_str (drop 3 buf));
  let vals := sscanf str registration_format in
  let p := default (pid (garbage k)) (vals !! 0%nat) in
  let n := MpTask (find_task_by_pid k p) None p SLEEPING 0 p
             (default (period (garbage k)) (vals !! 1%nat))
             (default (processing_time (garbage k)) (vals !! 2%nat)) in
  modify (put_task a n) ;;
  emit (Ksetup_timer (Some a) p) ;;
  ok ← admission_control a;
  mret (a, ok).

(** The test's consequence, in a second critical section. *)
Definition registration_commit (a : addr) (ok : bool) : kern state unit :=
  if ok then
    emit Kspin_lock ;;
    emit (Klist_add a) ;;
    modify (λ s, set_head (list_add a (head s)) s) ;;
    emit Kspin_unlock
  else
    modify (free_task a) ;;
    emit (Kkfree a).

Definition registration (k : answers) (buf : text) : kern state unit :=
  r ← registration_check k buf;
  registration_commit r.1 r.2.

(** ** Deregistration *)

Definition pid_format : string := "%d" ++ String NL EmptyString.

Definition scan_pid (k : answers) (buf : text) : outcome Z :=
  str ← c_str (drop 3 buf);
  Ok (default (stack_int k) (sscanf str pid_format !! 0%nat)).

Definition de_registration (k : answers) (buf : text) : kern state unit :=
  p ← lift (scan_pid k buf);
  emit Kspin_lock ;;
  task_to_remove ← __get_task_by_pid p;
  store task_to_remove (with_state SLEEPING) ;;
  emit (Kdel_timer task_to_remove) ;;
  store task_to_remove (with_timer None) ;;
  a ← lift (from_option_or NullDeref task_to_remove);
  emit (Klist_del a) ;;
  modify (λ s, set_head (list_del a (head s)) s) ;;
  modify (free_task a) ;;
  emit (Kkfree a) ;;
  s ← get;
  (if decide (running_mptask s = task_to_remove) then
     modify (set_running None) ;;
     emit (Kwake_up_process Dispatcher)
   else mret tt) ;;
  emit Kspin_unlock.

(** ** Timer and dispatcher *)

Definition _timer_callback (p : Z) : kern state unit :=
  emit Kspin_lock_irqsave ;;
  task_to_wake ← __get_task_by_pid p;
  store task_to_wake (with_state READY) ;;
  emit Kspin_unlock_irqrestore ;;
  emit (Kwake_up_process Dispatcher).

Definition __set_priority (mytask : option addr) (pol : policy) (priority : Z) :
    kern state unit :=
  n ← load mytask;
  t ← lift (from_option_or NullDeref (task n));
  emit (Ksched_setscheduler t pol priority).

(** The selection loop: the READY entry of smallest period. *)
Fixpoint pick (h : gmap addr mp_task_struct) (es : list addr)
    (task_to_run : option addr) (min_period : Z) : outcome (option addr) :=
  match es with
  | [] => Ok task_to_run
  | entry :: es' =>
      n ← deref h (Some entry);
      if decide (task_state n = READY ∧ period n < min_period)
      then pick h es' (Some entry) (period n)
      else pick h es' task_to_run min_period
  end.

(** [running_mptask != NULL && task_to_run->period < running_mptask->period]:
    demote the running task. *)
Definition preempt (task_to_run : addr) : kern state unit :=
  s ← get;
  match running_mptask s with
  | Some r =>
      n ← load (Some task_to_run);
      rn ← load (Some r);
      if decide (period n < period rn) then
        store (Some r) (with_state READY) ;;
        __set_priority (Some r) SCHED_NORMAL 0
      else mret tt
  | None => mret tt
  end.

(** One wake-up of the dispatcher thread: a full iteration of its loop. *)
Definition dispatch : kern state unit :=
  emit Kspin_lock ;;
  emit Klist_for_each ;;
  s ← get;
  task_to_run ← lift (pick (tasks s) (entries s) None INT_MAX);
  match task_to_run with
  | None =>
      match running_mptask s with
      | Some r => __set_priority (Some r) SCHED_NORMAL 0
      | None => mret tt
      end
  | Some a =>
      preempt a ;;
      store (Some a) (with_state RUNNING) ;;
      n ← load (Some a);
      t ← lift (from_option_or NullDeref (task n));
      emit (Kwake_up_process (TaskStruct t)) ;;
      __set_priority (Some a) SCHED_FIFO 99 ;;
      modify (set_running (Some a))
  end ;;
  emit Kspin_unlock.

(** The thread: each wake-up carries the answer of [kthread_should_stop];
    [None] when it is still asleep after the last one. *)
Fixpoint thread_fn (wakeups : list bool) : kern state (option Z) :=
  match wakeups with
  | [] => emit Kschedule ;; mret None
  | stop :: wakeups' =>
      emit Kschedule ;;
      if stop : bool then mret (Some 0) else dispatch ;; thread_fn wakeups'
  end.

(** ** Yield *)

(** No part of the handler takes the lock: the search, and what is done with
    the object it found, can be separated by anything else the module does. *)
Definition yield_find (k : answers) (buf : text) : kern state (option addr) :=
  p ← lift (scan_pid k buf);
  __get_task_by_pid p.

(** The next release; [false] when it is already past. *)
Definition yield_advance (k : answers) (task_to_yield : option addr) : kern state bool :=
  n ← load task_to_yield;
  let wait := msecs_to_jiffies (uint32 (period n)) in
  let next := uint64 (next_period n +
    (if decide (next_period n = 0) then jiffies k + wait else wait)) in
  store task_to_yield (with_next_period next) ;;
  mret (negb (bool_decide (next < jiffies_again k))).

(** The call of [mod_timer]. *)
Definition yield_program (task_to_yield : option addr) : kern state unit :=
  n ← load task_to_yield;
  emit (Kmod_timer task_to_yield (next_period n)) ;;
  store task_to_yield (with_timer (Some (next_period n))).

Definition yield_sleep (task_to_yield : option addr) : kern state unit :=
  store task_to_yield (with_state SLEEPING) ;;
  emit (Kwake_up_process Dispatcher) ;;
  n ← load task_to_yield;
  t ← lift (from_option_or NullDeref (task n));
  emit (Kset_task_interruptible t) ;;
  emit Kschedule.

Definition yield_finish (k : answers) (task_to_yield : option addr) : kern state unit :=
  in_time ← yield_advance k task_to_yield;
  if in_time : bool then yield_program task_to_yield ;; yield_sleep task_to_yield
  else mret tt.

Definition yield_handle (k : answers) (buf : text) : kern state unit :=
  task_to_yield ← yield_find k buf;
  yield_finish k task_to_yield.

(** ** Entry points *)

Definition mp_write (k : answers) (buffer : text) : kern state Z :=
  let count := Z.of_nat (length buffer) in
  emit (Kkmalloc (count + 1)) ;;
  let buf := buffer ++ [NUL] in
  match buf with
  | "R"%char :: _ => registration k buf
  | "Y"%char :: _ => yield_handle k buf
  | "D"%char :: _ => de_registration k buf
  | _ => mret tt
  end ;;
  emit Kkfree_buf ;;
  mret count.

Definition mp_init : kern state Z :=
  emit Kproc_mkdir ;;
  emit Kproc_create ;;
  emit Kkmem_cache_create ;;
  emit Kkthread_run ;;
  mret 0.

Definition exit_visit (entry : addr) : kern state unit :=
  emit (Klist_del entry) ;;
  modify (λ s, set_head (list_del entry (head s)) s) ;;
  emit (Kdel_timer (Some entry)) ;;
  store (Some entry) (with_timer None) ;;
  modify (free_task entry) ;;
  emit (Kkfree entry).

Definition mp_exit : kern state unit :=
  emit Kkthread_stop ;;
  emit Kspin_lock ;;
  emit Klist_for_each ;;
  s ← get;
  for_each (entries s) exit_visit ;;
  emit Kkmem_cache_destroy ;;
  emit Kspin_unlock ;;
  emit Kproc_remove ;;
  emit Kproc_remove.
End mp2.
