(* ===== verification/Mp2Facts.v ===== *)
(** * MP2: shared facts

    Field accesses, lookup by pid, the selection loop of the dispatcher, and
    the well-formedness of module states. *)
From Stdlib Require Import Ascii String.
From stdpp Require Import prelude gmap.
From S2P Require Import Prelude CInt CText Kernel Mp2.
Open Scope Z_scope.

(** What the selection loop keeps from a suffix of the list, starting with
    the bound [m]. *)
Definition best (h : gmap addr mp_task_struct) (es : list addr) (m : Z) (a : addr) : Prop :=
  ∃ l1 l2 n, es = l1 ++ a :: l2 ∧ h !! a = Some n ∧ task_state n = READY ∧ period n < m ∧
    (∀ b k, b ∈ l1 → h !! b = Some k → task_state k = READY → period n < period k) ∧
    (∀ b k, b ∈ l2 → h !! b = Some k → task_state k = READY → period n ≤ period k).

Definition none_below (h : gmap addr mp_task_struct) (es : list addr) (m : Z) : Prop :=
  ∀ b k, b ∈ es → h !! b = Some k → task_state k = READY → m ≤ period k.

Lemma pick_gen h es cur m :
  list_wf es h →
  ∃ r, pick h es cur m = Ok r ∧
    ((r = cur ∧ none_below h es m) ∨ ∃ a, r = Some a ∧ best h es m a).
Proof.
  revert cur m. induction es as [|e es IH]; intros cur m Hwf; cbn [pick].
  { eexists. split; [done|]. left. split; [done|]. intros b k ?%not_elem_of_nil. done. }
  destruct (list_wf_head _ _ _ Hwf) as [n Hn]. rewrite (deref_live _ _ n) by done.
  cbv [mbind outcome_bind]. pose proof (list_wf_tail _ _ _ Hwf) as Hwf'.
  destruct (decide (task_state n = READY ∧ period n < m)) as [[Hst Hp]|Hno].
  - destruct (IH (Some e) (period n) Hwf') as (r & -> & Hr). exists r. split; [done|]. right.
    destruct Hr as [[-> Hnb]|(a & -> & l1 & l2 & k & -> & Hk & Hstk & Hpk & Hl1 & Hl2)].
    + exists e. split; [done|]. exists [], es, n. split_and!; try done.
      intros b k ?%not_elem_of_nil. done.
    + exists a. split; [done|]. exists (e :: l1), l2, k. split_and!; try done; [lia|].
      intros b k' [->|Hb]%elem_of_cons ??; [simplify_eq; lia|by eapply Hl1].
  - destruct (IH cur m Hwf') as (r & -> & Hr). exists r. split; [done|].
    assert (Hge : task_state n = READY → m ≤ period n) by (intros; apply Z.nlt_ge; auto).
    destruct Hr as [[-> Hnb]|(a & -> & l1 & l2 & k & -> & Hk & Hstk & Hpk & Hl1 & Hl2)].
    + left. split; [done|]. intros b k [->|Hb]%elem_of_cons ??; [simplify_eq; auto|by eapply Hnb].
    + right. exists a. split; [done|]. exists (e :: l1), l2, k. split_and!; try done.
      intros b k' [->|Hb]%elem_of_cons Hk' Hst'; [|by eapply Hl1].
      rewrite Hn in Hk'. injection Hk' as <-. specialize (Hge Hst'). lia.
Qed.

Lemma best_not_none_below h es m a : list_wf es h → best h es m a → ¬ none_below h es m.
Proof.
  intros Hwf (l1 & l2 & n & -> & Hn & Hst & Hlt & _) Hnb.
  specialize (Hnb a n (elem_of_middle _ _ _) Hn Hst). lia.
Qed.

Lemma best_unique h es m a b : list_wf es h → best h es m a → best h es m b → a = b.
Proof.
  intros [Hnd _] (l1 & l2 & n & Hes & Hn & Hst & Hlt & Hl1 & Hl2)
    (l1' & l2' & n' & Hes' & Hn' & Hst' & Hlt' & Hl1' & Hl2').
  destruct (decide (a = b)) as [|Hne]; [done|]. exfalso.
  assert (Hb : b ∈ l1 ∨ b ∈ l2).
  { assert (Hin : b ∈ es) by (rewrite Hes'; apply elem_of_middle).
    rewrite Hes, elem_of_app, elem_of_cons in Hin. naive_solver. }
  assert (Ha : a ∈ l1' ∨ a ∈ l2').
  { assert (Hin : a ∈ es) by (rewrite Hes; apply elem_of_middle).
    rewrite Hes', elem_of_app, elem_of_cons in Hin. naive_solver. }
  destruct Hb as [Hb|Hb], Ha as [Ha|Ha].
  - specialize (Hl1 _ _ Hb Hn' Hst'). specialize (Hl1' _ _ Ha Hn Hst). lia.
  - specialize (Hl1 _ _ Hb Hn' Hst'). specialize (Hl2' _ _ Ha Hn Hst). lia.
  - specialize (Hl2 _ _ Hb Hn' Hst'). specialize (Hl1' _ _ Ha Hn Hst). lia.
  - destruct (elem_of_after l1 l2 a b Hb) as (j & Hj & Hbj).
    destruct (elem_of_after l1' l2' b a Ha) as (j' & Hj' & Haj').
    rewrite <-Hes in Hbj. rewrite <-Hes' in Haj'.
    assert (H1 : es !! length l1 = Some a) by (rewrite Hes; by apply list_lookup_middle).
    assert (H2 : es !! length l1' = Some b) by (rewrite Hes'; by apply list_lookup_middle).
    pose proof (NoDup_lookup _ _ _ _ Hnd Hbj H2).
    pose proof (NoDup_lookup _ _ _ _ Hnd Haj' H1). lia.
Qed.

Section facts.
Context {KL : KList}.
Implicit Types s : state.

(** ** Field accesses *)

Lemma load_live s a n : tasks s !! a = Some n → load (Some a) s = Ok (n, s, []).
Proof. intros H. unfold load. run. by rewrite (deref_live _ _ n). Qed.

Lemma load_null s : load None s = Fault NullDeref.
Proof. done. Qed.

Lemma store_live s a f n :
  tasks s !! a = Some n → store (Some a) f s = Ok (tt, put_task a (f n) s, []).
Proof. intros H. unfold store. by rewrite (bind_ok _ _ _ _ _ _ (load_live _ _ _ H)). Qed.

Lemma store_null s f : store None f s = Fault NullDeref.
Proof. done. Qed.

Lemma wp_load s a n (Q : mp_task_struct → state → list kcall → Prop) F :
  tasks s !! a = Some n → Q n s [] → wp (load (Some a)) s Q F.
Proof. intros H ?. by eapply wp_intro; [apply load_live|]. Qed.

Lemma wp_store s a f n (Q : unit → state → list kcall → Prop) F :
  tasks s !! a = Some n → Q tt (put_task a (f n) s) [] → wp (store (Some a) f) s Q F.
Proof. intros H ?. by eapply wp_intro; [apply store_live|]. Qed.

Lemma put_task_lookup s a n : tasks (put_task a n s) !! a = Some n.
Proof. apply lookup_insert_eq. Qed.

Lemma put_task_lookup_ne s a b n :
  a ≠ b → tasks (put_task a n s) !! b = tasks s !! b.
Proof. apply lookup_insert_ne. Qed.

Lemma put_task_twice s a n m : put_task a m (put_task a n s) = put_task a m s.
Proof. unfold put_task. simpl. by rewrite insert_insert_eq. Qed.

(** ** Well-formed module states *)

(** The list holds distinct live objects, the running task is listed, and
    the test of every listed task would not trap. *)
Record wf s : Prop := {
  wf_list : list_wf (entries s) (tasks s);
  wf_running : ∀ r, running_mptask s = Some r → r ∈ entries s;
  wf_utilization : ∀ a n, a ∈ entries s → tasks s !! a = Some n → is_ok (utilization n) = true;
  wf_timer_data : ∀ a n, a ∈ entries s → tasks s !! a = Some n → timer_data n = pid n;
}.

Lemma wf_entry s a : wf s → a ∈ entries s → ∃ n, tasks s !! a = Some n.
Proof. intros [? _ _ _]. by apply list_wf_lookup. Qed.

Lemma wf_running_entry s r :
  wf s → running_mptask s = Some r → ∃ n, tasks s !! r = Some n.
Proof. intros Hwf Hr. eapply wf_entry; [done|]. by apply wf_running. Qed.

(** A change of the fields that are not part of the contract of a task. *)
Definition same_task (n m : mp_task_struct) : Prop :=
  task m = task n ∧ timer_data m = timer_data n ∧ pid m = pid n ∧
  period m = period n ∧ processing_time m = processing_time n.

Lemma wf_put s a n m :
  wf s → tasks s !! a = Some n → same_task n m → wf (put_task a m s).
Proof.
  intros [Hl Hr Hu Ht] Hn (_ & Htd & Hpid & Hper & Hpt). split; simpl.
  - by apply list_wf_update.
  - done.
  - intros b k Hb. rewrite lookup_insert. case_decide as Hab; [|by eauto].
    intros [= <-]. unfold utilization. rewrite Hper, Hpt. subst b. by eapply Hu.
  - intros b k Hb. rewrite lookup_insert. case_decide as Hab; [|by eauto].
    intros [= <-]. subst b. rewrite Htd, Hpid. by eapply Ht.
Qed.

Lemma wf_set_running s r :
  wf s → (∀ a, r = Some a → a ∈ entries s) → wf (set_running r s).
Proof. by intros [] ?. Qed.

(** ** Lookup by pid *)

Lemma get_task_ok s p :
  wf s →
  ∃ r, __get_task_by_pid p s = Ok (r, s, [Klist_for_each]) ∧
    match r with
    | Some a => first_with (λ n, pid n = p) (tasks s) (entries s) a
    | None => ∀ a n, a ∈ entries s → tasks s !! a = Some n → pid n ≠ p
    end.
Proof.
  intros Hwf. destruct (find_first_spec (λ n, pid n = p) (tasks s) (entries s) (wf_list _ Hwf))
    as (r & Hr & Hspec). exists r. split; [|done].
  unfold __get_task_by_pid. run. done.
Qed.
End facts.

Create HintDb mp2.
#[export] Hint Unfold same_task : mp2.
#[export] Hint Resolve wf_list wf_put : mp2.

(** Symbolic execution through the fields that updates leave alone. *)
Ltac mp2_run :=
  repeat first [ run_step
               | progress cbn [task task_timer timer_data task_state next_period pid period
                               processing_time with_state with_timer with_next_period] ].
