(* ===== verification/Mp2Sched.v ===== *)
(** * MP2: the dispatcher

    What one wake-up of the dispatcher thread does, against the rule of
    rate-monotonic scheduling: the READY task of smallest period runs. *)
From Stdlib Require Import Ascii String.
From stdpp Require Import prelude gmap.
From S2P Require Import Prelude CInt CText Kernel Mp2 Mp2Facts.
Open Scope Z_scope.

Section sched.
Context {KL : KList}.
Implicit Types s : state.

(** Every listed task was found by [find_task_by_pid] when it registered. *)
Definition has_threads s : Prop :=
  ∀ a n, a ∈ entries s → tasks s !! a = Some n → is_Some (task n).

(** The state and the calls of a preemption by a task [n]. *)
Definition demote s (n : mp_task_struct) : state * list kcall :=
  match running_mptask s with
  | Some r =>
      match tasks s !! r with
      | Some rn =>
          if decide (period n < period rn) then
            (put_task r (with_state READY rn) s,
             match task rn with Some t => [Ksched_setscheduler t SCHED_NORMAL 0] | None => [] end)
          else (s, [])
      | None => (s, [])
      end
  | None => (s, [])
  end.

Lemma preempt_ok s a n :
  wf s → has_threads s → tasks s !! a = Some n →
  preempt a s = Ok (tt, (demote s n).1, (demote s n).2).
Proof.
  intros Hwf Hth Hn. unfold preempt, demote.
  rewrite (bind_ok _ _ _ s s []) by done. rewrite prepend_nil.
  destruct (running_mptask s) as [r|] eqn:Hr; [|done].
  pose proof (wf_running _ Hwf r Hr) as Hin.
  destruct (wf_entry _ _ Hwf Hin) as [rn Hrn]. rewrite Hrn.
  rewrite (bind_ok _ _ _ _ _ _ (load_live _ _ _ Hn)), prepend_nil.
  rewrite (bind_ok _ _ _ _ _ _ (load_live _ _ _ Hrn)), prepend_nil.
  destruct (decide (period n < period rn)); [|done].
  rewrite (bind_ok _ _ _ _ _ _ (store_live _ _ _ _ Hrn)), prepend_nil.
  unfold __set_priority.
  rewrite (bind_ok _ _ _ _ _ _ (load_live _ _ _ (put_task_lookup _ _ _))), prepend_nil.
  destruct (Hth _ _ Hin Hrn) as [t Ht]. cbn [with_state task]. by rewrite Ht.
Qed.

Lemma demote_wf s n : wf s → wf (demote s n).1.
Proof.
  intros Hwf. unfold demote. destruct (running_mptask s) as [r|] eqn:Hr; [|done].
  destruct (tasks s !! r) as [rn|] eqn:Hrn; [|done]. case_decide; [|done].
  simpl. eapply wf_put; [done|done|repeat split].
Qed.

Lemma demote_entries s n :
  entries (demote s n).1 = entries s ∧
  running_mptask (demote s n).1 = running_mptask s.
Proof.
  unfold demote. destruct (running_mptask s) as [r|] eqn:Hr; [|done].
  destruct (tasks s !! r); [|done]. by case_decide.
Qed.

Lemma demote_lookup s n b :
  tasks (demote s n).1 !! b =
    (λ m, if decide (running_mptask s = Some b ∧ period n < period m)
          then with_state READY m else m) <$> tasks s !! b.
Proof.
  set (f m := if decide (running_mptask s = Some b ∧ period n < period m)
              then with_state READY m else m).
  assert (Hid : (∀ m, tasks s !! b = Some m →
                   ¬ (running_mptask s = Some b ∧ period n < period m)) →
                tasks s !! b = f <$> tasks s !! b).
  { intros H. destruct (tasks s !! b) as [m|]; [|done]. cbn [fmap option_fmap option_map].
    unfold f. rewrite decide_False; auto. }
  unfold demote. destruct (running_mptask s) as [r|] eqn:Hr; [|apply Hid; naive_solver].
  destruct (tasks s !! r) as [rn|] eqn:Hrn; [|apply Hid; naive_solver].
  destruct (decide (period n < period rn)) as [Hlt|Hge]; [|apply Hid; naive_solver].
  cbn [fst]. destruct (decide (r = b)) as [<-|Hne].
  - rewrite put_task_lookup, Hrn. cbn [fmap option_fmap option_map].
    unfold f. by rewrite decide_True.
  - rewrite put_task_lookup_ne by done. apply Hid. naive_solver.
Qed.

(** The state a dispatch leaves when it runs [a], whose object was [n]. *)
Definition run_state s (a : addr) (n : mp_task_struct) : state :=
  set_running (Some a) (put_task a (with_state RUNNING n) (demote s n).1).

Lemma demote_self s a n :
  tasks s !! a = Some n → tasks (demote s n).1 !! a = Some n.
Proof. intros Hn. rewrite demote_lookup, Hn. cbn [fmap option_fmap option_map].
  rewrite decide_False; [done|lia]. Qed.

Lemma dispatch_run s a n t :
  wf s → has_threads s → pick (tasks s) (entries s) None INT_MAX = Ok (Some a) →
  tasks s !! a = Some n → task n = Some t →
  dispatch s = Ok (tt, run_state s a n,
    [Kspin_lock; Klist_for_each] ++ (demote s n).2 ++
    [Kwake_up_process (TaskStruct t); Ksched_setscheduler t SCHED_FIFO 99; Kspin_unlock]).
Proof.
  intros Hwf Hth Hpick Hn Ht. pose proof (demote_self s a n Hn) as Hd.
  pose proof (preempt_ok s a n Hwf Hth Hn) as Hpre.
  pose proof (store_live _ _ (with_state RUNNING) _ Hd) as Hst.
  pose proof (load_live _ _ _ (put_task_lookup (demote s n).1 a (with_state RUNNING n))) as Hld.
  unfold dispatch, __set_priority. mp2_run. by rewrite <-app_assoc.
Qed.

Lemma dispatch_idle s :
  wf s → has_threads s → pick (tasks s) (entries s) None INT_MAX = Ok None →
  ∃ t, dispatch s = Ok (tt, s, [Kspin_lock; Klist_for_each] ++ t ++ [Kspin_unlock]) ∧
    ((t = [] ∧ running_mptask s = None) ∨
     ∃ r n tp, running_mptask s = Some r ∧ tasks s !! r = Some n ∧ task n = Some tp ∧
       t = [Ksched_setscheduler tp SCHED_NORMAL 0]).
Proof.
  intros Hwf Hth Hpick. unfold dispatch, __set_priority. mp2_run.
  destruct (running_mptask s) as [r|] eqn:Hr; [|run; by exists []; split; [|left]].
  destruct (wf_running_entry _ _ Hwf Hr) as [n Hn].
  destruct (Hth _ _ (wf_running _ Hwf _ Hr) Hn) as [tp Htp].
  pose proof (load_live _ _ _ Hn) as Hld. mp2_run.
  eexists [_]. split; [done|]. right. by exists r, n, tp.
Qed.

Lemma run_state_wf s a n :
  wf s → tasks s !! a = Some n → a ∈ entries s → wf (run_state s a n).
Proof.
  intros Hwf Hn Ha. unfold run_state. apply wf_set_running.
  - eapply wf_put; [by apply demote_wf|by apply demote_self|]. repeat split.
  - intros b [= <-]. enough (a ∈ entries (demote s n).1) by done.
    by rewrite (proj1 (demote_entries s n)).
Qed.

Lemma run_state_lookup s a n b :
  tasks (run_state s a n) !! b =
    if decide (a = b) then Some (with_state RUNNING n)
    else (λ m, if decide (running_mptask s = Some b ∧ period n < period m)
               then with_state READY m else m) <$> tasks s !! b.
Proof.
  unfold run_state. cbn [tasks set_running put_task].
  by rewrite lookup_insert, demote_lookup.
Qed.

Lemma has_threads_run s a n :
  has_threads s → tasks s !! a = Some n → a ∈ entries s → has_threads (run_state s a n).
Proof.
  intros Hth Hn Ha b m Hb. rewrite run_state_lookup.
  assert (Hb' : b ∈ entries s) by (rewrite <-(proj1 (demote_entries s n)); exact Hb).
  case_decide as Hab; [intros [= <-]; exact (Hth a n Ha Hn)|].
  intros (m' & Hm' & ->)%fmap_Some. specialize (Hth _ _ Hb' Hm'). by case_decide.
Qed.

Lemma lock_run_demote s n : lock_run true (demote s n).2 = Some true.
Proof.
  unfold demote. destruct (running_mptask s) as [r|]; [|done].
  destruct (tasks s !! r) as [m|]; [|done]. case_decide; [|done]. by destruct (task m).
Qed.

(** One dispatch, by cases on the outcome of the selection. *)
Lemma dispatch_cases s :
  wf s → has_threads s →
  ∃ s' t, dispatch s = Ok (tt, s', t) ∧ disciplined t ∧
    ((none_below (tasks s) (entries s) INT_MAX ∧ s' = s) ∨
     ∃ a n, best (tasks s) (entries s) INT_MAX a ∧ tasks s !! a = Some n ∧
       a ∈ entries s ∧ s' = run_state s a n).
Proof.
  intros Hwf Hth.
  destruct (pick_gen (tasks s) (entries s) None INT_MAX (wf_list _ Hwf))
    as (r & Hpick & [[-> Hnb]|(a & -> & Hbest)]).
  - destruct (dispatch_idle s Hwf Hth Hpick) as (t & Heq & Ht).
    do 2 eexists. split; [done|]. split; [|by left].
    destruct Ht as [[-> _]|(? & ? & ? & _ & _ & _ & ->)]; done.
  - pose proof Hbest as (l1 & l2 & n & Hes & Hn & _).
    assert (Ha : a ∈ entries s) by (rewrite Hes; apply elem_of_middle).
    destruct (Hth a n Ha Hn) as [t Ht].
    do 2 eexists. split; [by eapply dispatch_run|]. split; [|right; by exists a, n].
    unfold disciplined. cbn [app lock_run lock_step mbind option_bind].
    rewrite lock_run_app, lock_run_demote. done.
Qed.

Lemma dispatch_preserves s s' t :
  wf s → has_threads s → dispatch s = Ok (tt, s', t) →
  wf s' ∧ has_threads s' ∧ entries s' = entries s.
Proof.
  intros Hwf Hth Heq.
  destruct (dispatch_cases s Hwf Hth) as (s1 & t1 & Heq1 & _ & Hs).
  rewrite Heq1 in Heq. simplify_eq.
  destruct Hs as [[_ ->]|(a & n & _ & Hn & Ha & ->)]; [done|].
  split; [by apply run_state_wf|]. split; [by apply has_threads_run|].
  apply (demote_entries s n).
Qed.

Lemma thread_fn_sleeps wakeups s :
  wf s → has_threads s →
  ∃ s' t, wf s' ∧ has_threads s' ∧ entries s' = entries s ∧
    ∀ more, thread_fn (replicate wakeups false ++ more) s = prepend t (thread_fn more s').
Proof.
  revert s. induction wakeups as [|k IH]; intros s Hwf Hth.
  { exists s, []. split_and!; try done. intros more. by rewrite prepend_nil. }
  destruct (dispatch_cases s Hwf Hth) as (s1 & t1 & Heq & _).
  destruct (dispatch_preserves _ _ _ Hwf Hth Heq) as (Hwf1 & Hth1 & Hes).
  destruct (IH s1 Hwf1 Hth1) as (s2 & t2 & ? & ? & Hes2 & Heq2).
  exists s2, ([Kschedule] ++ t1 ++ t2). split_and!; try done; [congruence|].
  intros more. cbn [replicate app thread_fn].
  rewrite (bind_ok _ _ s tt s [Kschedule]) by done.
  by rewrite (bind_ok _ _ _ _ _ _ Heq), Heq2, <-!prepend_app.
Qed.
End sched.

(** ** Properties *)

Section properties.
Context {KL : KList}.
Implicit Types s : state.

(** C1: One wake-up of the dispatcher, in one critical section: when no READY
    task has a period below [INT_MAX] the module state does not change;
    otherwise the READY task of smallest period, the first of them in list
    order, becomes RUNNING and is recorded in [running_mptask], the task
    recorded before is put back to READY exactly when its period is strictly
    larger, and no other task changes. *)
Theorem dispatch_rate_monotonic s :
  wf s → has_threads s →
  ∃ s' t, dispatch s = Ok (tt, s', t) ∧ disciplined t ∧ entries s' = entries s ∧
    ((none_below (tasks s) (entries s) INT_MAX ∧ s' = s) ∨
     ∃ a n, best (tasks s) (entries s) INT_MAX a ∧ tasks s !! a = Some n ∧
       running_mptask s' = Some a ∧
       ∀ b, tasks s' !! b =
         if decide (a = b) then Some (with_state RUNNING n)
         else (λ m, if decide (running_mptask s = Some b ∧ period n < period m)
                    then with_state READY m else m) <$> tasks s !! b).
Proof.
  intros Hwf Hth. destruct (dispatch_cases s Hwf Hth) as (s' & t & Heq & Hlock & Hs).
  exists s', t. split; [done|]. split; [done|].
  split; [by apply (dispatch_preserves _ _ _ Hwf Hth Heq)|].
  destruct Hs as [|(a & n & Hbest & Hn & _ & ->)]; [by left|]. right.
  exists a, n. split; [done|]. split; [done|]. split; [done|]. apply run_state_lookup.
Qed.

(** C36: The dispatcher decides by [running_mptask] and the periods alone.  It
    switches to a READY task whose period is not smaller than the period of a
    running one and leaves that one RUNNING, so that two tasks are RUNNING; and
    it takes a task of larger period that has yielded out of SLEEPING although
    its timer is pending, so that it can run again before its next period. *)
Theorem dispatch_ignores_state s r rn a n :
  wf s → has_threads s →
  running_mptask s = Some r → tasks s !! r = Some rn →
  best (tasks s) (entries s) INT_MAX a → tasks s !! a = Some n →
  ∃ s' t, dispatch s = Ok (tt, s', t) ∧ running_mptask s' = Some a ∧
    task_state <$> tasks s' !! a = Some RUNNING ∧
    (task_state rn = RUNNING → period rn ≤ period n →
       r ≠ a ∧ task_state <$> tasks s' !! r = Some RUNNING) ∧
    (task_state rn = SLEEPING → period n < period rn →
       tasks s' !! r = Some (with_state READY rn) ∧
       task_timer (with_state READY rn) = task_timer rn).
Proof.
  intros Hwf Hth Hr Hrn Hbest Hn.
  destruct (dispatch_cases s Hwf Hth) as (s' & t & Heq & _ & Hs).
  exists s', t. split; [done|].
  destruct Hs as [[Hnb ->]|(b & m & Hbest' & Hm & _ & ->)].
  { exfalso. by eapply best_not_none_below; [apply wf_list| |]. }
  assert (b = a) as -> by (by eapply best_unique; [apply wf_list| |]).
  rewrite Hn in Hm. injection Hm as <-.
  split; [done|]. rewrite !run_state_lookup, decide_True by done. split; [done|]. split.
  - intros Hrun Hper. assert (Hra : r ≠ a).
    { intros ->. destruct Hbest as (? & ? & m & _ & Hm & Hst & _).
      rewrite Hrn in Hm. injection Hm as <-. by rewrite Hrun in Hst. }
    split; [done|]. rewrite decide_False, Hrn by done.
    cbn [fmap option_fmap option_map]. rewrite decide_False; [by rewrite Hrun|lia].
  - intros _ Hper. split; [|done].
    rewrite decide_False by (intros ->; simplify_eq; lia).
    rewrite Hrn. cbn [fmap option_fmap option_map]. by rewrite decide_True.
Qed.

(** The dispatcher thread survives any number of wake-ups and returns 0
    at the first one that finds [kthread_should_stop] set; the list and the
    well-formedness of the module survive with it. *)
Lemma thread_fn_stops wakeups later s :
  wf s → has_threads s →
  ∃ s' t, thread_fn (replicate wakeups false ++ true :: later) s = Ok (Some 0, s', t) ∧
    wf s' ∧ has_threads s' ∧ entries s' = entries s.
Proof.
  intros Hwf Hth. destruct (thread_fn_sleeps wakeups s Hwf Hth) as (s' & t & ? & ? & ? & Heq).
  eexists s', _. rewrite Heq. split; [reflexivity|done].
Qed.
End properties.

(** ** Concrete instances *)

Definition ex_task (th : addr) (st p per c : Z) : mp_task_struct :=
  MpTask (Some th) (if decide (st = SLEEPING) then Some 500 else None) p st 0 p per c.

(** Two tasks of periods 10 (running) and 100. *)
Definition ex_running (st1 st2 : Z) (r : addr) : @state seq_klist :=
  @State seq_klist
    {[ 1%positive := ex_task 11 st1 71 10 1; 2%positive := ex_task 12 st2 72 100 5 ]}
    [2%positive; 1%positive] (Some r).

Ltac ex_elem H :=
  repeat first [apply elem_of_cons in H as [->|H] | by apply not_elem_of_nil in H].

Lemma ex_running_wf st1 st2 r : r ∈ [2%positive; 1%positive] → wf (ex_running st1 st2 r).
Proof.
  intros Hr. split.
  - by apply list_wfb_ok.
  - by intros r' [= ->].
  - intros a n Ha. change (entries _) with [2%positive; 1%positive] in Ha.
    ex_elem Ha; by intros [= <-].
  - intros a n Ha. change (entries _) with [2%positive; 1%positive] in Ha.
    ex_elem Ha; by intros [= <-].
Qed.

Lemma ex_running_threads st1 st2 r : has_threads (ex_running st1 st2 r).
Proof.
  intros a n Ha. change (entries _) with [2%positive; 1%positive] in Ha.
  ex_elem Ha; intros [= <-]; by eexists.
Qed.

Lemma dispatch_rate_monotonic_witness :
  let s := ex_running READY READY 2%positive in
  ∃ s' t, dispatch s = Ok (tt, s', t) ∧ disciplined t ∧ entries s' = entries s ∧
    ((none_below (tasks s) (entries s) INT_MAX ∧ s' = s) ∨
     ∃ a n, best (tasks s) (entries s) INT_MAX a ∧ tasks s !! a = Some n ∧
       running_mptask s' = Some a ∧
       ∀ b, tasks s' !! b =
         if decide (a = b) then Some (with_state RUNNING n)
         else (λ m, if decide (running_mptask s = Some b ∧ period n < period m)
                    then with_state READY m else m) <$> tasks s !! b).
Proof.
  intros s. apply (dispatch_rate_monotonic s);
    [apply ex_running_wf; by left|apply ex_running_threads].
Defined.

Lemma dispatch_ignores_state_witness :
  (∃ s' t, dispatch (ex_running RUNNING READY 1%positive) = Ok (tt, s', t) ∧
    running_mptask s' = Some 2%positive ∧
    task_state <$> tasks s' !! 2%positive = Some RUNNING ∧
    task_state <$> tasks s' !! 1%positive = Some RUNNING) ∧
  (∃ s' t, dispatch (ex_running READY SLEEPING 2%positive) = Ok (tt, s', t) ∧
    tasks s' !! 2%positive = Some (with_state READY (ex_task 12 SLEEPING 72 100 5))).
Proof.
  split.
  - destruct (dispatch_ignores_state (ex_running RUNNING READY 1%positive) 1
      (ex_task 11 RUNNING 71 10 1) 2 (ex_task 12 READY 72 100 5))
      as (s' & t & Heq & Hr & Ha & Hrun & _); try reflexivity.
    + apply ex_running_wf. right. by left.
    + apply ex_running_threads.
    + exists [], [1%positive], (ex_task 12 READY 72 100 5).
      split; [reflexivity|]. split; [reflexivity|]. split; [reflexivity|]. split; [reflexivity|].
      split; intros b k Hb; ex_elem Hb. by intros [= <-].
    + exists s', t. destruct (Hrun eq_refl) as [_ Hr1]; [vm_compute; discriminate|done].
  - destruct (dispatch_ignores_state (ex_running READY SLEEPING 2%positive) 2
      (ex_task 12 SLEEPING 72 100 5) 1 (ex_task 11 READY 71 10 1))
      as (s' & t & Heq & _ & _ & _ & Hslp); try reflexivity.
    + apply ex_running_wf. by left.
    + apply ex_running_threads.
    + exists [2%positive], [], (ex_task 11 READY 71 10 1).
      split; [reflexivity|]. split; [reflexivity|]. split; [reflexivity|]. split; [reflexivity|].
      split; intros b k Hb; ex_elem Hb. by intros [= <-].
    + exists s', t. split; [exact Heq|]. by apply Hslp.
Defined.
