(* ===== verification/Mp2Ops.v ===== *)
(** * MP2: the handlers

    The functional behaviour of registration, deregistration, yield, the timer
    callback and module unloading on well-formed states. *)
From Stdlib Require Import Ascii String.
From stdpp Require Import prelude gmap.
From S2P Require Import Prelude CInt CText Kernel Mp2 Mp2Facts.
Open Scope Z_scope.

Section ops.
Context {KL : KList} {KLL : KListLaws KL}.
Context (msecs_to_jiffies : Z → Z).
Implicit Types s : state.

(** ** Admission control *)

Lemma add_utilization_ok h es total :
  list_wf es h →
  (∀ a n, a ∈ es → h !! a = Some n → is_ok (utilization n) = true) →
  ∃ total', add_utilization h es total = Ok total'.
Proof.
  revert total. induction es as [|e es IH]; intros total Hwf Hu; cbn [add_utilization]; [eauto|].
  destruct (list_wf_head _ _ _ Hwf) as [n Hn].
  rewrite (deref_live _ _ n) by done. cbv [mbind outcome_bind].
  pose proof (Hu e n (list_elem_of_here _ _) Hn) as Hok.
  destruct (utilization n) as [u|]; [|done].
  apply IH; [by eapply list_wf_tail|]. intros b m Hb. apply Hu. by right.
Qed.

Lemma add_utilization_frame h es total a n :
  a ∉ es → add_utilization (<[a:=n]> h) es total = add_utilization h es total.
Proof.
  revert total. induction es as [|e es IH]; intros total Ha; cbn [add_utilization]; [done|].
  apply not_elem_of_cons in Ha as [Hne Ha]. unfold deref. rewrite lookup_insert_ne by done.
  destruct (h !! e); [|done]. cbv [mbind outcome_bind from_option_or].
  destruct (utilization _); auto.
Qed.

Definition admission_trace : list kcall := [Kspin_lock; Klist_for_each; Kspin_unlock].

(** Success of the test, on a state where the new object is live but not yet
    listed. *)
Lemma admission_ok s a n u :
  wf s → tasks s !! a = Some n → utilization n = Ok u →
  ∃ total, add_utilization (tasks s) (entries s) (uint64 u) = Ok total ∧
    admission_control a s = Ok (bool_decide (total ≤ 693000), s, admission_trace).
Proof.
  intros Hwf Hn Hu.
  destruct (add_utilization_ok (tasks s) (entries s) (uint64 u)) as [total Ht].
  { apply wf_list, Hwf. } { apply wf_utilization, Hwf. }
  exists total. split; [done|].
  pose proof (load_live _ _ _ Hn) as Hld. unfold admission_control. mp2_run. done.
Qed.

Lemma admission_traps s a n f :
  tasks s !! a = Some n → utilization n = Fault f → admission_control a s = Fault f.
Proof.
  intros Hn Hu. pose proof (load_live _ _ _ Hn) as Hld. unfold admission_control.
  mp2_run. done.
Qed.

(** ** Registration *)

Lemma wf_put_fresh s a n : wf s → a ∉ entries s → wf (put_task a n s).
Proof.
  intros [Hl Hr Hu Ht] Ha. split; cbn.
  - by apply list_wf_update.
  - done.
  - intros b m Hb. rewrite lookup_insert_ne by (by intros ->). by eauto.
  - intros b m Hb. rewrite lookup_insert_ne by (by intros ->). by eauto.
Qed.

(** The object a registration request builds. *)
Definition new_task (k : answers) (str : text) : mp_task_struct :=
  let vals := sscanf str registration_format in
  let p := default (pid (garbage k)) (vals !! 0%nat) in
  MpTask (find_task_by_pid k p) None p SLEEPING 0 p
    (default (period (garbage k)) (vals !! 1%nat))
    (default (processing_time (garbage k)) (vals !! 2%nat)).

Lemma registration_check_eq k buf str a s :
  new_object k = Some a → c_str (drop 3 buf) = Ok str →
  registration_check k buf s =
    prepend [Ksetup_timer (Some a) (pid (new_task k str))]
      (match admission_control a (put_task a (new_task k str) s) with
       | Ok (ok, s', t) => Ok ((a, ok), s', t)
       | Fault f => Fault f
       end).
Proof.
  intros Ha Hstr. unfold registration_check. run.
  fold (new_task k str). destruct (admission_control _ _) as [[[ok s'] t]|f]; [|done].
  run. by rewrite app_nil_r.
Qed.

Definition listed (a : addr) (n : mp_task_struct) s : state :=
  set_head (list_add a (head s)) (put_task a n s).

Lemma listed_entries a n s :
  wf s → tasks s !! a = None → entries (listed a n s) = a :: entries s.
Proof.
  intros Hwf Ha. unfold entries, listed; cbn. apply entries_add. intros Hin.
  destruct (wf_entry _ _ Hwf Hin). congruence.
Qed.

Lemma listed_wf a n s :
  wf s → tasks s !! a = None → is_ok (utilization n) = true → timer_data n = pid n →
  wf (listed a n s).
Proof.
  intros Hwf Ha Hu Ht. pose proof (listed_entries a n s Hwf Ha) as Hes.
  assert (Hnin : a ∉ entries s).
  { intros Hin. destruct (wf_entry _ _ Hwf Hin). congruence. }
  destruct Hwf as [Hl Hr Hut Htd]. split; rewrite ?Hes.
  - by apply list_wf_cons.
  - intros r Hr'. right. by apply Hr.
  - intros b m [->|Hb]%elem_of_cons; cbn; [by rewrite lookup_insert_eq; intros [= <-]|].
    rewrite lookup_insert_ne by (by intros ->). by apply Hut.
  - intros b m [->|Hb]%elem_of_cons; cbn; [by rewrite lookup_insert_eq; intros [= <-]|].
    rewrite lookup_insert_ne by (by intros ->). by apply Htd.
Qed.

(** The two outcomes of the test, on an object that is live and unlisted. *)
Lemma link_wf a n s :
  wf s → tasks s !! a = Some n → a ∉ entries s → is_ok (utilization n) = true →
  timer_data n = pid n →
  wf (set_head (list_add a (head s)) s) ∧
  entries (set_head (list_add a (head s)) s) = a :: entries s.
Proof.
  intros [Hl Hr Hut Htd] Hn Ha Hu Ht.
  assert (Hes : entries (set_head (list_add a (head s)) s) = a :: entries s) by (by apply entries_add).
  split; [|done]. split; rewrite ?Hes; cbn [tasks set_head running_mptask].
  - destruct Hl as [Hnd Hlive]. split; [by constructor|].
    intros b [->|Hb]%elem_of_cons; [by eexists|by apply Hlive].
  - intros r Hr'. right. by apply Hr.
  - intros b m [->|Hb]%elem_of_cons ?; [by simplify_eq|by eapply Hut].
  - intros b m [->|Hb]%elem_of_cons ?; [by simplify_eq|by eapply Htd].
Qed.

Lemma unlink_wf a s : wf s → a ∉ entries s → wf (free_task a s).
Proof.
  intros [[Hnd Hlive] Hr Hut Htd] Ha. split; cbn [tasks free_task].
  - split; [done|]. intros b Hb. rewrite lookup_delete_ne by (by intros ->). by apply Hlive.
  - done.
  - intros b m Hb. rewrite lookup_delete_ne by (by intros ->). by apply Hut.
  - intros b m Hb. rewrite lookup_delete_ne by (by intros ->). by apply Htd.
Qed.

Lemma put_free_id a n s : tasks s !! a = None → free_task a (put_task a n s) = s.
Proof.
  intros Ha. unfold free_task, put_task. cbn. rewrite delete_insert_id by done.
  by destruct s.
Qed.

(** The whole request on a fresh object. *)
Lemma registration_eq k buf str a s u :
  wf s → new_object k = Some a → tasks s !! a = None →
  c_str (drop 3 buf) = Ok str → utilization (new_task k str) = Ok u →
  ∃ total, add_utilization (tasks s) (entries s) (uint64 u) = Ok total ∧
    registration k buf s =
      if decide (total ≤ 693000) then
        Ok (tt, listed a (new_task k str) s,
            [Ksetup_timer (Some a) (pid (new_task k str))] ++ admission_trace ++
            [Kspin_lock; Klist_add a; Kspin_unlock])
      else
        Ok (tt, s, [Ksetup_timer (Some a) (pid (new_task k str))] ++ admission_trace ++
                   [Kkfree a]).
Proof.
  intros Hwf Ha Hfresh Hstr Hu.
  assert (Hnin : a ∉ entries s).
  { intros Hin. destruct (wf_entry _ _ Hwf Hin). congruence. }
  destruct (admission_ok (put_task a (new_task k str) s) a (new_task k str) u)
    as (total & Htot & Hadm); [by apply wf_put_fresh|apply put_task_lookup|done|].
  exists total. split.
  - rewrite <-Htot. symmetry. by apply add_utilization_frame.
  - pose proof (registration_check_eq k buf str a s Ha Hstr) as Hchk. rewrite Hadm in Hchk.
    unfold registration. rewrite (bind_ok _ _ _ _ _ _ Hchk). cbn [fst snd].
    unfold registration_commit. case_decide as Hle.
    + rewrite bool_decide_true by done. run. done.
    + rewrite bool_decide_false by done. run. by rewrite put_free_id.
Qed.

(** ** Deregistration *)

Definition removed (a : addr) s : state :=
  State (delete a (tasks s)) (list_del a (head s))
    (if decide (running_mptask s = Some a) then None else running_mptask s).

Lemma removed_entries a s :
  wf s → a ∈ entries s → entries (removed a s) = filter (.≠ a) (entries s).
Proof. intros [[Hnd _] _ _ _] Ha. unfold entries, removed; cbn. by apply entries_del. Qed.

Lemma removed_wf a s : wf s → a ∈ entries s → wf (removed a s).
Proof.
  intros Hwf Ha. pose proof (removed_entries a s Hwf Ha) as Hes.
  destruct Hwf as [Hl Hr Hut Htd]. split; rewrite ?Hes.
  - by apply list_wf_del.
  - intros r. cbn. case_decide; [done|]. intros Hrr. apply list_elem_of_filter.
    split; [congruence|by apply Hr].
  - intros b m [Hne Hb]%list_elem_of_filter. cbn. rewrite lookup_delete_ne by done. by eauto.
  - intros b m [Hne Hb]%list_elem_of_filter. cbn. rewrite lookup_delete_ne by done. by eauto.
Qed.

Lemma removed_state a n s :
  free_task a (set_head (list_del a (head (put_task a n s))) (put_task a n s)) =
  State (delete a (tasks s)) (list_del a (head s)) (running_mptask s).
Proof. unfold free_task, set_head, put_task. cbn. by rewrite delete_insert_eq. Qed.

Definition deregister_trace (a : addr) s : list kcall :=
  [Kspin_lock; Klist_for_each; Kdel_timer (Some a); Klist_del a; Kkfree a] ++
  (if decide (running_mptask s = Some a) then [Kwake_up_process Dispatcher] else []) ++
  [Kspin_unlock].

Lemma de_registration_eq k buf p s :
  wf s → scan_pid k buf = Ok p →
  (∃ a n, first_with (λ n, pid n = p) (tasks s) (entries s) a ∧ tasks s !! a = Some n ∧
     de_registration k buf s = Ok (tt, removed a s, deregister_trace a s)) ∨
  ((∀ a n, a ∈ entries s → tasks s !! a = Some n → pid n ≠ p) ∧
   de_registration k buf s = Fault NullDeref).
Proof.
  intros Hwf Hp. destruct (get_task_ok s p Hwf) as (r & Hget & Hr).
  destruct r as [a|].
  - left. destruct (first_with_elem _ _ _ _ Hr) as (Ha & n & Hn & _).
    exists a, n. split; [done|]. split; [done|].
    pose proof (store_live _ _ (with_state SLEEPING) _ Hn) as Hs1.
    pose proof (store_live _ _ (with_timer None) _
      (put_task_lookup s a (with_state SLEEPING n))) as Hs2.
    rewrite put_task_twice in Hs2.
    unfold de_registration, removed, deregister_trace. run. rewrite removed_state.
    cbn [running_mptask tasks head].
    destruct (decide (running_mptask s = Some a)); run; done.
  - right. split; [done|]. unfold de_registration. run. done.
Qed.

(** ** The timer callback *)

Lemma timer_callback_eq p s :
  wf s →
  (∃ a n, first_with (λ n, pid n = p) (tasks s) (entries s) a ∧ tasks s !! a = Some n ∧
     _timer_callback p s = Ok (tt, put_task a (with_state READY n) s,
       [Kspin_lock_irqsave; Klist_for_each; Kspin_unlock_irqrestore;
        Kwake_up_process Dispatcher])) ∨
  ((∀ a n, a ∈ entries s → tasks s !! a = Some n → pid n ≠ p) ∧
   _timer_callback p s = Fault NullDeref).
Proof.
  intros Hwf. destruct (get_task_ok s p Hwf) as (r & Hget & Hr).
  destruct r as [a|].
  - left. destruct (first_with_elem _ _ _ _ Hr) as (Ha & n & Hn & _).
    exists a, n. split; [done|]. split; [done|].
    pose proof (store_live _ _ (with_state READY) _ Hn) as Hs1.
    unfold _timer_callback. run. done.
  - right. split; [done|]. unfold _timer_callback. run. done.
Qed.

(** ** Yield *)

(** The next release computed by a yield at tick [j]. *)
Definition release (j : Z) (n : mp_task_struct) : Z :=
  let wait := msecs_to_jiffies (uint32 (period n)) in
  uint64 (next_period n + (if decide (next_period n = 0) then j + wait else wait)).

Definition yielded (k : answers) (n : mp_task_struct) : mp_task_struct :=
  let next := release (jiffies k) n in
  if decide (next < jiffies_again k) then with_next_period next n
  else with_state SLEEPING (with_timer (Some next) (with_next_period next n)).

(** What a yield of the listed task [a] does; a NULL thread is only noticed
    when the task is put to sleep. *)
Definition yield_outcome (k : answers) (a : addr) (n : mp_task_struct) s :
    outcome (unit * state * list kcall) :=
  let next := release (jiffies k) n in
  if decide (next < jiffies_again k) then
    Ok (tt, put_task a (yielded k n) s, [Klist_for_each])
  else match task n with
       | Some t =>
           Ok (tt, put_task a (yielded k n) s,
               [Klist_for_each; Kmod_timer (Some a) next; Kwake_up_process Dispatcher;
                Kset_task_interruptible t; Kschedule])
       | None => Fault NullDeref
       end.

(** The search, and the rest on a live object. *)
Lemma yield_find_eq k buf p s :
  wf s → scan_pid k buf = Ok p →
  ∃ r, yield_find k buf s = Ok (r, s, [Klist_for_each]) ∧
    match r with
    | Some a => first_with (λ n, pid n = p) (tasks s) (entries s) a
    | None => ∀ a n, a ∈ entries s → tasks s !! a = Some n → pid n ≠ p
    end.
Proof.
  intros Hwf Hp. destruct (get_task_ok s p Hwf) as (r & Hget & Hr).
  exists r. split; [|done]. unfold yield_find. run. done.
Qed.

Lemma yield_advance_eq k a n s :
  tasks s !! a = Some n →
  yield_advance msecs_to_jiffies k (Some a) s =
    Ok (negb (bool_decide (release (jiffies k) n < jiffies_again k)),
        put_task a (with_next_period (release (jiffies k) n) n) s, []).
Proof.
  intros Hn. pose proof (load_live _ _ _ Hn) as Hld.
  pose proof (store_live _ _ (with_next_period (release (jiffies k) n)) _ Hn) as Hs1.
  unfold yield_advance. run. fold (release (jiffies k) n). by rewrite Hs1.
Qed.

Lemma yield_program_eq a n s :
  tasks s !! a = Some n →
  yield_program (Some a) s =
    Ok (tt, put_task a (with_timer (Some (next_period n)) n) s,
        [Kmod_timer (Some a) (next_period n)]).
Proof.
  intros Hn. pose proof (load_live _ _ _ Hn) as Hld.
  pose proof (store_live _ _ (with_timer (Some (next_period n))) _ Hn) as Hs1.
  unfold yield_program. run. done.
Qed.

Lemma yield_sleep_eq a n s :
  tasks s !! a = Some n →
  yield_sleep (Some a) s =
    match task n with
    | Some t =>
        Ok (tt, put_task a (with_state SLEEPING n) s,
            [Kwake_up_process Dispatcher; Kset_task_interruptible t; Kschedule])
    | None => Fault NullDeref
    end.
Proof.
  intros Hn. pose proof (store_live _ _ (with_state SLEEPING) _ Hn) as Hs1.
  pose proof (load_live _ _ _ (put_task_lookup s a (with_state SLEEPING n))) as Hld.
  unfold yield_sleep. run. cbn [with_state task]. by destruct (task n); run.
Qed.

(** The parts of a yield that succeed found a live object. *)
Lemma load_inv p s n s' t :
  load p s = Ok (n, s', t) → ∃ a, p = Some a ∧ tasks s !! a = Some n ∧ s' = s ∧ t = [].
Proof.
  unfold load. run. destruct p as [a|]; cbn; [|done].
  destruct (tasks s !! a) as [m|] eqn:Hm; cbn; [|done]. unfold lift. intros [= -> <- <-]. eauto.
Qed.

Lemma yield_finish_eq k a n s :
  tasks s !! a = Some n →
  prepend [Klist_for_each] (yield_finish msecs_to_jiffies k (Some a) s) = yield_outcome k a n s.
Proof.
  intros Hn. pose proof (yield_advance_eq k a n s Hn) as H1.
  set (n1 := with_next_period (release (jiffies k) n) n) in *.
  pose proof (yield_program_eq a n1 (put_task a n1 s) (put_task_lookup s a n1)) as H2.
  rewrite put_task_twice in H2.
  pose proof (yield_sleep_eq a _ _ (put_task_lookup s a (with_timer (Some (next_period n1)) n1))) as H3.
  rewrite put_task_twice in H3. unfold yield_finish, yield_outcome, yielded.
  rewrite (bind_ok _ _ _ _ _ _ H1). case_bool_decide as Hlt; cbn [negb].
  - rewrite !decide_True by done. done.
  - rewrite !decide_False by done. rewrite (bind_ok _ _ _ _ _ _ H2), H3.
    cbn [n1 with_timer with_next_period task]. by destruct (task n).
Qed.

Lemma yield_handle_eq k buf p s :
  wf s → scan_pid k buf = Ok p →
  (∃ a n, first_with (λ n, pid n = p) (tasks s) (entries s) a ∧ tasks s !! a = Some n ∧
     yield_handle msecs_to_jiffies k buf s = yield_outcome k a n s) ∨
  ((∀ a n, a ∈ entries s → tasks s !! a = Some n → pid n ≠ p) ∧
   yield_handle msecs_to_jiffies k buf s = Fault NullDeref).
Proof.
  intros Hwf Hp. destruct (yield_find_eq k buf p s Hwf Hp) as (r & Hfind & Hr).
  unfold yield_handle. rewrite (bind_ok _ _ _ _ _ _ Hfind). destruct r as [a|].
  - left. destruct (first_with_elem _ _ _ _ Hr) as (Ha & n & Hn & _).
    exists a, n. split; [done|]. split; [done|]. by apply yield_finish_eq.
  - right. split; [done|]. done.
Qed.

Lemma yielded_same k n : same_task n (yielded k n).
Proof. unfold yielded. case_decide; repeat split. Qed.
End ops.
