(* ===== verification/Mp2Admission.v ===== *)
(** * MP2: admission control

    The integer utilisation test against the sum it stands for: exact and
    preserved by sequential registrations as long as no processing time leaves
    the range of the product, fooled by the overflow of the product, and
    overrun by two registrations whose tests interleave. *)
From Stdlib Require Import Ascii String.
From stdpp Require Import prelude gmap.
From S2P Require Import Prelude CInt CText Kernel Mp2 Mp2Facts Mp2Ops.
Open Scope Z_scope.

(** Parts per million of the processor a task asks for, rounded down. *)
Definition util (n : mp_task_struct) : Z := processing_time n * 1000000 / period n.

(** Processing times whose product with 1000000 fits an [int]. *)
Definition benign (n : mp_task_struct) : Prop :=
  0 ≤ processing_time n ≤ 2147 ∧ 0 < period n.

#[export] Instance benign_dec n : Decision (benign n).
Proof. unfold benign. apply _. Defined.

Fixpoint total_util (h : gmap addr mp_task_struct) (es : list addr) : Z :=
  match es with
  | [] => 0
  | e :: es' => match h !! e with Some n => util n | None => 0 end + total_util h es'
  end.

Lemma utilization_benign n : benign n → utilization n = Ok (util n).
Proof.
  intros [Hc Hp]. unfold utilization. rewrite int32_small.
  - apply cdiv32_pos; lia.
  - red. change (2 ^ (32 - 1)) with 2147483648. lia.
Qed.

Lemma util_bounds n : benign n → 0 ≤ util n ≤ 2147000000.
Proof.
  intros [Hc Hp]. unfold util. split; [apply Z.div_pos; lia|].
  etrans; [apply Z.div_le_upper_bound with (q := processing_time n * 1000000)|]; nia.
Qed.

(** The floor loses less than one part per million. *)
Lemma util_floor n :
  benign n → processing_time n * 1000000 < (util n + 1) * period n.
Proof.
  intros [Hc Hp]. unfold util.
  pose proof (Z.mul_succ_div_gt (processing_time n * 1000000) (period n) Hp). lia.
Qed.

Definition all_benign (h : gmap addr mp_task_struct) (es : list addr) : Prop :=
  ∀ a n, a ∈ es → h !! a = Some n → benign n.

Lemma total_util_nonneg h es : all_benign h es → 0 ≤ total_util h es.
Proof.
  induction es as [|e es IH]; intros Hb; cbn [total_util]; [lia|].
  assert (0 ≤ total_util h es) by (apply IH; intros a n ?; apply Hb; by right).
  destruct (h !! e) as [n|] eqn:He; [|lia].
  pose proof (util_bounds n (Hb e n (list_elem_of_here _ _) He)). lia.
Qed.

(** The accumulation loop computes the sum when the sum fits the
    [unsigned long] it is kept in. *)
Lemma add_utilization_exact h es total :
  list_wf es h → all_benign h es → 0 ≤ total → total + total_util h es < 2 ^ 64 →
  add_utilization h es total = Ok (total + total_util h es).
Proof.
  revert total. induction es as [|e es IH]; intros total Hwf Hb Ht Hmax;
    cbn [add_utilization total_util] in *; [by rewrite Z.add_0_r|].
  destruct (list_wf_head _ _ _ Hwf) as [n Hn]. rewrite Hn in *.
  rewrite (deref_live _ _ n) by done. cbv [mbind outcome_bind].
  pose proof (Hb e n (list_elem_of_here _ _) Hn) as Hbn.
  rewrite utilization_benign by done.
  assert (Hb' : all_benign h es) by (intros a m ?; apply Hb; by right).
  pose proof (util_bounds n Hbn). pose proof (total_util_nonneg h es Hb').
  rewrite uint64_small by (red; lia).
  rewrite IH; [f_equal; lia|by eapply list_wf_tail|done|lia|lia].
Qed.

(** Without a bound the sum wraps. *)
Lemma add_utilization_wraps h es total :
  list_wf es h → all_benign h es → is_uint 64 total →
  add_utilization h es total = Ok (uint64 (total + total_util h es)).
Proof.
  revert total. induction es as [|e es IH]; intros total Hwf Hb Ht;
    cbn [add_utilization total_util] in *; [by rewrite Z.add_0_r, uint64_small|].
  destruct (list_wf_head _ _ _ Hwf) as [n Hn]. rewrite Hn in *.
  rewrite (deref_live _ _ n) by done. cbv [mbind outcome_bind].
  rewrite utilization_benign by (by apply (Hb e); [left|]).
  rewrite IH; [|by eapply list_wf_tail|intros b m ?; apply Hb; by right|apply uint64_range].
  by rewrite uint64_add_l, Z.add_assoc.
Qed.

Lemma total_util_frame h es a n : a ∉ es → total_util (<[a:=n]> h) es = total_util h es.
Proof.
  induction es as [|e es IH]; intros Ha; cbn [total_util]; [done|].
  apply not_elem_of_cons in Ha as [Hne Ha]. by rewrite lookup_insert_ne, IH.
Qed.

Lemma all_benign_frame h es a n :
  a ∉ es → all_benign h es → all_benign (<[a:=n]> h) es.
Proof. intros Ha Hb b m Hin. rewrite lookup_insert_ne by (by intros ->). by apply Hb. Qed.

Section admission.
Context {KL : KList} {KLL : KListLaws KL}.
Implicit Types s : state.

Definition utilization_of s : Z := total_util (tasks s) (entries s).

(** The contract of admission control: only benign tasks are listed and
    together they ask for at most 69.3 percent of the processor. *)
Record budget s : Prop := {
  budget_benign : all_benign (tasks s) (entries s);
  budget_bound : utilization_of s ≤ 693000;
}.

Lemma fresh_unlisted s a : wf s → tasks s !! a = None → a ∉ entries s.
Proof. intros Hwf Ha Hin. destruct (wf_entry _ _ Hwf Hin). congruence. Qed.

(** The test of an object that is not listed. *)
Lemma admission_exact s a n :
  wf s → a ∉ entries s → benign n → all_benign (tasks s) (entries s) →
  util n + utilization_of s < 2 ^ 64 →
  admission_control a (put_task a n s) =
    Ok (bool_decide (util n + utilization_of s ≤ 693000), put_task a n s, admission_trace).
Proof.
  intros Hwf Ha Hbn Hb Hmax.
  destruct (admission_ok (put_task a n s) a n (util n)) as (total & Htot & ->);
    [by apply wf_put_fresh|apply put_task_lookup|by apply utilization_benign|].
  pose proof (util_bounds n Hbn) as Hu. rewrite uint64_small in Htot by (red; lia).
  pose proof (add_utilization_frame (tasks s) (entries s) (util n) a n Ha) as Hf.
  rewrite (add_utilization_exact (tasks s)) in Hf by (by apply wf_list || done || lia).
  assert (Ok total = Ok (util n + utilization_of s)) as [= ->] by (rewrite <-Htot; exact Hf).
  done.
Qed.

Lemma listed_util s a n :
  wf s → tasks s !! a = None →
  utilization_of (listed a n s) = util n + utilization_of s.
Proof.
  intros Hwf Ha. unfold utilization_of. rewrite listed_entries by done.
  cbn [total_util listed tasks set_head put_task]. rewrite lookup_insert_eq.
  by rewrite total_util_frame by (by apply fresh_unlisted).
Qed.

Lemma listed_benign s a n :
  wf s → tasks s !! a = None → benign n → all_benign (tasks s) (entries s) →
  all_benign (tasks (listed a n s)) (entries (listed a n s)).
Proof.
  intros Hwf Ha Hbn Hb. rewrite listed_entries by done.
  intros b m [->|Hin]%elem_of_cons.
  - cbn [listed tasks set_head put_task]. rewrite lookup_insert_eq. by intros [= <-].
  - by apply (all_benign_frame (tasks s) (entries s) a n); [apply fresh_unlisted| |].
Qed.

(** A whole registration of a benign task within a budget. *)
Lemma registration_budget k buf str a s :
  wf s → budget s → new_object k = Some a → tasks s !! a = None →
  c_str (drop 3 buf) = Ok str → benign (new_task k str) →
  ∃ t, registration k buf s =
    Ok (tt, if decide (util (new_task k str) + utilization_of s ≤ 693000)
            then listed a (new_task k str) s else s, t) ∧ disciplined t ∧
    sleeps t = [].
Proof.
  intros Hwf [Hb Hmax] Ha Hfresh Hstr Hbn.
  pose proof (util_bounds _ Hbn) as Hu.
  destruct (registration_eq k buf str a s (util (new_task k str)) Hwf Ha Hfresh Hstr)
    as (total & Htot & ->); [by apply utilization_benign|].
  rewrite uint64_small in Htot by (red; lia).
  rewrite add_utilization_exact in Htot
    by (first [by apply wf_list|done|fold (utilization_of s); lia]).
  injection Htot as <-. fold (utilization_of s). case_decide; by eexists.
Qed.

(** ** Properties *)

(** C7: The setting: the task a registration request parses to and all listed
    tasks are benign, that is need between 0 and 2147 ms of a positive period;
    the listed utilisations sum to at most 693000 parts per million; nothing
    interrupts the request.  Then the task is accepted exactly when the sum with
    its own utilisation is at most 693000: its object becomes the first entry;
    otherwise the object is freed and nothing else changes.  Either way the
    setting and the well-formedness of the module hold afterwards. *)
Theorem registration_keeps_budget k buf str a s :
  let n := new_task k str in
  wf s → budget s → new_object k = Some a → tasks s !! a = None →
  c_str (drop 3 buf) = Ok str → benign n →
  ∃ s' t, registration k buf s = Ok (tt, s', t) ∧ disciplined t ∧ wf s' ∧ budget s' ∧
    (util n + utilization_of s ≤ 693000 →
       entries s' = a :: entries s ∧ tasks s' = <[a := n]> (tasks s)) ∧
    (693000 < util n + utilization_of s → s' = s).
Proof.
  intros n Hwf Hbud Ha Hfresh Hstr Hbn.
  destruct (registration_budget k buf str a s Hwf Hbud Ha Hfresh Hstr Hbn) as (t & Heq & Ht & _).
  fold n in Heq. do 2 eexists. split; [exact Heq|]. split; [done|].
  case_decide as Hle; [|split; [done|split; [done|split; [lia|done]]]].
  split; [|split; [|split; [|lia]]].
  - apply listed_wf; [done|done| |done]. by rewrite utilization_benign.
  - destruct Hbud as [Hb _]. split; [by apply listed_benign|]. by rewrite listed_util.
  - intros _. by rewrite listed_entries.
Qed.

(** The two effects of a processing time outside the range of the product. *)
Lemma admission_wraps s a n u :
  wf s → budget s → a ∉ entries s → utilization n = Ok u →
  admission_control a (put_task a n s) =
    Ok (bool_decide (uint64 (u + utilization_of s) ≤ 693000), put_task a n s, admission_trace).
Proof.
  intros Hwf [Hb _] Ha Hu.
  destruct (admission_ok (put_task a n s) a n u) as (total & Htot & ->);
    [by apply wf_put_fresh|apply put_task_lookup|done|].
  pose proof (add_utilization_frame (tasks s) (entries s) (uint64 u) a n Ha) as Hf.
  rewrite (add_utilization_wraps (tasks s)) in Hf
    by (first [by apply wf_list|done|apply uint64_range]).
  rewrite uint64_add_l in Hf.
  assert (Ok total = Ok (uint64 (u + utilization_of s))) as [= ->] by (rewrite <-Htot; exact Hf).
  done.
Qed.

(** C37: The product [processing_time * 1000000] wraps in its [int]: a task
    that needs 4295 of every 5000 milliseconds counts as 6 parts per million
    and is accepted by any list with that much room.  And a negative processing
    time, which the application sends when its measurement crosses a second, is
    accepted exactly when the listed tasks already use as much as it takes off
    the sum. *)
Theorem admission_overflow s a th p c per :
  let n := MpTask th None p SLEEPING 0 p 5000 4295 in
  let m := MpTask th None p SLEEPING 0 p per c in
  wf s → budget s → a ∉ entries s →
  (utilization_of s ≤ 692994 →
   admission_control a (put_task a n s) = Ok (true, put_task a n s, admission_trace) ∧
   processing_time n * 1000000 / period n = 859000) ∧
  (-2147 ≤ c < 0 → 0 < per →
   admission_control a (put_task a m s) =
     Ok (bool_decide (- Z.quot (c * 1000000) per ≤ utilization_of s), put_task a m s,
         admission_trace)).
Proof.
  intros n m Hwf Hbud Ha. pose proof Hbud as [Hb Hmax].
  pose proof (total_util_nonneg _ _ Hb) as Hpos. fold (utilization_of s) in Hpos. split.
  - intros Hroom. split; [|done]. rewrite (admission_wraps s a n 6) by done.
    rewrite uint64_small by (red; change (2 ^ 64) with 18446744073709551616; lia).
    by rewrite bool_decide_true by lia.
  - intros Hc Hper. set (u := Z.quot (c * 1000000) per).
    assert (Hu : utilization m = Ok u).
    { unfold utilization, m. cbn [processing_time period].
      rewrite int32_small by (red; change (2 ^ (32 - 1)) with 2147483648; lia).
      unfold cdiv32. by rewrite !decide_False by lia. }
    assert (Hrange : -2147000000 ≤ u ≤ 0).
    { unfold u. pose proof (Z.quot_opp_l (c * 1000000) per ltac:(lia)) as Ho.
      pose proof (Z.quot_pos (- (c * 1000000)) per).
      pose proof (Z.quot_le_upper_bound (- (c * 1000000)) per 2147000000). nia. }
    rewrite (admission_wraps s a m u) by done. do 3 f_equal. apply bool_decide_ext.
    unfold uint64, wrap. change (2 ^ 64) with 18446744073709551616.
    destruct (decide (0 ≤ u + utilization_of s)); [rewrite Z.mod_small by lia; lia|].
    rewrite <-(Z_mod_plus_full _ 1), Z.mod_small by lia. lia.
Qed.

(** The test and the insertion of a registration are two critical
    sections: when the tests of two requests both run before either insertion,
    both tasks are admitted, whatever their sum. *)
Theorem registration_race k1 k2 buf1 buf2 str1 str2 a1 a2 s :
  let n1 := new_task k1 str1 in let n2 := new_task k2 str2 in
  wf s → budget s → a1 ≠ a2 →
  new_object k1 = Some a1 → tasks s !! a1 = None →
  new_object k2 = Some a2 → tasks s !! a2 = None →
  c_str (drop 3 buf1) = Ok str1 → c_str (drop 3 buf2) = Ok str2 →
  benign n1 → benign n2 →
  util n1 + utilization_of s ≤ 693000 → util n2 + utilization_of s ≤ 693000 →
  ∃ s1 t1 s2 t2 s3 t3 s4 t4,
    registration_check k1 buf1 s = Ok ((a1, true), s1, t1) ∧
    registration_check k2 buf2 s1 = Ok ((a2, true), s2, t2) ∧
    registration_commit a1 true s2 = Ok (tt, s3, t3) ∧
    registration_commit a2 true s3 = Ok (tt, s4, t4) ∧
    utilization_of s4 = util n1 + util n2 + utilization_of s.
Proof.
  intros n1 n2 Hwf [Hb Hmax] Hne Hk1 Hf1 Hk2 Hf2 Hs1 Hs2 Hb1 Hb2 Hu1 Hu2.
  pose proof (util_bounds _ Hb1). pose proof (util_bounds _ Hb2).
  pose proof (fresh_unlisted s a1 Hwf Hf1) as Hu1'.
  pose proof (fresh_unlisted s a2 Hwf Hf2) as Hu2'.
  assert (Hwf1 : wf (put_task a1 n1 s)) by (by apply wf_put_fresh).
  assert (Hsame : utilization_of (put_task a1 n1 s) = utilization_of s).
  { by apply total_util_frame. }
  pose proof (registration_check_eq k1 buf1 str1 a1 s Hk1 Hs1) as He1.
  fold n1 in He1. rewrite admission_exact, bool_decide_true in He1 by (done || lia).
  pose proof (registration_check_eq k2 buf2 str2 a2 (put_task a1 n1 s) Hk2 Hs2) as He2.
  fold n2 in He2. rewrite admission_exact, bool_decide_true in He2
    by (rewrite ?Hsame; first [done | lia | by apply all_benign_frame]).
  do 8 eexists. split; [exact He1|]. split; [exact He2|]. split; [reflexivity|].
  split; [reflexivity|].
  assert (Hent : list_for_each (list_add a1 (head s)) = a1 :: entries s) by (by apply entries_add).
  unfold utilization_of, entries. cbn [set_head put_task head tasks].
  rewrite entries_add, Hent by (rewrite Hent; set_solver).
  cbn [total_util]. rewrite lookup_insert_eq, lookup_insert_ne, lookup_insert_eq by done.
  rewrite !total_util_frame by done. fold (utilization_of s). fold (entries s). fold (utilization_of s). lia.
Qed.
End admission.

(** ** Concrete instances *)

Definition ex_answers (a : addr) : answers :=
  Answers (Some a) (MpTask None None 0 0 0 (-1) (-1) (-1)) 0 1000 1000 (λ nr, Some 99%positive).

Definition ex_buf (s : string) : text := lit s ++ [NL; NUL].

Lemma init_wf : wf (KL := seq_klist) init_state.
Proof.
  split; [by apply list_wfb_ok|done|..]; intros ???%not_elem_of_nil; done.
Qed.

Lemma init_budget : budget (KL := seq_klist) init_state.
Proof. split; [intros ???%not_elem_of_nil; done|by vm_compute]. Qed.

(** The state after process 42 has registered for half of the processor. *)
Definition ex_half : @state seq_klist :=
  listed 5 (MpTask (Some 99%positive) None 42 SLEEPING 0 42 100 50) init_state.

Lemma ex_half_wf : wf ex_half.
Proof. apply (listed_wf (KLL := seq_klist_laws)); [apply init_wf|done..]. Qed.

Lemma ex_half_budget : budget ex_half.
Proof.
  split; [|vm_compute; discriminate]. intros a n Ha.
  apply elem_of_cons in Ha as [->|Ha]; [|by apply not_elem_of_nil in Ha].
  intros [= <-]. apply (bool_decide_unpack _). vm_compute. exact I.
Qed.

(** Beside it a task of 10 percent is accepted and one of 20 percent rejected. *)
Lemma registration_keeps_budget_witness :
  (∃ s' t, registration (ex_answers 6) (ex_buf "R, 43, 100, 10") ex_half = Ok (tt, s', t) ∧
     wf s' ∧ budget s' ∧ entries s' = [6%positive; 5%positive]) ∧
  (∃ s' t, registration (ex_answers 6) (ex_buf "R, 43, 100, 20") ex_half = Ok (tt, s', t) ∧
     s' = ex_half).
Proof.
  split.
  - destruct (registration_keeps_budget (KLL := seq_klist_laws) (ex_answers 6)
      (ex_buf "R, 43, 100, 10") (lit "43, 100, 10" ++ [NL]) 6 ex_half)
      as (s' & t & Heq & _ & Hwf & Hbud & Hyes & _);
      [apply ex_half_wf|apply ex_half_budget|reflexivity|reflexivity|reflexivity| |].
    { apply (bool_decide_unpack _). vm_compute. exact I. }
    exists s', t. split; [exact Heq|]. split; [exact Hwf|]. split; [exact Hbud|].
    apply Hyes. vm_compute. discriminate.
  - destruct (registration_keeps_budget (KLL := seq_klist_laws) (ex_answers 6)
      (ex_buf "R, 43, 100, 20") (lit "43, 100, 20" ++ [NL]) 6 ex_half)
      as (s' & t & Heq & _ & _ & _ & _ & Hno);
      [apply ex_half_wf|apply ex_half_budget|reflexivity|reflexivity|reflexivity| |].
    { apply (bool_decide_unpack _). vm_compute. exact I. }
    exists s', t. split; [exact Heq|]. apply Hno. reflexivity.
Defined.

Lemma admission_overflow_witness :
  let n := MpTask None None 7 SLEEPING 0 7 5000 4295 in
  let m := MpTask None None 7 SLEEPING 0 7 100 (-20) in
  let s : @state seq_klist := init_state in
  admission_control 5 (put_task 5 n s) = Ok (true, put_task 5 n s, admission_trace) ∧
  admission_control 5 (put_task 5 m s) = Ok (false, put_task 5 m s, admission_trace).
Proof.
  destruct (admission_overflow (KL := seq_klist) init_state 5 None 7 (-20) 100) as [H1 H2];
    [apply init_wf|apply init_budget|apply not_elem_of_nil|].
  split; [apply H1; vm_compute; discriminate|].
  apply (H2 ltac:(lia) ltac:(lia)).
Defined.

Lemma registration_race_witness :
  let s : @state seq_klist := init_state in
  ∃ s1 t1 s2 t2 s3 t3 s4 t4,
    registration_check (ex_answers 5) (ex_buf "R, 42, 100, 50") s = Ok ((5%positive, true), s1, t1) ∧
    registration_check (ex_answers 6) (ex_buf "R, 43, 100, 60") s1 = Ok ((6%positive, true), s2, t2) ∧
    registration_commit 5 true s2 = Ok (tt, s3, t3) ∧
    registration_commit 6 true s3 = Ok (tt, s4, t4) ∧
    utilization_of s4 = 500000 + 600000 + 0.
Proof.
  intros s.
  apply (registration_race (KLL := seq_klist_laws) (ex_answers 5) (ex_answers 6)
           (ex_buf "R, 42, 100, 50") (ex_buf "R, 43, 100, 60")
           (lit "42, 100, 50" ++ [NL]) (lit "43, 100, 60" ++ [NL]) 5 6 s);
    [apply init_wf|apply init_budget|discriminate|reflexivity|reflexivity|reflexivity
    |reflexivity|reflexivity|reflexivity| | |vm_compute; discriminate|vm_compute; discriminate].
  all: apply (bool_decide_unpack _); vm_compute; exact I.
Defined.
