(* ===== verification/Mp2System.v ===== *)
(** * MP2: the module as a transition system

    Requests, timers and dispatcher wake-ups in any order, each cut where
    another can come in between: a registration between its test and its
    insertion, a yield around each of its unlocked accesses, a timer between its
    expiry and its callback.  What holds in every reachable state. *)
From Stdlib Require Import Ascii String.
From stdpp Require Import prelude gmap.
From S2P Require Import Prelude CInt CText Kernel Mp2 Mp2Facts Mp2Sched Mp2Ops Mp2Admission.
Open Scope Z_scope.

(** A step of the dispatcher or of a timer keeps the parameters of a task and
    its next release. *)
Definition kept (n m : mp_task_struct) : Prop := same_task n m ∧ next_period m = next_period n.

#[export] Instance same_task_preorder : PreOrder same_task.
Proof. unfold same_task. split; red; [done|naive_solver congruence]. Qed.

#[export] Instance kept_preorder : PreOrder kept.
Proof.
  split; [by split|]. intros n m l [H1 H2] [H3 H4]. split; [by etrans|congruence].
Qed.

Section system.
Context {KL : KList} {KLL : KListLaws KL}.
Context (msecs_to_jiffies : Z → Z).
Implicit Types s : state.

(** The fields of a task that are read from its registration hold an [int]. *)
Definition int_fields (n : mp_task_struct) : Prop :=
  is_sint 32 (pid n) ∧ is_sint 32 (period n) ∧ is_sint 32 (processing_time n).

(** A fresh object is not one that is in use; whatever its memory holds, an
    [int] field reads as an [int]. *)
Definition fresh_object (k : answers) s : Prop :=
  ∀ a, new_object k = Some a → tasks s !! a = None ∧ int_fields (garbage k).

(** The kernel deactivates the timer of [a] when it expires. *)
Definition expire (a : addr) (n : mp_task_struct) : kern state unit :=
  modify (put_task a (with_timer None n)).

(** Expiry and callback. *)
Definition fire (a : addr) (n : mp_task_struct) : kern state unit :=
  expire a n ;;
  _timer_callback (timer_data n).

(** ** The system *)

(** What has begun and not ended: a registration that has made its test, a
    yield that has found its object, seen that the release is not past, or
    programmed the timer, and a timer that has expired. *)
Inductive pending : Type :=
  | Tested (a : addr) (ok : bool)
  | Found (k : answers) (task_to_yield : option addr)
  | InTime (task_to_yield : option addr)
  | Programmed (task_to_yield : option addr)
  | Expired (data : Z).

Record system : Type := System { module : state; in_flight : list pending }.

Definition loaded : system := System init_state [].

(** One uninterrupted stretch of code.  A stretch that faults is no step. *)
Inductive step : system → system → Prop :=
  | step_test k buf r s s' t l :
      fresh_object k s → registration_check k buf s = Ok (r, s', t) →
      step (System s l) (System s' (Tested r.1 r.2 :: l))
  | step_commit a ok s s' t l1 l2 :
      registration_commit a ok s = Ok (tt, s', t) →
      step (System s (l1 ++ Tested a ok :: l2)) (System s' (l1 ++ l2))
  | step_find k buf r s s' t l :
      yield_find k buf s = Ok (r, s', t) → step (System s l) (System s' (Found k r :: l))
  | step_late k r s s' t l1 l2 :
      yield_advance msecs_to_jiffies k r s = Ok (false, s', t) →
      step (System s (l1 ++ Found k r :: l2)) (System s' (l1 ++ l2))
  | step_in_time k r s s' t l1 l2 :
      yield_advance msecs_to_jiffies k r s = Ok (true, s', t) →
      step (System s (l1 ++ Found k r :: l2)) (System s' (l1 ++ InTime r :: l2))
  | step_program r s s' t l1 l2 :
      yield_program r s = Ok (tt, s', t) →
      step (System s (l1 ++ InTime r :: l2)) (System s' (l1 ++ Programmed r :: l2))
  | step_sleep r s s' t l1 l2 :
      yield_sleep r s = Ok (tt, s', t) →
      step (System s (l1 ++ Programmed r :: l2)) (System s' (l1 ++ l2))
  | step_deregister k buf s s' t l :
      de_registration k buf s = Ok (tt, s', t) → step (System s l) (System s' l)
  | step_read buf count data r s s' t l :
      mp_read buf count data s = Ok (r, s', t) → step (System s l) (System s' l)
  | step_expire a n e s s' t l :
      tasks s !! a = Some n → task_timer n = Some e → expire a n s = Ok (tt, s', t) →
      step (System s l) (System s' (Expired (timer_data n) :: l))
  | step_callback d s s' t l1 l2 :
      _timer_callback d s = Ok (tt, s', t) →
      step (System s (l1 ++ Expired d :: l2)) (System s' (l1 ++ l2))
  | step_dispatch s s' t l :
      dispatch s = Ok (tt, s', t) → step (System s l) (System s' l).

(** ** Steps that only touch fields of tasks *)

Record evolves (R : relation mp_task_struct) s s' : Prop := {
  evolves_entries : entries s' = entries s;
  evolves_tasks : ∀ b, option_Forall2 R (tasks s !! b) (tasks s' !! b);
  evolves_running : ∀ r, running_mptask s' = Some r → running_mptask s = Some r ∨ r ∈ entries s;
}.

#[local] Instance evolves_preorder R : PreOrder R → PreOrder (evolves R).
Proof.
  intros HR. split.
  - intros s. split; [done| |by intros; left]. intros b. by destruct (tasks s !! b); constructor.
  - intros s1 s2 s3 [He1 Ht1 Hr1] [He2 Ht2 Hr2]. split; [congruence| |].
    + intros b. specialize (Ht1 b). specialize (Ht2 b).
      destruct Ht1 as [n m Hnm|]; inv Ht2; constructor. by etrans.
    + intros r [H|H]%Hr2; [by apply Hr1|]. right. by rewrite <-He1.
Qed.

Lemma evolves_mono (R R' : relation mp_task_struct) s s' :
  (∀ n m, R n m → R' n m) → evolves R s s' → evolves R' s s'.
Proof.
  intros Hsub [He Ht Hr]. split; [done| |done]. intros b. destruct (Ht b); constructor. auto.
Qed.

Lemma evolves_lookup R s s' a n :
  evolves R s s' → tasks s !! a = Some n → ∃ m, tasks s' !! a = Some m ∧ R n m.
Proof. intros [_ Ht _] Hn. specialize (Ht a). rewrite Hn in Ht. inv Ht. eauto. Qed.

Lemma evolves_lookup_inv R s s' a m :
  evolves R s s' → tasks s' !! a = Some m → ∃ n, tasks s !! a = Some n ∧ R n m.
Proof. intros [_ Ht _] Hm. specialize (Ht a). rewrite Hm in Ht. inv Ht. eauto. Qed.

Lemma evolves_put R s a n m :
  PreOrder R → tasks s !! a = Some n → R n m → evolves R s (put_task a m s).
Proof.
  intros HR Hn Hm. split; [done| |by intros; left]. intros b. cbn [tasks put_task]. rewrite lookup_insert.
  case_decide as Hab; [subst b; rewrite Hn; by constructor|].
  by destruct (tasks s !! b); constructor.
Qed.

Lemma evolves_set_running R s r :
  PreOrder R → r ∈ entries s → evolves R s (set_running (Some r) s).
Proof.
  intros HR Hr. split; [done| |intros r' [= <-]; by right].
  intros b. cbn [tasks set_running]. by destruct (tasks s !! b); constructor.
Qed.

Lemma kept_evolves s s' : evolves kept s s' → evolves same_task s s'.
Proof. apply evolves_mono. by intros n m []. Qed.

Lemma evolves_wf s s' : wf s → evolves same_task s s' → wf s'.
Proof.
  intros [[Hnd Hlive] Hr Hu Ht] Hev. pose proof (evolves_entries _ _ _ Hev) as He.
  split; rewrite ?He.
  - split; [done|]. intros b [n Hn]%Hlive.
    destruct (evolves_lookup _ _ _ _ _ Hev Hn) as (m & Hm & _). by eexists.
  - intros r [Hr'|Hr']%(evolves_running _ _ _ Hev); auto.
  - intros a m Ha Hm. destruct (evolves_lookup_inv _ _ _ _ _ Hev Hm) as (n & Hn & Hs).
    unfold utilization. destruct Hs as (_ & _ & _ & -> & ->). by apply (Hu a n).
  - intros a m Ha Hm. destruct (evolves_lookup_inv _ _ _ _ _ Hev Hm) as (n & Hn & Hs).
    destruct Hs as (_ & -> & -> & _). by apply (Ht a n).
Qed.

Lemma evolves_threads s s' : has_threads s → evolves same_task s s' → has_threads s'.
Proof.
  intros Hth Hev a m Ha Hm. rewrite (evolves_entries _ _ _ Hev) in Ha.
  destruct (evolves_lookup_inv _ _ _ _ _ Hev Hm) as (n & Hn & Hs). rewrite (proj1 Hs).
  by apply (Hth a n).
Qed.

(** The dispatcher on any well-formed state; its only fault is a NULL thread. *)
Lemma set_priority_pure p pol pr s :
  wp (__set_priority (Some p) pol pr) s (λ _ s' _, s' = s)
    (λ f, is_Some (tasks s !! p) → f = NullDeref).
Proof.
  unfold __set_priority, load. wp_go. unfold deref.
  destruct (tasks s !! p) as [n|]; cbn; [|by intros []]. wp_go.
  destruct (task n); [by wp_go|]. done.
Qed.

Lemma wp_store_evolves a f s (Q : unit → state → list kcall → Prop) F :
  is_Some (tasks s !! a) → (∀ n, kept n (f n)) → (∀ s', evolves kept s s' → Q tt s' []) →
  wp (store (Some a) f) s Q F.
Proof.
  intros [n Hn] Hf HQ. eapply wp_store; [done|]. apply HQ. by eapply evolves_put; [apply _| |].
Qed.

Lemma evolves_live s s' a :
  evolves kept s s' → is_Some (tasks s !! a) → is_Some (tasks s' !! a).
Proof. intros Hev [n Hn]. destruct (evolves_lookup _ _ _ _ _ Hev Hn) as (m & -> & _). by eexists. Qed.

Lemma preempt_evolves a s :
  wf s → a ∈ entries s →
  wp (preempt a) s (λ _ s' _, evolves kept s s') (λ f, f = NullDeref).
Proof.
  intros Hwf Ha. unfold preempt. wp_go.
  destruct (running_mptask s) as [r|] eqn:Hr; [|by wp_go].
  pose proof (wf_running _ Hwf _ Hr) as Hin.
  destruct (wf_entry _ _ Hwf Ha) as [n Hn]. destruct (wf_entry _ _ Hwf Hin) as [rn Hrn].
  wp_go. eapply wp_load; [done|]. wp_go. eapply wp_load; [done|].
  apply wp_if; intros _; [|by wp_go].
  wp_go. apply wp_store_evolves; [by eexists|by repeat split|]. intros s' Hev.
  eapply wp_mono; [apply set_priority_pure|by intros [] ? ? ->|].
  intros f Hf. apply Hf. by eapply evolves_live; [|eexists].
Qed.

(** A dispatch that picks [r]. *)
Lemma dispatch_picked s r :
  wf s → pick (tasks s) (entries s) None INT_MAX = Ok r → (∀ a, r = Some a → a ∈ entries s) →
  wp dispatch s
    (λ _ s' _, evolves kept s s' ∧ ∀ a n, r = Some a → tasks s !! a = Some n → is_Some (task n))
    (λ f, f = NullDeref).
Proof.
  intros Hwf Hpick Hr. unfold dispatch. wp_go. rewrite Hpick. wp_go. destruct r as [a|].
  - specialize (Hr a eq_refl). pose proof (wf_entry _ _ Hwf Hr) as Hlive.
    wp_go. eapply wp_mono; [by apply preempt_evolves| |done]. intros [] s1 t1 Hev1.
    wp_go. apply wp_store_evolves; [by eapply evolves_live|by repeat split|]. intros s2 Hev2.
    assert (Hev : evolves kept s s2) by (by etrans).
    destruct Hlive as [n Hn]. destruct (evolves_lookup _ _ _ _ _ Hev Hn) as (m & Hm & Hk).
    wp_go. eapply wp_load; [done|]. wp_go. destruct (task m) as [t|] eqn:Ht; [|done]. wp_go.
    eapply wp_mono; [apply set_priority_pure| |intros f Hf; apply Hf; by eexists].
    intros [] ? ? ->. wp_go. split.
    + etrans; [exact Hev|]. apply evolves_set_running; [apply _|].
      by rewrite (evolves_entries _ _ _ Hev).
    + intros b n' [= <-] Hn'. simplify_eq. rewrite <-(proj1 (proj1 Hk)), Ht. by eexists.
  - destruct (running_mptask s) as [b|] eqn:Hb; [|by wp_go]. wp_go.
    eapply wp_mono; [apply set_priority_pure|by intros [] ? ? ->; wp_go|].
    intros f Hf. apply Hf. by apply wf_running_entry.
Qed.

Lemma dispatch_evolves s s' t : wf s → dispatch s = Ok (tt, s', t) → evolves kept s s'.
Proof.
  intros Hwf Heq. destruct (pick_gen (tasks s) (entries s) None INT_MAX (wf_list _ Hwf))
    as (r & Hpick & Hr).
  pose proof (dispatch_picked s r Hwf Hpick) as Hwp. unfold wp in Hwp. rewrite Heq in Hwp.
  apply Hwp. intros a ->. destruct Hr as [[? _]|(? & [= <-] & l1 & l2 & n & -> & _)]; [done|].
  apply elem_of_middle.
Qed.

(** The dispatcher survives the task it picks only if that has a thread. *)
Lemma dispatch_threadless s a n :
  wf s → best (tasks s) (entries s) INT_MAX a → tasks s !! a = Some n → task n = None →
  dispatch s = Fault NullDeref.
Proof.
  intros Hwf Hbest Hn Hnone. pose proof (wf_list _ Hwf) as Hl.
  destruct (pick_gen (tasks s) (entries s) None INT_MAX Hl)
    as (r & Hpick & [[_ Hnb]|(b & -> & Hb)]); [by destruct (best_not_none_below _ _ _ _ Hl Hbest)|].
  assert (b = a) as -> by (by eapply best_unique).
  assert (Ha : a ∈ entries s) by (destruct Hbest as (l1 & l2 & m & -> & _); apply elem_of_middle).
  pose proof (dispatch_picked s (Some a) Hwf Hpick) as Hwp. unfold wp in Hwp.
  destruct (dispatch s) as [[[[] s'] t]|f].
  - destruct Hwp as [_ Hth]; [by intros ? [= <-]|].
    destruct (Hth a n eq_refl Hn) as [? ?]. congruence.
  - f_equal. apply Hwp. by intros ? [= <-].
Qed.

(** ** Timers *)

Lemma fire_eq a n s :
  fire a n s = _timer_callback (timer_data n) (put_task a (with_timer None n) s).
Proof. unfold fire. rewrite (bind_ok _ _ s tt (put_task a (with_timer None n) s) []) by done.
  apply prepend_nil. Qed.

(** The callback of a listed task finds an object with that pid. *)
Lemma fire_ok a n s :
  wf s → a ∈ entries s → tasks s !! a = Some n →
  ∃ b m, first_with (λ m, pid m = pid n) (tasks (put_task a (with_timer None n) s)) (entries s) b ∧
    tasks (put_task a (with_timer None n) s) !! b = Some m ∧
    fire a n s = Ok (tt, put_task b (with_state READY m) (put_task a (with_timer None n) s),
      [Kspin_lock_irqsave; Klist_for_each; Kspin_unlock_irqrestore;
       Kwake_up_process Dispatcher]).
Proof.
  intros Hwf Ha Hn. rewrite fire_eq, (wf_timer_data _ Hwf a n Ha Hn).
  assert (Hwf' : wf (put_task a (with_timer None n) s)) by (eapply wf_put; [done|done|repeat split]).
  destruct (timer_callback_eq (pid n) _ Hwf') as [(b & m & Hf & Hm & Heq)|[Hno _]].
  - by exists b, m.
  - exfalso. eapply (Hno a (with_timer None n)); [done|apply put_task_lookup|done].
Qed.

Lemma callback_evolves d s s' t :
  wf s → _timer_callback d s = Ok (tt, s', t) → evolves kept s s'.
Proof.
  intros Hwf Heq. destruct (timer_callback_eq d s Hwf) as [(a & n & _ & Hn & Heq')|[_ Heq']];
    rewrite Heq' in Heq; [|done]. simplify_eq. by apply (evolves_put _ _ _ n); [apply _| |].
Qed.

Lemma expire_evolves a n s : tasks s !! a = Some n → evolves kept s (put_task a (with_timer None n) s).
Proof. intros Hn. by apply (evolves_put _ _ _ n); [apply _| |]. Qed.

Lemma fire_evolves a n s s' t :
  wf s → tasks s !! a = Some n → fire a n s = Ok (tt, s', t) → evolves kept s s'.
Proof.
  intros Hwf Hn. rewrite fire_eq. intros Heq. pose proof (expire_evolves a n s Hn) as Hev.
  etrans; [exact Hev|]. eapply callback_evolves; [|done].
  eapply evolves_wf; [done|by apply kept_evolves].
Qed.

(** ** The parts of a yield *)

Lemma load_freed s a : tasks s !! a = None → load (Some a) s = Fault UseAfterFree.
Proof. intros Hn. unfold load. run. unfold deref. by rewrite Hn. Qed.

Lemma store_freed s a f : tasks s !! a = None → store (Some a) f s = Fault UseAfterFree.
Proof. intros Hn. unfold store. by rewrite (bind_fault _ _ _ _ (load_freed s a Hn)). Qed.

Lemma yield_advance_evolves k r s b s' t :
  yield_advance msecs_to_jiffies k r s = Ok (b, s', t) → evolves same_task s s'.
Proof.
  destruct r as [a|]; [|done]. destruct (tasks s !! a) as [n|] eqn:Hn.
  - rewrite (yield_advance_eq _ _ _ n) by done. intros [= _ <- _].
    by apply (evolves_put _ _ _ n); [apply _| |].
  - unfold yield_advance. by rewrite (bind_fault _ _ _ UseAfterFree) by (by apply load_freed).
Qed.

Lemma yield_program_evolves r s s' t :
  yield_program r s = Ok (tt, s', t) → evolves same_task s s'.
Proof.
  destruct r as [a|]; [|done]. destruct (tasks s !! a) as [n|] eqn:Hn.
  - rewrite (yield_program_eq _ n) by done. intros [= <- _].
    by apply (evolves_put _ _ _ n); [apply _| |].
  - unfold yield_program. by rewrite (bind_fault _ _ _ UseAfterFree) by (by apply load_freed).
Qed.

Lemma yield_sleep_evolves r s s' t :
  yield_sleep r s = Ok (tt, s', t) → evolves same_task s s'.
Proof.
  destruct r as [a|]; [|done]. destruct (tasks s !! a) as [n|] eqn:Hn.
  - rewrite (yield_sleep_eq _ n) by done. destruct (task n); [|done]. intros [= <- _].
    by apply (evolves_put _ _ _ n); [apply _| |].
  - unfold yield_sleep. by rewrite (bind_fault _ _ _ UseAfterFree) by (by apply store_freed).
Qed.

Lemma yield_find_pure k buf r s s' t : yield_find k buf s = Ok (r, s', t) → s' = s.
Proof.
  unfold yield_find, __get_task_by_pid. destruct (scan_pid k buf); run; [|done].
  destruct (find_first _ _ _); run; [|done]. by intros [= _ <- _].
Qed.

(** ** What a registration under way owns *)

Definition tested (l : list pending) : list addr :=
  omap (λ p, match p with Tested a _ => Some a | _ => None end) l.

(** The object passed or failed the test, is live and not listed. *)
Definition prepared s (a : addr) : Prop :=
  a ∉ entries s ∧ ∃ n, tasks s !! a = Some n ∧ is_ok (utilization n) = true ∧ timer_data n = pid n.

Record inv (y : system) : Prop := {
  inv_wf : wf (module y);
  inv_distinct : NoDup (tested (in_flight y));
  inv_prepared : ∀ a, a ∈ tested (in_flight y) → prepared (module y) a;
}.

Lemma tested_app l1 l2 : tested (l1 ++ l2) = tested l1 ++ tested l2.
Proof. apply omap_app. Qed.

Lemma prepared_evolves s s' a : evolves same_task s s' → prepared s a → prepared s' a.
Proof.
  intros Hev [Ha (n & Hn & Hu & Ht)]. split; [by rewrite (evolves_entries _ _ _ Hev)|].
  destruct (evolves_lookup _ _ _ _ _ Hev Hn) as (m & Hm & Hs). exists m. split; [done|].
  unfold utilization. destruct Hs as (_ & -> & -> & -> & ->). by split.
Qed.

(** A stretch that only touches fields, whatever it does to the yields and
    timers under way. *)
Lemma inv_evolves s s' l l' :
  evolves same_task s s' → tested l' = tested l → inv (System s l) → inv (System s' l').
Proof.
  intros Hev Ht [Hwf Hnd Hp]. cbn [module in_flight] in *. split; cbn [module in_flight].
  - by eapply evolves_wf.
  - by rewrite Ht.
  - intros a Ha. rewrite Ht in Ha. eapply prepared_evolves; [done|by apply Hp].
Qed.

Lemma registration_check_inv k buf r s s' t :
  wf s → fresh_object k s → registration_check k buf s = Ok (r, s', t) →
  ∃ a str u, new_object k = Some a ∧ c_str (drop 3 buf) = Ok str ∧ tasks s !! a = None ∧
    int_fields (garbage k) ∧ utilization (new_task k str) = Ok u ∧ r.1 = a ∧
    s' = put_task a (new_task k str) s.
Proof.
  intros Hwf Hfresh Heq. destruct (new_object k) as [a|] eqn:Ha.
  2: { unfold registration_check in Heq. by rewrite Ha in Heq. }
  destruct (Hfresh a Ha) as [Hnone Hint]. destruct (c_str (drop 3 buf)) as [str|f] eqn:Hstr.
  2: { unfold registration_check in Heq. rewrite Ha in Heq. revert Heq. run. done. }
  rewrite (registration_check_eq k buf str a s) in Heq by done.
  destruct (utilization (new_task k str)) as [u|f] eqn:Hu.
  - destruct (admission_ok (put_task a (new_task k str) s) a (new_task k str) u) as (? & _ & Hadm);
      [|apply put_task_lookup|done|].
    { apply wf_put_fresh; [done|]. by apply fresh_unlisted. }
    rewrite Hadm in Heq. cbn [prepend] in Heq. simplify_eq. by exists a, str, u.
  - by rewrite (admission_traps _ a (new_task k str) f) in Heq by (done || apply put_task_lookup).
Qed.

Lemma inv_test k buf r s s' t l :
  fresh_object k s → registration_check k buf s = Ok (r, s', t) →
  inv (System s l) → inv (System s' (Tested r.1 r.2 :: l)).
Proof.
  intros Hfresh Heq [Hwf Hnd Hp]. cbn [module in_flight] in *.
  destruct (registration_check_inv k buf r s s' t Hwf Hfresh Heq)
    as (a & str & u & _ & _ & Hnone & _ & Hu & Hr & ->).
  pose proof (fresh_unlisted s a Hwf Hnone) as Ha.
  split; cbn [module in_flight tested omap list_omap]; rewrite ?Hr.
  - by apply wf_put_fresh.
  - constructor; [|done]. intros Hin. destruct (Hp a Hin) as [_ (n & Hn & _)]. congruence.
  - intros b [->|Hb]%elem_of_cons.
    + split; [done|]. exists (new_task k str). split; [apply put_task_lookup|]. by rewrite Hu.
    + destruct (Hp b Hb) as [Hbe (n & Hn & Hut)]. split; [done|]. exists n. split; [|done].
      rewrite put_task_lookup_ne; [done|]. intros ->. congruence.
Qed.

Lemma inv_commit a ok s s' t l1 l2 :
  registration_commit a ok s = Ok (tt, s', t) →
  inv (System s (l1 ++ Tested a ok :: l2)) → inv (System s' (l1 ++ l2)).
Proof.
  intros Heq [Hwf Hnd Hp]. cbn [module in_flight] in *. rewrite tested_app in Hnd, Hp.
  cbn [tested omap list_omap] in Hnd, Hp. fold (tested l2) in Hnd, Hp.
  destruct (Hp a) as [Ha (n & Hn & Hu & Ht)]; [apply elem_of_app; right; by left|].
  assert (Hnd' : a ∉ tested (l1 ++ l2) ∧ NoDup (tested (l1 ++ l2))).
  { rewrite tested_app. by apply NoDup_middle. }
  assert (Hp' : ∀ b, b ∈ tested (l1 ++ l2) → b ≠ a ∧ prepared s b).
  { intros b Hb. split; [by intros ->; apply Hnd'|]. apply Hp.
    rewrite tested_app in Hb. set_solver. }
  destruct ok; unfold registration_commit in Heq; revert Heq; run; intros [= <- _].
  - destruct (link_wf a n s) as [Hwf' Hes]; try done. split; cbn [module in_flight]; [done|apply Hnd'|].
    intros b [Hba [Hb Hm]]%Hp'. split; [|done]. rewrite Hes. by apply not_elem_of_cons.
  - split; cbn [module in_flight]; [by apply unlink_wf|apply Hnd'|].
    intros b [Hba [Hb (m & Hm & Hum)]]%Hp'. split; [done|]. exists m. split; [|done].
    cbn [tasks free_task]. by rewrite lookup_delete_ne.
Qed.

Lemma inv_deregister k buf s s' t l :
  de_registration k buf s = Ok (tt, s', t) → inv (System s l) → inv (System s' l).
Proof.
  intros Heq [Hwf Hnd Hp]. cbn [module in_flight] in *.
  destruct (scan_pid k buf) as [p|] eqn:Hpid.
  2: { revert Heq. unfold de_registration. run. done. }
  destruct (de_registration_eq k buf p s Hwf Hpid) as [(a & n & Hf & _ & Heq')|[_ Heq']];
    rewrite Heq' in Heq; simplify_eq.
  destruct (first_with_elem _ _ _ _ Hf) as [Ha _].
  split; cbn [module in_flight]; [by apply removed_wf|done|].
  intros b [Hb (m & Hm & Hum)]%Hp. split.
  - rewrite removed_entries by done. intros [_ ?]%list_elem_of_filter. done.
  - exists m. split; [|done]. cbn [tasks removed]. rewrite lookup_delete_ne; [done|]. by intros ->.
Qed.

Lemma mp_read_pure buf count data r s s' t :
  mp_read buf count data s = Ok (r, s', t) → s' = s.
Proof.
  unfold mp_read. case_decide; [by intros [= _ <- _]|]. run.
  destruct (read_lines s) as [lines|]; run; [|done].
  destruct (fill buf 0 lines) as [buf'|]; run; [|done].
  destruct (strlen buf'); run; [|done]. by intros [= _ <- _].
Qed.

Lemma step_inv y y' : inv y → step y y' → inv y'.
Proof.
  intros Hinv Hstep. destruct Hstep.
  - by eapply inv_test.
  - by eapply inv_commit.
  - rename select (yield_find _ _ _ = _) into Heq. apply yield_find_pure in Heq as ->.
    revert Hinv. by apply inv_evolves.
  - revert Hinv. apply inv_evolves; [by eapply yield_advance_evolves|].
    by rewrite !tested_app.
  - revert Hinv. apply inv_evolves; [by eapply yield_advance_evolves|]. by rewrite !tested_app.
  - revert Hinv. apply inv_evolves; [by eapply yield_program_evolves|]. by rewrite !tested_app.
  - revert Hinv. apply inv_evolves; [by eapply yield_sleep_evolves|]. by rewrite !tested_app.
  - by eapply inv_deregister.
  - rename select (mp_read _ _ _ _ = _) into Heq. by rewrite (mp_read_pure _ _ _ _ _ _ _ Heq).
  - revert Hinv. rename select (expire _ _ _ = _) into Heq. injection Heq as <- _.
    apply inv_evolves; [|done]. by apply kept_evolves, expire_evolves.
  - pose proof (inv_wf _ Hinv) as Hwf. revert Hinv.
    apply inv_evolves; [by eapply kept_evolves, callback_evolves|]. by rewrite !tested_app.
  - pose proof (inv_wf _ Hinv) as Hwf. revert Hinv.
    apply inv_evolves; [by eapply kept_evolves, dispatch_evolves|done].
Qed.

Lemma init_state_wf : wf init_state.
Proof.
  assert (Hes : entries init_state = []) by apply entries_head.
  split; rewrite ?Hes; [split; [constructor|inversion 1]|done|inversion 1|inversion 1].
Qed.

Lemma system_inv y : rtc step loaded y → inv y.
Proof.
  apply (rtc_ind_r (λ y, inv y)).
  - split; [apply init_state_wf|constructor|by intros a ?%not_elem_of_nil].
  - intros y1 y2 _ Hstep Hinv. by eapply step_inv.
Qed.

(** ** Whole requests, timers and wake-ups are runs *)

Lemma step_from s l y : step (System s l) y → rtc step (System s l) y.
Proof. apply rtc_once. Qed.

Lemma registration_runs k buf s s' t l :
  fresh_object k s → registration k buf s = Ok (tt, s', t) → rtc step (System s l) (System s' l).
Proof.
  intros Hfresh (r & s1 & t1 & t2 & Hc & Hr & _)%bind_inv.
  eapply rtc_l; [by eapply step_test|]. apply rtc_once.
  by apply (step_commit _ _ _ _ _ [] l Hr).
Qed.

Lemma yield_runs k buf s s' t l :
  yield_handle msecs_to_jiffies k buf s = Ok (tt, s', t) → rtc step (System s l) (System s' l).
Proof.
  intros (r & s1 & t1 & t2 & Hf & (b & s2 & t3 & t4 & Ha & Hb & _)%bind_inv & _)%bind_inv.
  eapply rtc_l; [by eapply step_find|]. destruct b.
  - apply bind_inv in Hb as ([] & s3 & t5 & t6 & Hp & Hs & _).
    eapply rtc_l; [by apply (step_in_time _ _ _ _ _ [] l Ha)|].
    eapply rtc_l; [by apply (step_program _ _ _ _ [] l Hp)|].
    apply rtc_once. by apply (step_sleep _ _ _ _ [] l Hs).
  - injection Hb as <- _. apply rtc_once. by apply (step_late _ _ _ _ _ [] l Ha).
Qed.

Lemma mp_write_cases k buffer r s s' t :
  mp_write msecs_to_jiffies k buffer s = Ok (r, s', t) →
  let buf := buffer ++ [NUL] in
  r = Z.of_nat (length buffer) ∧
  ((∃ t', registration k buf s = Ok (tt, s', t')) ∨
   (∃ t', yield_handle msecs_to_jiffies k buf s = Ok (tt, s', t')) ∨
   (∃ t', de_registration k buf s = Ok (tt, s', t')) ∨ s' = s).
Proof.
  intros Heq buf. unfold mp_write in Heq. fold buf in Heq.
  assert (Hgen : ∀ m : kern state unit,
    (emit (Kkmalloc (Z.of_nat (length buffer) + 1)) ;; m ;; emit Kkfree_buf ;;
     mret (Z.of_nat (length buffer))) s = Ok (r, s', t) →
    r = Z.of_nat (length buffer) ∧ ∃ t', m s = Ok (tt, s', t')).
  { intros m. run. destruct (m s) as [[[[] s1] t1]|]; run; [|done].
    intros [= -> -> _]. eauto. }
  repeat match type of Heq with
         | context [match ?x with _ => _ end] => destruct x
         end; apply Hgen in Heq as [-> [t' Ht]]; split; eauto.
  all: unfold mret, cmd_ret in Ht; simplify_eq; eauto.
Qed.

(** A request that nothing interrupts. *)
Lemma request_runs k buffer r s s' t l :
  fresh_object k s → mp_write msecs_to_jiffies k buffer s = Ok (r, s', t) →
  rtc step (System s l) (System s' l).
Proof.
  intros Hfresh Hw. apply mp_write_cases in Hw as [_ [[t' Ht]|[[t' Ht]|[[t' Ht]| ->]]]].
  - by eapply registration_runs.
  - by eapply yield_runs.
  - apply rtc_once. by eapply step_deregister.
  - done.
Qed.

Lemma fire_runs a n e s s' t l :
  tasks s !! a = Some n → task_timer n = Some e → fire a n s = Ok (tt, s', t) →
  rtc step (System s l) (System s' l).
Proof.
  intros Hn He ([] & s1 & t1 & t2 & H1 & H2 & _)%bind_inv.
  eapply rtc_l; [by eapply step_expire|]. apply rtc_once. by apply (step_callback _ _ _ _ [] l H2).
Qed.

(** ** What happens while a process waits *)

(** A timer of a listed task expires, if it is pending; the dispatcher is
    woken. *)
Inductive event : Type := Timer (a : addr) | Wakeup.

Definition run_event (ev : event) : kern state unit :=
  match ev with
  | Timer a =>
      s ← get;
      match (if decide (a ∈ entries s) then tasks s !! a else None) with
      | Some n => match task_timer n with Some _ => fire a n | None => mret tt end
      | None => mret tt
      end
  | Wakeup => dispatch
  end.

Lemma dispatch_quiet s :
  wf s → has_threads s →
  ∃ s' t, dispatch s = Ok (tt, s', t) ∧ programs t = [] ∧ sleeps t = [].
Proof.
  intros Hwf Hth. destruct (pick_gen (tasks s) (entries s) None INT_MAX (wf_list _ Hwf))
    as (r & Hpick & [[-> _]|(a & -> & l1 & l2 & n & Hes & Hn & _)]).
  - destruct (dispatch_idle s Hwf Hth Hpick) as (t & Heq & Ht). do 2 eexists.
    split; [exact Heq|]. by destruct Ht as [[-> _]|(? & ? & ? & _ & _ & _ & ->)].
  - destruct (Hth a n) as [t Ht]; [rewrite Hes; apply elem_of_middle|done|].
    do 2 eexists. split; [by eapply dispatch_run|]. rewrite !programs_app, !sleeps_app.
    unfold demote. destruct (running_mptask s) as [r|]; [|done].
    destruct (tasks s !! r) as [m|]; [|done]. case_decide; [|done]. by destruct (task m).
Qed.

Lemma run_event_ok ev s :
  wf s → has_threads s →
  ∃ s' t, run_event ev s = Ok (tt, s', t) ∧ evolves kept s s' ∧ programs t = [] ∧ sleeps t = [].
Proof.
  intros Hwf Hth. destruct ev as [a|]; cbn [run_event].
  - rewrite (bind_ok _ _ s s s []) by done. rewrite prepend_nil.
    case_decide as Ha; [|by exists s, []].
    destruct (wf_entry _ _ Hwf Ha) as [n Hn]. rewrite Hn.
    destruct (task_timer n) as [e|]; [|by exists s, []].
    destruct (fire_ok a n s Hwf Ha Hn) as (b & m & _ & _ & Heq).
    do 2 eexists. split; [exact Heq|]. split; [by eapply fire_evolves|done].
  - destruct (dispatch_quiet s Hwf Hth) as (s' & t & Heq & Hp & Hs).
    exists s', t. split; [done|]. split; [by eapply dispatch_evolves|done].
Qed.

Lemma run_events_ok evs s :
  wf s → has_threads s →
  ∃ s' t, for_each evs run_event s = Ok (tt, s', t) ∧ evolves kept s s' ∧
    programs t = [] ∧ sleeps t = [].
Proof.
  revert s. induction evs as [|ev evs IH]; intros s Hwf Hth; cbn [for_each].
  { exists s, []. split; [done|]. by split. }
  destruct (run_event_ok ev s Hwf Hth) as (s1 & t1 & H1 & Hev1 & Hp1 & Hs1).
  destruct (IH s1) as (s2 & t2 & H2 & Hev2 & Hp2 & Hs2).
  { eapply evolves_wf; [done|by apply kept_evolves]. }
  { eapply evolves_threads; [done|by apply kept_evolves]. }
  exists s2, (t1 ++ t2). rewrite (bind_ok _ _ _ _ _ _ H1), H2. split; [done|].
  split; [by etrans|]. by rewrite programs_app, sleeps_app, Hp1, Hs1, Hp2, Hs2.
Qed.

(** ** Unloading *)

Definition exited s (pre post : list addr) s' (t : list kcall) : Prop :=
  entries s' = post ∧
  (∀ b, tasks s' !! b = if decide (b ∈ pre) then None else tasks s !! b) ∧
  frees t = pre ∧ lock_run true t = Some true.

Lemma mp_exit_ok s :
  wf s →
  ∃ s' t, mp_exit s = Ok (tt, s', Kkthread_stop :: t) ∧ disciplined t ∧
    frees t = entries s ∧ entries s' = [] ∧
    ∀ b, tasks s' !! b = if decide (b ∈ entries s) then None else tasks s !! b.
Proof.
  intros [[Hnd Hlive] _ _ _].
  assert (Hwp : wp mp_exit s (λ _ s' t', ∃ t, exited s (entries s) [] s' t ∧
    t' = [Kkthread_stop; Kspin_lock; Klist_for_each] ++ t ++
         [Kkmem_cache_destroy; Kspin_unlock; Kproc_remove; Kproc_remove]) (λ _, False)).
  { unfold mp_exit. wp_go. eapply wp_mono; [apply (wp_for_each (exited s))|..].
    - split; [done|]. split; [|done]. intros b. rewrite decide_False; [done|inversion 1].
    - intros pre a post s' t Hes (Hent & Htasks & Hfree & Hlock). rewrite Hes in *.
      destruct (Hlive a (elem_of_middle _ _ _)) as [n Hn].
      pose proof (NoDup_middle_l _ _ _ Hnd) as Hpre.
      assert (Hn' : tasks s' !! a = Some n) by (by rewrite Htasks, decide_False).
      unfold exit_visit. wp_go. eapply wp_store; [exact Hn'|]. wp_go.
      split; [|split; [|split]].
      + apply NoDup_app in Hnd as (_ & _ & Hnd).
        unfold entries in *. cbn [head free_task put_task set_head].
        rewrite entries_del by (rewrite Hent; first [done|by left]). rewrite Hent.
        apply (filter_ne_middle a [] post). done.
      + intros b. cbn [tasks free_task put_task set_head]. rewrite delete_insert_eq.
        rewrite lookup_delete, Htasks. repeat case_decide; try done.
        all: rewrite elem_of_snoc in *; naive_solver.
      + by rewrite frees_app, Hfree.
      + by rewrite lock_run_app, Hlock.
    - intros [] s' t Hv. wp_go. by exists t.
    - intros f Hf. exact Hf. }
  destruct (wp_ok _ _ _ Hwp) as ([] & s' & t & Heq & t' & (Hent & Htasks & Hfree & Hlock) & ->).
  do 2 eexists. split; [exact Heq|]. split_and!; try done.
  - unfold disciplined. cbn [app lock_run lock_step mbind option_bind].
    by rewrite lock_run_app, Hlock.
  - change (frees (t' ++ [Kkmem_cache_destroy; Kspin_unlock; Kproc_remove; Kproc_remove]) =
            entries s).
    by rewrite frees_app, Hfree, app_nil_r.
Qed.

(** Unloading stops the dispatcher, then empties the list and frees every
    listed object exactly once, in one critical section. *)
Lemma mp_exit_frees_all s :
  wf s →
  ∃ s' t, mp_exit s = Ok (tt, s', Kkthread_stop :: t) ∧ disciplined t ∧
    frees t = entries s ∧ entries s' = [] ∧
    ∀ a, a ∈ entries s → tasks s' !! a = None.
Proof.
  intros Hwf. destruct (mp_exit_ok s Hwf) as (s' & t & Heq & Hd & Hf & He & Ht).
  exists s', t. split_and!; try done. intros a Ha. rewrite Ht. by rewrite decide_True.
Qed.

(** ** Properties *)

(** C8: In every state reachable from loading by requests, reads, timers and
    dispatcher wake-ups, cut where they can interrupt each other: the list holds
    distinct live objects and the running task is listed; the objects of the
    registrations between test and insertion are distinct, live and not listed.
    From every such state: a pending timer of a listed task that expires and
    runs its callback makes a task of its pid READY; if all listed tasks have a
    thread (their pid named a process when they registered), the dispatcher
    thread survives any number of wake-ups and returns 0 at the first that finds
    [kthread_should_stop] set; a wake-up that picks a task without a thread
    dereferences NULL; and unloading stops the dispatcher, empties the list and
    frees every listed object exactly once, in one critical section. *)
Theorem mp2_reachable_safe s l :
  rtc step loaded (System s l) →
  wf s ∧
  (NoDup (tested l) ∧ ∀ a, a ∈ tested l → is_Some (tasks s !! a) ∧ a ∉ entries s) ∧
  (∀ a n e, a ∈ entries s → tasks s !! a = Some n → task_timer n = Some e →
     ∃ s' t b m, fire a n s = Ok (tt, s', t) ∧ disciplined t ∧ b ∈ entries s ∧
       tasks s' !! b = Some m ∧ pid m = pid n ∧ task_state m = READY) ∧
  (has_threads s → ∀ wakeups later, ∃ s' t,
     thread_fn (replicate wakeups false ++ true :: later) s = Ok (Some 0, s', t) ∧
     wf s' ∧ entries s' = entries s) ∧
  (∀ a n, best (tasks s) (entries s) INT_MAX a → tasks s !! a = Some n → task n = None →
     dispatch s = Fault NullDeref) ∧
  (∃ s' t, mp_exit s = Ok (tt, s', Kkthread_stop :: t) ∧ disciplined t ∧
     frees t = entries s ∧ entries s' = [] ∧ ∀ a, a ∈ entries s → tasks s' !! a = None).
Proof.
  intros [Hwf Hnd Hp]%system_inv. cbn [module in_flight] in *. split; [done|]. split_and!.
  - done.
  - intros a [Ha (n & Hn & _)]%Hp. by split; [eexists|].
  - intros a n e Ha Hn _. destruct (fire_ok a n s Hwf Ha Hn) as (b & m & Hf & Hm & Heq).
    destruct (first_with_elem _ _ _ _ Hf) as (Hb & m' & Hm' & Hpid).
    rewrite Hm in Hm'. injection Hm' as <-.
    do 4 eexists. split; [exact Heq|]. split; [done|]. split; [done|].
    split; [apply put_task_lookup|]. done.
  - intros Hth wakeups later. destruct (thread_fn_stops wakeups later s Hwf Hth)
      as (s' & t & Heq & Hwf' & _ & He). by exists s', t.
  - intros a n Hbest Hn Hnone. by eapply dispatch_threadless.
  - by apply mp_exit_frees_all.
Qed.

(** C31: Deregistering a pid removes and frees exactly the first object with
    that pid, in one critical section; the dispatcher is woken and
    [running_mptask] cleared exactly when that object was running.  A pid that
    is not registered makes the handler dereference NULL. *)
Theorem de_registration_spec k buf p s :
  wf s → scan_pid k buf = Ok p →
  (∃ a s' t, first_with (λ n, pid n = p) (tasks s) (entries s) a ∧
     de_registration k buf s = Ok (tt, s', t) ∧ disciplined t ∧ frees t = [a] ∧ wf s' ∧
     entries s' = filter (.≠ a) (entries s) ∧ tasks s' = delete a (tasks s) ∧
     running_mptask s' =
       (if decide (running_mptask s = Some a) then None else running_mptask s) ∧
     (Kwake_up_process Dispatcher ∈ t ↔ running_mptask s = Some a)) ∨
  ((∀ a n, a ∈ entries s → tasks s !! a = Some n → pid n ≠ p) ∧
   de_registration k buf s = Fault NullDeref).
Proof.
  clear msecs_to_jiffies.
  intros Hwf Hp.
  destruct (de_registration_eq k buf p s Hwf Hp) as [(a & n & Hf & _ & Heq)|[??]]; [left|by right].
  destruct (first_with_elem _ _ _ _ Hf) as [Ha _].
  exists a, (removed a s), (deregister_trace a s). split; [done|]. split; [done|].
  assert (Hwf' : wf (removed a s)) by (by apply removed_wf).
  pose proof (removed_entries a s Hwf Ha) as Hes.
  unfold disciplined, deregister_trace in *. cbn [removed running_mptask tasks].
  destruct (decide (running_mptask s = Some a)) as [Hr|Hr].
  all: split_and!; try done.
  - rewrite elem_of_app. split; [done|]. intros _. right. by left.
  - split; [|done]. cbn [app]. rewrite !elem_of_cons, elem_of_nil. naive_solver.
Qed.
End system.

#[export] Existing Instance evolves_preorder.

(** ** Concrete instances *)

Definition ex_tick (j : Z) : answers :=
  Answers None (MpTask None None 0 0 0 0 0 0) 0 j j (λ _, None).

Definition ex_yield_buf : text := lit "Y, 71" ++ [NUL].
Definition ex_dereg_buf : text := lit "D, 72" ++ [NUL].

Lemma ex_first st1 st2 r :
  first_with (λ x, pid x = 71) (tasks (ex_running st1 st2 r)) [2%positive; 1%positive] 1.
Proof.
  exists [2%positive], [], (ex_task 11 st1 71 10 1).
  split; [reflexivity|]. split; [reflexivity|]. split; [reflexivity|].
  intros b m Hb. ex_elem Hb. by intros [= <-].
Qed.

(** Process 42 has registered and yielded at tick 1000; the registration of
    process 43 has made its test. *)
Definition ex_asleep : mp_task_struct :=
  MpTask (Some 99%positive) (Some 1100) 42 SLEEPING 1100 42 100 50.

Definition ex_reached : @state seq_klist :=
  put_task 6 (MpTask (Some 99%positive) None 43 SLEEPING 0 43 100 10)
    (listed 5 ex_asleep init_state).

Lemma ex_fresh a (s : @state seq_klist) : tasks s !! a = None → fresh_object (ex_answers a) s.
Proof.
  intros Ha b [= <-]. split; [done|]. apply (bool_decide_unpack _). vm_compute. exact I.
Qed.

Lemma ex_reached_runs : rtc (step id) loaded (System ex_reached [Tested 6 true]).
Proof.
  etrans; [|etrans; [|apply rtc_once]].
  - eapply (request_runs id (ex_answers 5) (lit "R, 42, 100, 50" ++ [NL])).
    + by apply ex_fresh.
    + vm_compute. reflexivity.
  - eapply (request_runs id (ex_tick 1000) (lit "Y, 42")); [done|]. vm_compute. reflexivity.
  - eapply (step_test id (ex_answers 6) (ex_buf "R, 43, 100, 10") (6%positive, true)).
    + by apply ex_fresh.
    + vm_compute. reflexivity.
Qed.

(** Process 42 does not exist: its yield stops at the NULL thread, after it has
    programmed the timer that makes the task READY. *)
Definition ex_null : @state seq_klist :=
  listed 5 (MpTask None None 42 READY 1100 42 100 50) init_state.

Definition ex_no_thread (a : addr) : answers :=
  Answers (Some a) (MpTask None None 0 0 0 0 0 0) 0 1000 1000 (λ _, None).

Lemma ex_null_runs : rtc (step id) loaded (System ex_null [Programmed (Some 5%positive)]).
Proof.
  etrans; [eapply (request_runs id (ex_no_thread 5) (lit "R, 42, 100, 50" ++ [NL]))|].
  { intros b [= <-]. split; [done|]. apply (bool_decide_unpack _). vm_compute. exact I. }
  { vm_compute. reflexivity. }
  eapply rtc_l; [eapply (step_find id (ex_tick 1000) (lit "Y, 42" ++ [NUL])); vm_compute; reflexivity|].
  eapply rtc_l; [eapply (step_in_time id _ _ _ _ _ [] []); vm_compute; reflexivity|].
  eapply rtc_l; [eapply (step_program id _ _ _ _ [] []); vm_compute; reflexivity|].
  eapply rtc_l; [by eapply (step_expire id 5)|].
  apply rtc_once. eapply (step_callback id _ _ _ _ [] _). vm_compute. reflexivity.
Qed.

Lemma mp2_reachable_safe_witness :
  let s := ex_reached in
  wf s ∧ is_Some (tasks s !! 6%positive) ∧
  (∃ s' t b m, fire 5 ex_asleep s = Ok (tt, s', t) ∧ disciplined t ∧ b ∈ entries s ∧
     tasks s' !! b = Some m ∧ pid m = 42 ∧ task_state m = READY) ∧
  (∃ s' t, thread_fn [false; false; true] s = Ok (Some 0, s', t) ∧ wf s' ∧
     entries s' = entries s) ∧
  (∃ s' t, mp_exit s = Ok (tt, s', Kkthread_stop :: t) ∧ disciplined t ∧
     frees t = [5%positive] ∧ entries s' = [] ∧ ∀ a, a ∈ entries s → tasks s' !! a = None) ∧
  dispatch ex_null = Fault NullDeref.
Proof.
  intros s.
  destruct (mp2_reachable_safe (KLL := seq_klist_laws) id s [Tested 6 true] ex_reached_runs)
    as (Hwf & [_ Htested] & Hfire & Hthread & _ & Hexit).
  destruct (mp2_reachable_safe (KLL := seq_klist_laws) id ex_null _ ex_null_runs)
    as (_ & _ & _ & _ & Hnull & _).
  split; [exact Hwf|]. split; [apply Htested; by left|]. split; [|split; [|split]].
  - apply (Hfire 5%positive ex_asleep 1100); [by left|reflexivity|reflexivity].
  - apply (Hthread) with (wakeups := 2%nat) (later := []).
    intros a n Ha Hn. apply elem_of_cons in Ha as [->|Ha]; [|by apply not_elem_of_nil in Ha].
    injection Hn as <-. by eexists.
  - exact Hexit.
  - apply (Hnull 5%positive (MpTask None None 42 READY 1100 42 100 50)); [|reflexivity|reflexivity].
    exists [], [], (MpTask None None 42 READY 1100 42 100 50). split_and!; try reflexivity;
      intros b k Hb; by apply not_elem_of_nil in Hb.
Defined.

Lemma de_registration_spec_witness :
  let s := ex_running READY RUNNING 2%positive in
  (∃ a s' t, first_with (λ n, pid n = 72) (tasks s) (entries s) a ∧
     de_registration (ex_tick 0) ex_dereg_buf s = Ok (tt, s', t) ∧ disciplined t ∧
     frees t = [a] ∧ wf s' ∧
     entries s' = filter (.≠ a) (entries s) ∧ tasks s' = delete a (tasks s) ∧
     running_mptask s' =
       (if decide (running_mptask s = Some a) then None else running_mptask s) ∧
     (Kwake_up_process Dispatcher ∈ t ↔ running_mptask s = Some a)) ∨
  ((∀ a n, a ∈ entries s → tasks s !! a = Some n → pid n ≠ 72) ∧
   de_registration (ex_tick 0) ex_dereg_buf s = Fault NullDeref).
Proof.
  intros s. apply (de_registration_spec (KLL := seq_klist_laws) (ex_tick 0) ex_dereg_buf 72 s);
    [apply ex_running_wf; by left|reflexivity].
Defined.
