(* ===== verification/Mp2Yield.v ===== *)
(** * MP2: repeated yields, and a yield overtaken by a deregistration

    The releases a task programs when it yields again and again while timers
    and the dispatcher run, and what the yield's unlocked use of its object
    does to another process. *)
From Stdlib Require Import Ascii String.
From stdpp Require Import prelude gmap.
From S2P Require Import Prelude CInt CText Kernel Mp2 Mp2Facts Mp2Sched Mp2Ops Mp2Admission.
From S2P Require Import Mp2System.
Open Scope Z_scope.

Section yields.
Context {KL : KList} {KLL : KListLaws KL}.
Context (msecs_to_jiffies : Z → Z).
Implicit Types s : state.

Lemma first_with_put p a n m h es :
  first_with (λ x, pid x = p) h es a → h !! a = Some n → pid m = pid n →
  first_with (λ x, pid x = p) (<[a:=m]> h) es a.
Proof.
  intros (l1 & l2 & n' & -> & Hn' & Hp & Hl1) Hn Hpid. rewrite Hn in Hn'. injection Hn' as <-.
  exists l1, l2, m. split; [done|]. split; [apply lookup_insert_eq|].
  split; [by rewrite Hpid|]. intros b k Hb. rewrite lookup_insert.
  case_decide as Hab; [|by apply Hl1]. subst b. by destruct (Hl1 a n Hb Hn).
Qed.

Lemma first_with_evolves p a s s' :
  evolves same_task s s' → first_with (λ x, pid x = p) (tasks s) (entries s) a →
  first_with (λ x, pid x = p) (tasks s') (entries s') a.
Proof.
  intros Hev (l1 & l2 & n & Hes & Hn & Hp & Hl1).
  destruct (evolves_lookup _ _ _ _ _ Hev Hn) as (m & Hm & Hs).
  exists l1, l2, m. rewrite (evolves_entries _ _ _ Hev). split_and!; [done|done| |].
  - destruct Hs as (_ & _ & -> & _). done.
  - intros b k Hb Hk. destruct (evolves_lookup_inv _ _ _ _ _ Hev Hk) as (k' & Hk' & Hs').
    destruct Hs' as (_ & _ & -> & _). by apply (Hl1 b k').
Qed.

(** What a yield of a task with a thread programs and puts to sleep. *)
Lemma yield_one k buf p a n t s :
  wf s → scan_pid k buf = Ok p → first_with (λ x, pid x = p) (tasks s) (entries s) a →
  tasks s !! a = Some n → task n = Some t →
  let next := release msecs_to_jiffies (jiffies k) n in
  ∃ tr, yield_handle msecs_to_jiffies k buf s =
          Ok (tt, put_task a (yielded msecs_to_jiffies k n) s, tr) ∧
    programs tr = (if decide (next < jiffies_again k) then [] else [(Some a, next)]) ∧
    sleeps tr = (if decide (next < jiffies_again k) then [] else [t]).
Proof.
  intros Hwf Hp Hf Hn Ht next.
  destruct (yield_handle_eq msecs_to_jiffies k buf p s Hwf Hp)
    as [(b & m & Hf' & Hm & ->)|[Hno _]].
  - assert (b = a) as -> by (by eapply first_with_unique). rewrite Hn in Hm. injection Hm as <-.
    unfold yield_outcome. rewrite Ht. fold next. case_decide; by eexists.
  - destruct (first_with_elem _ _ _ _ Hf) as (Ha & m & Hm & Hpm). exfalso. by eapply Hno.
Qed.

Lemma yielded_next k n :
  next_period (yielded msecs_to_jiffies k n) = release msecs_to_jiffies (jiffies k) n.
Proof. unfold yielded. by case_decide. Qed.

Lemma yielded_evolves k a n s :
  tasks s !! a = Some n → evolves same_task s (put_task a (yielded msecs_to_jiffies k n) s).
Proof. intros Hn. eapply evolves_put; [apply _|done|apply yielded_same]. Qed.

(** ** Rounds: what happens before a yield, and the yield *)

Definition round : Type := list event * answers.

Definition yield_round (buf : text) (r : round) : kern state unit :=
  for_each r.1 run_event ;; yield_handle msecs_to_jiffies r.2 buf.

(** The releases, [w] ticks apart from [next] on, that are not past when their
    yield tests them. *)
Fixpoint on_time (w next : Z) (rounds : list round) : list Z :=
  match rounds with
  | [] => []
  | r :: rounds' =>
      (if decide (next < jiffies_again r.2) then [] else [next]) ++ on_time w (next + w) rounds'
  end.

(** A task whose yields find it and can put it to sleep. *)
Record yielding (p : Z) (a : addr) (t : addr) (n : mp_task_struct) s : Prop := {
  yielding_wf : wf s;
  yielding_threads : has_threads s;
  yielding_first : first_with (λ x, pid x = p) (tasks s) (entries s) a;
  yielding_task : tasks s !! a = Some n;
  yielding_thread : task n = Some t;
}.

Lemma yielding_evolves p a t n s s' :
  yielding p a t n s → evolves same_task s s' →
  ∃ m, same_task n m ∧ yielding p a t m s'.
Proof.
  intros [Hwf Hth Hf Hn Ht] Hev. destruct (evolves_lookup _ _ _ _ _ Hev Hn) as (m & Hm & Hs).
  exists m. split; [done|]. split.
  - by eapply evolves_wf.
  - by eapply evolves_threads.
  - by eapply first_with_evolves.
  - done.
  - by rewrite (proj1 Hs).
Qed.

Lemma round_one buf r p a t n s :
  scan_pid r.2 buf = Ok p → yielding p a t n s →
  let next := release msecs_to_jiffies (jiffies r.2) n in
  ∃ s' tr m, yield_round buf r s = Ok (tt, s', tr) ∧ yielding p a t m s' ∧ same_task n m ∧
    next_period m = next ∧
    programs tr = (if decide (next < jiffies_again r.2) then [] else [(Some a, next)]) ∧
    sleeps tr = (if decide (next < jiffies_again r.2) then [] else [t]).
Proof.
  intros Hp Hy next.
  destruct (run_events_ok r.1 s) as (s1 & t1 & H1 & Hev & Hp1 & Hs1); [apply Hy..|].
  destruct (evolves_lookup _ _ _ _ _ Hev (yielding_task _ _ _ _ _ Hy)) as (m & Hm & Hk & Hnext).
  destruct (yielding_evolves p a t n s s1 Hy) as (m' & _ & Hy1); [by apply kept_evolves|].
  assert (m' = m) as -> by (pose proof (yielding_task _ _ _ _ _ Hy1); congruence).
  destruct (yield_one r.2 buf p a m t s1) as (t2 & H2 & Hp2 & Hs2); [apply Hy1|done|apply Hy1..|].
  assert (Hrel : release msecs_to_jiffies (jiffies r.2) m = next).
  { unfold next, release. rewrite Hnext. by destruct Hk as (_ & _ & _ & -> & _). }
  rewrite Hrel in Hp2, Hs2.
  destruct (yielding_evolves p a t m s1 _ Hy1 (yielded_evolves r.2 a m s1 Hm)) as (m2 & _ & Hy2).
  assert (m2 = yielded msecs_to_jiffies r.2 m) as ->.
  { pose proof (yielding_task _ _ _ _ _ Hy2) as Hm2. rewrite put_task_lookup in Hm2. congruence. }
  do 3 eexists. split; [unfold yield_round; rewrite (bind_ok _ _ _ _ _ _ H1), H2; reflexivity|].
  split; [exact Hy2|]. split; [etrans; [done|apply yielded_same]|].
  split; [by rewrite yielded_next|]. by rewrite programs_app, sleeps_app, Hp1, Hs1, Hp2, Hs2.
Qed.

Lemma rounds_from rounds buf p a t n s :
  let w := msecs_to_jiffies (uint32 (period n)) in
  Forall (λ r, scan_pid r.2 buf = Ok p) rounds → yielding p a t n s →
  0 < next_period n → 0 ≤ w → next_period n + Z.of_nat (length rounds) * w < 2 ^ 64 →
  ∃ s' tr m, for_each rounds (yield_round buf) s = Ok (tt, s', tr) ∧
    tasks s' !! a = Some m ∧ next_period m = next_period n + Z.of_nat (length rounds) * w ∧
    programs tr = (λ e, (Some a, e)) <$> on_time w (next_period n + w) rounds ∧
    sleeps tr = (λ _, t) <$> on_time w (next_period n + w) rounds.
Proof.
  intros w Hr. revert n s w.
  induction Hr as [|r rounds Hp _ IH]; intros n s w Hy Hpos Hw Hmax; cbn [for_each length on_time] in *.
  { exists s, [], n. split_and!; [done|apply Hy|lia|done|done]. }
  destruct (round_one buf r p a t n s Hp Hy) as (s1 & t1 & m & H1 & Hy1 & Hsame & Hm & Hp1 & Hs1).
  assert (Hrel : release msecs_to_jiffies (jiffies r.2) n = next_period n + w).
  { unfold release. rewrite decide_False by lia. apply uint64_small. red. fold w. nia. }
  rewrite Hrel in *. assert (Hper : period m = period n) by apply Hsame.
  destruct (IH m s1 Hy1) as (s2 & t2 & m2 & H2 & Hm2 & Hn2 & Hp2 & Hs2);
    rewrite ?Hper, ?Hm; fold w; try nia.
  rewrite Hper, Hm in *. fold w in Hn2, Hp2, Hs2.
  exists s2, (t1 ++ t2), m2. rewrite (bind_ok _ _ _ _ _ _ H1), H2. split; [done|].
  split; [done|]. split; [lia|]. rewrite programs_app, sleeps_app, Hp1, Hs1, Hp2, Hs2, !fmap_app.
  by case_decide.
Qed.

(** ** Room after a deregistration *)

Lemma total_util_del h es a :
  all_benign h es → total_util (delete a h) (filter (.≠ a) es) ≤ total_util h es.
Proof.
  induction es as [|e es IH]; intros Hb; [done|].
  assert (Hb' : all_benign h es) by (intros b m ?; apply Hb; by right).
  specialize (IH Hb'). rewrite filter_cons. destruct (decide (e ≠ a)) as [Hne|Heq].
  - cbn [total_util]. rewrite lookup_delete_ne by done. lia.
  - cbn [total_util]. destruct (h !! e) as [n|] eqn:Hn; [|lia].
    pose proof (util_bounds n (Hb e n (list_elem_of_here _ _) Hn)). lia.
Qed.

Lemma removed_budget a s :
  wf s → a ∈ entries s → budget s →
  budget (removed a s) ∧ utilization_of (removed a s) ≤ utilization_of s.
Proof.
  intros Hwf Ha [Hb Hmax].
  assert (Hle : utilization_of (removed a s) ≤ utilization_of s).
  { unfold utilization_of. rewrite removed_entries by done. by apply total_util_del. }
  split; [|done]. split; [|lia]. rewrite removed_entries by done.
  intros b m [Hne Hin]%list_elem_of_filter. cbn [tasks removed].
  rewrite lookup_delete_ne by done. by apply Hb.
Qed.

(** ** Properties *)

(** C23: The releases of a task that yields repeatedly do not drift, whatever
    timers expire and dispatcher wake-ups happen before each yield: if its first
    yield is at tick [j], the [i]-th, counted from 1, computes the release
    [j + i * period]; it programs the task's timer with exactly that tick and
    puts the task's thread to sleep when the release is not yet past, and
    otherwise returns without either. *)
Theorem yields_no_drift evs k rounds buf p a n t s :
  let w := msecs_to_jiffies (uint32 (period n)) in
  wf s → has_threads s → Forall (λ r, scan_pid r.2 buf = Ok p) ((evs, k) :: rounds) →
  first_with (λ x, pid x = p) (tasks s) (entries s) a →
  tasks s !! a = Some n → task n = Some t → next_period n = 0 →
  0 ≤ jiffies k → 0 < w → jiffies k + Z.of_nat (S (length rounds)) * w < 2 ^ 64 →
  ∃ s' tr m, for_each ((evs, k) :: rounds) (yield_round buf) s = Ok (tt, s', tr) ∧
    programs tr = (λ e, (Some a, e)) <$> on_time w (jiffies k + w) ((evs, k) :: rounds) ∧
    sleeps tr = (λ _, t) <$> on_time w (jiffies k + w) ((evs, k) :: rounds) ∧
    tasks s' !! a = Some m ∧ next_period m = jiffies k + Z.of_nat (S (length rounds)) * w.
Proof.
  intros w Hwf Hth [Hk Hr]%Forall_cons Hf Hn Ht Hz Hj Hw Hmax.
  assert (Hy : yielding p a t n s) by done.
  destruct (round_one buf (evs, k) p a t n s) as (s1 & t1 & m & H1 & Hy1 & Hsame & Hm & Hp1 & Hs1);
    [done|done|].
  assert (Hrel : release msecs_to_jiffies (jiffies k) n = jiffies k + w).
  { unfold release. rewrite Hz, decide_True by done. apply uint64_small. red. fold w. nia. }
  cbn [snd] in *. rewrite Hrel in *. assert (Hper : period m = period n) by apply Hsame.
  destruct (rounds_from rounds buf p a t m s1) as (s2 & t2 & m2 & H2 & Hm2 & Hn2 & Hp2 & Hs2);
    rewrite ?Hper, ?Hm; fold w; try nia; try done.
  rewrite Hper, Hm in *. fold w in Hn2, Hp2, Hs2.
  exists s2, (t1 ++ t2), m2. cbn [for_each on_time snd]. rewrite (bind_ok _ _ _ _ _ _ H1), H2.
  split; [done|]. rewrite programs_app, sleeps_app, Hp1, Hs1, Hp2, Hs2, !fmap_app.
  split_and!; [by case_decide|by case_decide|done|lia].
Qed.

(** C38: A yield looks its task up without the lock and uses the object after
    that.  When the process's deregistration runs in between, the yield uses a
    freed object.  When a registration of another process has then been given
    that object and is admitted, the yield, unless its clock says the release is
    past, makes that process's task SLEEPING, programs its timer and sets its
    thread interruptible. *)
Theorem yield_race k1 k2 k3 buf1 buf2 buf3 str p a t' s :
  let n' := new_task k3 str in
  let next := release msecs_to_jiffies (jiffies k1) n' in
  wf s → budget s → scan_pid k1 buf1 = Ok p → scan_pid k2 buf2 = Ok p →
  first_with (λ x, pid x = p) (tasks s) (entries s) a →
  new_object k3 = Some a → c_str (drop 3 buf3) = Ok str → benign n' → pid n' ≠ p →
  task n' = Some t' → util n' + utilization_of s ≤ 693000 →
  ∃ t1 s' t2 s'' t3, yield_find k1 buf1 s = Ok (Some a, s, t1) ∧
    de_registration k2 buf2 s = Ok (tt, s', t2) ∧
    yield_finish msecs_to_jiffies k1 (Some a) s' = Fault UseAfterFree ∧
    registration k3 buf3 s' = Ok (tt, s'', t3) ∧
    entries s'' = a :: entries s' ∧ tasks s'' !! a = Some n' ∧
    (jiffies_again k1 ≤ next → ∃ s3 t4 m,
       yield_finish msecs_to_jiffies k1 (Some a) s'' = Ok (tt, s3, t4) ∧
       tasks s3 !! a = Some m ∧ pid m = pid n' ∧ task_state m = SLEEPING ∧
       task_timer m = Some next ∧ programs t4 = [(Some a, next)] ∧ sleeps t4 = [t']).
Proof.
  intros n' next Hwf Hbud Hp1 Hp2 Hf Ha Hstr Hbn Hpid Ht' Hroom.
  destruct (yield_find_eq k1 buf1 p s Hwf Hp1) as (r & Hfind & Hr).
  destruct (first_with_elem _ _ _ _ Hf) as (Hin & m & Hm & Hpm).
  destruct r as [b|]; [|by destruct (Hr a m Hin Hm)].
  assert (b = a) as -> by (by eapply first_with_unique).
  destruct (de_registration_eq k2 buf2 p s Hwf Hp2) as [(c & n & Hf' & _ & Hd)|[Hno _]];
    [|by destruct (Hno a m Hin Hm)].
  assert (c = a) as -> by (by eapply first_with_unique).
  pose proof (removed_wf a s Hwf Hin) as Hwf'.
  destruct (removed_budget a s Hwf Hin Hbud) as [Hbud' Hle].
  assert (Hfresh : tasks (removed a s) !! a = None) by apply lookup_delete_eq.
  destruct (registration_budget k3 buf3 str a (removed a s)) as (t3 & Hreg & _); try done.
  fold n' in Hreg. rewrite decide_True in Hreg by lia.
  do 5 eexists. split; [exact Hfind|]. split; [exact Hd|].
  split; [by apply (bind_fault _ _ _ _ (bind_fault _ _ _ _ (load_freed _ a Hfresh)))|].
  split; [exact Hreg|]. split; [by apply listed_entries|]. split; [apply lookup_insert_eq|].
  intros Hlate. pose proof (yield_finish_eq msecs_to_jiffies k1 a n' (listed a n' (removed a s))
    (lookup_insert_eq _ _ _)) as Hy.
  unfold yield_outcome in Hy. fold next in Hy. rewrite Ht', decide_False in Hy by lia.
  destruct (yield_finish msecs_to_jiffies k1 (Some a) (listed a n' (removed a s)))
    as [[[[] s3] t4]|f]; [|done]. cbn [prepend app] in Hy. injection Hy as -> ->.
  do 3 eexists. split; [reflexivity|]. split; [apply put_task_lookup|].
  unfold yielded. fold next. by rewrite decide_False by lia.
Qed.
End yields.

(** ** Concrete instances *)

Lemma yields_no_drift_witness :
  let rounds := [([], ex_tick 100); ([Timer 1; Wakeup; Timer 2], ex_tick 3000);
                 ([Wakeup], ex_tick 130)] in
  ∃ s' tr m,
    for_each rounds (yield_round id ex_yield_buf) (ex_running RUNNING READY 1%positive) =
      Ok (tt, s', tr) ∧
    programs tr = [(Some 1%positive, 110); (Some 1%positive, 130)] ∧
    sleeps tr = [11%positive; 11%positive] ∧
    tasks s' !! 1%positive = Some m ∧ next_period m = 100 + 3 * 10.
Proof.
  apply (yields_no_drift id [] (ex_tick 100)
           [([Timer 1; Wakeup; Timer 2], ex_tick 3000); ([Wakeup], ex_tick 130)] ex_yield_buf 71
           1 (ex_task 11 RUNNING 71 10 1) 11 (ex_running RUNNING READY 1%positive)).
  - apply ex_running_wf. right. by left.
  - apply ex_running_threads.
  - repeat (apply Forall_cons; split; [reflexivity|]). apply Forall_nil. exact I.
  - apply ex_first.
  - reflexivity.
  - reflexivity.
  - reflexivity.
  - vm_compute. discriminate.
  - reflexivity.
  - reflexivity.
Defined.

Lemma yield_race_witness :
  let s := ex_running RUNNING READY 1%positive in
  ∃ t1 s' t2 s'' t3, yield_find (ex_tick 100) ex_yield_buf s = Ok (Some 1%positive, s, t1) ∧
    de_registration (ex_tick 100) (lit "D, 71" ++ [NUL]) s = Ok (tt, s', t2) ∧
    yield_finish id (ex_tick 100) (Some 1%positive) s' = Fault UseAfterFree ∧
    registration (ex_answers 1) (ex_buf "R, 73, 20, 4") s' = Ok (tt, s'', t3) ∧
    entries s'' = 1%positive :: entries s' ∧
    tasks s'' !! 1%positive = Some (MpTask (Some 99%positive) None 73 SLEEPING 0 73 20 4) ∧
    (100 ≤ 120 → ∃ s3 t4 m,
       yield_finish id (ex_tick 100) (Some 1%positive) s'' = Ok (tt, s3, t4) ∧
       tasks s3 !! 1%positive = Some m ∧ pid m = 73 ∧ task_state m = SLEEPING ∧
       task_timer m = Some 120 ∧ programs t4 = [(Some 1%positive, 120)] ∧
       sleeps t4 = [99%positive]).
Proof.
  intros s. apply (yield_race (KLL := seq_klist_laws) id (ex_tick 100) (ex_tick 100) (ex_answers 1)
    ex_yield_buf (lit "D, 71" ++ [NUL]) (ex_buf "R, 73, 20, 4") (lit "73, 20, 4" ++ [NL])
    71 1 99 s); try reflexivity.
  - apply ex_running_wf. right. by left.
  - split; [|vm_compute; discriminate]. intros a n Ha. change (entries _) with [2%positive; 1%positive] in Ha.
    ex_elem Ha; intros [= <-]; apply (bool_decide_unpack _); vm_compute; exact I.
  - apply ex_first.
  - apply (bool_decide_unpack _). vm_compute. exact I.
  - discriminate.
  - vm_compute. discriminate.
Defined.
