(* ===== verification/Mp2App.v ===== *)
(** * MP2: the user application and its session with the module
      (src/MP2/userapp.c)

    The messages the application writes, the status line it looks for in what
    it reads back, and the session of one process: the module parses what the
    application prints. *)
From Stdlib Require Import Ascii String.
From stdpp Require Import prelude gmap.
From S2P Require Import Prelude CInt CText Kernel Mp2 Mp2Facts Mp2Sched Mp2Ops.
From S2P Require Import Mp2Admission Mp2System Mp2Yield.
Open Scope Z_scope.

(** ** The program *)

Definition reg_format : string := "R, %d, %s, %s" ++ String NL EmptyString.
Definition target_format : string := "%d[0]: %s ms, %s ms" ++ String NL EmptyString.

(** What [reg], [yield] and [unreg] write to /proc/mp/status. *)
Definition reg (p : Z) (period process_time : text) : text :=
  sprintf reg_format [AInt p; AStr period; AStr process_time].
Definition yield (p : Z) : text := sprintf "Y, %d" [AInt p].
Definition unreg (p : Z) : text := sprintf "D, %d" [AInt p].

(** [fgets (buffer, n + 1, f)] on the rest of a stream. *)
Fixpoint fgets (n : nat) (t : text) : text * text :=
  match n, t with
  | S n', c :: t' =>
      if decide (c = NL) then ([c], t')
      else let '(l, r) := fgets n' t' in (c :: l, r)
  | _, _ => ([], t)
  end.

(** [strcmp] of two C strings; a line read by [fgets] ends at its first NUL. *)
Definition same_string (line target : text) : outcome bool :=
  l ← c_str (line ++ [NUL]);
  Ok (bool_decide (l = target)).

Fixpoint find_line (fuel : nat) (stream target : text) : outcome Z :=
  match fuel, stream with
  | S fuel', _ :: _ =>
      let '(line, rest) := fgets 254 stream in
      eq ← same_string line target;
      if eq : bool then Ok 0 else find_line fuel' rest target
  | _, _ => Ok (-1)
  end.

(** [read_status] on the bytes the proc file delivers; every iteration consumes
    at least one of them. *)
Definition read_status (stream : text) (p : Z) (period process_time : text) : outcome Z :=
  target ← sprintf_to 255 target_format [AInt p; AStr period; AStr process_time];
  find_line (length stream) stream target.

(** ** The module parses the application's messages *)

Lemma scan_dec z ds t :
  stops t → is_sint 32 z → scan (DInt :: ds) (dec z ++ t) = z :: scan ds t.
Proof.
  intros Ht Hz. cbn [scan]. rewrite scan_int_dec by done. by rewrite int32_small.
Qed.

Lemma scan_comma ds z t :
  scan (DChar "," :: DChar " " :: DInt :: ds) (lit ", " ++ dec z ++ t) =
  scan (DInt :: ds) (dec z ++ t).
Proof.
  change (scan (DInt :: ds) (skip_space (dec z ++ t)) = scan (DInt :: ds) (dec z ++ t)).
  by rewrite skip_space_dec.
Qed.

Lemma scan_registration p per c :
  is_sint 32 p → is_sint 32 per → is_sint 32 c →
  sscanf (dec p ++ lit ", " ++ dec per ++ lit ", " ++ dec c ++ [NL]) registration_format =
  [p; per; c].
Proof.
  intros Hp Hper Hc. unfold sscanf.
  change (parse_format registration_format) with
    [DInt; DChar ","; DChar " "; DInt; DChar ","; DChar " "; DInt; DChar NL].
  rewrite scan_dec by done. rewrite scan_comma, scan_dec by done.
  rewrite scan_comma, scan_dec by done. done.
Qed.

Lemma reg_eq p per c :
  is_sint 32 p →
  reg p (dec per) (dec c) = lit "R, " ++ dec p ++ lit ", " ++ dec per ++ lit ", " ++ dec c ++ [NL].
Proof.
  intros Hp.
  change (reg p (dec per) (dec c)) with
    (lit "R, " ++ dec (int32 p) ++ lit ", " ++ dec per ++ lit ", " ++ dec c ++ [NL]).
  by rewrite int32_small.
Qed.

Lemma yield_eq p : is_sint 32 p → yield p = lit "Y, " ++ dec p.
Proof.
  intros Hp. change (yield p) with (lit "Y, " ++ dec (int32 p) ++ []).
  by rewrite int32_small, app_nil_r.
Qed.

Lemma unreg_eq p : is_sint 32 p → unreg p = lit "D, " ++ dec p.
Proof.
  intros Hp. change (unreg p) with (lit "D, " ++ dec (int32 p) ++ []).
  by rewrite int32_small, app_nil_r.
Qed.

Lemma reg_no_nul p per c :
  NUL ∉ dec p ++ lit ", " ++ dec per ++ lit ", " ++ dec c ++ [NL].
Proof.
  rewrite !not_elem_of_app. repeat split; first [apply dec_no_nul | closed_no_nul].
Qed.

Lemma scan_pid_dec k p c1 c2 c3 : is_sint 32 p → scan_pid k ([c1; c2; c3] ++ dec p ++ [NUL]) = Ok p.
Proof.
  intros Hp. unfold scan_pid.
  change (drop 3 _) with (dec p ++ [NUL]).
  rewrite c_str_app by apply dec_no_nul. cbn [mbind outcome_bind].
  unfold sscanf. change (parse_format pid_format) with [DInt; DChar NL].
  rewrite <-(app_nil_r (dec p)), scan_dec by done. done.
Qed.

(** ** The status lines *)

Definition status_line (n : mp_task_struct) : text :=
  dec (int32 (pid n)) ++ lit "[" ++ dec (int32 (task_state n)) ++ lit "]: " ++
  dec (int32 (period n)) ++ lit " ms, " ++ dec (int32 (processing_time n)) ++ lit " ms" ++ [NL].

Lemma task_line_sprintf n :
  sprintf line_format
    [AInt (pid n); AInt (task_state n); AInt (period n); AInt (processing_time n)] =
  status_line n.
Proof. reflexivity. Qed.

Lemma task_line_length n : (length (status_line n) ≤ 57)%nat.
Proof.
  unfold status_line. rewrite !length_app. simpl.
  pose proof (dec_int32_length (pid n)). pose proof (dec_int32_length (task_state n)).
  pose proof (dec_int32_length (period n)). pose proof (dec_int32_length (processing_time n)).
  lia.
Qed.

Lemma task_line_no_nul n : NUL ∉ status_line n.
Proof.
  unfold status_line. rewrite !not_elem_of_app.
  repeat split; first [apply dec_no_nul | closed_no_nul].
Qed.

(** Two texts that start with a numeral are equal only if the numerals are. *)
Lemma dec_inj_l z1 z2 t1 t2 :
  stops t1 → stops t2 → dec z1 ++ t1 = dec z2 ++ t2 → z1 = z2 ∧ t1 = t2.
Proof.
  intros H1 H2 Heq. pose proof (scan_int_dec true z1 t1 H1) as E1.
  rewrite Heq, scan_int_dec in E1 by done. by injection E1 as -> ->.
Qed.

Lemma dec_not_elem c z : is_digit c = false → c ≠ "-"%char → c ∉ dec z.
Proof.
  intros Hc Hm.
  assert (∀ n, 0 ≤ n → c ∉ dec_nat n).
  { intros n Hn Hin. apply dec_nat_digits in Hn. rewrite Forall_forall in Hn.
    apply Hn in Hin. congruence. }
  unfold dec. destruct (Z.ltb_spec z 0); [|auto].
  rewrite not_elem_of_cons. split; [done|auto with lia].
Qed.

(** A line as the module prints it and [fgets] returns it. *)
Definition is_line (l : text) : Prop :=
  ∃ l0, l = l0 ++ [NL] ∧ NL ∉ l0 ∧ NUL ∉ l0 ∧ (length l0 < 254)%nat.

Lemma status_is_line n : is_line (status_line n).
Proof.
  pose proof (task_line_length n) as Hlen. pose proof (task_line_no_nul n) as Hn.
  exists (dec (int32 (pid n)) ++ lit "[" ++ dec (int32 (task_state n)) ++ lit "]: " ++
    dec (int32 (period n)) ++ lit " ms, " ++ dec (int32 (processing_time n)) ++ lit " ms").
  assert (Heq : status_line n = (dec (int32 (pid n)) ++ lit "[" ++ dec (int32 (task_state n)) ++
    lit "]: " ++ dec (int32 (period n)) ++ lit " ms, " ++
    dec (int32 (processing_time n)) ++ lit " ms") ++ [NL]).
  { unfold status_line. by rewrite <-!app_assoc. }
  rewrite Heq in *. split; [done|]. split; [|split].
  - rewrite !not_elem_of_app.
    repeat split; first [by apply dec_not_elem | closed_no_nul].
  - by apply not_elem_of_app in Hn as [??].
  - rewrite length_app in Hlen. cbn [length] in Hlen. lia.
Qed.

Lemma fgets_app n l0 rest :
  NL ∉ l0 → (length l0 < n)%nat → fgets n (l0 ++ NL :: rest) = (l0 ++ [NL], rest).
Proof.
  revert n. induction l0 as [|c l0 IH]; intros [|n] Hn Hlen; cbn [length] in Hlen; try lia.
  - cbn [app fgets]. by rewrite decide_True.
  - rewrite not_elem_of_cons in Hn. destruct Hn. cbn [app fgets].
    rewrite decide_False, IH by (done || lia). done.
Qed.

Lemma same_string_line l target :
  is_line l → same_string l target = Ok (bool_decide (l = target)).
Proof.
  intros (l0 & -> & _ & Hn & _). unfold same_string.
  rewrite c_str_app; [done|]. rewrite not_elem_of_app. split; [done|closed_no_nul].
Qed.

(** The search finds the target exactly among the delivered lines; the final
    NUL of the read is no line. *)
Lemma find_line_lines lines target fuel :
  Forall is_line lines → target ≠ [] → (length lines < fuel)%nat →
  find_line fuel (concat lines ++ [NUL]) target =
  Ok (if decide (target ∈ lines) then 0 else -1).
Proof.
  intros Hl Ht. revert fuel. induction Hl as [|l lines Hl _ IH]; intros fuel Hf.
  - destruct fuel as [|fuel]; [simpl in Hf; lia|].
    rewrite decide_False by (apply not_elem_of_nil).
    assert (Hnil : same_string [NUL] target = Ok false).
    { unfold same_string. change (c_str _) with (Ok [] : outcome text).
      cbn [mbind outcome_bind]. by rewrite bool_decide_eq_false_2. }
    cbn [concat app find_line].
    change (fgets 254 [NUL]) with ([NUL], [] : text). cbv iota beta.
    rewrite Hnil. by destruct fuel.
  - destruct fuel as [|fuel]; [simpl in Hf; lia|]. cbn [length] in Hf.
    pose proof (same_string_line l target Hl) as Hsame.
    destruct Hl as (l0 & -> & Hnl & Hnul & Hlen).
    assert (Hget : fgets 254 (concat ((l0 ++ [NL]) :: lines) ++ [NUL]) =
                   (l0 ++ [NL], concat lines ++ [NUL])).
    { cbn [concat]. rewrite <-!app_assoc. cbn [app]. by apply fgets_app. }
    destruct (concat ((l0 ++ [NL]) :: lines) ++ [NUL]) as [|c r] eqn:Hs.
    { cbn [concat] in Hs. by destruct l0. }
    cbn [find_line]. rewrite Hget, Hsame. cbn [mbind outcome_bind].
    case_bool_decide as Heq.
    + rewrite decide_True; [done|]. rewrite Heq. by left.
    + rewrite IH by lia. f_equal. apply decide_ext. rewrite elem_of_cons. naive_solver.
Qed.

Lemma lines_nonempty lines : Forall is_line lines → (length lines ≤ length (concat lines))%nat.
Proof.
  induction 1 as [|l lines (l0 & -> & _) _ IH]; [done|].
  cbn [concat length]. rewrite !length_app. cbn [length]. lia.
Qed.

Lemma target_eq p per c :
  sprintf target_format [AInt p; AStr (dec per); AStr (dec c)] =
  dec (int32 p) ++ lit "[0]: " ++ dec per ++ lit " ms, " ++ dec c ++ lit " ms" ++ [NL].
Proof. reflexivity. Qed.

(** The line the application looks for is the module's line of a SLEEPING task
    with these parameters, and no line of a task with another pid. *)
Lemma target_of_task n :
  is_sint 32 (period n) → is_sint 32 (processing_time n) → task_state n = SLEEPING →
  sprintf target_format [AInt (pid n); AStr (dec (period n)); AStr (dec (processing_time n))] =
  status_line n.
Proof.
  intros Hp Hc Hs. rewrite target_eq. unfold status_line.
  rewrite Hs, (int32_small (period n)), (int32_small (processing_time n)) by done. done.
Qed.

Lemma status_line_pid n p per c :
  status_line n = sprintf target_format [AInt p; AStr (dec per); AStr (dec c)] →
  int32 (pid n) = int32 p.
Proof. rewrite target_eq. intros [Heq _]%dec_inj_l; done. Qed.

Section session.
Context {KL : KList} {KLL : KListLaws KL}.
Context (msecs_to_jiffies : Z → Z).
Implicit Types s : state.

(** ** What a read delivers *)

Definition status_lines s : list text :=
  map (λ a, match tasks s !! a with Some n => status_line n | None => [] end) (entries s).

Lemma task_lines_ok s : wf s → read_lines s = Ok (status_lines s).
Proof.
  intros Hwf. apply mapM_outcome_ok. intros a Ha.
  destruct (wf_entry _ _ Hwf Ha) as [n Hn].
  unfold read_line. rewrite (deref_live _ _ n) by done. cbv [mbind outcome_bind]. rewrite Hn.
  apply sprintf_to_fits; [apply task_line_sprintf|].
  pose proof (task_line_length n). lia.
Qed.

Lemma elem_of_status_lines l s :
  wf s → l ∈ status_lines s ↔
  ∃ a n, a ∈ entries s ∧ tasks s !! a = Some n ∧ l = status_line n.
Proof.
  intros Hwf. unfold status_lines. rewrite list_elem_of_fmap. split.
  - intros (a & -> & Ha). destruct (wf_entry _ _ Hwf Ha) as [n Hn].
    exists a, n. by rewrite Hn.
  - intros (a & n & Ha & Hn & ->). exists a. by rewrite Hn.
Qed.

Lemma status_lines_are_lines s : wf s → Forall is_line (status_lines s).
Proof.
  intros Hwf. apply Forall_forall. intros l (a & n & _ & _ & ->)%elem_of_status_lines; [|done].
  apply status_is_line.
Qed.

Lemma task_lines_no_nul s : wf s → Forall (λ l, NUL ∉ l) (status_lines s).
Proof.
  intros Hwf. apply Forall_forall. intros l (a & n & _ & _ & ->)%elem_of_status_lines; [|done].
  apply task_line_no_nul.
Qed.

Lemma task_lines_length s :
  (length (concat (status_lines s)) ≤ 57 * length (entries s))%nat.
Proof.
  unfold status_lines. induction (entries s) as [|a es IH]; [simpl; lia|].
  cbn [map concat length]. rewrite length_app.
  destruct (tasks s !! a) as [n|]; [pose proof (task_line_length n)|simpl]; lia.
Qed.

Definition read_trace (out : text) : list kcall :=
  [Kkmalloc 2048; Kspin_lock; Klist_for_each; Kspin_unlock; Kcopy_to_user out; Kkfree_buf].

Lemma mp_read_eq buf count s :
  wf s →
  mp_read buf count 0 s =
    match fill_out buf (status_lines s) with
    | Ok out => Ok (Z.of_nat (length out), Z.of_nat (length out), s, read_trace out)
    | Fault f => Fault f
    end.
Proof.
  intros Hwf. unfold mp_read. rewrite decide_False by lia.
  rewrite <-(fill_strlen buf _ (task_lines_no_nul s Hwf)).
  pose proof (task_lines_ok s Hwf) as Hl. run.
  destruct (fill buf 0 (status_lines s)) as [buf'|]; [|done]. run.
  destruct (strlen buf') as [len|] eqn:Hlen; [|done]. run.
  apply strlen_lt in Hlen. unfold read_trace. rewrite length_take_le by lia.
  rewrite Nat2Z.inj_add. done.
Qed.

(** A read of a list that fits the buffer. *)
Lemma mp_read_fits buf count s :
  wf s → length buf = 2048%nat → entries s ≠ [] → (length (entries s) ≤ 35)%nat →
  let out := concat (status_lines s) ++ [NUL] in
  mp_read buf count 0 s =
    Ok (Z.of_nat (length out), Z.of_nat (length out), s, read_trace out).
Proof.
  intros Hwf Hbuf Hne Hlen out. rewrite mp_read_eq by done.
  pose proof (task_lines_length s) as Hmax. unfold fill_out.
  destruct (status_lines s) as [|l ls] eqn:Hs.
  { unfold status_lines in Hs. by destruct (entries s). }
  rewrite decide_True by (rewrite Hbuf; lia). done.
Qed.

(** What the application concludes from it. *)
Lemma read_status_lines s p per c :
  wf s → is_sint 32 per → is_sint 32 c →
  let target := sprintf target_format [AInt p; AStr (dec per); AStr (dec c)] in
  read_status (concat (status_lines s) ++ [NUL]) p (dec per) (dec c) =
    Ok (if decide (target ∈ status_lines s) then 0 else -1).
Proof.
  intros Hwf Hper Hc target. unfold read_status.
  pose proof (status_lines_are_lines s Hwf) as Hl.
  pose proof (target_of_task (MpTask None None 0 SLEEPING 0 p per c) Hper Hc eq_refl) as Ht.
  rewrite (sprintf_to_fits _ _ _ target) by
    (first [done | unfold target; cbn [pid period processing_time] in Ht; rewrite Ht;
       etrans; [apply Nat.add_le_mono_r, task_line_length|lia]]).
  cbn [mbind outcome_bind]. apply find_line_lines; [done| |].
  - unfold target. rewrite target_eq. by destruct (dec (int32 p)).
  - pose proof (lines_nonempty _ Hl). rewrite length_app. cbn [length]. lia.
Qed.

(** A listed task finds its own line; a process that is not listed finds none. *)
Lemma listed_status n a s :
  wf s → tasks s !! a = None → is_ok (utilization n) = true → timer_data n = pid n →
  is_sint 32 (period n) → is_sint 32 (processing_time n) → task_state n = SLEEPING →
  read_status (concat (status_lines (listed a n s)) ++ [NUL]) (pid n) (dec (period n))
    (dec (processing_time n)) = Ok 0.
Proof.
  intros Hwf Hfresh Hu Htd Hper Hc Hst.
  pose proof (listed_wf a n s Hwf Hfresh Hu Htd) as Hwf'.
  rewrite read_status_lines by done. rewrite decide_True; [done|].
  apply elem_of_status_lines; [done|]. exists a, n. rewrite listed_entries by done.
  split; [by left|]. split; [apply lookup_insert_eq|]. by apply target_of_task.
Qed.

Lemma unlisted_status p per c s :
  wf s → is_sint 32 p → is_sint 32 per → is_sint 32 c →
  (∀ b m, b ∈ entries s → tasks s !! b = Some m → int32 (pid m) ≠ p) →
  read_status (concat (status_lines s) ++ [NUL]) p (dec per) (dec c) = Ok (-1).
Proof.
  intros Hwf Hp Hper Hc Hpids. rewrite read_status_lines by done. rewrite decide_False; [done|].
  intros (b & m & Hb & Hm & Heq)%elem_of_status_lines; [|done].
  symmetry in Heq. apply status_line_pid in Heq. rewrite (int32_small p) in Heq by done.
  by eapply Hpids.
Qed.

Lemma benign_sint n : benign n → is_sint 32 (processing_time n) ∧ is_ok (utilization n) = true.
Proof.
  intros Hb. rewrite utilization_benign by done. split; [|done].
  destruct Hb as [Hb _]. red. change (2 ^ (32 - 1)) with 2147483648. lia.
Qed.

(** ** The application's writes *)

Definition request_trace (len : nat) (t : list kcall) : list kcall :=
  Kkmalloc (Z.of_nat len + 1) :: t ++ [Kkfree_buf].

Lemma sleeps_request len t : sleeps (request_trace len t) = sleeps t.
Proof.
  change (sleeps (request_trace len t)) with (sleeps (t ++ [Kkfree_buf])).
  by rewrite sleeps_app, app_nil_r.
Qed.

Lemma mp_write_reg k b s s' t :
  registration k (("R"%char :: b) ++ [NUL]) s = Ok (tt, s', t) →
  mp_write msecs_to_jiffies k ("R"%char :: b) s =
    Ok (Z.of_nat (S (length b)), s', request_trace (S (length b)) t).
Proof. intros H. unfold mp_write. cbn [app] in *. run. done. Qed.

Lemma mp_write_yield k b s s' t :
  yield_handle msecs_to_jiffies k (("Y"%char :: b) ++ [NUL]) s = Ok (tt, s', t) →
  mp_write msecs_to_jiffies k ("Y"%char :: b) s =
    Ok (Z.of_nat (S (length b)), s', request_trace (S (length b)) t).
Proof. intros H. unfold mp_write. cbn [app] in *. run. done. Qed.

Lemma mp_write_dereg k b s s' t :
  de_registration k (("D"%char :: b) ++ [NUL]) s = Ok (tt, s', t) →
  mp_write msecs_to_jiffies k ("D"%char :: b) s =
    Ok (Z.of_nat (S (length b)), s', request_trace (S (length b)) t).
Proof. intros H. unfold mp_write. cbn [app] in *. run. done. Qed.

Lemma new_task_reg k p per c :
  is_sint 32 p → is_sint 32 per → is_sint 32 c →
  new_task k (dec p ++ lit ", " ++ dec per ++ lit ", " ++ dec c ++ [NL]) =
  MpTask (find_task_by_pid k p) None p SLEEPING 0 p per c.
Proof. intros. unfold new_task. by rewrite scan_registration. Qed.

(** The whole registration request of the application. *)
Lemma reg_request k p per c a s :
  let n := MpTask (find_task_by_pid k p) None p SLEEPING 0 p per c in
  wf s → budget s → new_object k = Some a → tasks s !! a = None →
  is_sint 32 p → is_sint 32 per → benign n →
  ∃ t, mp_write msecs_to_jiffies k (reg p (dec per) (dec c)) s =
    Ok (Z.of_nat (length (reg p (dec per) (dec c))),
        if decide (util n + utilization_of s ≤ 693000) then listed a n s else s, t) ∧
    sleeps t = [].
Proof.
  intros n Hwf Hbud Ha Hfresh Hp Hper Hb. rewrite reg_eq by done.
  assert (Hc : is_sint 32 c).
  { destruct Hb as [Hb _]. cbn in Hb. red. change (2 ^ (32 - 1)) with 2147483648. lia. }
  set (str := dec p ++ lit ", " ++ dec per ++ lit ", " ++ dec c ++ [NL]).
  assert (Hn : new_task k str = n) by (by apply new_task_reg).
  destruct (registration_budget k ((lit "R, " ++ str) ++ [NUL]) str a s) as (t & Heq & _ & Hsl);
    rewrite ?Hn; try done.
  { change (drop 3 _) with (str ++ [NUL]). apply c_str_app, reg_no_nul. }
  rewrite Hn in Heq. eexists. split; [by apply mp_write_reg|]. by rewrite sleeps_request.
Qed.

Lemma yield_request k p a n t s :
  wf s → is_sint 32 p → first_with (λ x, pid x = p) (tasks s) (entries s) a →
  tasks s !! a = Some n → task n = Some t →
  ∃ tr, mp_write msecs_to_jiffies k (yield p) s =
      Ok (Z.of_nat (length (yield p)), put_task a (yielded msecs_to_jiffies k n) s, tr) ∧
    sleeps tr = if decide (release msecs_to_jiffies (jiffies k) n < jiffies_again k) then [] else [t].
Proof.
  intros Hwf Hp Hf Hn Ht. rewrite yield_eq by done.
  destruct (yield_one msecs_to_jiffies k ((lit "Y, " ++ dec p) ++ [NUL]) p a n t s)
    as (tr & Heq & _ & Hs); try done.
  { rewrite <-app_assoc. by apply (scan_pid_dec k p "Y" "," " "). }
  eexists. split; [by apply mp_write_yield|].
  by rewrite sleeps_request.
Qed.

Lemma unreg_request k p a s :
  wf s → is_sint 32 p → first_with (λ x, pid x = p) (tasks s) (entries s) a →
  ∃ tr, mp_write msecs_to_jiffies k (unreg p) s =
    Ok (Z.of_nat (length (unreg p)), removed a s, tr) ∧ sleeps tr = [].
Proof.
  intros Hwf Hp Hf. rewrite unreg_eq by done.
  destruct (de_registration_eq k ((lit "D, " ++ dec p) ++ [NUL]) p s)
    as [(b & n & Hf' & _ & Heq)|[Hno _]]; [done| | |].
  { rewrite <-app_assoc. by apply (scan_pid_dec k p "D" "," " "). }
  - assert (b = a) as -> by (by eapply first_with_unique). eexists. split; [by apply mp_write_dereg|].
    rewrite sleeps_request. unfold deregister_trace. by case_decide.
  - destruct (first_with_elem _ _ _ _ Hf) as (Ha & m & Hm & Hpm). exfalso. by eapply Hno.
Qed.

Lemma removed_put a n s : removed a (put_task a n s) = removed a s.
Proof. unfold removed, put_task. cbn. by rewrite delete_insert_eq. Qed.

(** ** Properties *)

(** C17: End to end, the application reads its admission off the proc file.  The
    setting: its task is benign, the module is within its budget and lists at
    most 34 tasks, and the read follows the registration.  When the task was
    admitted, [read_status] on what the read delivers returns 0.  When it was
    rejected, it returns -1, provided some task is listed and none with its
    pid; an empty list delivers the bytes of an uninitialised buffer. *)
Theorem registration_reported k p per c a buf count s :
  let n := MpTask (find_task_by_pid k p) None p SLEEPING 0 p per c in
  wf s → budget s → new_object k = Some a → tasks s !! a = None →
  is_sint 32 p → is_sint 32 per → benign n →
  length buf = 2048%nat → (length (entries s) ≤ 34)%nat →
  ∃ z s' t, mp_write msecs_to_jiffies k (reg p (dec per) (dec c)) s = Ok (z, s', t) ∧
    (util n + utilization_of s ≤ 693000 →
       ∃ len out, mp_read buf count 0 s' = Ok (len, len, s', read_trace out) ∧
         read_status out p (dec per) (dec c) = Ok 0) ∧
    (693000 < util n + utilization_of s → entries s ≠ [] →
     (∀ b m, b ∈ entries s → tasks s !! b = Some m → int32 (pid m) ≠ p) →
       ∃ len out, mp_read buf count 0 s' = Ok (len, len, s', read_trace out) ∧
         read_status out p (dec per) (dec c) = Ok (-1)).
Proof.
  intros n Hwf Hbud Ha Hfresh Hp Hper Hb Hbuf Hlen.
  assert (Hc : is_sint 32 c).
  { destruct Hb as [Hb _]. cbn in Hb. red. change (2 ^ (32 - 1)) with 2147483648. lia. }
  destruct (reg_request k p per c a s Hwf Hbud Ha Hfresh Hp Hper Hb) as (t & Heq & _). fold n in Heq.
  do 3 eexists. split; [exact Heq|]. destruct (benign_sint n Hb) as [_ Hut].
  split; intros Hu.
  - rewrite decide_True by done. do 2 eexists. split.
    + apply mp_read_fits; [by apply listed_wf|done|by rewrite listed_entries|].
      rewrite listed_entries by done. cbn [length]. lia.
    + by apply (listed_status n).
  - intros Hne Hpids. rewrite decide_False by lia. do 2 eexists. split.
    + apply mp_read_fits; [done|done|done|lia].
    + by apply unlisted_status.
Qed.

End session.

(** ** Concrete instances *)

Definition ex_page : text := replicate 2048 "x"%char.

(** Process 72 asks for 60 percent of the processor. *)
Definition ex_sixty : @state seq_klist :=
  listed 6 (MpTask (Some 12%positive) None 72 SLEEPING 0 72 100 60) init_state.

Lemma ex_sixty_wf : wf ex_sixty.
Proof. apply (listed_wf (KLL := seq_klist_laws)); [apply init_wf|done..]. Qed.

Lemma ex_sixty_budget : budget ex_sixty.
Proof.
  split; [|vm_compute; discriminate]. intros a n Ha.
  apply elem_of_cons in Ha as [->|Ha]; [|by apply not_elem_of_nil in Ha].
  intros [= <-]. apply (bool_decide_unpack _). vm_compute. exact I.
Qed.

(** Process 71 asks for 20 percent: there is room in the empty list, and none
    beside process 72. *)
Lemma registration_reported_witness :
  let k := ex_answers 5 in let s : @state seq_klist := init_state in
  (∃ z s' t, mp_write id k (reg 71 (dec 10) (dec 2)) s = Ok (z, s', t) ∧
     ∃ len out, mp_read ex_page 255 0 s' = Ok (len, len, s', read_trace out) ∧
       read_status out 71 (dec 10) (dec 2) = Ok 0) ∧
  (∃ z s' t, mp_write id k (reg 71 (dec 10) (dec 2)) ex_sixty = Ok (z, s', t) ∧
     ∃ len out, mp_read ex_page 255 0 s' = Ok (len, len, s', read_trace out) ∧
       read_status out 71 (dec 10) (dec 2) = Ok (-1)).
Proof.
  intros k s. split.
  - destruct (registration_reported (KLL := seq_klist_laws) id k 71 10 2 5 ex_page 255 s)
      as (z & s' & t & Hw & Hok & _).
    1: apply init_wf.
    1: apply init_budget.
    1-5: apply (bool_decide_unpack _); vm_compute; exact I.
    1: reflexivity.
    1: simpl; lia.
    exists z, s', t. split; [exact Hw|]. apply Hok. vm_compute. discriminate.
  - destruct (registration_reported (KLL := seq_klist_laws) id k 71 10 2 5 ex_page 255 ex_sixty)
      as (z & s' & t & Hw & _ & Hno).
    1: apply ex_sixty_wf.
    1: apply ex_sixty_budget.
    1-5: apply (bool_decide_unpack _); vm_compute; exact I.
    1: reflexivity.
    1: simpl; lia.
    exists z, s', t. split; [exact Hw|]. apply Hno; [reflexivity|discriminate|].
    intros b m Hb. apply elem_of_cons in Hb as [->|Hb]; [|by apply not_elem_of_nil in Hb].
    by intros [= <-].
Defined.
