(* ===== verification/Mp2Types.v ===== *)
(** * MP2: the types of a task's fields

    Every object of every reachable state holds values of the C types of its
    fields, the state field one of the three states; so the status line of a
    task is a faithful picture of it. *)
From Stdlib Require Import Ascii String.
From stdpp Require Import prelude gmap.
From S2P Require Import Prelude CInt CText Kernel Mp2 Mp2Facts Mp2Sched Mp2Ops Mp2System Mp2App.
From S2P Require Import Mp2Admission.
Open Scope Z_scope.

(** [int] and [unsigned long] fields, and the states of the scheduler. *)
Record typed (n : mp_task_struct) : Prop := {
  typed_ints : int_fields n;
  typed_state : task_state n = SLEEPING ∨ task_state n = READY ∨ task_state n = RUNNING;
  typed_next_period : is_uint 64 (next_period n);
  typed_timer : ∀ e, task_timer n = Some e → is_uint 64 e;
}.

Section types.
Context {KL : KList} {KLL : KListLaws KL}.
Context (msecs_to_jiffies : Z → Z).
Implicit Types s : state.

Definition all_typed s : Prop := map_Forall (λ _, typed) (tasks s).

(** ** Values that are read or computed *)

Lemma scan_sint ds t : Forall (is_sint 32) (scan ds t).
Proof.
  revert t. induction ds as [|d ds IH]; intros t; [constructor|].
  destruct d; cbn [scan]; try (destruct (scan_int false t) as [[z t']|]; [|constructor]; constructor;
    [apply int32_range|apply IH]).
  destruct (is_space c); [apply IH|]. destruct t as [|c' t]; [constructor|].
  case_decide; [apply IH|constructor].
Qed.

Lemma sscanf_sint t fmt i d : is_sint 32 d → is_sint 32 (default d (sscanf t fmt !! i)).
Proof.
  intros Hd. destruct (sscanf t fmt !! i) as [z|] eqn:Hz; [|done].
  eapply (Forall_lookup_1 _ _ _ _ (scan_sint _ _)). exact Hz.
Qed.

Lemma new_task_typed k str : int_fields (garbage k) → typed (new_task k str).
Proof.
  intros (Hp & Hper & Hc). split; cbn [new_task task_state next_period task_timer].
  - split; [|split]; cbn [new_task pid period processing_time]; by apply sscanf_sint.
  - by left.
  - red. lia.
  - done.
Qed.

Lemma with_state_typed st n :
  st = SLEEPING ∨ st = READY ∨ st = RUNNING → typed n → typed (with_state st n).
Proof. intros Hst [Hi _ Hn Ht]. by split. Qed.

Lemma with_timer_typed e n :
  (∀ z, e = Some z → is_uint 64 z) → typed n → typed (with_timer e n).
Proof. intros He [Hi Hs Hn _]. by split. Qed.

Lemma with_next_period_typed z n : is_uint 64 z → typed n → typed (with_next_period z n).
Proof. intros Hz [Hi Hs _ Ht]. by split. Qed.

Lemma yielded_typed k n : typed n → typed (yielded msecs_to_jiffies k n).
Proof.
  intros Hn. assert (Hr : is_uint 64 (release msecs_to_jiffies (jiffies k) n)) by apply uint64_range.
  unfold yielded. case_decide; [by apply with_next_period_typed|].
  apply with_state_typed; [by left|]. apply with_timer_typed; [by intros z [= <-]|].
  by apply with_next_period_typed.
Qed.

(** ** Every step preserves the types *)

Lemma put_typed a n s : typed n → all_typed s → all_typed (put_task a n s).
Proof. intros Hn Hs. by apply map_Forall_insert_2. Qed.

Lemma wp_store_typed a f s (Q : unit → state → list kcall → Prop) F :
  wf s → a ∈ entries s → all_typed s → (∀ n, same_task n (f n)) → (∀ n, typed n → typed (f n)) →
  (∀ s', wf s' → entries s' = entries s → running_mptask s' = running_mptask s →
     all_typed s' → Q tt s' []) →
  wp (store (Some a) f) s Q F.
Proof.
  intros Hwf Ha Hs Hf Hft HQ. destruct (wf_entry _ _ Hwf Ha) as [n Hn].
  eapply wp_store; [done|]. apply HQ; [by eapply wf_put|done|done|].
  apply put_typed; [|done]. apply Hft. exact (Hs a n Hn).
Qed.

Lemma preempt_typed a s :
  wf s → a ∈ entries s → all_typed s →
  wp (preempt a) s (λ _ s' _, wf s' ∧ entries s' = entries s ∧ all_typed s') (λ _, True).
Proof.
  intros Hwf Ha Hs. unfold preempt. wp_go.
  destruct (running_mptask s) as [r|] eqn:Hr; [|by wp_go].
  pose proof (wf_running _ Hwf _ Hr) as Hin.
  destruct (wf_entry _ _ Hwf Ha) as [n Hn]. destruct (wf_entry _ _ Hwf Hin) as [rn Hrn].
  wp_go. eapply wp_load; [done|]. wp_go. eapply wp_load; [done|].
  apply wp_if; intros _; [|by wp_go].
  wp_go. apply wp_store_typed; try done.
  { intros m. apply with_state_typed. right. by left. }
  intros s' Hwf' Hes _ Hs'.
  eapply wp_mono; [apply set_priority_pure| |done]. by intros [] ? ? ->.
Qed.

Lemma dispatch_typed s s' t :
  wf s → all_typed s → dispatch s = Ok (tt, s', t) → all_typed s'.
Proof.
  intros Hwf Hs Heq. enough (Hwp : wp dispatch s (λ _ s' _, all_typed s') (λ _, True)).
  { unfold wp in Hwp. by rewrite Heq in Hwp. }
  destruct (pick_gen (tasks s) (entries s) None INT_MAX (wf_list _ Hwf))
    as (r & Hpick & Hr).
  unfold dispatch. wp_go. rewrite Hpick. wp_go. destruct r as [a|].
  - destruct Hr as [[? _]|(? & [= <-] & Hbest)]; [done|].
    assert (Ha : a ∈ entries s).
    { destruct Hbest as (l1 & l2 & n & -> & _). apply elem_of_middle. }
    wp_go. eapply wp_mono; [by apply preempt_typed| |done]. intros [] s1 t1 (Hwf1 & Hes1 & Hs1).
    wp_go. rewrite <-Hes1 in Ha. apply wp_store_typed; try done.
    { intros m. apply with_state_typed. right. by right. }
    intros s2 Hwf2 Hes2 _ Hs2. rewrite <-Hes2 in Ha.
    destruct (wf_entry _ _ Hwf2 Ha) as [n Hn].
    wp_go. eapply wp_load; [done|]. wp_go. destruct (task n); [|done]. wp_go.
    eapply wp_mono; [apply set_priority_pure| |done]. intros [] ? ? ->. by wp_go.
  - destruct (running_mptask s) as [r|]; [|by wp_go]. wp_go.
    eapply wp_mono; [apply set_priority_pure| |done]. intros [] ? ? ->. by wp_go.
Qed.

Lemma callback_typed d s s' t :
  wf s → all_typed s → _timer_callback d s = Ok (tt, s', t) → all_typed s'.
Proof.
  intros Hwf Hs Heq. destruct (timer_callback_eq d s Hwf) as [(a & n & _ & Hn & Heq')|[_ Heq']];
    rewrite Heq' in Heq; [|done]. simplify_eq.
  apply put_typed; [|done]. apply with_state_typed; [right; by left|]. by apply (Hs a).
Qed.

Lemma yield_advance_typed k r b s s' t :
  all_typed s → yield_advance msecs_to_jiffies k r s = Ok (b, s', t) → all_typed s'.
Proof.
  intros Hs. destruct r as [a|]; [|done]. destruct (tasks s !! a) as [n|] eqn:Hn.
  - rewrite (yield_advance_eq _ _ _ n) by done. intros [= _ <- _].
    apply put_typed; [|done]. apply with_next_period_typed; [apply uint64_range|by apply (Hs a)].
  - unfold yield_advance. by rewrite (bind_fault _ _ _ UseAfterFree) by (by apply load_freed).
Qed.

Lemma yield_program_typed r s s' t :
  all_typed s → yield_program r s = Ok (tt, s', t) → all_typed s'.
Proof.
  intros Hs. destruct r as [a|]; [|done]. destruct (tasks s !! a) as [n|] eqn:Hn.
  - rewrite (yield_program_eq _ n) by done. intros [= <- _].
    pose proof (Hs a n Hn) as Hty. apply put_typed; [|done].
    apply with_timer_typed; [intros z [= <-]; apply Hty|done].
  - unfold yield_program. by rewrite (bind_fault _ _ _ UseAfterFree) by (by apply load_freed).
Qed.

Lemma yield_sleep_typed r s s' t :
  all_typed s → yield_sleep r s = Ok (tt, s', t) → all_typed s'.
Proof.
  intros Hs. destruct r as [a|]; [|done]. destruct (tasks s !! a) as [n|] eqn:Hn.
  - rewrite (yield_sleep_eq _ n) by done. destruct (task n); [|done]. intros [= <- _].
    apply put_typed; [|done]. apply with_state_typed; [by left|by apply (Hs a)].
  - unfold yield_sleep. by rewrite (bind_fault _ _ _ UseAfterFree) by (by apply store_freed).
Qed.

Lemma test_typed k buf r s s' t :
  wf s → all_typed s → fresh_object k s → registration_check k buf s = Ok (r, s', t) → all_typed s'.
Proof.
  intros Hwf Hs Hfresh Heq. destruct (registration_check_inv k buf r s s' t Hwf Hfresh Heq)
    as (a & str & u & _ & _ & _ & Hg & _ & _ & ->).
  apply put_typed; [by apply new_task_typed|done].
Qed.

Lemma commit_typed a ok s s' t :
  all_typed s → registration_commit a ok s = Ok (tt, s', t) → all_typed s'.
Proof.
  intros Hs. destruct ok; unfold registration_commit; run; intros [= <- _]; [done|].
  by apply map_Forall_delete.
Qed.

Lemma deregister_typed k buf s s' t :
  wf s → all_typed s → de_registration k buf s = Ok (tt, s', t) → all_typed s'.
Proof.
  intros Hwf Hs Heq. destruct (scan_pid k buf) as [p|] eqn:Hp.
  2: { revert Heq. unfold de_registration. run. done. }
  destruct (de_registration_eq k buf p s Hwf Hp) as [(a & n & _ & _ & Heq')|[_ Heq']];
    rewrite Heq' in Heq; simplify_eq.
  by apply map_Forall_delete.
Qed.

Lemma step_typed y y' :
  inv y → all_typed (module y) → step msecs_to_jiffies y y' → all_typed (module y').
Proof.
  intros Hinv Hs Hstep. pose proof (inv_wf _ Hinv) as Hwf. destruct Hstep; cbn [module] in *.
  - by eapply test_typed.
  - by eapply commit_typed.
  - rename select (yield_find _ _ _ = _) into Heq. by apply yield_find_pure in Heq as ->.
  - by eapply yield_advance_typed.
  - by eapply yield_advance_typed.
  - by eapply yield_program_typed.
  - by eapply yield_sleep_typed.
  - by eapply deregister_typed.
  - rename select (mp_read _ _ _ _ = _) into Heq. by rewrite (mp_read_pure _ _ _ _ _ _ _ Heq).
  - rename select (expire _ _ _ = _) into Heq. injection Heq as <- _.
    apply put_typed; [|done]. by apply with_timer_typed, (Hs a).
  - by eapply callback_typed.
  - by eapply dispatch_typed.
Qed.

Lemma reachable_typed y : rtc (step msecs_to_jiffies) loaded y → all_typed (module y).
Proof.
  intros Hr. enough (inv y ∧ all_typed (module y)) by tauto. revert Hr.
  apply (rtc_ind_r (λ y, inv y ∧ all_typed (module y))).
  - split; [by apply (system_inv msecs_to_jiffies), rtc_refl|apply map_Forall_empty].
  - intros y1 y2 _ Hstep [Hinv Hs]. split; [by eapply step_inv|by eapply step_typed].
Qed.

(** ** A status line reads back *)

Lemma scan_space ds z t : scan (DChar " " :: ds) (" "%char :: dec z ++ t) = scan ds (dec z ++ t).
Proof.
  change (scan ds (skip_space (dec z ++ t)) = scan ds (dec z ++ t)). by rewrite skip_space_dec.
Qed.

Lemma scan_char c ds t : is_space c = false → scan (DChar c :: ds) (c :: t) = scan ds t.
Proof. intros Hc. cbn [scan]. by rewrite Hc, decide_True. Qed.

Lemma scan_space_char c ds t :
  is_space c = false → scan (DChar " " :: ds) (" "%char :: c :: t) = scan ds (c :: t).
Proof.
  intros Hc. change (scan ds (skip_space (c :: t)) = scan ds (c :: t)). cbn [skip_space].
  by rewrite Hc.
Qed.

Lemma status_line_scan n :
  is_sint 32 (pid n) → is_sint 32 (task_state n) → is_sint 32 (period n) →
  is_sint 32 (processing_time n) →
  sscanf (status_line n) line_format = [pid n; task_state n; period n; processing_time n].
Proof.
  intros H1 H2 H3 H4. unfold status_line, sscanf. rewrite !int32_small by done.
  change (parse_format line_format) with
    [DInt; DChar "["; DInt; DChar "]"; DChar ":"; DChar " "; DInt; DChar " "; DChar "m"; DChar "s";
     DChar ","; DChar " "; DInt; DChar " "; DChar "m"; DChar "s"; DChar NL].
  cbn [lit list_ascii_of_string app].
  repeat first [rewrite scan_dec by done|rewrite scan_space|rewrite scan_space_char by done
               |rewrite scan_char by done].
  done.
Qed.

(** ** Property *)

(** C24: In every reachable state, with requests and timers cut where others can
    interrupt them, every object, listed or not, holds values of the types of its
    fields, with one of the three states; and the line a read prints for it,
    scanned with its own format, gives back the task's pid, state, period and
    processing time. *)
Theorem mp2_reachable_typed s l :
  rtc (step msecs_to_jiffies) loaded (System s l) →
  ∀ a n, tasks s !! a = Some n →
    typed n ∧ sscanf (status_line n) line_format =
                [pid n; task_state n; period n; processing_time n].
Proof.
  intros Hr a n Hn. pose proof (reachable_typed _ Hr a n Hn) as Ht. split; [done|].
  destruct Ht as [(Hp & Hper & Hc) Hs _ _]. apply status_line_scan; try done.
  red. change (2 ^ (32 - 1)) with 2147483648. unfold SLEEPING, READY, RUNNING in Hs. lia.
Qed.
End types.

(** ** Concrete instance *)

Lemma mp2_reachable_typed_witness :
  typed ex_asleep ∧ sscanf (status_line ex_asleep) line_format = [42; 0; 100; 50].
Proof.
  apply (mp2_reachable_typed (KLL := seq_klist_laws) id ex_reached _ ex_reached_runs 5).
  reflexivity.
Defined.
