(* ===== verification/Mp2Main.v ===== *)
(** * MP2: the application from start to exit (src/MP2/userapp.c, [main])

    The program measures its job, registers, looks for its own status line and,
    when it finds it, yields once per job and deregisters.  Between its system
    calls timers expire and the dispatcher runs; a yield that puts it to sleep
    returns only when the dispatcher has woken its thread. *)
From Stdlib Require Import Ascii String.
From stdpp Require Import prelude gmap.
From S2P Require Import Prelude CInt CFloat CText Kernel UserApp Mp2 Mp2Facts Mp2Sched Mp2Ops.
From S2P Require Import Mp2Admission Mp2System Mp2Yield Mp2App.
Open Scope Z_scope.

Definition status_file : text := lit "/proc/mp/status".

(** [(int) (end - start) / 5 * (1.2)] of two microsecond counts: an integer
    division, a product of doubles, and the conversion back to [int]. *)
Definition safe_processtime (start_usec end_usec : Z) : Z :=
  to_sint 32 (fmul double (of_int double (Z.quot (int32 (end_usec - start_usec)) 5))
                (literal 12 10)).

(** A trace that wakes the thread [t]. *)
Definition wakes (t : addr) (tr : list kcall) : bool :=
  existsb (λ c, match c with
                | Kwake_up_process (TaskStruct t') => bool_decide (t' = t)
                | _ => false
                end) tr.

(** The module runs, and what it asks of its kernel is looked at. *)
Definition traced {S A} (m : kern S A) : user S (list kcall) := λ s,
  match m s with
  | Ok (_, s', tr) => Ok (tr, s', Kernel <$> tr)
  | Fault f => Fault f
  end.

Section main.
Context {KL : KList}.
Context (msecs_to_jiffies : Z → Z).

(** What the process meets: whether the proc file can be opened, its pid and its
    [task_struct], the clock at its readings, the kernel's answers to its
    requests (0 the registration, then the yields, last the deregistration) and
    the kernel buffer of its read; and what the module does by itself before each
    request, before the read, and after a request that has put the process to
    sleep. *)
Record world : Type := World {
  opens : bool;
  getpid : Z;
  current : addr;
  clock : nat → timeval;
  kernel : nat → answers;
  page : text;
  before : nat → list event;
  before_read : list event;
  asleep : nat → list event;
}.

Definition meanwhile (evs : list event) : user state unit := syscall (for_each evs run_event).

(** [schedule] of thread [t]: it returns at the first event that wakes the
    thread; [false] when none of them does. *)
Fixpoint schedule (t : addr) (evs : list event) : user state bool :=
  match evs with
  | [] => mret false
  | ev :: evs' =>
      tr ← traced (run_event ev);
      if wakes t tr then mret true else schedule t evs'
  end.

(** [fopen], [fprintf] and [fclose] around one message, the [i]-th request;
    [fclose] hands it to the module.  [false]: the process is still asleep. *)
Definition write_status (w : world) (i : nat) (message : text) : user state bool :=
  meanwhile (before w i) ;;
  f ← fopen (opens w) status_file;
  use_file f ;;
  tr ← traced (mp_write msecs_to_jiffies (kernel w i) message);
  woken ← (if decide (current w ∈ sleeps tr) then schedule (current w) (asleep w i)
           else mret true);
  if woken : bool then emit Fclose ;; mret true else mret false.

(** The loop of [read_status]; a found line leaves the stream open. *)
Fixpoint scan_status (fuel : nat) (stream target : text) : user state Z :=
  match fuel, stream with
  | S fuel', _ :: _ =>
      let '(line, rest) := fgets 254 stream in
      buffer ← lift (c_str (line ++ [NUL]));
      printf "The returned buffer is %s" [AStr buffer] ;;
      if decide (buffer = target) then mret 0 else scan_status fuel' rest target
  | _, _ => emit Fclose ;; mret (-1)
  end.

(** The stream is read in one go: the module answers a second read with 0. *)
Definition do_read_status (w : world) (period process_time : text) : user state Z :=
  meanwhile (before_read w) ;;
  f ← fopen (opens w) status_file;
  target ← lift (sprintf_to 255 target_format [AInt (getpid w); AStr period; AStr process_time]);
  use_file f ;;
  tr ← traced (mp_read (page w) 4096 0);
  let stream := delivered tr in
  scan_status (length stream) stream target.

(** One iteration of the job loop, the [j]-th. *)
Definition job (w : world) (factval : Z) (j : nat) : user state bool :=
  let start := clock w (3 * j + 2) in
  call_factorial factval ;;
  let end_ := clock w (3 * j + 3) in
  woken ← write_status w (j + 2) (yield (getpid w));
  if woken : bool then
    printf ("The actual time it takes for factorial is : %dms." ++ newline)
      [AInt (int32 (tv_usec end_ - tv_usec start))] ;;
    let end_ := clock w (3 * j + 4) in
    printf ("Wakeup time of the process %d second" ++ newline) [AInt (tv_sec end_)] ;;
    mret true
  else mret false.

(** [while (num_jobs-- > 0)], over the numbers of the iterations. *)
Fixpoint job_loop (w : world) (factval : Z) (js : list nat) : user state bool :=
  match js with
  | [] => mret true
  | j :: js' =>
      woken ← job w factval j;
      if woken : bool then job_loop w factval js' else mret false
  end.

(** What follows a system call that may never return. *)
Definition once_awake (m : user state bool) (next : user state (option Z)) :
    user state (option Z) :=
  woken ← m;
  if woken : bool then next else mret None.

(** [main] after a successful registration: the first yield, the jobs and the
    deregistration. *)
Definition after_admission (w : world) (argv : list text) (factval : Z) : user state (option Z) :=
  once_awake (write_status w 1 (yield (getpid w)))
  (printf ("Start time of the process %d second" ++ newline) [AInt (tv_sec (clock w 0))] ;;
   arg2 ← lift (arg_string argv 2);
   let num_jobs := Z.to_nat (atoi arg2) in
   once_awake (job_loop w factval (seq 0 num_jobs))
   (printf ("End time of the process %d second" ++ newline)
      [AInt (tv_sec (clock w (3 * num_jobs + 2)))] ;;
    once_awake (write_status w (num_jobs + 2) (unreg (getpid w))) (mret (Some 0)))).

(** [exit (1)] and the returns of [main] are its exit code; [None] when it is
    still asleep in a yield. *)
Definition main (w : world) (argv : list text) : user state (option Z) :=
  if decide (length argv ≠ 4%nat) then
    printf ("Reminder: put in three integer value in the following order: 1.peroid 2.numb_of_jobs."
            ++ newline) [] ;;
    mret (Some 1)
  else
    arg3 ← lift (arg_string argv 3);
    let factval := atoi arg3 in
    let start := clock w 0 in
    call_factorial factval ;; call_factorial factval ;; call_factorial factval ;;
    call_factorial factval ;; call_factorial factval ;;
    let end_ := clock w 1 in
    let processtime := safe_processtime (tv_usec start) (tv_usec end_) in
    proctime ← lift (sprintf_to 32 "%d" [AInt processtime]);
    printf ("The average time with 1.2 safe parameter for factorial is : %dms." ++ newline)
      [AInt processtime] ;;
    printf (newline ++ "Scheduler registration request." ++ newline) [] ;;
    arg1 ← lift (arg_string argv 1);
    once_awake (write_status w 0 (reg (getpid w) arg1 proctime))
    (failed ← do_read_status w arg1 proctime;
     if decide (failed ≠ 0) then
       printf ("Registeration failed." ++ newline) [] ;;
       mret (Some 1)
     else
       printf ("Registration succeeded." ++ newline) [] ;;
       after_admission w argv factval).
End main.

(** What a step of the process leaves in its trace besides its output. *)
Definition quiet (t : list uevent) (opened : Z) : Prop := computed t = [] ∧ left_open t = opened.

Lemma quiet_kernel t : quiet (Kernel <$> t) 0.
Proof. split; [apply computed_kernel|apply left_open_kernel]. Qed.

Lemma quiet_both t1 t2 k1 k2 : quiet t1 k1 → quiet t2 k2 → quiet (t1 ++ t2) (k1 + k2).
Proof. intros [Hc1 Hl1] [Hc2 Hl2]. split; events; [by rewrite Hc1, Hc2|by rewrite Hl1, Hl2]. Qed.

Lemma traced_ok {S A} (m : kern S A) s a s' t :
  m s = Ok (a, s', t) → traced m s = Ok (t, s', Kernel <$> t).
Proof. intros H. unfold traced. by rewrite H. Qed.

Section theory.
Context {KL : KList} {KLL : KListLaws KL}.
Context (msecs_to_jiffies : Z → Z).
Implicit Types (s : state) (w : world).

(** ** What the module does by itself *)

Lemma meanwhile_ok evs s :
  wf s → has_threads s →
  ∃ s' t, meanwhile evs s = Ok (tt, s', Kernel <$> t) ∧ evolves kept s s'.
Proof.
  intros Hwf Hth. destruct (run_events_ok evs s Hwf Hth) as (s' & t & Heq & Hev & _).
  exists s', t. split; [by apply syscall_ok|done].
Qed.

Lemma schedule_runs th evs s :
  wf s → has_threads s →
  ∃ b s' t, schedule th evs s = Ok (b, s', t) ∧ evolves kept s s' ∧ quiet t 0.
Proof.
  revert s. induction evs as [|ev evs IH]; intros s Hwf Hth; cbn [schedule].
  { exists false, s, []. split; [done|]. by split. }
  destruct (run_event_ok ev s Hwf Hth) as (s1 & t1 & H1 & Hev1 & _).
  rewrite (bind_ok _ _ _ _ _ _ (traced_ok _ _ _ _ _ H1)). destruct (wakes th t1).
  - exists true, s1, ((Kernel <$> t1) ++ []). split; [done|]. split; [done|].
    apply (quiet_both _ _ 0 0); [apply quiet_kernel|done].
  - destruct (IH s1) as (b & s2 & t2 & -> & Hev2 & Hq2).
    { eapply evolves_wf; [done|by apply kept_evolves]. }
    { eapply evolves_threads; [done|by apply kept_evolves]. }
    exists b, s2, ((Kernel <$> t1) ++ t2). split; [done|]. split; [by etrans|].
    apply (quiet_both _ _ 0 0); [apply quiet_kernel|done].
Qed.

(** A task alone in the list that waits for its timer is woken by it. *)
Lemma schedule_alone p a th n s e evs :
  yielding p a th n s → entries s = [a] → task_timer n = Some e → period n < INT_MAX →
  ∃ s' t, schedule th (Timer a :: Wakeup :: evs) s = Ok (true, s', t).
Proof.
  intros [Hwf Hth Hf Hn Ht] Hes He Hper.
  assert (Ha : a ∈ entries s) by (rewrite Hes; by left).
  destruct (fire_ok a n s Hwf Ha Hn) as (b & m & Hfirst & Hm & Hfire).
  assert (b = a) as ->.
  { destruct (first_with_elem _ _ _ _ Hfirst) as [Hb _]. rewrite Hes in Hb. set_solver. }
  rewrite put_task_lookup in Hm. injection Hm as <-. rewrite put_task_twice in Hfire.
  set (n1 := with_state READY (with_timer None n)) in *. set (s1 := put_task a n1 s) in *.
  assert (H1 : run_event (Timer a) s = Ok (tt, s1,
    [Kspin_lock_irqsave; Klist_for_each; Kspin_unlock_irqrestore; Kwake_up_process Dispatcher])).
  { cbn [run_event]. rewrite (bind_ok _ _ s s s []) by done. rewrite prepend_nil.
    by rewrite decide_True, Hn, He by done. }
  assert (Hev : evolves kept s s1) by (by eapply fire_evolves).
  assert (Hpick : pick (tasks s1) (entries s1) None INT_MAX = Ok (Some a)).
  { change (entries s1) with (entries s). rewrite Hes. cbn [pick].
    rewrite (deref_live _ _ n1) by apply lookup_insert_eq. cbv [mbind outcome_bind].
    by rewrite decide_True. }
  pose proof (dispatch_run s1 a n1 th (evolves_wf _ _ Hwf (kept_evolves _ _ Hev))
    (evolves_threads _ _ Hth (kept_evolves _ _ Hev)) Hpick (lookup_insert_eq _ _ _) Ht) as H2.
  cbn [schedule]. rewrite (bind_ok _ _ _ _ _ _ (traced_ok _ _ _ _ _ H1)).
  assert (Hw : wakes th [Kspin_lock_irqsave; Klist_for_each; Kspin_unlock_irqrestore;
    Kwake_up_process Dispatcher] = false) by done. rewrite Hw.
  rewrite (bind_ok _ _ _ _ _ _ (traced_ok (run_event Wakeup) _ _ _ _ H2)).
  replace (wakes th _) with true; [by do 2 eexists|].
  symmetry. unfold wakes. rewrite !existsb_app. cbn [existsb].
  rewrite bool_decide_true by done. by rewrite orb_true_r.
Qed.

(** ** One system call *)

Lemma write_status_ok w i message z s s1 t1 s2 tr :
  opens w = true → meanwhile (before w i) s = Ok (tt, s1, Kernel <$> t1) →
  mp_write msecs_to_jiffies (kernel w i) message s1 = Ok (z, s2, tr) → sleeps tr = [] →
  ∃ t, write_status msecs_to_jiffies w i message s = Ok (true, s2, t) ∧ quiet t 0.
Proof.
  intros Ho Hm Hw Hs. apply traced_ok in Hw. unfold write_status, fopen, use_file. rewrite Ho.
  rewrite (bind_ok _ _ _ _ _ _ Hm). run. rewrite decide_False by (rewrite Hs; apply not_elem_of_nil).
  run. eexists. split; [reflexivity|]. split; events; done.
Qed.

(** The search returns what [find_line] finds; it closes the stream only when
    it fails. *)
Lemma scan_status_find fuel stream target s r :
  find_line fuel stream target = Ok r →
  ∃ t, scan_status fuel stream target s = Ok (r, s, t) ∧ quiet t r.
Proof.
  revert stream. induction fuel as [|fuel IH]; intros stream; cbn [find_line scan_status].
  { intros [= <-]. by eexists. }
  destruct stream as [|c stream]; [intros [= <-]; by eexists|].
  destruct (fgets 254 (c :: stream)) as [line rest]. unfold same_string.
  destruct (c_str (line ++ [NUL])) as [l|] eqn:Hl; [|done]. cbn [mbind outcome_bind].
  case_bool_decide as Heq; unfold printf; intros Hf.
  - injection Hf as <-. run. rewrite decide_True by done. by eexists.
  - destruct (IH rest Hf) as (t & Ht & Hq). run. rewrite decide_False, Ht by done. run.
    eexists. split; [reflexivity|]. destruct Hq as [Hc Hlo]. split; events; done.
Qed.

Lemma do_read_status_ok w per c r s s1 t1 :
  let out := concat (status_lines s1) ++ [NUL] in
  meanwhile (before_read w) s = Ok (tt, s1, Kernel <$> t1) →
  wf s1 → length (page w) = 2048%nat → entries s1 ≠ [] → (length (entries s1) ≤ 35)%nat →
  opens w = true → read_status out (getpid w) (dec per) (dec c) = Ok r →
  ∃ t, do_read_status w (dec per) (dec c) s = Ok (r, s1, t) ∧ quiet t (1 + r).
Proof.
  intros out Hm Hwf Hpage Hne Hlen Ho Hr. unfold read_status in Hr.
  destruct (sprintf_to 255 target_format [AInt (getpid w); AStr (dec per); AStr (dec c)])
    as [target|] eqn:Ht; [|done]. cbn [mbind outcome_bind] in Hr.
  destruct (scan_status_find _ _ _ s1 _ Hr) as (t & Hscan & Hc & Hlo).
  pose proof (mp_read_fits (page w) 4096 s1 Hwf Hpage Hne Hlen) as Hread. cbv zeta in Hread.
  fold out in Hread. apply traced_ok in Hread.
  assert (Hd : delivered (read_trace out) = out) by (cbn; by rewrite app_nil_r).
  unfold do_read_status, fopen, use_file. rewrite (bind_ok _ _ _ _ _ _ Hm). run. rewrite Hd. run.
  eexists. split; [reflexivity|]. split; events; [done|]. by rewrite Hlo.
Qed.

(** ** The process's own task before its first yield *)

(** It sleeps without a timer, and no other task has its pid. *)
Record undisturbed a n s : Prop := {
  undisturbed_wf : wf s;
  undisturbed_threads : has_threads s;
  undisturbed_task : tasks s !! a = Some n;
  undisturbed_sleeps : task_state n = SLEEPING ∧ task_timer n = None;
  undisturbed_running : running_mptask s ≠ Some a;
  undisturbed_pid : ∀ b m, b ∈ entries s → tasks s !! b = Some m → pid m = pid n → b = a;
}.

Lemma undisturbed_event ev a n s s' t :
  undisturbed a n s → run_event ev s = Ok (tt, s', t) → undisturbed a n s'.
Proof.
  intros [Hwf Hth Hn [Hst Htm] Hrun Hpid] Heq.
  destruct (run_event_ok ev s Hwf Hth) as (s1 & t1 & Heq1 & Hev & _).
  rewrite Heq in Heq1. injection Heq1 as <- <-.
  assert (Hsame : tasks s' !! a = Some n ∧ running_mptask s' ≠ Some a).
  { destruct ev as [b|]; cbn [run_event] in Heq.
    - rewrite (bind_ok _ _ s s s []), prepend_nil in Heq by done.
      destruct (decide (b ∈ entries s)) as [Hb|Hb]; [|by injection Heq as <- _].
      destruct (tasks s !! b) as [m|] eqn:Hm; [|by injection Heq as <- _].
      destruct (task_timer m) as [e|] eqn:He; [|by injection Heq as <- _].
      destruct (fire_ok b m s Hwf Hb Hm) as (c & l & Hf & Hl & Hfire). rewrite Hfire in Heq.
      simplify_eq. split; [|done]. assert (Hba : b ≠ a) by congruence.
      assert (Hca : c ≠ a).
      { intros ->. destruct Hf as (? & ? & l' & _ & Hl' & Hp & _).
        rewrite put_task_lookup_ne, Hn in Hl' by done. injection Hl' as <-.
        by apply Hba, (Hpid b m Hb Hm). }
      by rewrite !put_task_lookup_ne.
    - destruct (dispatch_cases s Hwf Hth) as (s2 & t2 & Heq2 & _ & Hs). rewrite Heq in Heq2.
      simplify_eq. destruct Hs as [[_ ->]|(c & l & Hbest & Hl & _ & ->)]; [done|].
      assert (Hca : c ≠ a).
      { intros ->. destruct Hbest as (? & ? & l' & _ & Hl' & Hr & _). simplify_eq.
        by rewrite Hst in Hr. }
      split; [|by intros [= ->]]. rewrite run_state_lookup, decide_False, Hn by done.
      cbn [fmap option_fmap option_map]. by rewrite decide_False by (by intros [? _]). }
  split; [by eapply evolves_wf, kept_evolves|by eapply evolves_threads, kept_evolves|apply Hsame
         |done|apply Hsame|].
  intros b m Hb Hm Hp. rewrite (evolves_entries _ _ _ Hev) in Hb.
  destruct (evolves_lookup_inv _ _ _ _ _ Hev Hm) as (m0 & Hm0 & Hk).
  apply (Hpid b m0); [done|done|]. destruct Hk as [(_ & _ & Hk & _) _]. congruence.
Qed.

Lemma undisturbed_events evs a n s s' t :
  undisturbed a n s → for_each evs run_event s = Ok (tt, s', t) → undisturbed a n s'.
Proof.
  revert s t. induction evs as [|ev evs IH]; intros s t Hu; cbn [for_each].
  { by intros [= <- _]. }
  intros ([] & s1 & t1 & t2 & H1 & H2 & _)%bind_inv.
  eapply IH; [by eapply undisturbed_event|exact H2].
Qed.

Lemma listed_undisturbed a n s :
  wf s → has_threads s → tasks s !! a = None → is_ok (utilization n) = true →
  timer_data n = pid n → is_Some (task n) → task_state n = SLEEPING → task_timer n = None →
  (∀ b m, b ∈ entries s → tasks s !! b = Some m → pid m ≠ pid n) →
  undisturbed a n (listed a n s).
Proof.
  intros Hwf Hth Hfresh Hu Htd Ht Hst Htm Hpids.
  pose proof (fresh_unlisted s a Hwf Hfresh) as Hna. split.
  - by apply listed_wf.
  - intros b m. rewrite listed_entries by done. intros [->|Hb]%elem_of_cons; cbn.
    + rewrite lookup_insert_eq. by intros [= <-].
    + rewrite lookup_insert_ne by (by intros ->). by apply Hth.
  - apply lookup_insert_eq.
  - done.
  - intros Hr. apply Hna. by apply (wf_running _ Hwf).
  - intros b m. rewrite listed_entries by done. intros [->|Hb]%elem_of_cons; [done|]. cbn.
    rewrite lookup_insert_ne by (by intros ->). intros Hm Hp. by destruct (Hpids b m Hb Hm).
Qed.

Lemma undisturbed_yielding a n t s :
  undisturbed a n s → a ∈ entries s → task n = Some t → yielding (pid n) a t n s.
Proof.
  intros [Hwf Hth Hn _ _ Hpid] Ha Ht. split; [done|done| |done|done].
  apply list_elem_of_split in Ha as (l1 & l2 & Hes). exists l1, l2, n.
  split; [done|]. split; [done|]. split; [done|]. intros b m Hb Hm Hp.
  pose proof (proj1 (wf_list _ Hwf)) as Hnd. rewrite Hes in Hnd.
  apply (NoDup_middle_l _ _ _ Hnd). rewrite (Hpid b m) in Hb; [done| |done|done].
  rewrite Hes. apply elem_of_app. by left.
Qed.

(** Its read finds its line. *)
Lemma undisturbed_status a n s :
  undisturbed a n s → a ∈ entries s → is_sint 32 (period n) → is_sint 32 (processing_time n) →
  read_status (concat (status_lines s) ++ [NUL]) (pid n) (dec (period n))
    (dec (processing_time n)) = Ok 0.
Proof.
  intros [Hwf _ Hn [Hst _] _ _] Ha Hper Hc. rewrite read_status_lines by done.
  rewrite decide_True; [done|]. apply elem_of_status_lines; [done|]. exists a, n.
  split; [done|]. split; [done|]. by apply target_of_task.
Qed.

(** ** Yields *)

Definition streams (woken : bool) : Z := if woken then 0 else 1.

(** The events of a sleep begin with the expiry of the task's timer and a
    wake-up of the dispatcher. *)
Definition woken_by_timer w (a : addr) : Prop :=
  ∀ i, ∃ evs, asleep w i = Timer a :: Wakeup :: evs.

Lemma write_yield_ok w i a n s :
  let p := getpid w in let t := current w in
  opens w = true → is_sint 32 p → yielding p a t n s →
  ∃ b s' tr m, write_status msecs_to_jiffies w i (yield p) s = Ok (b, s', tr) ∧
    quiet tr (streams b) ∧ yielding p a t m s' ∧ evolves same_task s s' ∧
    (entries s = [a] → period n < INT_MAX → woken_by_timer w a → b = true).
Proof.
  intros p t Ho Hp Hy.
  destruct (meanwhile_ok (before w i) s) as (s1 & t1 & H1 & Hev1); [apply Hy..|].
  apply kept_evolves in Hev1. destruct (yielding_evolves _ _ _ _ _ _ Hy Hev1) as (n1 & Hn1 & Hy1).
  destruct (yield_request msecs_to_jiffies (kernel w i) p a n1 t s1) as (t2 & H2 & Hs2);
    [apply Hy1|done|apply Hy1..|].
  set (n2 := yielded msecs_to_jiffies (kernel w i) n1) in *. set (s2 := put_task a n2 s1) in *.
  assert (Hev2 : evolves same_task s1 s2) by apply yielded_evolves, Hy1.
  destruct (yielding_evolves _ _ _ _ _ _ Hy1 Hev2) as (m2 & Hm2 & Hy2).
  assert (m2 = n2) as ->.
  { pose proof (yielding_task _ _ _ _ _ Hy2) as H. unfold s2 in H.
    rewrite put_task_lookup in H. congruence. }
  assert (Hev : evolves same_task s s2) by (by etrans).
  unfold write_status, fopen, use_file. rewrite Ho, (bind_ok _ _ _ _ _ _ H1).
  apply traced_ok in H2. fold p t. run. rewrite Hs2. case_decide as Hlate.
  - rewrite decide_False by apply not_elem_of_nil. run. exists true, s2. do 2 eexists.
    split; [reflexivity|]. split; [split; events; done|]. done.
  - rewrite decide_True by (by left).
    destruct (schedule_runs t (asleep w i) s2) as (b & s3 & t3 & H3 & Hev3 & Hc3 & Hl3);
      [apply Hy2..|].
    apply kept_evolves in Hev3. destruct (yielding_evolves _ _ _ _ _ _ Hy2 Hev3) as (m3 & _ & Hy3).
    exists b, s3. rewrite H3. destruct b; run; do 2 eexists; (split; [reflexivity|]).
    + split; [split; events; [by rewrite Hc3|by rewrite Hl3]|]. split; [done|]. split; [by etrans|done].
    + split; [split; events; [by rewrite Hc3|by rewrite Hl3]|]. split; [done|]. split; [by etrans|].
      intros Hes Hper Hwake. destruct (Hwake i) as [evs Hevs]. rewrite Hevs in H3.
      destruct (schedule_alone p a t n2 s2 (release msecs_to_jiffies (jiffies (kernel w i)) n1) evs)
        as (s4 & t4 & H4); [done| | | |congruence].
      * by rewrite (evolves_entries _ _ _ Hev).
      * unfold n2, yielded. by rewrite decide_False by done.
      * unfold same_task in *. naive_solver lia.
Qed.

Lemma job_ok w factval j a n s :
  let p := getpid w in let t := current w in
  opens w = true → is_sint 32 p → yielding p a t n s →
  ∃ b s' tr m, job msecs_to_jiffies w factval j s = Ok (b, s', tr) ∧
    computed tr = [factval] ∧ left_open tr = streams b ∧ yielding p a t m s' ∧
    evolves same_task s s' ∧
    (entries s = [a] → period n < INT_MAX → woken_by_timer w a → b = true).
Proof.
  intros p t Ho Hp Hy.
  destruct (write_yield_ok w (j + 2) a n s Ho Hp Hy)
    as (b & s1 & t1 & m & H1 & [Hc1 Hl1] & Hy1 & Hev & Hwake).
  fold p in H1. unfold job, printf, call_factorial. fold p. exists b, s1. destruct b; run;
    do 2 eexists; (split; [reflexivity|]); events; rewrite Hc1, Hl1; done.
Qed.

Lemma jobs_ok w factval js a n s :
  let p := getpid w in let t := current w in
  opens w = true → is_sint 32 p → yielding p a t n s →
  ∃ b s' tr m k, job_loop msecs_to_jiffies w factval js s = Ok (b, s', tr) ∧
    computed tr = replicate k factval ∧ (k ≤ length js)%nat ∧ (b = true → k = length js) ∧
    left_open tr = streams b ∧ yielding p a t m s' ∧ evolves same_task s s' ∧
    (entries s = [a] → period n < INT_MAX → woken_by_timer w a → b = true).
Proof.
  intros p t Ho Hp. revert n s. induction js as [|j js IH]; intros n s Hy; cbn [job_loop].
  { exists true, s, [], n, 0%nat. split; [done|]. split_and!; done. }
  destruct (job_ok w factval j a n s Ho Hp Hy)
    as (b & s1 & t1 & m & H1 & Hc1 & Hl1 & Hy1 & Hev1 & Hwake1).
  rewrite (bind_ok _ _ _ _ _ _ H1). destruct b.
  - destruct (IH m s1 Hy1) as (b & s2 & t2 & m2 & k & -> & Hc2 & Hk & Hkb & Hl2 & Hy2 & Hev2 & Hwake2).
    exists b, s2, (t1 ++ t2), m2, (S k). split; [done|]. events. rewrite Hc1, Hc2, Hl1, Hl2.
    cbn [length]. split_and!; [done|lia|intros Hb; f_equal; auto|done|done|by etrans|].
    intros Hes Hper Hwake. apply Hwake2; [by rewrite (evolves_entries _ _ _ Hev1)| |done].
    destruct (evolves_lookup _ _ _ _ _ Hev1 (yielding_task _ _ _ _ _ Hy)) as (m' & Hm' & Hs).
    rewrite (yielding_task _ _ _ _ _ Hy1) in Hm'. injection Hm' as <-.
    unfold same_task in *. naive_solver lia.
  - exists false, s1, (t1 ++ []), m, 1%nat. split; [done|]. rewrite app_nil_r, Hc1, Hl1.
    cbn [length]. split_and!; try done; lia.
Qed.

(** ** Registration and deregistration *)

Lemma budget_evolves s s' :
  wf s → evolves same_task s s' → budget s → budget s' ∧ utilization_of s' = utilization_of s.
Proof.
  intros Hwf Hev [Hb Hmax].
  assert (Hu : utilization_of s' = utilization_of s).
  { unfold utilization_of. rewrite (evolves_entries _ _ _ Hev). clear Hb Hmax.
    induction (entries s) as [|e es IH]; [done|]. cbn [total_util]. rewrite IH. f_equal.
    pose proof (evolves_tasks _ _ _ Hev e) as He. destruct He as [n m Hs|]; [|done].
    unfold util. destruct Hs as (_ & _ & _ & -> & ->). done. }
  split; [|done]. split; [|by rewrite Hu]. rewrite (evolves_entries _ _ _ Hev).
  intros a m Ha Hm. destruct (evolves_lookup_inv _ _ _ _ _ Hev Hm) as (n & Hn & Hs).
  specialize (Hb a n Ha Hn). unfold benign in *. by destruct Hs as (_ & _ & _ & -> & ->).
Qed.

(** The message and the answer of the registration. *)
Lemma write_reg_ok w per c a s :
  let n := MpTask (find_task_by_pid (kernel w 0) (getpid w)) None (getpid w) SLEEPING 0
             (getpid w) per c in
  opens w = true → wf s → has_threads s → budget s → new_object (kernel w 0) = Some a →
  tasks s !! a = None → is_sint 32 (getpid w) → is_sint 32 per → benign n →
  ∃ s1 t, evolves same_task s s1 ∧ wf s1 ∧ has_threads s1 ∧ tasks s1 !! a = None ∧
    write_status msecs_to_jiffies w 0 (reg (getpid w) (dec per) (dec c)) s =
    Ok (true, if decide (util n + utilization_of s ≤ 693000) then listed a n s1 else s1, t) ∧
    quiet t 0.
Proof.
  intros n Ho Hwf Hth Hbud Ha Hfresh Hp Hper Hb.
  destruct (meanwhile_ok (before w 0) s Hwf Hth) as (s1 & t1 & H1 & Hev%kept_evolves).
  destruct (budget_evolves s s1 Hwf Hev Hbud) as [Hbud1 Hu].
  assert (Hwf1 : wf s1) by (by eapply evolves_wf).
  assert (Hfresh1 : tasks s1 !! a = None).
  { pose proof (evolves_tasks _ _ _ Hev a) as H. rewrite Hfresh in H. by inv H. }
  destruct (reg_request msecs_to_jiffies (kernel w 0) (getpid w) per c a s1)
    as (t & Heq & Hs); try done.
  destruct (write_status_ok _ _ _ _ _ _ _ _ _ Ho H1 Heq Hs) as (t2 & H2 & Hq).
  exists s1, t2. rewrite <-Hu. split_and!; try done. by eapply evolves_threads.
Qed.

Lemma sprintf_proctime z : is_sint 32 z → sprintf_to 32 "%d" [AInt z] = Ok (dec z).
Proof.
  intros Hz. apply sprintf_to_fits.
  - change (sprintf "%d" [AInt z]) with (dec (int32 z) ++ []). by rewrite int32_small, app_nil_r.
  - pose proof (dec_int32_length z). rewrite int32_small in * by done. lia.
Qed.

(** The module after the process has left: only states, timers and releases of
    the tasks that were listed before may differ. *)
Definition restored s s' : Prop := wf s' ∧ evolves same_task s s'.

(** The module while the process, whose object is [a], is asleep. *)
Record still_listed (a : addr) (n : mp_task_struct) s s' : Prop := {
  still_wf : wf s';
  still_entries : entries s' = a :: entries s;
  still_task : ∃ m, tasks s' !! a = Some m ∧ same_task n m;
  still_others : ∀ b, b ≠ a → option_Forall2 same_task (tasks s !! b) (tasks s' !! b);
}.

Lemma listed_still a n s s1 s' :
  evolves same_task s s1 → wf s1 → tasks s1 !! a = None → wf s' →
  evolves same_task (listed a n s1) s' → still_listed a n s s'.
Proof.
  intros Hev1 Hwf1 Hfresh Hwf' Hev. split; [done| | |].
  - by rewrite (evolves_entries _ _ _ Hev), listed_entries, (evolves_entries _ _ _ Hev1).
  - by apply (evolves_lookup _ _ _ _ _ Hev), lookup_insert_eq.
  - intros b Hb. pose proof (evolves_tasks _ _ _ Hev b) as H2. cbn in H2.
    rewrite lookup_insert_ne in H2 by done. pose proof (evolves_tasks _ _ _ Hev1 b) as H1.
    destruct H1; inv H2; constructor. by etrans.
Qed.

Lemma removed_restored a n s s' :
  tasks s !! a = None → still_listed a n s s' → restored s (removed a s').
Proof.
  intros Hfresh [Hwf Hes _ Hothers].
  assert (Ha : a ∈ entries s') by (rewrite Hes; by left).
  assert (Hna : a ∉ entries s).
  { pose proof (proj1 (wf_list _ Hwf)) as Hnd. rewrite Hes in Hnd. by apply NoDup_cons in Hnd as [? _]. }
  pose proof (removed_wf a s' Hwf Ha) as Hwf'.
  assert (Hes' : entries (removed a s') = entries s).
  { rewrite removed_entries, Hes by done. rewrite filter_cons_False by (by intros []).
    by apply filter_ne_id. }
  split; [done|]. split; [done| |].
  - intros b. cbn [tasks removed]. rewrite lookup_delete. case_decide as Hab; [subst b|by apply Hothers].
    rewrite Hfresh. constructor.
  - intros r Hr. right. rewrite <-Hes'. by apply (wf_running _ Hwf').
Qed.

Lemma write_unreg_ok w i a m s :
  let p := getpid w in let t := current w in
  opens w = true → is_sint 32 p → yielding p a t m s →
  ∃ s1 tr, write_status msecs_to_jiffies w i (unreg p) s = Ok (true, removed a s1, tr) ∧
    wf s1 ∧ evolves same_task s s1 ∧ quiet tr 0.
Proof.
  intros p t Ho Hp Hy.
  destruct (meanwhile_ok (before w i) s) as (s1 & t1 & H1 & Hev%kept_evolves); [apply Hy..|].
  destruct (yielding_evolves _ _ _ _ _ _ Hy Hev) as (n1 & _ & Hy1).
  destruct (unreg_request msecs_to_jiffies (kernel w i) p a s1) as (tr & Heq & Hs);
    [apply Hy1|done|apply Hy1|].
  destruct (write_status_ok _ _ _ _ _ _ _ _ _ Ho H1 Heq Hs) as (t2 & H2 & Hq).
  exists s1, t2. split_and!; [done|apply Hy1|done|done].
Qed.

(** [main] up to the answer of [read_status], and after it. *)
Lemma main_rejected w prog per jobs fact s s1 t1 s2 t2 :
  let c := safe_processtime (tv_usec (clock w 0)) (tv_usec (clock w 1)) in
  write_status msecs_to_jiffies w 0 (reg (getpid w) per (dec c)) s = Ok (true, s1, t1) →
  do_read_status w per (dec c) s1 = Ok (-1, s2, t2) → computed t1 = [] → computed t2 = [] →
  ∃ t, main msecs_to_jiffies w [prog; per; jobs; fact] s = Ok (Some 1, s2, t) ∧
    computed t = replicate 5 (atoi fact) ∧ left_open t = left_open t1 + left_open t2.
Proof.
  intros c H1 H2 Hc1 Hc2. pose proof (to_sint_range 32) as Hr.
  pose proof (sprintf_proctime c (Hr _ ltac:(lia))) as Hproc.
  unfold main, once_awake. rewrite decide_False by (intros H; by apply H). fold c.
  unfold arg_string, call_factorial, printf. cbn [lookup list_lookup]. run.
  rewrite decide_True by done. run. eexists. split; [reflexivity|].
  events. rewrite Hc1, Hc2. split; [done|lia].
Qed.

Lemma main_admitted w prog per jobs fact s s1 t1 s2 t2 r s3 t3 :
  let c := safe_processtime (tv_usec (clock w 0)) (tv_usec (clock w 1)) in
  write_status msecs_to_jiffies w 0 (reg (getpid w) per (dec c)) s = Ok (true, s1, t1) →
  do_read_status w per (dec c) s1 = Ok (0, s2, t2) →
  after_admission msecs_to_jiffies w [prog; per; jobs; fact] (atoi fact) s2 = Ok (r, s3, t3) → computed t1 = [] → computed t2 = [] →
  ∃ t, main msecs_to_jiffies w [prog; per; jobs; fact] s = Ok (r, s3, t) ∧
    computed t = replicate 5 (atoi fact) ++ computed t3 ∧
    left_open t = left_open t1 + left_open t2 + left_open t3.
Proof.
  intros c H1 H2 H3 Hc1 Hc2. pose proof (to_sint_range 32) as Hr.
  pose proof (sprintf_proctime c (Hr _ ltac:(lia))) as Hproc.
  unfold main, once_awake. rewrite decide_False by (intros H; by apply H). fold c.
  unfold arg_string, call_factorial, printf. cbn [lookup list_lookup].
  run. rewrite decide_False by (intros H; by apply H). run.
  eexists. split; [reflexivity|].
  events. rewrite Hc1, Hc2. rewrite ?app_nil_r. split; [done|lia].
Qed.

(** The yields and the deregistration end, or the process is still asleep. *)
Lemma after_admission_ok w argv jobs v a n s :
  let p := getpid w in let t := current w in let N := Z.to_nat (atoi jobs) in
  opens w = true → is_sint 32 p → arg_string argv 2 = Ok jobs → yielding p a t n s →
  ∃ r s' tr k, after_admission msecs_to_jiffies w argv v s = Ok (r, s', tr) ∧
    computed tr = replicate k v ∧
    (entries s = [a] → period n < INT_MAX → woken_by_timer w a → r = Some 0) ∧
    ((r = Some 0 ∧ k = N ∧ left_open tr = 0 ∧
      ∃ s1, wf s1 ∧ evolves same_task s s1 ∧ s' = removed a s1) ∨
     (r = None ∧ (k ≤ N)%nat ∧ left_open tr = 1 ∧ wf s' ∧ evolves same_task s s')).
Proof.
  intros p t N Ho Hp Harg Hy.
  destruct (write_yield_ok w 1 a n s Ho Hp Hy)
    as (b1 & s1 & t1 & m1 & H1 & [Hc1 Hl1] & Hy1 & Hev1 & Hw1).
  unfold after_admission, once_awake, printf. fold p. rewrite (bind_ok _ _ _ _ _ _ H1).
  destruct b1.
  2: { exists None, s1, (t1 ++ []), 0%nat. split; [done|]. rewrite app_nil_r.
       split; [done|]. split; [by intros; discriminate Hw1|]. right. split_and!; try done; [lia|].
       apply Hy1. }
  destruct (jobs_ok w v (seq 0 N) a m1 s1 Ho Hp Hy1)
    as (b2 & s2 & t2 & m2 & k & H2 & Hc2 & Hk & Hkb & Hl2 & Hy2 & Hev2 & Hw2).
  rewrite length_seq in *. assert (Hev : evolves same_task s s2) by (by etrans).
  assert (Halone : entries s = [a] → period n < INT_MAX → woken_by_timer w a → b2 = true).
  { intros Hes Hper. apply Hw2; [by rewrite (evolves_entries _ _ _ Hev1)|].
    destruct (evolves_lookup _ _ _ _ _ Hev1 (yielding_task _ _ _ _ _ Hy)) as (m' & Hm' & Hs).
    rewrite (yielding_task _ _ _ _ _ Hy1) in Hm'. injection Hm' as <-.
    unfold same_task in *. naive_solver lia. }
  run. fold N. rewrite H2. destruct b2.
  - destruct (write_unreg_ok w (N + 2) a m2 s2 Ho Hp Hy2) as (s3 & t3 & H3 & Hwf3 & Hev3 & Hc3 & Hl3).
    fold p in H3. run. exists (Some 0), (removed a s3). do 2 eexists. split; [reflexivity|]. events.
    rewrite Hc1, Hc2, Hc3, Hl1, Hl2, Hl3. cbn [app streams]. rewrite app_nil_r.
    split; [reflexivity|]. split; [done|]. left. split; [done|]. split; [by apply Hkb|].
    split; [done|]. exists s3. split; [done|]. split; [by etrans|done].
  - run. exists None, s2. do 2 eexists. split; [reflexivity|]. events.
    rewrite Hc1, Hc2, Hl1, Hl2. cbn [app streams]. rewrite ?app_nil_r. split; [reflexivity|].
    split; [by intros; discriminate Halone|]. right. split_and!; try done. apply Hy2.
Qed.

(** The admitted half of a session, from its registration on. *)
Lemma session_admitted w prog per jobs fact a n s s1 t1 :
  let p := getpid w in
  let c := safe_processtime (tv_usec (clock w 0)) (tv_usec (clock w 1)) in
  let argv := [prog; dec per; jobs; fact] in
  let num_jobs := Z.to_nat (atoi jobs) in
  n = MpTask (Some (current w)) None p SLEEPING 0 p per c →
  opens w = true → length (page w) = 2048%nat → (length (entries s) ≤ 34)%nat →
  is_sint 32 p → is_sint 32 per → is_sint 32 c → is_ok (utilization n) = true →
  tasks s !! a = None →
  evolves same_task s s1 → wf s1 → has_threads s1 → tasks s1 !! a = None →
  (∀ b m, b ∈ entries s1 → tasks s1 !! b = Some m → int32 (pid m) ≠ p) →
  write_status msecs_to_jiffies w 0 (reg p (dec per) (dec c)) s = Ok (true, listed a n s1, t1) →
  quiet t1 0 →
  ∃ r s' tr k, main msecs_to_jiffies w argv s = Ok (r, s', tr) ∧
    computed tr = replicate (5 + k) (atoi fact) ∧
    ((r = Some 0 ∧ k = num_jobs ∧ left_open tr = 1 ∧ restored s s') ∨
     (r = None ∧ (k ≤ num_jobs)%nat ∧ left_open tr = 2 ∧ still_listed a n s s')) ∧
    (entries s = [] → per < INT_MAX → woken_by_timer w a → r = Some 0).
Proof.
  intros p c argv num_jobs -> Ho Hpage Hlen Hp Hper Hc Hu Hfresh Hev1 Hwf1 Hth1 Hfresh1 Hpids1 H1
    [Hc1 Hl1].
  set (n := MpTask _ _ _ _ _ _ _ _) in *. pose proof (evolves_entries _ _ _ Hev1) as Hes1.
  assert (Hund : undisturbed a n (listed a n s1)).
  { apply listed_undisturbed; try done. intros b m Hin Hm Heq. apply (Hpids1 b m Hin Hm).
    rewrite Heq. by apply int32_small. }
  destruct (run_events_ok (before_read w) (listed a n s1)) as (s2 & t2 & Hm & Hev2%kept_evolves & _);
    [apply Hund..|].
  pose proof (undisturbed_events _ _ _ _ _ _ Hund Hm) as Hund2. apply syscall_ok in Hm.
  assert (Hes2 : entries s2 = a :: entries s).
  { by rewrite (evolves_entries _ _ _ Hev2), listed_entries, Hes1. }
  assert (Ha2 : a ∈ entries s2) by (rewrite Hes2; by left).
  destruct (do_read_status_ok w per c 0 (listed a n s1) s2 t2) as (t3 & H2 & Hc2 & Hl2);
    rewrite ?Hes2; try done; [apply Hund2|cbn [length]; lia|by apply (undisturbed_status a n)|].
  pose proof (undisturbed_yielding a n (current w) s2 Hund2 Ha2 eq_refl) as Hy.
  destruct (after_admission_ok w argv jobs (atoi fact) a n s2 Ho Hp eq_refl Hy)
    as (r & s3 & t4 & k & H3 & Hc4 & Halone & Hcases).
  destruct (main_admitted w prog (dec per) jobs fact s _ _ _ _ _ _ _ H1 H2 H3 Hc1 Hc2)
    as (tr & Htr & Hctr & Hltr).
  exists r, s3, tr, k. split; [exact Htr|]. rewrite Hctr, Hc4, Hltr, Hl1, Hl2.
  split; [by rewrite replicate_add|]. split.
  - destruct Hcases as [(-> & -> & -> & s4 & Hwf4 & Hev4 & ->)|(-> & Hk & -> & Hwf3 & Hev3)].
    + left. split_and!; try done. apply (removed_restored a n); [done|].
      apply (listed_still a n s s1); try done. by etrans.
    + right. split_and!; try done. apply (listed_still a n s s1); try done. by etrans.
  - intros Hes Hlt Hwake. apply Halone; [by rewrite Hes2, Hes|done|done].
Qed.

(** ** Properties *)

End theory.

(** ** Concrete instances *)

(** The measurement reads the microsecond fields only: across a second boundary
    it is negative. *)
Lemma safe_processtime_24 : safe_processtime 0 100 = 24.
Proof. reflexivity. Qed.
Lemma safe_processtime_wraps : safe_processtime 999000 4000 = -238800.
Proof. reflexivity. Qed.

(** Process 71, whose measurement is 24; before each request the dispatcher runs
    once, and the process's timer wakes it from each sleep. *)
Definition ex_world : world :=
  World true 71 99 (λ i, Timeval 5 (100 * Z.of_nat i)) (λ _, ex_answers 5) ex_page
    (λ _, [Wakeup]) [Timer 5; Wakeup] (λ _, [Timer 5; Wakeup]).

Definition ex_argv (per : Z) : list text := [lit "./userapp"; dec per; lit "2"; lit "20"].

Lemma ex_empty_threads : has_threads (KL := seq_klist) init_state.
Proof. by intros a n ?%not_elem_of_nil. Qed.

Lemma ex_sixty_threads : has_threads ex_sixty.
Proof.
  intros a n Ha. apply elem_of_cons in Ha as [->|Ha]; [|by apply not_elem_of_nil in Ha].
  intros [= <-]. by eexists.
Qed.

