(* ===== verification/Mp3.v ===== *)
(** * MP3: the page-fault profiler (src/MP3/mp3.c, src/MP3/mp3_given.h)

    The module keeps a list of registered pids.  While the list is not empty a
    delayed work item samples the fault and CPU counters of the registered
    processes every 50 milliseconds into a buffer of 128 pages, which a
    character device maps into the address space of the monitor. *)
From Stdlib Require Import Ascii String.
From stdpp Require Import prelude gmap.
From S2P Require Import Prelude CInt CText Kernel.
Open Scope Z_scope.

Definition PAGE_NUM : Z := 128.
Definition PAGE_SIZE : Z := 4096.
Definition EAGAIN : Z := 11.
Definition EINVAL : Z := 22.

(** The counters of [struct task_struct] the module reads and resets. *)
Record task_struct : Type := Counters {
  min_flt : Z; maj_flt : Z; utime : Z; stime : Z }.

Record mp_task_struct : Type := MpTask {
  task : option addr;
  utilization : Z; major_fault : Z; minor_fault : Z;
  pid : Z }.

(** The [vmalloc]ed profiler buffer, as [unsigned long]s. *)
Inductive vbuffer : Type :=
  | Unset                    (* the NULL pointer *)
  | Live (words : list Z)
  | Freed.

Section mp3.
Context {KL : KList}.
Context (msecs_to_jiffies jiffies_to_msecs cputime_to_jiffies : Z → Z).

(** The module's globals, and the part of the kernel's task structs that
    [get_cpu_use] writes. *)
Record state : Type := State {
  tasks : gmap addr mp_task_struct;
  head : klist;
  task_structs : gmap addr task_struct;
  mem_buf : vbuffer;
  mem_buf_ptr : Z;
  delay : Z;
}.

Definition init_state (procs : gmap addr task_struct) : state :=
  State ∅ LIST_HEAD procs Unset 0 0.
Definition entries (s : state) : list addr := list_for_each (head s).

Definition put_task (a : addr) (n : mp_task_struct) (s : state) : state :=
  State (<[a:=n]> (tasks s)) (head s) (task_structs s) (mem_buf s) (mem_buf_ptr s) (delay s).
Definition free_task (a : addr) (s : state) : state :=
  State (delete a (tasks s)) (head s) (task_structs s) (mem_buf s) (mem_buf_ptr s) (delay s).
Definition set_head (l : klist) (s : state) : state :=
  State (tasks s) l (task_structs s) (mem_buf s) (mem_buf_ptr s) (delay s).
Definition put_counters (t : addr) (c : task_struct) (s : state) : state :=
  State (tasks s) (head s) (<[t:=c]> (task_structs s)) (mem_buf s) (mem_buf_ptr s) (delay s).
Definition set_buf (b : vbuffer) (ptr : Z) (s : state) : state :=
  State (tasks s) (head s) (task_structs s) b ptr (delay s).
Definition set_delay (d : Z) (s : state) : state :=
  State (tasks s) (head s) (task_structs s) (mem_buf s) (mem_buf_ptr s) d.

(** The answers of the kernel to one call: the object [kmalloc] returns, what
    it and the uninitialised [int] of [unregistration] hold, the tick counter,
    and [pid_task (find_vpid (nr))]. *)
Record answers : Type := Answers {
  new_object : option addr;
  garbage : mp_task_struct;
  stack_int : Z;
  jiffies : Z;
  find_task : Z → option addr;
}.

(** [find_task_by_pid], whose parameter is an [unsigned int]. *)
Definition find_task_by_pid (k : answers) (nr : Z) : option addr :=
  find_task k (uint32 nr).

(** [get_cpu_use]: the return code and the four values it stores. *)
Definition get_cpu_use (k : answers) (p : Z) : kern state (Z * option task_struct) :=
  match find_task_by_pid k p with
  | Some t =>
      s ← get;
      c ← lift (deref (task_structs s) (Some t));
      modify (put_counters t (Counters 0 0 0 0)) ;;
      mret (0, Some c)
  | None => mret (-1, None)
  end.

Definition __get_task_by_pid (p : Z) : kern state (option addr) :=
  emit Klist_for_each ;;
  s ← get;
  lift (find_first (λ tmp, pid tmp = p) (tasks s) (entries s)).

(** ** The proc file *)

(** [mp_read] only logs. *)
Definition mp_read (buf : text) (count data : Z) : kern state Z := mret 0.

Definition pid_format : string := "%d" ++ String NL EmptyString.

(** [registration] reads [list_empty] before it takes the lock. *)
Definition registration_prepare (k : answers) (buf : text) : kern state (bool * addr) :=
  emit Klist_empty ;;
  s ← get;
  let empty_flag := list_empty (head s) in
  a ← lift (from_option_or NullDeref (new_object k));
  str ← lift (c_str (drop 2 buf));
  let p := default (pid (garbage k)) (sscanf str pid_format !! 0%nat) in
  modify (put_task a (MpTask (find_task_by_pid k p) 0 0 0 p)) ;;
  mret (empty_flag, a).

Definition registration_insert (empty_flag : bool) (new_task : addr) : kern state unit :=
  emit Kspin_lock ;;
  emit (Klist_add new_task) ;;
  modify (λ s, set_head (list_add new_task (head s)) s) ;;
  s ← get;
  (if empty_flag then emit (Kqueue_delayed_work (delay s)) else mret tt) ;;
  emit Kspin_unlock.

Definition registration (k : answers) (buf : text) : kern state unit :=
  r ← registration_prepare k buf;
  registration_insert r.1 r.2.

(** [unregistration]: the critical section, and what follows it. *)
Definition unregistration_remove (k : answers) (buf : text) : kern state addr :=
  str ← lift (c_str (drop 2 buf));
  let p := default (stack_int k) (sscanf str pid_format !! 0%nat) in
  emit Kspin_lock ;;
  task_to_remove ← __get_task_by_pid p;
  a ← lift (from_option_or NullDeref task_to_remove);
  emit (Klist_del a) ;;
  modify (λ s, set_head (list_del a (head s)) s) ;;
  emit Kspin_unlock ;;
  mret a.

Definition unregistration_cancel (empty : bool) : kern state unit :=
  if empty then emit Kcancel_delayed_work else mret tt.

Definition unregistration_free (empty : bool) (task_to_remove : addr) : kern state unit :=
  (if empty then emit Kflush_workqueue else mret tt) ;;
  modify (free_task task_to_remove) ;;
  emit (Kkfree task_to_remove).

Definition unregistration_finish (empty : bool) (task_to_remove : addr) : kern state unit :=
  unregistration_cancel empty ;;
  unregistration_free empty task_to_remove.

(** The unlocked [list_empty (&head)]. *)
Definition read_empty : kern state bool :=
  emit Klist_empty ;;
  s ← get;
  mret (list_empty (head s)).

Definition unregistration (k : answers) (buf : text) : kern state unit :=
  a ← unregistration_remove k buf;
  empty ← read_empty;
  unregistration_finish empty a.

Definition mp_write (k : answers) (buffer : text) : kern state Z :=
  let count := Z.of_nat (length buffer) in
  emit (Kkmalloc (count + 1)) ;;
  let buf := buffer ++ [NUL] in
  match buf with
  | "R"%char :: _ => registration k buf
  | "U"%char :: _ => unregistration k buf
  | _ => mret tt
  end ;;
  emit Kkfree_buf ;;
  mret count.

(** ** The sampler *)

(** The three running sums of [mp_work_func]. *)
Record sums : Type := Sums { min_flt_sum : Z; maj_flt_sum : Z; cpu_time_sum : Z }.

Definition add_sample (c : task_struct) (u : sums) : sums :=
  Sums (uint64 (min_flt_sum u + min_flt c)) (uint64 (maj_flt_sum u + maj_flt c))
       (uint64 (cpu_time_sum u + uint64 (utime c + stime c))).

Fixpoint sum_entries (k : answers) (es : list addr) (u : sums) : kern state sums :=
  match es with
  | [] => mret u
  | entry :: es' =>
      s ← get;
      n ← lift (deref (tasks s) (Some entry));
      r ← get_cpu_use k (pid n);
      match r with
      | (0, Some c) => sum_entries k es' (add_sample c u)
      | _ => sum_entries k es' u
      end
  end.

(** [mem_buf[mem_buf_ptr ++] = v]. *)
Definition mem_push (v : Z) : kern state unit :=
  s ← get;
  match mem_buf s with
  | Unset => failwith NullDeref
  | Freed => failwith UseAfterFree
  | Live b =>
      if decide (0 ≤ mem_buf_ptr s < Z.of_nat (length b)) then
        modify (set_buf (Live (<[Z.to_nat (mem_buf_ptr s):=v]> b))
                        (int32 (mem_buf_ptr s + 1)))
      else failwith OutOfBounds
  end.

(** The four stores of a sample. *)
Definition write_sample (j : Z) (u : sums) : kern state unit :=
  mem_push j ;;
  mem_push (min_flt_sum u) ;;
  mem_push (maj_flt_sum u) ;;
  mem_push (uint64 (jiffies_to_msecs (cputime_to_jiffies (cpu_time_sum u)))).

(** The work function up to its last statement, in two critical sections; the
    full-buffer test after the writes only logs. *)
Definition work_sum (k : answers) : kern state sums :=
  emit Kspin_lock ;;
  emit Klist_for_each ;;
  s ← get;
  u ← sum_entries k (entries s) (Sums 0 0 0);
  emit Kspin_unlock ;;
  mret u.

Definition work_write (k : answers) (u : sums) : kern state unit :=
  emit Kspin_lock ;;
  write_sample (jiffies k) u ;;
  emit Kspin_unlock.

Definition work_sample (k : answers) : kern state unit :=
  u ← work_sum k;
  work_write k u.

Definition requeue : kern state unit :=
  s ← get;
  emit (Kqueue_delayed_work (delay s)).

Definition mp_work_func (k : answers) : kern state unit :=
  work_sample k ;; requeue.

(** ** The character device *)

(** The loop of [dev_mmap]: [pfn_of] is [vmalloc_to_pfn] on byte offsets of the
    buffer and [remap] the result of [remap_pfn_range] at an address.  [None]
    when the fuel runs out. *)
Fixpoint map_pages (pfn_of : Z → Z) (remap : Z → Z → Z) (fuel : nat)
    (start pos size : Z) : kern state (option Z) :=
  match fuel with
  | O => mret None
  | S fuel' =>
      if decide (0 < size) then
        let pfn := pfn_of pos in
        emit (Kremap_pfn_range start pfn PAGE_SIZE) ;;
        if decide (remap start pfn = 0) then
          map_pages pfn_of remap fuel' (uint64 (start + PAGE_SIZE))
            (pos + PAGE_SIZE) (uint64 (size - PAGE_SIZE))
        else mret (Some (- EAGAIN))
      else mret (Some 0)
  end.

Definition dev_mmap (pfn_of : Z → Z) (remap : Z → Z → Z) (vm_start vm_end : Z) :
    kern state (option Z) :=
  let size := uint64 (vm_end - vm_start) in
  if decide (PAGE_NUM * PAGE_SIZE < size) then mret (Some (- EINVAL))
  else map_pages pfn_of remap (S (Z.to_nat PAGE_NUM)) vm_start 0 size.

(** ** Loading and unloading *)

(** [vmalloc_ok]: whether [vmalloc] found the memory.  The buffer is cleared
    before the pointer is tested. *)
Definition mp_init (vmalloc_ok : bool) : kern state Z :=
  emit Kproc_mkdir ;;
  emit Kproc_create ;;
  emit (Kvmalloc (PAGE_NUM * PAGE_SIZE)) ;;
  (if vmalloc_ok then
     modify (λ s, set_buf (Live (replicate (Z.to_nat (PAGE_NUM * PAGE_SIZE / 8)) 0))
                          (mem_buf_ptr s) s)
   else failwith NullDeref) ;;
  emit Kcreate_workqueue ;;
  modify (set_delay (msecs_to_jiffies 50)) ;;
  emit Kregister_chrdev ;;
  emit Kcreate_workqueue ;;
  mret 0.

Definition exit_visit (entry : addr) : kern state unit :=
  emit (Klist_del entry) ;;
  modify (λ s, set_head (list_del entry (head s)) s).

Definition mp_exit : kern state unit :=
  emit Kunregister_chrdev ;;
  emit Kcancel_delayed_work ;;
  emit Kflush_workqueue ;;
  emit Kdestroy_workqueue ;;
  emit Kspin_lock ;;
  emit Klist_for_each ;;
  s ← get;
  for_each (entries s) exit_visit ;;
  emit Kspin_unlock ;;
  emit Kvfree ;;
  modify (λ s, set_buf Freed (mem_buf_ptr s) s) ;;
  emit Kproc_remove ;;
  emit Kproc_remove.
End mp3.
