(* ===== verification/Mp3Facts.v ===== *)
(** * MP3: lemmas about the profiler's operations *)
From Stdlib Require Import Ascii String.
From stdpp Require Import prelude gmap.
From S2P Require Import Prelude CInt CText Kernel Mp3.
Open Scope Z_scope.

(** ** Sums of a counter over the process table *)

Definition total (f : task_struct → Z) (m : gmap addr task_struct) : Z :=
  map_fold (λ _ c acc, f c + acc) 0 m.

Lemma total_insert_new f m t c : m !! t = None → total f (<[t:=c]> m) = f c + total f m.
Proof.
  intros Ht. unfold total. rewrite map_fold_insert_L; [done| |done].
  intros; lia.
Qed.

Lemma total_insert f m t c c' :
  m !! t = Some c → total f (<[t:=c']> m) = f c' + total f m - f c.
Proof.
  intros Ht. rewrite <-(insert_delete_id m t c Ht) at 2.
  rewrite (total_insert_new f (delete t m)) by apply lookup_delete_eq.
  rewrite <-insert_delete_eq, total_insert_new by apply lookup_delete_eq. lia.
Qed.

(** The CPU time of a process, as the sampler adds it up. *)
Definition cpu_time (c : task_struct) : Z := utime c + stime c.

Section facts.
Context {KL : KList}.
Context (jiffies_to_msecs cputime_to_jiffies : Z → Z).
Implicit Types s : state.

Definition set_structs (m : gmap addr task_struct) s : state :=
  State (tasks s) (head s) m (mem_buf s) (mem_buf_ptr s) (delay s).

(** Lookups give live task structs. *)
Definition answers_ok (k : answers) s : Prop :=
  ∀ nr t, find_task k nr = Some t → is_Some (task_structs s !! t).

Definition wf s : Prop := list_wf (entries s) (tasks s).

(** The process of a listed entry. *)
Definition process_of (k : answers) s (e : addr) : option addr :=
  n ← tasks s !! e; find_task_by_pid k (pid n).

(** ** The accumulation loop *)

(** What a pass over the processes [ps] leaves of the process table, and the
    part of the table whose counters it adds up. *)
Definition reset (ps : list (option addr)) (m : gmap addr task_struct) : gmap addr task_struct :=
  map_imap (λ t c, Some (if decide (Some t ∈ ps) then Counters 0 0 0 0 else c)) m.
Definition taken (ps : list (option addr)) (m : gmap addr task_struct) : gmap addr task_struct :=
  filter (λ p, Some p.1 ∈ ps) m.

Lemma lookup_reset ps m t :
  reset ps m !! t = (λ c, if decide (Some t ∈ ps) then Counters 0 0 0 0 else c) <$> m !! t.
Proof. unfold reset. rewrite map_lookup_imap. by destruct (m !! t). Qed.

Lemma reset_nil m : reset [] m = m.
Proof.
  apply map_eq. intros t. rewrite lookup_reset. destruct (m !! t); [|done]. cbn.
  by rewrite decide_False by apply not_elem_of_nil.
Qed.

Lemma taken_nil m : taken [] m = ∅.
Proof.
  apply map_empty. intros t. apply map_lookup_filter_None. right. intros c _. apply not_elem_of_nil.
Qed.

Lemma reset_cons p ps m :
  reset (p :: ps) m =
  reset ps (match p with Some t => <[t := Counters 0 0 0 0]> m | None => m end) ∨
  ∃ t, p = Some t ∧ m !! t = None.
Proof.
  destruct p as [t|].
  - destruct (m !! t) as [c|] eqn:Ht; [left|right; by exists t].
    apply map_eq. intros t'. rewrite !lookup_reset, lookup_insert.
    destruct (decide (t = t')) as [<-|Hd].
    + rewrite Ht. cbn. rewrite decide_True by (by left). by case_decide.
    + destruct (m !! t'); [|done]. cbn. do 2 f_equal. apply decide_ext.
      rewrite elem_of_cons. naive_solver.
  - left. apply map_eq. intros t'. rewrite !lookup_reset. destruct (m !! t'); [|done]. cbn.
    do 2 f_equal. apply decide_ext. rewrite elem_of_cons. naive_solver.
Qed.

(** A process is counted the first time it is met. *)
Lemma total_taken_cons f t ps m c :
  m !! t = Some c → f (Counters 0 0 0 0) = 0 →
  total f (taken (Some t :: ps) m) = f c + total f (taken ps (<[t := Counters 0 0 0 0]> m)).
Proof.
  intros Ht H0. destruct (decide (Some t ∈ ps)) as [Hin|Hin].
  - assert (Hl : taken (Some t :: ps) m = taken ps m).
    { apply map_filter_ext. intros t' c' _. cbn. rewrite elem_of_cons. naive_solver. }
    unfold taken at 2. rewrite Hl, map_filter_insert_True by done. fold (taken ps m).
    rewrite (total_insert f (taken ps m) t c); [lia|]. by apply map_lookup_filter_Some.
  - assert (Hl : taken (Some t :: ps) m = <[t := c]> (taken ps m)).
    { apply map_eq. intros t'. apply option_eq. intros c'.
      rewrite lookup_insert_Some. unfold taken. rewrite !map_lookup_filter_Some. cbn.
      rewrite elem_of_cons. destruct (decide (t = t')) as [->|]; naive_solver. }
    assert (Hr : taken ps (<[t := Counters 0 0 0 0]> m) = taken ps m).
    { apply map_filter_insert_not. by intros. }
    rewrite Hl, Hr, total_insert_new; [done|]. apply map_lookup_filter_None. right. by intros.
Qed.

(** Nothing is lost between the sums and the table. *)
Lemma total_reset f ps m :
  f (Counters 0 0 0 0) = 0 → total f (taken ps m) + total f (reset ps m) = total f m.
Proof.
  intros H0. induction m as [|t c m Ht IH] using map_ind; [done|].
  assert (Hr : reset ps (<[t := c]> m) =
    <[t := if decide (Some t ∈ ps) then Counters 0 0 0 0 else c]> (reset ps m)).
  { apply map_eq. intros t'. rewrite lookup_reset, !lookup_insert, lookup_reset.
    by destruct (decide (t = t')) as [<-|]. }
  assert (Hn : reset ps m !! t = None) by (by rewrite lookup_reset, Ht).
  rewrite Hr, (total_insert_new f (reset ps m)), (total_insert_new f m) by done. unfold taken.
  destruct (decide (Some t ∈ ps)) as [Hin|Hin].
  - rewrite map_filter_insert_True, total_insert_new by
      (done || (apply map_lookup_filter_None; by left)). fold (taken ps m). lia.
  - rewrite map_filter_insert_False, delete_id by done. fold (taken ps m). lia.
Qed.

(** The sums after adding the counters of a part of the table. *)
Definition add_sums (u : sums) (m : gmap addr task_struct) : sums :=
  Sums (uint64 (min_flt_sum u + total min_flt m)) (uint64 (maj_flt_sum u + total maj_flt m))
       (uint64 (cpu_time_sum u + total cpu_time m)).

(** The sums of a sample of [m]. *)
Definition sums_of (m : gmap addr task_struct) : sums :=
  Sums (uint64 (total min_flt m)) (uint64 (total maj_flt m)) (uint64 (total cpu_time m)).

Definition normal (u : sums) : Prop := add_sums u ∅ = u.

Lemma add_sample_normal c u : normal (add_sample c u).
Proof.
  unfold normal, add_sums, add_sample. cbn. unfold total. rewrite !map_fold_empty, !Z.add_0_r.
  unfold uint64. by rewrite !wrap_idemp.
Qed.

Lemma add_sample_sums c u t ps m :
  m !! t = Some c →
  add_sums (add_sample c u) (taken ps (<[t := Counters 0 0 0 0]> m)) =
  add_sums u (taken (Some t :: ps) m).
Proof.
  intros Ht. unfold add_sums, add_sample.
  rewrite !(total_taken_cons _ t ps m c) by done.
  cbn [min_flt_sum maj_flt_sum cpu_time_sum]. unfold cpu_time at 2.
  rewrite !uint64_add_l, !Z.add_assoc. f_equal.
  rewrite <-(uint64_add_l (_ + _)), uint64_add_r, uint64_add_l. by rewrite !Z.add_assoc.
Qed.

Lemma sum_entries_ok k es u s :
  (∀ e, e ∈ es → is_Some (tasks s !! e)) → answers_ok k s → normal u →
  sum_entries k es u s =
    Ok (add_sums u (taken (process_of k s <$> es) (task_structs s)),
        set_structs (reset (process_of k s <$> es) (task_structs s)) s, []).
Proof.
  revert u s. induction es as [|e es IH]; intros u s Hes Hk Hu; cbn [fmap list_fmap].
  { rewrite taken_nil, reset_nil, Hu. by destruct s. }
  destruct (Hes e) as [n Hn]; [by left|]. pose proof (deref_live _ _ _ Hn) as Hd.
  assert (Hp : process_of k s e = find_task_by_pid k (pid n)) by (unfold process_of; by rewrite Hn).
  destruct (find_task_by_pid k (pid n)) as [t|] eqn:Ht; rewrite Hp.
  - destruct (Hk _ _ Ht) as [c Hc]. pose proof (deref_live _ _ _ Hc) as Hdc.
    specialize (IH (add_sample c u) (put_counters t (Counters 0 0 0 0) s)).
    rewrite (add_sample_sums c u t _ (task_structs s)) in IH by done.
    assert (Heq := IH (λ e' H, Hes e' (list_elem_of_further _ _ _ H))). clear IH.
    destruct (reset_cons (Some t) (process_of k s <$> es) (task_structs s))
      as [->|(t' & [= <-] & ?)]; [|congruence].
    cbn [sum_entries]. unfold get_cpu_use. run.
    rewrite Heq; [done| |apply add_sample_normal].
    intros nr t' Ht'. cbn. rewrite lookup_insert. case_decide; [by eexists|]. by eapply Hk.
  - specialize (IH u s (λ e' H, Hes e' (list_elem_of_further _ _ _ H)) Hk Hu).
    destruct (reset_cons None (process_of k s <$> es) (task_structs s))
      as [->|(t' & ? & ?)]; [|done].
    assert (Htk : taken (None :: (process_of k s <$> es)) (task_structs s) =
                  taken (process_of k s <$> es) (task_structs s)).
    { apply map_filter_ext. intros t' c' _. cbn. rewrite elem_of_cons. naive_solver. }
    rewrite Htk. cbn [sum_entries]. unfold get_cpu_use. run. done.
Qed.

(** ** Appending to the buffer *)

Lemma mem_push_ok v b s :
  mem_buf s = Live b → 0 ≤ mem_buf_ptr s < Z.of_nat (length b) →
  Z.of_nat (length b) ≤ INT_MAX →
  mem_push v s =
    Ok (tt, set_buf (Live (<[Z.to_nat (mem_buf_ptr s):=v]> b)) (mem_buf_ptr s + 1) s, []).
Proof.
  intros Hb Hp Hmax. unfold mem_push. run. rewrite decide_True by done.
  rewrite int32_small; [done|]. red. change (2 ^ (32 - 1)) with (INT_MAX + 1).
  unfold INT_MAX in *. lia.
Qed.

Definition push_all (vs : list Z) : kern state unit := for_each vs mem_push.

Lemma push_all_ok vs b s :
  mem_buf s = Live b → 0 ≤ mem_buf_ptr s →
  mem_buf_ptr s + Z.of_nat (length vs) ≤ Z.of_nat (length b) → Z.of_nat (length b) ≤ INT_MAX →
  push_all vs s =
    Ok (tt, set_buf (Live (list_inserts (Z.to_nat (mem_buf_ptr s)) vs b))
                    (mem_buf_ptr s + Z.of_nat (length vs)) s, []).
Proof.
  unfold push_all. revert b s. induction vs as [|v vs IH]; intros b s Hb H0 Hlen Hmax.
  { cbn. rewrite Z.add_0_r, <-Hb. by destruct s. }
  cbn [length] in Hlen. cbn [for_each].
  rewrite (bind_ok _ _ _ _ _ _ (mem_push_ok v b s Hb ltac:(lia) Hmax)).
  rewrite (IH (<[Z.to_nat (mem_buf_ptr s):=v]> b))
    by (rewrite ?length_insert; cbn [mem_buf mem_buf_ptr set_buf]; done || lia).
  cbn [prepend app list_inserts mem_buf_ptr set_buf length].
  replace (Z.to_nat (mem_buf_ptr s + 1)) with (S (Z.to_nat (mem_buf_ptr s))) by lia.
  rewrite list_insert_inserts_lt by lia.
  replace (mem_buf_ptr s + 1 + Z.of_nat (length vs))
    with (mem_buf_ptr s + Z.of_nat (S (length vs))) by lia. done.
Qed.

Lemma push_all_full v vs b s :
  mem_buf s = Live b → Z.of_nat (length b) ≤ mem_buf_ptr s →
  push_all (v :: vs) s = Fault OutOfBounds.
Proof.
  intros Hb Hp. unfold push_all. cbn [for_each]. apply bind_fault.
  unfold mem_push. run. by rewrite decide_False by lia.
Qed.

(** ** The work function *)

(** What a sample appends. *)
Definition record (k : answers) (u : sums) : list Z :=
  [jiffies k; min_flt_sum u; maj_flt_sum u;
   uint64 (jiffies_to_msecs (cputime_to_jiffies (cpu_time_sum u)))].

(** The four stores of a sample are one append. *)
Lemma write_sample_eq k u s :
  write_sample jiffies_to_msecs cputime_to_jiffies (jiffies k) u s = push_all (record k u) s.
Proof.
  unfold push_all, write_sample, record. cbn [for_each]. unfold mbind, cmd_bind, mret, cmd_ret.
  destruct (mem_push _ s) as [[[[] s1] t1]|f]; [|done].
  destruct (mem_push _ s1) as [[[[] s2] t2]|f]; [|done].
  destruct (mem_push _ s2) as [[[[] s3] t3]|f]; [|done].
  destruct (mem_push _ s3) as [[[[] s4] t4]|f]; [|done]. cbn [prepend].
  by rewrite app_nil_r.
Qed.

Definition work_trace s : list kcall :=
  [Kspin_lock; Klist_for_each; Kspin_unlock; Kspin_lock; Kspin_unlock;
   Kqueue_delayed_work (delay s)].

(** The processes a sample visits, and what it records of a process table. *)
Definition processes (k : answers) s : list (option addr) := process_of k s <$> entries s.
Definition sample (k : answers) s : list Z :=
  record k (sums_of (taken (processes k s) (task_structs s))).

(** The state a sample leaves behind. *)
Definition sampled (k : answers) (b : list Z) s : state :=
  set_buf (Live (list_inserts (Z.to_nat (mem_buf_ptr s)) (sample k s) b))
          (mem_buf_ptr s + 4) (set_structs (reset (processes k s) (task_structs s)) s).

Lemma sweep_ok k s :
  wf s → answers_ok k s →
  sum_entries k (entries s) (Sums 0 0 0) s =
    Ok (sums_of (taken (processes k s) (task_structs s)),
        set_structs (reset (processes k s) (task_structs s)) s, []).
Proof. intros [_ Hlive] Hk. by apply sum_entries_ok. Qed.

(** Its two critical sections. *)
Lemma work_sum_ok k s :
  wf s → answers_ok k s →
  work_sum k s =
    Ok (sums_of (taken (processes k s) (task_structs s)),
        set_structs (reset (processes k s) (task_structs s)) s,
        [Kspin_lock; Klist_for_each; Kspin_unlock]).
Proof. intros Hwf Hk. pose proof (sweep_ok k s Hwf Hk) as Hsum. unfold work_sum. run. done. Qed.

Lemma work_write_ok k u b s :
  mem_buf s = Live b → 0 ≤ mem_buf_ptr s →
  mem_buf_ptr s + 4 ≤ Z.of_nat (length b) → Z.of_nat (length b) ≤ INT_MAX →
  work_write jiffies_to_msecs cputime_to_jiffies k u s =
    Ok (tt, set_buf (Live (list_inserts (Z.to_nat (mem_buf_ptr s)) (record k u) b))
              (mem_buf_ptr s + 4) s, [Kspin_lock; Kspin_unlock]).
Proof.
  intros Hb H0 Hlen Hmax. pose proof (push_all_ok (record k u) b s Hb H0 Hlen Hmax) as Hp.
  rewrite <-write_sample_eq in Hp. unfold work_write. run. done.
Qed.

Lemma work_write_full k u b s :
  mem_buf s = Live b → Z.of_nat (length b) ≤ mem_buf_ptr s →
  work_write jiffies_to_msecs cputime_to_jiffies k u s = Fault OutOfBounds.
Proof.
  intros Hb Hlen. assert (Hp : push_all (record k u) s = Fault OutOfBounds)
    by (by eapply push_all_full).
  rewrite <-write_sample_eq in Hp. unfold work_write. run. done.
Qed.

Lemma work_sample_ok k b s :
  wf s → answers_ok k s → mem_buf s = Live b → 0 ≤ mem_buf_ptr s →
  mem_buf_ptr s + 4 ≤ Z.of_nat (length b) → Z.of_nat (length b) ≤ INT_MAX →
  work_sample jiffies_to_msecs cputime_to_jiffies k s =
    Ok (tt, sampled k b s, [Kspin_lock; Klist_for_each; Kspin_unlock; Kspin_lock; Kspin_unlock]).
Proof.
  intros Hwf Hk Hb H0 Hlen Hmax. unfold work_sample.
  rewrite (bind_ok _ _ _ _ _ _ (work_sum_ok k s Hwf Hk)).
  by rewrite (work_write_ok k _ b) by done.
Qed.

Lemma work_ok k b s :
  wf s → answers_ok k s → mem_buf s = Live b → 0 ≤ mem_buf_ptr s →
  mem_buf_ptr s + 4 ≤ Z.of_nat (length b) → Z.of_nat (length b) ≤ INT_MAX →
  mp_work_func jiffies_to_msecs cputime_to_jiffies k s = Ok (tt, sampled k b s, work_trace s).
Proof.
  intros Hwf Hk Hb H0 Hlen Hmax. unfold mp_work_func.
  by rewrite (bind_ok _ _ _ _ _ _ (work_sample_ok k b s Hwf Hk Hb H0 Hlen Hmax)).
Qed.

(** A sample into a full buffer. *)
Lemma work_full k b s :
  wf s → answers_ok k s → mem_buf s = Live b → Z.of_nat (length b) ≤ mem_buf_ptr s →
  mp_work_func jiffies_to_msecs cputime_to_jiffies k s = Fault OutOfBounds.
Proof.
  intros Hwf Hk Hb Hlen. unfold mp_work_func, work_sample.
  apply bind_fault. rewrite (bind_ok _ _ _ _ _ _ (work_sum_ok k s Hwf Hk)).
  by rewrite (work_write_full k _ b).
Qed.
End facts.
