(* ===== verification/Mp3System.v ===== *)
(** * MP3: the profiler as a transition system

    Registrations, unregistrations and samples one after the other, in any
    order: when the sampler is scheduled, what it counts, and where its buffer
    ends.  Requests and samples that interrupt each other are in
    [Mp3Interleave]. *)
From Stdlib Require Import Ascii String.
From stdpp Require Import prelude gmap.
From S2P Require Import Prelude CInt CText Kernel Mp3 Mp3Facts.
Open Scope Z_scope.

Section system.
Context {KL : KList} {KLL : KListLaws KL}.
Context (msecs_to_jiffies jiffies_to_msecs cputime_to_jiffies : Z → Z).
Implicit Types s : state.

Abbreviation mp_work := (mp_work_func jiffies_to_msecs cputime_to_jiffies).

(** ** Registration *)

Definition new_task (k : answers) (str : text) : mp_task_struct :=
  let p := default (pid (garbage k)) (sscanf str pid_format !! 0%nat) in
  MpTask (find_task_by_pid k p) 0 0 0 p.

Definition listed (a : addr) (n : mp_task_struct) s : state :=
  set_head (list_add a (head s)) (put_task a n s).

Lemma mp3_registration_eq k buf str a s :
  new_object k = Some a → c_str (drop 2 buf) = Ok str →
  registration k buf s =
    Ok (tt, listed a (new_task k str) s,
        [Klist_empty; Kspin_lock; Klist_add a] ++
        (if list_empty (head s) then [Kqueue_delayed_work (delay s)] else []) ++
        [Kspin_unlock]).
Proof.
  intros Ha Hstr. unfold registration, registration_prepare, registration_insert, listed.
  run. cbn [fst snd]. destruct (list_empty (head s)); run; done.
Qed.

Lemma registration_null k buf s : new_object k = None → registration k buf s = Fault NullDeref.
Proof. intros Ha. unfold registration, registration_prepare. run. done. Qed.

Lemma registration_unterminated k buf f s :
  c_str (drop 2 buf) = Fault f → ∃ f', registration k buf s = Fault f'.
Proof.
  intros Hf. unfold registration, registration_prepare. run.
  destruct (new_object k); run; eauto.
Qed.

Lemma unlisted_fresh s a : wf s → tasks s !! a = None → a ∉ entries s.
Proof. intros Hwf Ha Hin. destruct (list_wf_lookup _ _ _ Hwf Hin). congruence. Qed.

Lemma mp3_listed_entries a n s :
  wf s → tasks s !! a = None → entries (listed a n s) = a :: entries s.
Proof. intros Hwf Ha. unfold entries, listed; cbn. by apply entries_add, unlisted_fresh. Qed.

Lemma mp3_listed_wf a n s : wf s → tasks s !! a = None → wf (listed a n s).
Proof.
  intros Hwf Ha. unfold wf. rewrite mp3_listed_entries by done.
  apply list_wf_cons; [done|]. by apply unlisted_fresh.
Qed.

(** ** Unregistration *)

Definition scan_pid (k : answers) (buf : text) : outcome Z :=
  str ← c_str (drop 2 buf);
  Ok (default (stack_int k) (sscanf str pid_format !! 0%nat)).

Definition unlisted (a : addr) s : state := set_head (list_del a (head s)) s.
Definition removed (a : addr) s : state := free_task a (unlisted a s).

Lemma unlisted_entries a s :
  wf s → a ∈ entries s → entries (unlisted a s) = filter (.≠ a) (entries s).
Proof. intros [Hnd _] Ha. unfold entries, unlisted; cbn. by apply entries_del. Qed.

Lemma mp3_removed_wf a s : wf s → a ∈ entries s → wf (removed a s).
Proof.
  intros Hwf Ha. unfold wf. change (entries (removed a s)) with (entries (unlisted a s)).
  rewrite unlisted_entries by done. by apply list_wf_del.
Qed.

Lemma remove_eq k buf p s :
  wf s → scan_pid k buf = Ok p →
  (∃ a, first_with (λ n, pid n = p) (tasks s) (entries s) a ∧
     unregistration_remove k buf s =
       Ok (a, unlisted a s, [Kspin_lock; Klist_for_each; Klist_del a; Kspin_unlock])) ∨
  ((∀ a n, a ∈ entries s → tasks s !! a = Some n → pid n ≠ p) ∧
   unregistration_remove k buf s = Fault NullDeref).
Proof.
  intros Hwf Hp.
  destruct (find_first_spec (λ n, pid n = p) (tasks s) (entries s) Hwf) as (r & Hr & Hspec).
  unfold scan_pid in Hp. destruct (c_str (drop 2 buf)) as [str|] eqn:Hstr; [|done].
  cbv [mbind outcome_bind] in Hp.
  assert (Hp' : default (stack_int k) (sscanf str pid_format !! 0%nat) = p) by congruence.
  destruct r as [a|]; [left; exists a|right]; (split; [done|]).
  all: unfold unregistration_remove, __get_task_by_pid; run; rewrite Hp'; run; done.
Qed.

(** The calls after the critical section. *)
Definition finish_trace (empty : bool) (a : addr) : list kcall :=
  (if empty then [Kcancel_delayed_work; Kflush_workqueue] else []) ++ [Kkfree a].

Lemma finish_eq empty a s :
  unregistration_finish empty a s = Ok (tt, free_task a s, finish_trace empty a).
Proof. by destruct empty. Qed.

Lemma unregistration_eq k buf p s :
  wf s → scan_pid k buf = Ok p →
  (∃ a, first_with (λ n, pid n = p) (tasks s) (entries s) a ∧
     unregistration k buf s =
       Ok (tt, removed a s,
           [Kspin_lock; Klist_for_each; Klist_del a; Kspin_unlock; Klist_empty] ++
           finish_trace (list_empty (list_del a (head s))) a)) ∨
  ((∀ a n, a ∈ entries s → tasks s !! a = Some n → pid n ≠ p) ∧
   unregistration k buf s = Fault NullDeref).
Proof.
  intros Hwf Hp. destruct (remove_eq k buf p s Hwf Hp) as [(a & Hf & Heq)|[Hno Heq]].
  - left. exists a. split; [done|]. unfold unregistration.
    rewrite (bind_ok _ _ _ _ _ _ Heq).
    pose proof (finish_eq (list_empty (head (unlisted a s))) a (unlisted a s)) as Hfin.
    unfold read_empty. run. done.
  - right. split; [done|]. unfold unregistration. by apply bind_fault.
Qed.

(** ** The module under its kernel *)

(** [pending]: the delayed work item is queued. *)
Record sys : Type := Sys { module_state : state; pending : bool }.

Definition work_effect (q : bool) (c : kcall) : bool :=
  match c with
  | Kqueue_delayed_work _ => true
  | Kcancel_delayed_work => false
  | _ => q
  end.
Definition after s (q : bool) (t : list kcall) : sys := Sys s (fold_left work_effect t q).

Definition fresh_object (k : answers) s : Prop :=
  ∀ a, new_object k = Some a → tasks s !! a = None.

(** The kernel runs processes, the monitor writes to its mapping, requests
    arrive, and a queued work item runs; nothing interrupts a request or a
    sample. *)
Inductive serial : sys → sys → Prop :=
  | serial_processes s q m : serial (Sys s q) (Sys (set_structs m s) q)
  | serial_mapping s q b b' :
      mem_buf s = Live b → length b' = length b →
      serial (Sys s q) (Sys (set_buf (Live b') (mem_buf_ptr s) s) q)
  | serial_write s q k buffer r s' t :
      fresh_object k s → mp_write k buffer s = Ok (r, s', t) →
      serial (Sys s q) (after s' q t)
  | serial_work s k s' t :
      answers_ok k s → mp_work k s = Ok (tt, s', t) →
      serial (Sys s true) (after s' false t).

Definition loaded (procs : gmap addr task_struct) : sys :=
  match mp_init msecs_to_jiffies true (init_state procs) with
  | Ok (_, s, t) => after s false t
  | Fault _ => Sys (init_state procs) false
  end.

(** The length of the buffer in words. *)
Definition capacity : Z := PAGE_NUM * PAGE_SIZE / 8.

Record inv (y : sys) : Prop := {
  inv_wf : wf (module_state y);
  inv_buf : ∃ b, mem_buf (module_state y) = Live b ∧ Z.of_nat (length b) = capacity;
  inv_ptr : ∃ n, mem_buf_ptr (module_state y) = 4 * n ∧ 0 ≤ n ≤ capacity / 4;
  inv_pending : pending y = bool_decide (entries (module_state y) ≠ []);
}.

(** Only the list matters for the scheduling. *)
Lemma empty_eq s : list_empty (head s) = bool_decide (entries s = []).
Proof. apply entries_empty. Qed.

Lemma registration_inv k buf s s' q t :
  inv (Sys s q) → fresh_object k s → registration k buf s = Ok (tt, s', t) → inv (after s' q t).
Proof.
  intros [Hwf Hb Hptr Hq] Hfresh Heq. cbn in *.
  destruct (new_object k) as [a|] eqn:Ha; [|by rewrite registration_null in Heq].
  destruct (c_str (drop 2 buf)) as [str|f] eqn:Hstr.
  2: { destruct (registration_unterminated k buf f s Hstr) as [f' Hf]. by rewrite Hf in Heq. }
  specialize (Hfresh a Ha).
  rewrite (mp3_registration_eq k buf str a s Ha Hstr) in Heq. injection Heq as <- <-.
  split; cbn [module_state after].
  - by apply mp3_listed_wf.
  - done.
  - done.
  - rewrite mp3_listed_entries by done. cbn [after pending]. rewrite empty_eq, Hq.
    by repeat case_bool_decide.
Qed.

Lemma unregistration_inv k buf s s' q t :
  inv (Sys s q) → unregistration k buf s = Ok (tt, s', t) → inv (after s' q t).
Proof.
  intros [Hwf Hb Hptr Hq] Heq. cbn in *.
  destruct (scan_pid k buf) as [p|f] eqn:Hp.
  2: { unfold scan_pid in Hp. destruct (c_str (drop 2 buf)) eqn:Hstr; [done|].
       revert Heq. unfold unregistration, unregistration_remove. run. done. }
  destruct (unregistration_eq k buf p s Hwf Hp) as [(a & Hf & Heq')|[_ Heq']];
    rewrite Heq' in Heq; [|done]. injection Heq as <- <-.
  destruct (first_with_elem _ _ _ _ Hf) as [Ha _].
  split; cbn [module_state after].
  - by apply mp3_removed_wf.
  - done.
  - done.
  - change (entries (removed a s)) with (entries (unlisted a s)).
    change (list_empty (list_del a (head s))) with (list_empty (head (unlisted a s))).
    rewrite empty_eq. cbn [pending].
    destruct (decide (entries (unlisted a s) = [])) as [He|He].
    + rewrite bool_decide_true by done. by rewrite bool_decide_eq_false_2 by (by intros []).
    + rewrite bool_decide_eq_false_2 by done. rewrite bool_decide_true by done.
      cbn. rewrite Hq. apply bool_decide_true. intros Hn. rewrite Hn in Ha. inversion Ha.
Qed.

Lemma mp3_write_cases k buffer r s s' t :
  mp_write k buffer s = Ok (r, s', t) →
  let buf := buffer ++ [NUL] in
  ∃ t', t = Kkmalloc (Z.of_nat (length buffer) + 1) :: t' ++ [Kkfree_buf] ∧
  (registration k buf s = Ok (tt, s', t') ∨ unregistration k buf s = Ok (tt, s', t') ∨
   (s' = s ∧ t' = [])).
Proof.
  intros Heq buf. unfold mp_write in Heq. fold buf in Heq.
  assert (Hgen : ∀ m : kern state unit,
    (emit (Kkmalloc (Z.of_nat (length buffer) + 1)) ;; m ;; emit Kkfree_buf ;;
     mret (Z.of_nat (length buffer))) s = Ok (r, s', t) →
    ∃ t', t = Kkmalloc (Z.of_nat (length buffer) + 1) :: t' ++ [Kkfree_buf] ∧
      m s = Ok (tt, s', t')).
  { intros m. run. destruct (m s) as [[[[] s1] t1]|]; run; [|done].
    intros [= _ -> <-]. eauto. }
  repeat match type of Heq with
         | context [match ?x with _ => _ end] => destruct x
         end; apply Hgen in Heq as (t' & -> & Ht); exists t'; split; eauto.
  all: unfold mret, cmd_ret in Ht; simplify_eq; eauto.
Qed.

Lemma after_request s q z t :
  after s q (Kkmalloc z :: t ++ [Kkfree_buf]) = after s q t.
Proof. unfold after. cbn [fold_left work_effect]. by rewrite fold_left_app. Qed.

Lemma mp_write_inv k buffer r s s' q t :
  inv (Sys s q) → fresh_object k s → mp_write k buffer s = Ok (r, s', t) → inv (after s' q t).
Proof.
  intros Hi Hfresh Heq.
  destruct (mp3_write_cases k buffer r s s' t Heq) as (t' & -> & [H|[H|[-> ->]]]);
    rewrite after_request.
  - by eapply registration_inv.
  - by eapply unregistration_inv.
  - done.
Qed.

(** ** Samples *)

Abbreviation sampled := (sampled jiffies_to_msecs cputime_to_jiffies).
Abbreviation sample := (sample jiffies_to_msecs cputime_to_jiffies).

Lemma work_cases k s q :
  inv (Sys s q) → answers_ok k s →
  (∃ b, mem_buf s = Live b ∧ mp_work k s = Ok (tt, sampled k b s, work_trace s) ∧
     mem_buf_ptr s < capacity) ∨
  (mem_buf_ptr s = capacity ∧ mp_work k s = Fault OutOfBounds).
Proof.
  intros [Hwf (b & Hb & Hlen) (n & Hptr & Hn) _] Hk. cbn in Hwf, Hb, Hlen, Hptr.
  change (capacity / 4) with 16384 in Hn. change capacity with 65536 in *.
  destruct (decide (n = 16384)) as [->|Hne].
  - right. split; [lia|]. eapply work_full; [done|done|done|lia].
  - left. exists b. split; [done|]. split; [|lia].
    apply work_ok; try done; try lia. rewrite Hlen. vm_compute. discriminate.
Qed.

Lemma sampled_inv k b s q :
  inv (Sys s q) → mem_buf s = Live b → mem_buf_ptr s < capacity → entries s ≠ [] →
  inv (after (sampled k b s) false (work_trace s)).
Proof.
  intros [Hwf (b' & Hb & Hlen) (n & Hptr & Hn) _] Hb' Hlt Hne. cbn in Hwf, Hb, Hlen, Hptr.
  change (capacity / 4) with 16384 in Hn. change capacity with 65536 in *.
  split; cbn [module_state after].
  - exact Hwf.
  - eexists. split; [reflexivity|]. rewrite length_inserts.
    assert (b' = b) as -> by congruence. exact Hlen.
  - exists (n + 1). change (capacity / 4) with 16384. cbn. lia.
  - symmetry. apply bool_decide_true. exact Hne.
Qed.

Lemma serial_inv x y :
  inv x → serial x y → inv y.
Proof.
  intros Hi Hs. inv Hs.
  - by destruct Hi.
  - destruct Hi as [? (b0 & Hb0 & Hl) ? ?]. split; try done. exists b'. split; [done|].
    cbn in Hb0. congruence.
  - by eapply mp_write_inv.
  - assert (Hne : entries s ≠ []).
    { pose proof (inv_pending _ Hi) as Hp. symmetry in Hp. by apply bool_decide_eq_true in Hp. }
    destruct (work_cases k s true Hi) as [(b & Hb & Heq & Hlt)|[_ Heq]];
      [done| |].
    + rename select (mp_work k s = Ok (tt, s', t)) into Hw.
      rewrite Heq in Hw. injection Hw as <- <-. by eapply sampled_inv.
    + rename select (mp_work k s = Ok (tt, s', t)) into Hw. by rewrite Heq in Hw.
Qed.

Definition initial (procs : gmap addr task_struct) : state :=
  State ∅ LIST_HEAD procs (Live (replicate (Z.to_nat capacity) 0)) 0 (msecs_to_jiffies 50).

Lemma loaded_eq procs : loaded procs = Sys (initial procs) false.
Proof. reflexivity. Qed.

Lemma initial_inv procs : inv (Sys (initial procs) false).
Proof.
  split; cbn [module_state pending].
  - unfold wf, entries, initial; cbn [head tasks]. rewrite entries_head.
    split; [constructor|inversion 1].
  - eexists. split; [reflexivity|]. rewrite length_replicate. by apply Z2Nat.id.
  - exists 0. split; [reflexivity|]. split; [done|]. vm_compute. discriminate.
  - unfold entries, initial; cbn [head]. by rewrite entries_head.
Qed.

Lemma serial_reachable_inv procs y : rtc serial (loaded procs) y → inv y.
Proof.
  rewrite loaded_eq. apply (rtc_ind_r (λ y, inv y)); [apply initial_inv|].
  intros x z _ Hs Hi. by eapply serial_inv.
Qed.

(** ** Runs of samples *)

(** Samples with the processes running in between: before each one the process
    table is [r.1], and the kernel answers it with [r.2]. *)
Definition profile (rs : list (gmap addr task_struct * answers)) : kern state unit :=
  for_each rs (λ r, modify (set_structs r.1) ;; mp_work r.2).

(** What such a run records, and the condition on its answers; both depend on
    the registered processes of [s] only. *)
Definition profiled s (rs : list (gmap addr task_struct * answers)) : list (list Z) :=
  (λ r, sample r.2 (set_structs r.1 s)) <$> rs.
Definition run_ok s (r : gmap addr task_struct * answers) : Prop := answers_ok r.2 (set_structs r.1 s).

Lemma profiled_length s rs : length (concat (profiled s rs)) = (4 * length rs)%nat.
Proof.
  induction rs as [|r rs IH]; [done|]. unfold profiled in *.
  cbn [fmap list_fmap concat length]. rewrite length_app, IH. cbn [length Mp3Facts.sample record]. lia.
Qed.

(** Samples append to the buffer. *)
Lemma profile_ok rs b s :
  wf s → Forall (run_ok s) rs → mem_buf s = Live b →
  Z.of_nat (length b) = capacity → 0 ≤ mem_buf_ptr s →
  mem_buf_ptr s + 4 * Z.of_nat (length rs) ≤ capacity →
  ∃ m tr, profile rs s =
    Ok (tt, set_buf (Live (list_inserts (Z.to_nat (mem_buf_ptr s)) (concat (profiled s rs)) b))
              (mem_buf_ptr s + 4 * Z.of_nat (length rs)) (set_structs m s), tr).
Proof.
  unfold profile. intros Hwf Hrs. revert b s Hwf Hrs. induction rs as [|[m k] rs IH];
    intros b s Hwf Hrs Hb Hlen H0 Hmax.
  { exists (task_structs s), []. cbn [for_each profiled fmap list_fmap concat list_inserts length].
    rewrite Z.mul_0_r, Z.add_0_r, <-Hb. by destruct s. }
  cbn [length] in Hmax. apply Forall_cons in Hrs as [Hk Hrs]. change capacity with 65536 in *.
  assert (Hw : mp_work k (set_structs m s) =
    Ok (tt, sampled k b (set_structs m s), work_trace (set_structs m s))).
  { apply work_ok; try done; cbn; try lia. rewrite Hlen. vm_compute. discriminate. }
  set (s1 := sampled k b (set_structs m s)) in *.
  destruct (IH (list_inserts (Z.to_nat (mem_buf_ptr s)) (sample k (set_structs m s)) b) s1)
    as (m' & tr & Heq); try done.
  - by rewrite length_inserts.
  - cbn. lia.
  - cbn. lia.
  - exists m', (work_trace s ++ tr). cbn [for_each].
    rewrite (bind_ok _ _ _ tt s1 (work_trace s)) by (cbn [fst snd]; run; done).
    rewrite Heq. cbn [prepend].
    unfold s1, Mp3Facts.sampled. cbn [mem_buf_ptr set_buf set_structs profiled fmap list_fmap concat length fst snd].
    rewrite list_inserts_app_l.
    replace (length (sample k (set_structs m s)) + Z.to_nat (mem_buf_ptr s))%nat
      with (Z.to_nat (mem_buf_ptr s + 4)) by (cbn [length Mp3Facts.sample record]; lia).
    replace (mem_buf_ptr s + 4 + 4 * Z.of_nat (length rs))
      with (mem_buf_ptr s + 4 * Z.of_nat (S (length rs))) by lia. done.
Qed.

(** From a fresh buffer. *)
Lemma profile_fresh rs s :
  wf s → Forall (run_ok s) rs → mem_buf s = mem_buf (initial ∅) → mem_buf_ptr s = 0 →
  Z.of_nat (length rs) ≤ 16384 →
  ∃ m tr, profile rs s =
    Ok (tt, set_buf (Live (concat (profiled s rs) ++
                           replicate (Z.to_nat capacity - 4 * length rs) 0))
              (4 * Z.of_nat (length rs)) (set_structs m s), tr).
Proof.
  intros Hwf Hrs Hb Hp Hmax.
  destruct (profile_ok rs (replicate (Z.to_nat capacity) 0) s) as (m & tr & Heq);
    [done|done|exact Hb| |lia|rewrite Hp; change capacity with 65536; lia|].
  { rewrite length_replicate. by apply Z2Nat.id. }
  exists m, tr. rewrite Heq, Hp. change (Z.to_nat 0) with 0%nat. rewrite Z.add_0_l. do 5 f_equal.
  assert (Hc : (4 * length rs ≤ Z.to_nat capacity)%nat) by (change capacity with 65536; lia).
  replace (replicate (Z.to_nat capacity) 0) with
    (replicate (4 * length rs) 0 ++ replicate (Z.to_nat capacity - 4 * length rs) 0)
    by (rewrite <-replicate_add; f_equal; lia).
  apply list_inserts_0_r. by rewrite profiled_length, length_replicate.
Qed.

(** ** Unloading *)

Definition emptied s (pre post : list addr) s' (t : list kcall) : Prop :=
  entries s' = post ∧ tasks s' = tasks s ∧ t = Klist_del <$> pre.

Lemma mp3_exit_ok s :
  wf s →
  ∃ s', mp_exit s =
      Ok (tt, s', [Kunregister_chrdev; Kcancel_delayed_work; Kflush_workqueue; Kdestroy_workqueue;
                   Kspin_lock; Klist_for_each] ++ (Klist_del <$> entries s) ++
                  [Kspin_unlock; Kvfree; Kproc_remove; Kproc_remove]) ∧
    entries s' = [] ∧ tasks s' = tasks s ∧ mem_buf s' = Freed.
Proof.
  intros [Hnd Hlive].
  assert (Hwp : wp mp_exit s (λ _ s' t', (∃ t, emptied s (entries s) [] s' t ∧
    t' = [Kunregister_chrdev; Kcancel_delayed_work; Kflush_workqueue; Kdestroy_workqueue;
          Kspin_lock; Klist_for_each] ++ t ++
         [Kspin_unlock; Kvfree; Kproc_remove; Kproc_remove]) ∧ mem_buf s' = Freed) (λ _, False)).
  { unfold mp_exit. wp_go. eapply wp_mono; [apply (wp_for_each (emptied s))|..].
    - done.
    - intros pre a post s' t Hes (Hent & Htasks & ->). rewrite Hes in *.
      unfold exit_visit. wp_go. split; [|split; [done|by rewrite fmap_app]].
      apply NoDup_app in Hnd as (_ & _ & Hnd).
      unfold entries in *. cbn [head set_head].
      rewrite entries_del by (rewrite Hent; first [done|by left]). rewrite Hent.
      by apply (filter_ne_middle a [] post).
    - intros [] s' t Hv. wp_go. split; [|done]. by exists t.
    - intros f Hf. exact Hf. }
  destruct (wp_ok _ _ _ Hwp) as ([] & s' & t & Heq & (t' & (Hent & Htasks & ->) & ->) & Hb).
  exists s'. done.
Qed.
Lemma frees_unlinked es : frees (Klist_del <$> es) = [].
Proof. by induction es. Qed.

(** ** Properties *)

(** C10: A sample appends one record: the tick, and, modulo 2^64, the minor
    faults, the major faults and the CPU time that the registered processes
    which still exist have accumulated, each process counted once even when it
    is registered twice.  It clears exactly the counters it has added up, so
    that nothing is lost or counted again. *)
Theorem sample_conserves k b s :
  wf s → answers_ok k s → mem_buf s = Live b → Z.of_nat (length b) = capacity →
  0 ≤ mem_buf_ptr s → mem_buf_ptr s + 4 ≤ capacity →
  let due := taken (processes k s) (task_structs s) in
  ∃ s' t, mp_work k s = Ok (tt, s', t) ∧ disciplined t ∧ entries s' = entries s ∧
    mem_buf_ptr s' = mem_buf_ptr s + 4 ∧
    mem_buf s' = Live (list_inserts (Z.to_nat (mem_buf_ptr s))
      [jiffies k; uint64 (total min_flt due); uint64 (total maj_flt due);
       uint64 (jiffies_to_msecs (cputime_to_jiffies (uint64 (total cpu_time due))))] b) ∧
    (∀ t, task_structs s' !! t =
       (λ c, if decide (Some t ∈ processes k s) then Counters 0 0 0 0 else c) <$>
       task_structs s !! t) ∧
    (∀ f, f (Counters 0 0 0 0) = 0 →
       total f due + total f (task_structs s') = total f (task_structs s)).
Proof.
  intros Hwf Hk Hb Hlen H0 Hmax due. clear msecs_to_jiffies.
  do 2 eexists. split.
  { apply (work_ok jiffies_to_msecs cputime_to_jiffies k b s); try done;
      rewrite Hlen; [done|vm_compute; discriminate]. }
  split_and!; try done.
  - intros t. apply lookup_reset.
  - intros f. apply total_reset.
Qed.

(** C27: The buffer is a log: whatever the processes do between the samples,
    the first 16384 samples after loading are stored one after the other from
    its start, in order and unaltered, and the rest of it stays zero; the next
    one writes past its end, before the full-buffer test (the pointer exceeds
    the capacity) has ever been true. *)
Theorem buffer_log_overruns rs r s :
  wf s → Forall (run_ok s) rs → run_ok s r →
  mem_buf s = mem_buf (initial ∅) → mem_buf_ptr s = 0 → Z.of_nat (length rs) ≤ 16384 →
  ∃ s' tr, profile rs s = Ok (tt, s', tr) ∧ mem_buf_ptr s' ≤ capacity ∧
    mem_buf s' = Live (concat (profiled s rs) ++
                       replicate (Z.to_nat capacity - 4 * length rs) 0) ∧
    (Z.of_nat (length rs) = 16384 → profile [r] s' = Fault OutOfBounds).
Proof.
  intros Hwf Hrs Hr Hb Hp Hmax.
  destruct (profile_fresh rs s) as (m & tr & Heq); try done.
  do 2 eexists. split; [exact Heq|]. cbn [mem_buf mem_buf_ptr set_buf].
  split_and!; [change capacity with 65536; lia|done|]. intros Hn. destruct r as [m' k'].
  unfold profile. cbn [for_each]. apply bind_fault. run.
  erewrite work_full; [done|done|exact Hr|reflexivity|].
  rewrite length_app, profiled_length, length_replicate. cbn. change capacity with 65536. lia.
Qed.
End system.
