(* ===== verification/Mp3Device.v ===== *)
(** * MP3: requests, the device mapping and unloading

    What one unregistration does, the window between its two halves, the pages
    a mapping shows, and what unloading leaves behind. *)
From Stdlib Require Import Ascii String.
From stdpp Require Import prelude gmap.
From S2P Require Import Prelude CInt CText Kernel Mp3 Mp3Facts Mp3System.
Open Scope Z_scope.

(** ** The mapping loop *)

(** The [remap_pfn_range] calls for [n] pages from byte offset [pos]. *)
Definition remaps (pfn_of : Z → Z) (start pos : Z) (n : nat) : list kcall :=
  (λ i, Kremap_pfn_range (start + PAGE_SIZE * Z.of_nat i) (pfn_of (pos + PAGE_SIZE * Z.of_nat i))
          PAGE_SIZE) <$> seq 0 n.

Lemma remaps_S pfn_of start pos n :
  remaps pfn_of start pos (S n) =
  Kremap_pfn_range start (pfn_of pos) PAGE_SIZE ::
    remaps pfn_of (start + PAGE_SIZE) (pos + PAGE_SIZE) n.
Proof.
  unfold remaps. cbn [seq fmap list_fmap]. rewrite <-fmap_S_seq, <-list_fmap_compose.
  f_equal; [f_equal; [lia|f_equal; lia]|].
  apply list_fmap_ext. intros _ i _. cbn. f_equal; [lia|f_equal; lia].
Qed.

Section device.
Context {KL : KList} {KLL : KListLaws KL}.
Context (pfn_of : Z → Z) (remap : Z → Z → Z).
Implicit Types s : state.

(** The result of remapping the [i]-th page of a mapping. *)
Definition remap_at (start pos : Z) (i : nat) : Z :=
  remap (start + PAGE_SIZE * Z.of_nat i) (pfn_of (pos + PAGE_SIZE * Z.of_nat i)).

Lemma remap_at_S start pos i :
  remap_at (start + PAGE_SIZE) (pos + PAGE_SIZE) i = remap_at start pos (S i).
Proof. unfold remap_at. f_equal; [lia|f_equal; lia]. Qed.

Lemma map_pages_ok n fuel start pos s :
  (n < fuel)%nat → 0 ≤ start → start + PAGE_SIZE * Z.of_nat n < 2 ^ 64 →
  (∀ i, (i < n)%nat → remap_at start pos i = 0) →
  map_pages pfn_of remap fuel start pos (PAGE_SIZE * Z.of_nat n) s =
    Ok (Some 0, s, remaps pfn_of start pos n).
Proof.
  unfold PAGE_SIZE. revert fuel start pos. induction n as [|n IH]; intros [|fuel] start pos Hf H0 Hm Hr;
    try lia; cbn [map_pages].
  { by rewrite decide_False by lia. }
  rewrite decide_True by lia. pose proof (Hr 0%nat ltac:(lia)) as Hr0.
  unfold remap_at, PAGE_SIZE in Hr0. rewrite Z.mul_0_r, !Z.add_0_r in Hr0.
  rewrite remaps_S. unfold PAGE_SIZE. run. rewrite Hr0, decide_True by done.
  rewrite (uint64_small (start + 4096)) by (red; lia).
  replace (4096 * Z.of_nat (S n) - 4096) with (4096 * Z.of_nat n) by lia.
  rewrite uint64_small by (red; lia).
  rewrite IH; [done|lia|lia|lia|]. intros i Hi. rewrite remap_at_S. apply Hr. lia.
Qed.

Lemma map_pages_fail n m fuel start pos s :
  (n < m)%nat → (m < fuel)%nat → 0 ≤ start → start + PAGE_SIZE * Z.of_nat m < 2 ^ 64 →
  (∀ i, (i < n)%nat → remap_at start pos i = 0) → remap_at start pos n ≠ 0 →
  map_pages pfn_of remap fuel start pos (PAGE_SIZE * Z.of_nat m) s =
    Ok (Some (- EAGAIN), s, remaps pfn_of start pos (S n)).
Proof.
  unfold PAGE_SIZE. revert m fuel start pos.
  induction n as [|n IH]; intros [|m] [|fuel] start pos Hn Hf H0 Hm Hr Hfail; try lia;
    cbn [map_pages]; rewrite decide_True by lia; rewrite remaps_S; unfold PAGE_SIZE.
  - unfold remap_at, PAGE_SIZE in Hfail. rewrite Z.mul_0_r, !Z.add_0_r in Hfail. run.
    by rewrite decide_False.
  - pose proof (Hr 0%nat ltac:(lia)) as Hr0.
    unfold remap_at, PAGE_SIZE in Hr0. rewrite Z.mul_0_r, !Z.add_0_r in Hr0.
    run. rewrite Hr0, decide_True by done.
    rewrite (uint64_small (start + 4096)) by (red; lia).
    replace (4096 * Z.of_nat (S m) - 4096) with (4096 * Z.of_nat m) by lia.
    rewrite uint64_small by (red; lia).
    rewrite IH; [done|lia|lia|lia|lia| |by rewrite remap_at_S].
    intros i Hi. rewrite remap_at_S. apply Hr. lia.
Qed.
End device.

Section properties.
Context {KL : KList} {KLL : KListLaws KL}.
Implicit Types s : state.

Lemma frees_finish empty a t : frees (t ++ finish_trace empty a) = frees t ++ [a].
Proof. rewrite frees_app. by destruct empty. Qed.

(** ** Properties *)

(** Unregistering a pid removes and frees the first object with that pid
    and no other, and cancels the sampler exactly when it was the last one; a
    pid that is not registered makes the handler dereference NULL with the
    module lock held. *)
Theorem unregistration_spec k buf p s :
  wf s → scan_pid k buf = Ok p →
  (∃ a s' t, first_with (λ n, pid n = p) (tasks s) (entries s) a ∧
     unregistration k buf s = Ok (tt, s', t) ∧ wf s' ∧ frees t = [a] ∧
     entries s' = filter (.≠ a) (entries s) ∧ tasks s' = delete a (tasks s) ∧
     (Kcancel_delayed_work ∈ t ↔ entries s' = [])) ∨
  ((∀ a n, a ∈ entries s → tasks s !! a = Some n → pid n ≠ p) ∧
   unregistration k buf s = Fault NullDeref).
Proof.
  intros Hwf Hp.
  destruct (unregistration_eq k buf p s Hwf Hp) as [(a & Hf & Heq)|?]; [left|by right].
  destruct (first_with_elem _ _ _ _ Hf) as [Ha _].
  do 3 eexists. split; [done|]. split; [exact Heq|]. split; [by apply mp3_removed_wf|].
  split; [by rewrite frees_finish|]. split; [exact (unlisted_entries a s Hwf Ha)|]. split; [done|].
  change (list_empty (list_del a (head s))) with (list_empty (head (unlisted a s))).
  change (entries (removed a s)) with (entries (unlisted a s)).
  rewrite empty_eq. case_bool_decide as He; cbn; rewrite ?elem_of_cons, ?elem_of_nil.
  - naive_solver.
  - split; [|done]. intros H. repeat destruct H as [H|H]; done.
Qed.

(** The last process of the list is unregistered. *)
Lemma remove_last k buf p a s :
  wf s → scan_pid k buf = Ok p → entries s = [a] →
  first_with (λ n, pid n = p) (tasks s) (entries s) a →
  ∃ t1 t2, unregistration_remove k buf s = Ok (a, unlisted a s, t1) ∧
    read_empty (unlisted a s) = Ok (true, unlisted a s, t2) ∧
    entries (unlisted a s) = [] ∧ (∀ q, fold_left work_effect (t1 ++ t2) q = q).
Proof.
  intros Hwf Hp Hes Hf.
  destruct (remove_eq k buf p s Hwf Hp) as [(b & Hb & Heq)|[Hno _]].
  2: { destruct (first_with_elem _ _ _ _ Hf) as (Ha & n & Hn & Hpn). exfalso. by eapply Hno. }
  assert (b = a) as -> by (by eapply first_with_unique).
  assert (He : entries (unlisted a s) = []).
  { rewrite unlisted_entries by (rewrite ?Hes; first [done|by left]). rewrite Hes.
    by rewrite filter_cons_False by (by intros []). }
  eexists _, [Klist_empty]. split; [exact Heq|]. split; [|by split].
  unfold read_empty. run. rewrite empty_eq. by rewrite bool_decide_true.
Qed.

(** C39: Unregistration acts on its unlocked test of the list.  When another
    process registers between the test and its consequence, the registration
    schedules the sampler and the unregistration cancels it: the list is not
    empty while no sample is scheduled.  And when a sample is running, the
    unregistration finds no work item to cancel and the sample then schedules
    the next one: with an empty list, samples go on. *)
Theorem unregistration_races k1 buf1 p a1 s :
  wf s → scan_pid k1 buf1 = Ok p → entries s = [a1] →
  first_with (λ n, pid n = p) (tasks s) (entries s) a1 →
  (∀ k2 buf2 str2 a2, new_object k2 = Some a2 → tasks s !! a2 = None →
     c_str (drop 2 buf2) = Ok str2 →
     ∃ s1 t1 t2 s3 t3 s4 t4,
       unregistration_remove k1 buf1 s = Ok (a1, s1, t1) ∧
       read_empty s1 = Ok (true, s1, t2) ∧
       registration k2 buf2 s1 = Ok (tt, s3, t3) ∧
       unregistration_finish true a1 s3 = Ok (tt, s4, t4) ∧
       entries s4 = [a2] ∧ pending (after s4 true (t1 ++ t2 ++ t3 ++ t4)) = false) ∧
  (∀ jiffies_to_msecs cputime_to_jiffies k b, answers_ok k s → mem_buf s = Live b →
     Z.of_nat (length b) = capacity → 0 ≤ mem_buf_ptr s → mem_buf_ptr s + 4 ≤ capacity →
     ∃ s1 t1 s2 t2 t3 t4 t5 s6 t6,
       work_sample jiffies_to_msecs cputime_to_jiffies k s = Ok (tt, s1, t1) ∧
       unregistration_remove k1 buf1 s1 = Ok (a1, s2, t2) ∧
       read_empty s2 = Ok (true, s2, t3) ∧
       unregistration_cancel true s2 = Ok (tt, s2, t4) ∧
       requeue s2 = Ok (tt, s2, t5) ∧
       unregistration_free true a1 s2 = Ok (tt, s6, t6) ∧
       entries s6 = [] ∧ pending (after s6 false (t1 ++ t2 ++ t3 ++ t4 ++ t5 ++ t6)) = true).
Proof.
  intros Hwf Hp Hes Hf. split.
  - intros k2 buf2 str2 a2 Ha2 Hfresh Hstr.
    destruct (remove_last k1 buf1 p a1 s Hwf Hp Hes Hf) as (t1 & t2 & Heq & Hem & He & Ht).
    do 7 eexists. split; [exact Heq|]. split; [exact Hem|].
    split; [by apply mp3_registration_eq|]. split; [by apply finish_eq|].
    assert (Hlem : list_empty (head (unlisted a1 s)) = true).
    { rewrite empty_eq. by apply bool_decide_true. }
    rewrite Hlem. split.
    + unfold entries in *. cbn [free_task head listed set_head put_task].
      rewrite entries_add; rewrite He; [done|apply not_elem_of_nil].
    + unfold after. by rewrite app_assoc, fold_left_app, Ht.
  - intros j2m c2j k b Hk Hb Hlen H0 Hmax. change capacity with 65536 in *.
    pose proof (work_sample_ok j2m c2j k b s Hwf Hk Hb H0 ltac:(lia) ltac:(unfold INT_MAX; lia)) as Hw.
    destruct (remove_last k1 buf1 p a1 (sampled j2m c2j k b s) Hwf Hp Hes Hf)
      as (t2 & t3 & Heq & Hem & He & Ht).
    do 9 eexists. split; [exact Hw|]. split; [exact Heq|]. split; [exact Hem|].
    split; [reflexivity|]. split; [reflexivity|]. split; [reflexivity|]. split; [exact He|].
    unfold after. rewrite !fold_left_app. cbn [pending]. done.
Qed.

(** C29: Mapping [n] pages of the device with [n] at most 128 maps exactly the
    first [n] pages of the buffer, in order, and returns 0; the first page that
    cannot be remapped stops the loop with -EAGAIN; more than 128 pages are
    refused with -EINVAL before anything is mapped. *)
Theorem dev_mmap_spec pfn_of remap vm_start n s :
  0 ≤ vm_start → vm_start + PAGE_SIZE * Z.of_nat n < 2 ^ 64 →
  let result := dev_mmap pfn_of remap vm_start (vm_start + PAGE_SIZE * Z.of_nat n) s in
  ((n ≤ 128)%nat → (∀ i, (i < n)%nat → remap_at pfn_of remap vm_start 0 i = 0) →
     result = Ok (Some 0, s, remaps pfn_of vm_start 0 n)) ∧
  (∀ i, (n ≤ 128)%nat → (i < n)%nat →
     (∀ j, (j < i)%nat → remap_at pfn_of remap vm_start 0 j = 0) →
     remap_at pfn_of remap vm_start 0 i ≠ 0 →
     result = Ok (Some (- EAGAIN), s, remaps pfn_of vm_start 0 (S i))) ∧
  ((128 < n)%nat → result = Ok (Some (- EINVAL), s, [])).
Proof.
  clear KLL. intros H0 Hm result. unfold result, dev_mmap.
  replace (vm_start + PAGE_SIZE * Z.of_nat n - vm_start) with (PAGE_SIZE * Z.of_nat n) by lia.
  rewrite uint64_small by (red; unfold PAGE_SIZE in *; lia).
  unfold PAGE_NUM. split; [|split].
  - intros Hn Hr. rewrite decide_False by (unfold PAGE_SIZE; lia). by apply map_pages_ok; first [lia|auto].
  - intros i Hn Hi Hr Hfail. rewrite decide_False by (unfold PAGE_SIZE; lia).
    by apply map_pages_fail; first [lia|auto].
  - intros Hn. by rewrite decide_True by (unfold PAGE_SIZE; lia).
Qed.
End properties.

(** ** Concrete instances *)

(** Processes 71 (faulting) and 72 are registered. *)
Definition ex_procs : gmap addr task_struct :=
  {[ 11%positive := Counters 5 1 30 12; 12%positive := Counters 2 0 8 0 ]}.
Definition ex_answers (new : option addr) (j : Z) : answers :=
  Answers new (MpTask None 0 0 0 (-1)) 0 j
    (λ nr, if decide (nr = 71) then Some 11%positive
           else if decide (nr = 72) then Some 12%positive else None).
Definition ex_task (t : addr) (p : Z) : mp_task_struct := MpTask (Some t) 0 0 0 p.
Definition ex_listed (es : list addr) : @state seq_klist :=
  @State seq_klist {[ 1%positive := ex_task 11 71; 2%positive := ex_task 12 72 ]} es ex_procs
    (Live (replicate (Z.to_nat capacity) 0)) 0 13.
Definition ex_unreg_buf : text := lit "U 71" ++ [NL; NUL].
Definition ex_reg_buf : text := lit "R 71" ++ [NL; NUL].

Lemma ex_listed_wf : wf (ex_listed [2%positive; 1%positive]).
Proof. by apply list_wfb_ok. Qed.
Lemma ex_single_wf : wf (ex_listed [1%positive]).
Proof. by apply list_wfb_ok. Qed.

Lemma ex_answers_ok new j es : answers_ok (ex_answers new j) (ex_listed es).
Proof.
  intros nr t. unfold ex_answers; cbn. repeat case_decide; [| |done]; intros [= <-]; by eexists.
Qed.

Lemma sample_conserves_witness :
  let s := ex_listed [2%positive; 1%positive] in let k := ex_answers None 100 in
  let due := taken (processes k s) (task_structs s) in
  ∃ s' t, mp_work_func id id k s = Ok (tt, s', t) ∧ disciplined t ∧ entries s' = entries s ∧
    mem_buf_ptr s' = mem_buf_ptr s + 4 ∧
    mem_buf s' = Live (list_inserts (Z.to_nat (mem_buf_ptr s))
      [jiffies k; uint64 (total min_flt due); uint64 (total maj_flt due);
       uint64 (uint64 (total cpu_time due))] (replicate (Z.to_nat capacity) 0)) ∧
    (∀ t, task_structs s' !! t =
       (λ c, if decide (Some t ∈ processes k s) then Counters 0 0 0 0 else c) <$>
       task_structs s !! t) ∧
    (∀ f, f (Counters 0 0 0 0) = 0 →
       total f due + total f (task_structs s') = total f (task_structs s)).
Proof.
  intros s k. apply (sample_conserves (KL := seq_klist) id id k
                       (replicate (Z.to_nat capacity) 0) s).
  - apply ex_listed_wf.
  - apply ex_answers_ok.
  - reflexivity.
  - rewrite length_replicate. apply Z2Nat.id. vm_compute. discriminate.
  - vm_compute. discriminate.
  - vm_compute. discriminate.
Defined.

Lemma ex_run_ok j es : run_ok (ex_listed es) (ex_procs, ex_answers None j).
Proof. exact (ex_answers_ok None j es). Qed.

Lemma buffer_log_overruns_witness :
  let s := ex_listed [1%positive] in
  let rs := replicate (Z.to_nat 16384) (ex_procs, ex_answers None 100) in
  ∃ s' tr, profile id id rs s = Ok (tt, s', tr) ∧ mem_buf_ptr s' ≤ capacity ∧
    mem_buf s' = Live (concat (profiled id id s rs) ++
                       replicate (Z.to_nat capacity - 4 * length rs) 0) ∧
    (Z.of_nat (length rs) = 16384 →
     profile id id [(ex_procs, ex_answers None 126)] s' = Fault OutOfBounds).
Proof.
  intros s rs.
  apply (buffer_log_overruns (KL := seq_klist) id id id rs (ex_procs, ex_answers None 126) s).
  - apply ex_single_wf.
  - unfold rs. apply Forall_replicate. apply ex_run_ok.
  - apply ex_run_ok.
  - reflexivity.
  - reflexivity.
  - unfold rs. rewrite length_replicate, Z2Nat.id; vm_compute; discriminate.
Defined.

Lemma unregistration_spec_witness :
  let s := ex_listed [2%positive; 1%positive] in let k := ex_answers None 100 in
  (∃ a s' t, first_with (λ n, pid n = 71) (tasks s) (entries s) a ∧
     unregistration k ex_unreg_buf s = Ok (tt, s', t) ∧ wf s' ∧ frees t = [a] ∧
     entries s' = filter (.≠ a) (entries s) ∧ tasks s' = delete a (tasks s) ∧
     (Kcancel_delayed_work ∈ t ↔ entries s' = [])) ∨
  ((∀ a n, a ∈ entries s → tasks s !! a = Some n → pid n ≠ 71) ∧
   unregistration k ex_unreg_buf s = Fault NullDeref).
Proof.
  intros s k. apply (unregistration_spec (KLL := seq_klist_laws) k ex_unreg_buf 71 s);
    [apply ex_listed_wf|reflexivity].
Defined.

Lemma ex_single_first :
  first_with (λ n, pid n = 71) (tasks (ex_listed [1%positive])) (entries (ex_listed [1%positive])) 1.
Proof.
  exists [], [], (ex_task 11 71). split; [reflexivity|]. split; [reflexivity|].
  split; [reflexivity|]. intros b m Hb. inversion Hb.
Qed.

Lemma unregistration_races_witness :
  let s := ex_listed [1%positive] in
  (∃ s1 t1 t2 s3 t3 s4 t4,
    unregistration_remove (ex_answers None 0) ex_unreg_buf s = Ok (1%positive, s1, t1) ∧
    read_empty s1 = Ok (true, s1, t2) ∧
    registration (ex_answers (Some 3%positive) 0) ex_reg_buf s1 = Ok (tt, s3, t3) ∧
    unregistration_finish true 1 s3 = Ok (tt, s4, t4) ∧
    entries s4 = [3%positive] ∧ pending (after s4 true (t1 ++ t2 ++ t3 ++ t4)) = false) ∧
  (∃ s1 t1 s2 t2 t3 t4 t5 s6 t6,
    work_sample id id (ex_answers None 100) s = Ok (tt, s1, t1) ∧
    unregistration_remove (ex_answers None 0) ex_unreg_buf s1 = Ok (1%positive, s2, t2) ∧
    read_empty s2 = Ok (true, s2, t3) ∧
    unregistration_cancel true s2 = Ok (tt, s2, t4) ∧
    requeue s2 = Ok (tt, s2, t5) ∧
    unregistration_free true 1 s2 = Ok (tt, s6, t6) ∧
    entries s6 = [] ∧ pending (after s6 false (t1 ++ t2 ++ t3 ++ t4 ++ t5 ++ t6)) = true).
Proof.
  intros s. destruct (unregistration_races (KLL := seq_klist_laws) (ex_answers None 0) ex_unreg_buf
    71 1 s) as [Hreg Hwork]; [apply ex_single_wf|reflexivity|reflexivity|apply ex_single_first|].
  split.
  - apply (Hreg _ _ (lit "71" ++ [NL])); reflexivity.
  - eapply Hwork; [apply ex_answers_ok|reflexivity| |discriminate|vm_compute; discriminate].
    rewrite length_replicate. apply Z2Nat.id. vm_compute. discriminate.
Defined.

Lemma dev_mmap_spec_witness :
  let s := ex_listed [] in
  let result := dev_mmap id (λ _ _, 0) 65536 (65536 + PAGE_SIZE * Z.of_nat 2) s in
  ((2 ≤ 128)%nat → (∀ i, (i < 2)%nat → remap_at id (λ _ _, 0) 65536 0 i = 0) →
     result = Ok (Some 0, s, remaps id 65536 0 2)) ∧
  (∀ i, (2 ≤ 128)%nat → (i < 2)%nat →
     (∀ j, (j < i)%nat → remap_at id (λ _ _, 0) 65536 0 j = 0) →
     remap_at id (λ _ _, 0) 65536 0 i ≠ 0 →
     result = Ok (Some (- EAGAIN), s, remaps id 65536 0 (S i))) ∧
  ((128 < 2)%nat → result = Ok (Some (- EINVAL), s, [])).
Proof.
  intros s. apply (dev_mmap_spec (KL := seq_klist) id (λ _ _, 0) 65536 2 s).
  - vm_compute. discriminate.
  - vm_compute. reflexivity.
Defined.
