(* ===== verification/Mp3Interleave.v ===== *)
(** * MP3: requests and samples that interrupt each other

    The profiler with every request and every sample cut where another can come
    in between: a registration between its unlocked test and its critical
    section, an unregistration around its unlocked test of the list, a sample
    between its two critical sections and before it queues the next one. *)
From Stdlib Require Import Ascii String.
From stdpp Require Import prelude gmap.
From S2P Require Import Prelude CInt CText Kernel Mp3 Mp3Facts Mp3System Mp3Device.
Open Scope Z_scope.

Section interleave.
Context {KL : KList} {KLL : KListLaws KL}.
Context (msecs_to_jiffies jiffies_to_msecs cputime_to_jiffies : Z → Z).
Implicit Types s : state.

(** What has begun and not ended: a registration with its test of the list and
    its object; an unregistration that has unlinked its object, tested the list
    and cancelled the work item; a sample that has added up the counters, and one
    that has written its record. *)
Inductive op : Type :=
  | Prepared (empty_flag : bool) (new_task : addr)
  | Unlinked (task_to_remove : addr)
  | Looked (empty : bool) (task_to_remove : addr)
  | Cancelled (empty : bool) (task_to_remove : addr)
  | Summed (u : sums)
  | Written.

Definition sampling (o : op) : bool :=
  match o with Summed _ | Written => true | _ => false end.

Record machine : Type := Machine { now : sys; under_way : list op }.

Definition start (procs : gmap addr task_struct) : machine :=
  Machine (loaded msecs_to_jiffies procs) [].

Abbreviation record := (record jiffies_to_msecs cputime_to_jiffies).
Abbreviation work_write := (work_write jiffies_to_msecs cputime_to_jiffies).

(** One uninterrupted stretch.  [flush_workqueue] waits for the samples that are
    running. *)
Inductive step : machine → machine → Prop :=
  | step_processes s q m l :
      step (Machine (Sys s q) l) (Machine (Sys (set_structs m s) q) l)
  | step_mapping s q b b' l :
      mem_buf s = Live b → length b' = length b →
      step (Machine (Sys s q) l) (Machine (Sys (set_buf (Live b') (mem_buf_ptr s) s) q) l)
  | step_prepare k buf r s s' q t l :
      fresh_object k s → registration_prepare k buf s = Ok (r, s', t) →
      step (Machine (Sys s q) l) (Machine (after s' q t) (Prepared r.1 r.2 :: l))
  | step_insert e a s s' q t l1 l2 :
      registration_insert e a s = Ok (tt, s', t) →
      step (Machine (Sys s q) (l1 ++ Prepared e a :: l2)) (Machine (after s' q t) (l1 ++ l2))
  | step_unlink k buf a s s' q t l :
      unregistration_remove k buf s = Ok (a, s', t) →
      step (Machine (Sys s q) l) (Machine (after s' q t) (Unlinked a :: l))
  | step_look e a s s' q t l1 l2 :
      read_empty s = Ok (e, s', t) →
      step (Machine (Sys s q) (l1 ++ Unlinked a :: l2)) (Machine (after s' q t) (l1 ++ Looked e a :: l2))
  | step_cancel e a s s' q t l1 l2 :
      unregistration_cancel e s = Ok (tt, s', t) →
      step (Machine (Sys s q) (l1 ++ Looked e a :: l2))
           (Machine (after s' q t) (l1 ++ Cancelled e a :: l2))
  | step_free e a s s' q t l1 l2 :
      (e = true → Forall (λ o, sampling o = false) (l1 ++ l2)) →
      unregistration_free e a s = Ok (tt, s', t) →
      step (Machine (Sys s q) (l1 ++ Cancelled e a :: l2)) (Machine (after s' q t) (l1 ++ l2))
  | step_sum k u s s' t l :
      answers_ok k s → work_sum k s = Ok (u, s', t) →
      step (Machine (Sys s true) l) (Machine (after s' false t) (Summed u :: l))
  | step_record k u s s' q t l1 l2 :
      work_write k u s = Ok (tt, s', t) →
      step (Machine (Sys s q) (l1 ++ Summed u :: l2)) (Machine (after s' q t) (l1 ++ Written :: l2))
  | step_requeue s s' q t l1 l2 :
      requeue s = Ok (tt, s', t) →
      step (Machine (Sys s q) (l1 ++ Written :: l2)) (Machine (after s' q t) (l1 ++ l2)).

(** ** The objects of the requests under way *)

Definition owned (l : list op) : list addr :=
  omap (λ o, match o with
             | Prepared _ a | Unlinked a | Looked _ a | Cancelled _ a => Some a
             | _ => None
             end) l.

Lemma owned_app l1 l2 : owned (l1 ++ l2) = owned l1 ++ owned l2.
Proof. apply omap_app. Qed.

(** The listed objects and those owned by requests are distinct and live. *)
Record safe (y : machine) : Prop := {
  safe_objects :
    list_wf (entries (module_state (now y)) ++ owned (under_way y)) (tasks (module_state (now y)));
  safe_buf : ∃ b, mem_buf (module_state (now y)) = Live b ∧ Z.of_nat (length b) = capacity;
  safe_ptr : ∃ n, mem_buf_ptr (module_state (now y)) = 4 * n ∧ 0 ≤ n ≤ capacity / 4;
}.

Lemma safe_wf y : safe y → wf (module_state (now y)).
Proof.
  intros [[Hnd Hlive] _ _]. split; [by apply NoDup_app in Hnd as [? _]|].
  intros a Ha. apply Hlive, elem_of_app. by left.
Qed.

(** What a stretch has to keep. *)
Lemma safe_same s s' q q' l l' :
  mem_buf s' = mem_buf s → mem_buf_ptr s' = mem_buf_ptr s →
  list_wf (entries s' ++ owned l') (tasks s') →
  safe (Machine (Sys s q) l) → safe (Machine (Sys s' q') l').
Proof.
  intros Hb Hp Hl [_ Hbuf Hptr]. split; cbn [now under_way module_state] in *; [done|..].
  - by rewrite Hb.
  - by rewrite Hp.
Qed.

Lemma list_wf_perm {A} (l l' : list addr) (h : gmap addr A) :
  l ≡ₚ l' → list_wf l h → list_wf l' h.
Proof. intros Hp [Hnd Hlive]. split; [by rewrite <-Hp|]. intros a. rewrite <-Hp. apply Hlive. Qed.

Lemma prepare_inv k buf r s s' t :
  registration_prepare k buf s = Ok (r, s', t) →
  ∃ n, new_object k = Some r.2 ∧ s' = put_task r.2 n s ∧ t = [Klist_empty].
Proof.
  unfold registration_prepare. destruct (new_object k) as [a|]; run; [|done].
  destruct (c_str (drop 2 buf)); run; [|done]. intros [= <- <- <-]. by eexists.
Qed.

Lemma unlink_inv k buf a s s' t :
  wf s → unregistration_remove k buf s = Ok (a, s', t) → a ∈ entries s ∧ s' = unlisted a s.
Proof.
  intros Hwf Heq. destruct (scan_pid k buf) as [p|f] eqn:Hp.
  2: { unfold scan_pid in Hp. destruct (c_str (drop 2 buf)) eqn:Hstr; [done|].
       revert Heq. unfold unregistration_remove. run. done. }
  destruct (remove_eq k buf p s Hwf Hp) as [(b & Hf & Heq')|[_ Heq']]; rewrite Heq' in Heq; [|done].
  injection Heq as <- <- _. split; [apply (first_with_elem _ _ _ _ Hf)|done].
Qed.

Lemma insert_inv e a s s' t :
  registration_insert e a s = Ok (tt, s', t) → s' = set_head (list_add a (head s)) s.
Proof. unfold registration_insert. destruct e; run; by intros [= <- _]. Qed.

(** ** Safety of every stretch *)

Lemma prepare_safe k buf r s s' q q' t l :
  fresh_object k s → registration_prepare k buf s = Ok (r, s', t) →
  safe (Machine (Sys s q) l) → safe (Machine (Sys s' q') (Prepared r.1 r.2 :: l)).
Proof.
  intros Hfresh Heq Hs. destruct (prepare_inv _ _ _ _ _ _ Heq) as (n & Ha & -> & _).
  specialize (Hfresh _ Ha). revert Hs. intros Hs. pose proof (safe_objects _ Hs) as Hl.
  cbn [now under_way module_state] in Hl.
  revert Hs. apply safe_same; [done|done|]. cbn [owned omap list_omap entries put_task tasks].
  apply (list_wf_perm (r.2 :: entries s ++ owned l)); [apply Permutation_middle|].
  apply list_wf_cons; [done|]. intros Hin. destruct (list_wf_lookup _ _ _ Hl Hin). congruence.
Qed.

Lemma insert_safe e a s s' q q' t l1 l2 :
  registration_insert e a s = Ok (tt, s', t) →
  safe (Machine (Sys s q) (l1 ++ Prepared e a :: l2)) → safe (Machine (Sys s' q') (l1 ++ l2)).
Proof.
  intros ->%insert_inv Hs. pose proof (safe_objects _ Hs) as Hl. revert Hs.
  cbn [now under_way module_state] in Hl. rewrite owned_app in Hl. cbn in Hl.
  fold (owned l2) in Hl.
  assert (Ha : a ∉ entries s).
  { destruct Hl as [Hnd _]. apply NoDup_app in Hnd as (_ & Hd & _). intros Hin.
    apply (Hd a Hin). apply elem_of_middle. }
  apply safe_same; [done|done|]. cbn [tasks set_head].
  assert (Hes : entries (set_head (list_add a (head s)) s) = a :: entries s) by (by apply entries_add).
  rewrite Hes. revert Hl. apply list_wf_perm.
  rewrite owned_app. cbn [app]. rewrite !(assoc_L (++)). by rewrite <-Permutation_middle.
Qed.

Lemma unlink_safe k buf a s s' q q' t l :
  unregistration_remove k buf s = Ok (a, s', t) →
  safe (Machine (Sys s q) l) → safe (Machine (Sys s' q') (Unlinked a :: l)).
Proof.
  intros Heq Hs. pose proof (safe_wf _ Hs) as Hwf. pose proof (safe_objects _ Hs) as Hl.
  cbn [now under_way module_state] in Hwf, Hl. revert Hs.
  destruct (unlink_inv _ _ _ _ _ _ Hwf Heq) as [Ha ->].
  apply safe_same; [done|done|]. cbn [tasks unlisted set_head owned omap list_omap].
  rewrite unlisted_entries by done. revert Hl. apply list_wf_perm.
  pose proof (proj1 Hwf) as Hnd.
  apply list_elem_of_split in Ha as (m1 & m2 & Hes). rewrite Hes in *.
  rewrite filter_ne_middle by done. fold (owned l). by rewrite <-!Permutation_middle.
Qed.

Lemma free_safe e a s s' q q' t l1 l2 :
  unregistration_free e a s = Ok (tt, s', t) →
  safe (Machine (Sys s q) (l1 ++ Cancelled e a :: l2)) → safe (Machine (Sys s' q') (l1 ++ l2)).
Proof.
  intros Heq Hs. assert (s' = free_task a s) as ->.
  { revert Heq. unfold unregistration_free. destruct e; run; by intros [= <- _]. }
  pose proof (safe_objects _ Hs) as Hl. revert Hs.
  cbn [now under_way module_state] in Hl. rewrite owned_app in Hl. cbn in Hl. fold (owned l2) in Hl.
  apply safe_same; [done|done|]. cbn [tasks free_task]. rewrite owned_app.
  destruct Hl as [Hnd Hlive]. rewrite (assoc_L (++)) in Hnd, Hlive.
  apply NoDup_middle in Hnd as [Ha Hnd].
  rewrite (assoc_L (++)). split; [done|]. intros b Hb. rewrite lookup_delete_ne by (by intros ->).
  apply Hlive. set_solver.
Qed.

Lemma record_safe k u s s' q q' t l1 l2 :
  work_write k u s = Ok (tt, s', t) →
  safe (Machine (Sys s q) (l1 ++ Summed u :: l2)) →
  safe (Machine (Sys s' q') (l1 ++ Written :: l2)).
Proof.
  intros Heq [Hl (b & Hb & Hlen) (n & Hptr & Hn)]. cbn [now under_way module_state] in *.
  change (capacity / 4) with 16384 in *. change capacity with 65536 in *.
  destruct (decide (n = 16384)) as [->|Hne].
  { by rewrite (work_write_full _ _ k u b) in Heq by (done || lia). }
  rewrite (work_write_ok _ _ k u b) in Heq by (done || unfold INT_MAX; lia).
  injection Heq as <- _. split; cbn [now under_way module_state].
  - rewrite owned_app in *. exact Hl.
  - eexists. split; [reflexivity|]. by rewrite !length_insert.
  - exists (n + 1). change (capacity / 4) with 16384. cbn. lia.
Qed.

Lemma look_pure e s s' t : read_empty s = Ok (e, s', t) → s' = s.
Proof. unfold read_empty. run. by intros [= _ <- _]. Qed.

Lemma cancel_pure e s s' t : unregistration_cancel e s = Ok (tt, s', t) → s' = s.
Proof. destruct e; by intros [= <- _]. Qed.

Lemma step_safe y y' : safe y → step y y' → safe y'.
Proof.
  intros Hs Hstep. destruct Hstep.
  - revert Hs. by intros [? ? ?].
  - destruct Hs as [Hl (b0 & Hb0 & Hlen) Hptr]. split; cbn [now module_state] in *; try done.
    exists b'. split; [done|]. congruence.
  - by eapply prepare_safe.
  - by eapply insert_safe.
  - by eapply unlink_safe.
  - rename select (read_empty _ = _) into Heq. apply look_pure in Heq as ->.
    pose proof (safe_objects _ Hs) as Hl. revert Hs. apply safe_same; [done|done|].
    cbn [now under_way module_state] in Hl. rewrite owned_app in Hl |- *. exact Hl.
  - rename select (unregistration_cancel _ _ = _) into Heq. apply cancel_pure in Heq as ->.
    pose proof (safe_objects _ Hs) as Hl. revert Hs. apply safe_same; [done|done|].
    cbn [now under_way module_state] in Hl. rewrite owned_app in Hl |- *. exact Hl.
  - by eapply free_safe.
  - rename select (work_sum _ _ = _) into Heq. pose proof (safe_wf _ Hs) as Hwf.
    rewrite work_sum_ok in Heq by done. injection Heq as <- <- _. revert Hs. by intros [? ? ?].
  - by eapply record_safe.
  - rename select (requeue _ = _) into Heq. injection Heq as <- _.
    pose proof (safe_objects _ Hs) as Hl. revert Hs. apply safe_same; [done|done|].
    cbn [now under_way module_state] in Hl. rewrite owned_app in Hl |- *. exact Hl.
Qed.

Lemma machine_safe procs y : rtc step (start procs) y → safe y.
Proof.
  apply (rtc_ind_r (λ y, safe y)).
  - destruct (initial_inv msecs_to_jiffies procs) as [Hwf Hb Hp _].
    unfold start. rewrite loaded_eq. split; cbn [now under_way]; [|done|done].
    by rewrite app_nil_r.
  - intros y1 y2 _ Hstep Hs. by eapply step_safe.
Qed.

(** ** Uninterrupted requests and samples are runs *)

Lemma after_after s s' q t1 t2 : after s (pending (after s' q t1)) t2 = after s q (t1 ++ t2).
Proof. unfold after. cbn [pending]. by rewrite fold_left_app. Qed.

Lemma insertion_runs k buf s s' q t l :
  fresh_object k s → registration k buf s = Ok (tt, s', t) →
  rtc step (Machine (Sys s q) l) (Machine (after s' q t) l).
Proof.
  intros Hfresh (r & s1 & t1 & t2 & Hp & Hi & ->)%bind_inv.
  eapply rtc_l; [by eapply step_prepare|].
  rewrite <-(after_after s' s1). apply rtc_once. by apply (step_insert _ _ _ _ _ _ [] l Hi).
Qed.

Lemma unregistration_runs k buf s s' q t :
  unregistration k buf s = Ok (tt, s', t) →
  rtc step (Machine (Sys s q) []) (Machine (after s' q t) []).
Proof.
  intros (a & s1 & t1 & t2 & Hu & (e & s2 & t3 & t4 & Hr & ([] & s3 & t5 & t6 & Hc & Hf & ->)%bind_inv
    & ->)%bind_inv & ->)%bind_inv.
  eapply rtc_l; [by eapply step_unlink|]. rewrite <-(after_after s' s1).
  eapply rtc_l; [by apply (step_look _ _ _ _ _ _ [] [] Hr)|]. rewrite <-(after_after s' s2).
  eapply rtc_l; [by apply (step_cancel _ _ _ _ _ _ [] [] Hc)|]. rewrite <-(after_after s' s3).
  apply rtc_once. by apply (step_free _ _ _ _ _ _ [] []).
Qed.

Lemma serial_runs x y :
  inv x → serial jiffies_to_msecs cputime_to_jiffies x y → rtc step (Machine x []) (Machine y []).
Proof.
  intros Hinv Hs. destruct Hs.
  - apply rtc_once, step_processes.
  - by eapply rtc_once, step_mapping.
  - rename select (mp_write _ _ _ = _) into Hw.
    destruct (mp3_write_cases _ _ _ _ _ _ Hw) as (t' & -> & [Hr|[Hu|[-> ->]]]); rewrite after_request.
    + by eapply insertion_runs.
    + by eapply unregistration_runs.
    + apply rtc_refl.
  - rename select (mp_work_func _ _ _ _ = _) into Hw.
    apply bind_inv in Hw as ([] & s1 & t1 & t2 & (u & s2 & t3 & t4 & Hsum & Hwr & ->)%bind_inv & Hq & ->).
    eapply rtc_l; [by eapply step_sum|]. rewrite <-app_assoc, <-(after_after s' s2).
    eapply rtc_l; [by apply (step_record _ _ _ _ _ _ [] [] Hwr)|]. rewrite <-(after_after s' s1).
    apply rtc_once. by apply (step_requeue _ _ _ _ [] [] Hq).
Qed.

(** ** Properties *)

(** C9: In every state reachable after loading, with processes running, the
    monitor writing to its mapping, and requests and samples that interrupt each
    other: the listed objects and those that requests under way hold are distinct
    and live, so that nothing is used after it is freed and nothing is freed
    twice; the buffer has its 65536 words; both critical sections of a sample run
    to their end, except that the second faults when the buffer is used up.
    Unloading from such a state empties the list and frees the buffer but none of
    the task objects: every process still registered leaks one.  When no request
    and no sample is interrupted, the sampler is scheduled exactly while some
    process is registered; such a run is one of those above. *)
Theorem profiler_reachable procs :
  (∀ s q l, rtc step (start procs) (Machine (Sys s q) l) →
    list_wf (entries s ++ owned l) (tasks s) ∧
    (∃ b, mem_buf s = Live b ∧ Z.of_nat (length b) = capacity) ∧
    (∀ k, answers_ok k s → ∃ u s' t, work_sum k s = Ok (u, s', t) ∧ disciplined t) ∧
    (∀ k u, (∃ s' t, work_write k u s = Ok (tt, s', t) ∧ disciplined t ∧
               mem_buf_ptr s' = mem_buf_ptr s + 4) ∨
            (mem_buf_ptr s = capacity ∧ work_write k u s = Fault OutOfBounds)) ∧
    ∃ s' t, mp_exit s = Ok (tt, s', t) ∧ entries s' = [] ∧ mem_buf s' = Freed ∧
      frees t = [] ∧ tasks s' = tasks s) ∧
  (∀ s q, rtc (serial jiffies_to_msecs cputime_to_jiffies) (loaded msecs_to_jiffies procs) (Sys s q) →
    (q = true ↔ entries s ≠ []) ∧ rtc step (start procs) (Machine (Sys s q) [])).
Proof.
  split.
  - intros s q l Hs%machine_safe. pose proof (safe_wf _ Hs) as Hwf. cbn [now module_state] in Hwf.
    destruct Hs as [Hl (b & Hb & Hlen) (n & Hptr & Hn)]. cbn [now under_way module_state] in *.
    change (capacity / 4) with 16384 in Hn. change capacity with 65536 in *. split_and!.
    + done.
    + by exists b.
    + intros k Hk. do 3 eexists. split; [by apply work_sum_ok|done].
    + intros k u. destruct (decide (n = 16384)) as [->|Hne]; [right|left].
      * split; [lia|]. apply (work_write_full _ _ k u b); [done|lia].
      * do 2 eexists. split; [by apply (work_write_ok _ _ k u b); unfold INT_MAX; try done; lia|]. done.
    + destruct (mp3_exit_ok s Hwf) as (s' & Heq & He & Ht & Hf).
      do 2 eexists. split; [exact Heq|]. split_and!; try done.
      by rewrite !frees_app, frees_unlinked.
  - intros s q Hr. split.
    + pose proof (serial_reachable_inv _ _ _ _ _ Hr) as Hinv.
      pose proof (inv_pending _ Hinv) as Hq. cbn [pending module_state] in Hq. rewrite Hq.
      by rewrite bool_decide_eq_true.
    + enough (∀ y, rtc (serial jiffies_to_msecs cputime_to_jiffies) (loaded msecs_to_jiffies procs) y →
        inv y ∧ rtc step (start procs) (Machine y [])) as H by apply (H _ Hr).
      apply rtc_ind_r.
      * split; [|apply rtc_refl]. rewrite loaded_eq. apply initial_inv.
      * intros y1 y2 _ Hstep [Hinv Hrun]. split; [by eapply serial_inv|].
        etrans; [exact Hrun|by apply serial_runs].
Qed.
End interleave.

(** ** Concrete instance *)

(** Process 71 is registered. *)
Definition ex_one : @state seq_klist := listed 1 (ex_task 11 71) (initial id ex_procs).

(** Its sample has added up the counters; another registration has prepared its
    object. *)
Definition ex_two : @state seq_klist :=
  put_task 3 (ex_task 11 71)
    (set_structs (reset [Some 11%positive] ex_procs) ex_one).

Lemma ex_new_process (a : addr) j (s : @state seq_klist) :
  tasks s !! a = None → fresh_object (ex_answers (Some a) j) s.
Proof. by intros Ha b [= <-]. Qed.

Lemma ex_one_runs : rtc (serial (KL := seq_klist) id id) (loaded id ex_procs) (Sys ex_one true).
Proof.
  apply rtc_once.
  apply (serial_write id id (initial id ex_procs) false (ex_answers (Some 1%positive) 0)
    (lit "R 71" ++ [NL]) 5 ex_one [Kkmalloc 6; Klist_empty; Kspin_lock; Klist_add 1;
      Kqueue_delayed_work 50; Kspin_unlock; Kkfree_buf]).
  - by apply ex_new_process.
  - reflexivity.
Qed.

Lemma ex_two_runs :
  rtc (step (KL := seq_klist) id id) (start id ex_procs)
    (Machine (Sys ex_two false) [Prepared false 3; Summed (Sums 5 1 42)]).
Proof.
  etrans.
  - apply (insertion_runs id id (ex_answers (Some 1%positive) 0)
      (lit "R 71" ++ [NL; NUL]) (initial id ex_procs) ex_one false
      [Klist_empty; Kspin_lock; Klist_add 1; Kqueue_delayed_work 50; Kspin_unlock] []).
    + by apply ex_new_process.
    + reflexivity.
  - eapply rtc_l; [|apply rtc_once].
    + apply (step_sum id id (ex_answers None 0) (Sums 5 1 42) ex_one
        (set_structs (reset [Some 11%positive] ex_procs) ex_one)
        [Kspin_lock; Klist_for_each; Kspin_unlock] []).
      * apply (ex_answers_ok None 0 []).
      * reflexivity.
    + apply (step_prepare id id (ex_answers (Some 3%positive) 0) (lit "R 71" ++ [NL; NUL])
        (false, 3%positive) (set_structs (reset [Some 11%positive] ex_procs) ex_one) ex_two false
        [Klist_empty]).
      * by apply ex_new_process.
      * reflexivity.
Qed.

Lemma profiler_reachable_witness :
  (list_wf [1%positive; 3%positive] (tasks ex_two) ∧
   (∃ s' t, work_write id id (ex_answers None 100) (Sums 5 1 42) ex_two = Ok (tt, s', t) ∧
      mem_buf_ptr s' = 4) ∧
   (∃ s' t, mp_exit ex_two = Ok (tt, s', t) ∧ entries s' = [] ∧ mem_buf s' = Freed ∧
      frees t = [] ∧ tasks s' = tasks ex_two)) ∧
  (true = true ↔ entries ex_one ≠ []).
Proof.
  destruct (profiler_reachable (KLL := seq_klist_laws) id id id ex_procs) as [Hall Hserial].
  split.
  - destruct (Hall ex_two _ _ ex_two_runs) as (Hl & _ & _ & Hw & He).
    split; [exact Hl|]. split; [|exact He].
    destruct (Hw (ex_answers None 100) (Sums 5 1 42)) as [(s' & t & Heq & _ & Hp)|[Hp _]];
      [|discriminate Hp].
    exists s', t. split; [exact Heq|exact Hp].
  - exact (proj1 (Hserial ex_one true ex_one_runs)).
Defined.
