(* ===== verification/Monitor.v ===== *)
(** * MP3: the monitor process (src/MP3/monitor.c)

    The monitor maps the profiler buffer and reads it as a ring of 48000
    words: it skips the words that hold -1, prints records of four words until
    it meets a -1 at the start of a record, and overwrites what it has read
    with -1.  The last part composes it with the module's samples. *)
From Stdlib Require Import Ascii String.
From stdpp Require Import prelude gmap.
From S2P Require Import Prelude CInt CText Kernel Mp3 Mp3Facts Mp3System Mp3Device.
Open Scope Z_scope.

Section ring.
(** The macro of this name; 48000 in the program. *)
Context (BUFD_MAX : nat).

(** [buf[index]]. *)
Definition word (buf : list Z) (index : nat) : outcome Z :=
  from_option_or OutOfBounds (buf !! index).

(** [for (index = start; index < BUFD_MAX; index++) if (buf[index] != -1) break;]
    with [n = BUFD_MAX - start]. *)
Fixpoint find_start (n : nat) (buf : list Z) (index : nat) : outcome nat :=
  match n with
  | O => Ok index
  | S n' =>
      w ← word buf index;
      if decide (w = -1) then find_start n' buf (S index) else Ok index
  end.

(** [printf (buf[index]); buf[index++] = -1; if (index >= BUFD_MAX) index = 0;] *)
Definition take_word (buf : list Z) (index : nat) : outcome (Z * list Z * nat) :=
  w ← word buf index;
  let index' := S index in
  Ok (w, <[index := -1]> buf, if decide (BUFD_MAX ≤ index')%nat then O else index').

(** The body of the loop: one printed line. *)
Definition take_record (buf : list Z) (index : nat) : outcome (list Z * list Z * nat) :=
  '(w1, buf, index) ← take_word buf index;
  '(w2, buf, index) ← take_word buf index;
  '(w3, buf, index) ← take_word buf index;
  '(w4, buf, index) ← take_word buf index;
  Ok ([w1; w2; w3; w4], buf, index).

(** The reading loop; [None] when the fuel runs out. *)
Fixpoint drain (fuel : nat) (buf : list Z) (index : nat) :
    outcome (option (list (list Z) * list Z)) :=
  match fuel with
  | O => Ok None
  | S fuel' =>
      w ← word buf index;
      if decide (w = -1) then Ok (Some ([], buf))
      else
        '(r, buf', index') ← take_record buf index;
        rest ← drain fuel' buf' index';
        Ok (match rest with
            | Some (rs, buf'') => Some (r :: rs, buf'')
            | None => None
            end)
  end.

(** [main] once the buffer is mapped: the printed records and the buffer it
    leaves behind. *)
Definition read_ring (buf : list Z) : outcome (option (list (list Z) * list Z)) :=
  index ← find_start BUFD_MAX buf 0;
  drain (S (length buf)) buf index.

(** ** Termination *)

(** The words that are still to be read. *)
Definition unread (buf : list Z) : nat := length (filter (.≠ -1) buf).

Lemma unread_clear buf i w :
  buf !! i = Some w →
  (unread (<[i := (-1)%Z]> buf) + (if decide (w = (-1)%Z) then 0 else 1) = unread buf)%nat.
Proof.
  intros Hi. unfold unread.
  rewrite insert_take_drop by (by eapply lookup_lt_Some).
  rewrite <-(take_drop_middle buf i w Hi) at 3.
  rewrite !filter_app, !length_app, filter_cons_False by naive_solver.
  rewrite filter_cons. repeat case_decide; try done; cbn [length]; lia.
Qed.

Lemma unread_max buf : (unread buf ≤ length buf)%nat.
Proof. apply length_filter. Qed.

(** A position of the ring. *)
Definition ring (buf : list Z) (index : nat) : Prop :=
  (BUFD_MAX < length buf)%nat ∧ (index ≤ BUFD_MAX)%nat.

Lemma word_ok buf index : ring buf index → ∃ w, word buf index = Ok w ∧ buf !! index = Some w.
Proof.
  intros [Hl Hi]. destruct (lookup_lt_is_Some_2 buf index) as [w Hw]; [lia|].
  exists w. unfold word. by rewrite Hw.
Qed.

Lemma take_word_ok buf index :
  ring buf index →
  ∃ w buf' index', take_word buf index = Ok (w, buf', index') ∧ buf !! index = Some w ∧
    ring buf' index' ∧ length buf' = length buf ∧
    (unread buf' + (if decide (w = (-1)%Z) then 0 else 1) = unread buf)%nat.
Proof.
  intros Hr. destruct (word_ok buf index Hr) as (w & Hw & Hl). destruct Hr as [Hlen Hi].
  exists w, (<[index := -1]> buf), (if decide (BUFD_MAX ≤ S index)%nat then O else S index).
  unfold take_word. rewrite Hw. cbn [mbind outcome_bind].
  split; [done|]. split; [done|]. split; [|split; [apply length_insert|by apply unread_clear]].
  unfold ring. rewrite length_insert. split; [done|]. case_decide; lia.
Qed.

Lemma take_record_ok buf index w :
  ring buf index → buf !! index = Some w → w ≠ -1 →
  ∃ r buf' index', take_record buf index = Ok (r, buf', index') ∧ ring buf' index' ∧
    length r = 4%nat ∧ length buf' = length buf ∧ (unread buf' < unread buf)%nat.
Proof.
  intros Hr Hw Hne.
  destruct (take_word_ok buf index Hr) as (w1 & b1 & i1 & H1 & Hw1 & Hr1 & Hl1 & Hu1).
  destruct (take_word_ok b1 i1 Hr1) as (w2 & b2 & i2 & H2 & _ & Hr2 & Hl2 & Hu2).
  destruct (take_word_ok b2 i2 Hr2) as (w3 & b3 & i3 & H3 & _ & Hr3 & Hl3 & Hu3).
  destruct (take_word_ok b3 i3 Hr3) as (w4 & b4 & i4 & H4 & _ & Hr4 & Hl4 & Hu4).
  exists [w1; w2; w3; w4], b4, i4. split; [unfold take_record; run; done|].
  split; [done|]. split; [done|]. split; [congruence|].
  rewrite decide_False in Hu1 by congruence. lia.
Qed.

Lemma drain_total fuel buf index :
  ring buf index → (unread buf < fuel)%nat →
  ∃ rs buf', drain fuel buf index = Ok (Some (rs, buf')) ∧ length buf' = length buf ∧
    (4 * length rs ≤ 4 * unread buf)%nat.
Proof.
  revert buf index. induction fuel as [|fuel IH]; intros buf index Hr Hf; [lia|].
  cbn [drain]. destruct (word_ok buf index Hr) as (w & Hw & Hl). rewrite Hw.
  cbn [mbind outcome_bind]. destruct (decide (w = -1)) as [->|Hne].
  { do 2 eexists. split; [done|]. split; [done|]. cbn. lia. }
  destruct (take_record_ok buf index w Hr Hl Hne) as (r & b & i & -> & Hr' & _ & Hlen & Hu).
  cbn [mbind outcome_bind]. destruct (IH b i Hr') as (rs & b' & -> & Hlen' & Hn); [lia|].
  cbn [mbind outcome_bind]. do 2 eexists. split; [done|]. split; [congruence|]. cbn [length]. lia.
Qed.

Lemma find_start_ok n buf index :
  (index + n ≤ length buf)%nat →
  ∃ i, find_start n buf index = Ok i ∧ (index ≤ i ≤ index + n)%nat.
Proof.
  revert index. induction n as [|n IH]; intros index Hlen; cbn [find_start].
  { exists index. split; [done|lia]. }
  destruct (lookup_lt_is_Some_2 buf index) as [w Hw]; [lia|].
  unfold word. rewrite Hw. cbn [from_option_or mbind outcome_bind]. case_decide.
  - destruct (IH (S index)) as (i & -> & Hi); [lia|]. exists i. split; [done|lia].
  - exists index. split; [done|lia].
Qed.

(** ** What is read *)

(** The index after position [k]. *)
Definition wrap_index (k : nat) : nat := if decide (BUFD_MAX ≤ k)%nat then O else k.

(** A buffer whose first [k] words are cleared. *)
Definition cleared (k : nat) (q : list Z) : list Z := replicate k (-1) ++ q.

Lemma word_cleared k w q : word (cleared k (w :: q)) k = Ok w.
Proof. unfold word, cleared. by rewrite list_lookup_middle by (by rewrite length_replicate). Qed.

Lemma take_word_at k w q :
  take_word (cleared k (w :: q)) k = Ok (w, cleared (S k) q, wrap_index (S k)).
Proof.
  assert (Hi : <[k := -1]> (cleared k (w :: q)) = cleared (S k) q).
  { unfold cleared. rewrite replicate_S_end, <-app_assoc. cbn [app].
    rewrite insert_app_r_alt by (by rewrite length_replicate).
    by rewrite length_replicate, Nat.sub_diag. }
  unfold take_word, wrap_index. by rewrite word_cleared, Hi.
Qed.

Lemma wrap_index_small k : (k < BUFD_MAX)%nat → wrap_index k = k.
Proof. intros. unfold wrap_index. by rewrite decide_False by lia. Qed.

Lemma take_record_at k w1 w2 w3 w4 q :
  (k + 4 ≤ BUFD_MAX)%nat →
  take_record (cleared k (w1 :: w2 :: w3 :: w4 :: q)) k =
  Ok ([w1; w2; w3; w4], cleared (k + 4) q, wrap_index (k + 4)).
Proof.
  intros Hk. unfold take_record.
  rewrite take_word_at. cbn [mbind outcome_bind]. rewrite wrap_index_small by lia.
  rewrite take_word_at. cbn [mbind outcome_bind]. rewrite wrap_index_small by lia.
  rewrite take_word_at. cbn [mbind outcome_bind]. rewrite wrap_index_small by lia.
  rewrite take_word_at. cbn [mbind outcome_bind].
  by replace (S (S (S (S k)))) with (k + 4)%nat by lia.
Qed.

(** A record as a sample writes it: four words, the first of them not the
    sentinel. *)
Definition is_record (r : list Z) : Prop := length r = 4%nat ∧ r !! 0%nat ≠ Some (-1).

Lemma drain_records rs rest k fuel :
  Forall is_record rs → (0 < k + 4 * length rs ≤ BUFD_MAX)%nat → (length rs < fuel)%nat →
  ((k + 4 * length rs < BUFD_MAX)%nat → rest !! 0%nat = Some (-1)) →
  drain fuel (cleared k (concat rs ++ rest)) (wrap_index k) =
  Ok (Some (rs, cleared (k + 4 * length rs) rest)).
Proof.
  intros Hrs. revert k fuel. induction Hrs as [|r rs [Hl Hr] _ IH];
    intros k fuel Hk Hf Hrest; (destruct fuel as [|fuel]; [simpl in Hf; lia|]); cbn [length] in *.
  - cbn [concat app drain]. rewrite Nat.mul_0_r, Nat.add_0_r in *.
    assert (Hw : word (cleared k rest) (wrap_index k) = Ok (-1)).
    { unfold wrap_index. case_decide as Hd.
      - unfold word, cleared. destruct k as [|k]; [lia|]. done.
      - destruct rest as [|w rest]; [by specialize (Hrest ltac:(lia))|].
        rewrite word_cleared. specialize (Hrest ltac:(lia)). cbn in Hrest. congruence. }
    rewrite Hw. cbn [mbind outcome_bind]. by rewrite decide_True.
  - destruct r as [|w1 [|w2 [|w3 [|w4 [|]]]]]; try done. cbn [concat app drain].
    rewrite wrap_index_small by lia. rewrite word_cleared. cbn [mbind outcome_bind].
    rewrite decide_False by (intros ->; done).
    rewrite take_record_at by lia. cbn [mbind outcome_bind].
    rewrite (IH (k + 4)%nat fuel) by (lia || (intros; apply Hrest; lia)).
    cbn [mbind outcome_bind]. by replace (k + 4 + 4 * length rs)%nat with (k + 4 * S (length rs))%nat by lia.
Qed.

Lemma find_start_here n buf w index :
  buf !! index = Some w → w ≠ -1 → (0 < n)%nat → find_start n buf index = Ok index.
Proof.
  intros Hw Hne Hn. destruct n as [|n]; [lia|]. cbn [find_start]. unfold word. rewrite Hw.
  cbn [from_option_or mbind outcome_bind]. by rewrite decide_False.
Qed.

Lemma concat_length rs : Forall is_record rs → length (concat rs) = (4 * length rs)%nat.
Proof.
  induction 1 as [|r rs [Hl _] _ IH]; [done|]. cbn [concat length]. rewrite length_app. lia.
Qed.

Lemma find_start_skip m n i q :
  find_start (m + n) (cleared (i + m) q) i = find_start n (cleared (i + m) q) (i + m).
Proof.
  revert i. induction m as [|m IH]; intros i; [by rewrite Nat.add_0_r|]. cbn [Nat.add find_start].
  replace (i + S m)%nat with (S i + m)%nat by lia. rewrite <-IH.
  unfold word, cleared. rewrite lookup_app_l by (rewrite length_replicate; lia).
  rewrite lookup_replicate_2 by lia. cbn [from_option_or mbind outcome_bind].
  by rewrite decide_True.
Qed.

(** Records after [k] cleared words. *)
Lemma read_ring_from k rs rest :
  Forall is_record rs → (0 < length rs)%nat → (k + 4 * length rs ≤ BUFD_MAX)%nat →
  ((k + 4 * length rs < BUFD_MAX)%nat → rest !! 0%nat = Some (-1)) →
  read_ring (cleared k (concat rs ++ rest)) = Ok (Some (rs, cleared (k + 4 * length rs) rest)).
Proof.
  intros Hrs Hpos Hlen Hrest. unfold read_ring.
  replace (find_start BUFD_MAX (cleared k (concat rs ++ rest)) 0) with (Ok k).
  2:{ replace BUFD_MAX with (k + (BUFD_MAX - k))%nat by lia.
      pose proof (find_start_skip k (BUFD_MAX - k) 0 (concat rs ++ rest)) as Hskip.
      cbn [Nat.add] in Hskip. rewrite Hskip. destruct rs as [|r rs]; [simpl in Hpos; lia|].
      apply Forall_cons in Hrs as [[Hl Hr] _]. destruct r as [|w r]; [done|].
      symmetry. apply (find_start_here _ _ w); [|by intros ->|simpl in Hlen; lia].
      unfold cleared. cbn [concat app]. apply list_lookup_middle. by rewrite length_replicate. }
  cbn [mbind outcome_bind].
  pose proof (drain_records rs rest k (S (length (cleared k (concat rs ++ rest))))) as Hd.
  rewrite wrap_index_small in Hd by lia. apply Hd; [done|lia| |done].
  unfold cleared. rewrite !length_app, length_replicate, concat_length by done. lia.
Qed.

Lemma read_ring_records rs rest :
  Forall is_record rs → (0 < 4 * length rs ≤ BUFD_MAX)%nat →
  ((4 * length rs < BUFD_MAX)%nat → rest !! 0%nat = Some (-1)) →
  read_ring (concat rs ++ rest) = Ok (Some (rs, cleared (4 * length rs) rest)).
Proof. intros Hrs Hlen Hrest. apply (read_ring_from 0); (done || lia). Qed.

(** The loop also looks at the word after the ring. *)
Lemma find_start_cleared n k q :
  find_start n (cleared (k + n) q) k = Ok (k + n)%nat.
Proof. rewrite <-(Nat.add_0_r n) at 1. apply (find_start_skip n 0). Qed.

Lemma take_word_again k i q :
  (S i < BUFD_MAX)%nat → (i < k)%nat →
  take_word (cleared k q) i = Ok (-1, cleared k q, S i).
Proof.
  intros Hi Hk.
  assert (Hw : cleared k q !! i = Some (-1)).
  { unfold cleared. rewrite lookup_app_l by (rewrite length_replicate; lia).
    by apply lookup_replicate_2. }
  unfold take_word, word. rewrite Hw, list_insert_id by done.
  cbn [from_option_or mbind outcome_bind]. by rewrite decide_False by lia.
Qed.

Lemma read_ring_past_end w rest :
  w ≠ -1 → (4 < BUFD_MAX)%nat →
  read_ring (cleared BUFD_MAX (w :: rest)) =
    Ok (Some ([[w; -1; -1; -1]], cleared (S BUFD_MAX) rest)).
Proof.
  intros Hw Hmax. unfold read_ring.
  pose proof (find_start_cleared BUFD_MAX 0 (w :: rest)) as Hs.
  cbn [Nat.add] in Hs. rewrite Hs. cbn [mbind outcome_bind].
  assert (Hz : wrap_index (S BUFD_MAX) = 0%nat) by (unfold wrap_index; by rewrite decide_True by lia).
  assert (Hr : take_record (cleared BUFD_MAX (w :: rest)) BUFD_MAX =
               Ok ([w; -1; -1; -1], cleared (S BUFD_MAX) rest, 3%nat)).
  { unfold take_record. rewrite take_word_at. cbn [mbind outcome_bind]. rewrite Hz.
    do 3 (rewrite take_word_again by lia; cbn [mbind outcome_bind]). done. }
  assert (H3 : word (cleared (S BUFD_MAX) rest) 3 = Ok (-1)).
  { unfold word, cleared. rewrite lookup_app_l by (rewrite length_replicate; lia).
    by rewrite lookup_replicate_2 by lia. }
  destruct (length (cleared BUFD_MAX (w :: rest))) as [|fuel] eqn:Hlen.
  { unfold cleared in Hlen. rewrite length_app in Hlen. simpl in Hlen. lia. }
  cbn [drain]. rewrite word_cleared. cbn [mbind outcome_bind]. rewrite decide_False by done.
  rewrite Hr. cbn [mbind outcome_bind]. rewrite H3. cbn [mbind outcome_bind].
  by rewrite decide_True.
Qed.

Lemma read_ring_total buf :
  (BUFD_MAX < length buf)%nat →
  ∃ rs buf', read_ring buf = Ok (Some (rs, buf')) ∧ length buf' = length buf ∧
    (length rs ≤ unread buf)%nat.
Proof.
  intros Hlen. unfold read_ring.
  destruct (find_start_ok BUFD_MAX buf 0) as (i & -> & Hi); [lia|]. cbn [mbind outcome_bind].
  destruct (drain_total (S (length buf)) buf i) as (rs & buf' & -> & Hl & Hn).
  - split; lia.
  - pose proof (unread_max buf). lia.
  - do 2 eexists. split; [done|]. split; [done|lia].
Qed.
End ring.

Definition monitor : list Z → outcome (option (list (list Z) * list Z)) :=
  read_ring (Z.to_nat 48000).

(** The words of the profiler buffer as the monitor reads them: [long]s. *)
Definition mapped (words : list Z) : list Z := int64 <$> words.

Lemma mapped_concat recs : int64 <$> concat recs = concat (mapped <$> recs).
Proof.
  induction recs as [|r recs IH]; [done|]. cbn [concat fmap list_fmap].
  by rewrite fmap_app, IH.
Qed.

Lemma concat_zeros n : concat (replicate n [0; 0; 0; 0]) = replicate (n * 4) 0.
Proof. induction n as [|n IH]; [done|]. cbn [replicate concat app Nat.mul]. by rewrite IH. Qed.

Lemma ring_size : Z.of_nat (Z.to_nat 48000) = 48000.
Proof. by apply Z2Nat.id. Qed.

(** A log of [n] records in a zeroed buffer of [z] words, as the monitor sees
    it: a ring of [r] records and the words behind it. *)
Lemma mapped_log r recs n z :
  n = length recs → (n ≤ r)%nat → (4 * r ≤ z)%nat →
  mapped (concat recs ++ replicate (z - 4 * n) 0) =
  concat ((mapped <$> recs) ++ replicate (r - n) [0; 0; 0; 0]) ++ replicate (z - 4 * r) 0.
Proof.
  intros -> Hn Hz. unfold mapped. rewrite fmap_app, fmap_replicate, mapped_concat, concat_app.
  change (int64 0) with 0. rewrite concat_zeros, <-app_assoc, <-replicate_add.
  do 2 f_equal. lia.
Qed.

(** ** Properties *)

(** On every content of the mapped buffer the monitor terminates, stays
    inside the mapping, and prints at most one record per word that was not
    cleared. *)
Theorem monitor_terminates buf :
  Z.of_nat (length buf) = capacity →
  ∃ rs buf', monitor buf = Ok (Some (rs, buf')) ∧ length buf' = length buf ∧
    (length rs ≤ unread buf)%nat.
Proof.
  intros Hlen. apply read_ring_total. pose proof ring_size.
  change capacity with 65536 in Hlen. lia.
Qed.

(** On a ring that holds [n] records and then the sentinel (or [n] = 12000
    records) the monitor prints exactly these records, in order, and clears
    them. *)
Theorem monitor_reads_records rs rest :
  Forall is_record rs → (0 < length rs)%nat → Z.of_nat (length rs) ≤ 12000 →
  (Z.of_nat (length rs) < 12000 → rest !! 0%nat = Some (-1)) →
  monitor (concat rs ++ rest) = Ok (Some (rs, cleared (4 * length rs) rest)).
Proof.
  intros Hrs Hn Hmax Hrest. pose proof ring_size. apply read_ring_records; [done|lia|].
  intros ?. apply Hrest. lia.
Qed.

Section printed.
Context {KL : KList} {KLL : KListLaws KL}.
Implicit Types s : state.

(** From the samples to the printed profile: on a module whose buffer is
    fresh, after [n] samples with the processes running in between (and no tick
    that reads as -1), the monitor prints the [n] records in order, each as its
    sample wrote it, and then, as data, 12000 - [n] records of zeros: the module
    fills its buffer with zeros where the monitor expects -1. *)
Theorem profile_printed jiffies_to_msecs cputime_to_jiffies msecs_to_jiffies rs s :
  wf s → Forall (run_ok s) rs →
  mem_buf s = mem_buf (initial msecs_to_jiffies ∅) → mem_buf_ptr s = 0 →
  Forall (λ r, int64 (jiffies r.2) ≠ -1) rs → Z.of_nat (length rs) ≤ 12000 →
  ∃ s' tr words buf,
    profile jiffies_to_msecs cputime_to_jiffies rs s = Ok (tt, s', tr) ∧
    mem_buf s' = Live words ∧
    monitor (mapped words) =
      Ok (Some ((mapped <$> profiled jiffies_to_msecs cputime_to_jiffies s rs) ++
                replicate (Z.to_nat 12000 - length rs) [0; 0; 0; 0], buf)).
Proof.
  intros Hwf Hrs Hb Hp Hticks Hn. pose proof ring_size as Hring.
  destruct (profile_fresh msecs_to_jiffies jiffies_to_msecs cputime_to_jiffies rs s)
    as (m & tr & Heq); [exact Hwf|exact Hrs|exact Hb|exact Hp|lia|].
  do 3 eexists. eexists. split; [exact Heq|]. split; [reflexivity|].
  rewrite (mapped_log (Z.to_nat 12000)) by (change capacity with 65536; unfold profiled; rewrite ?length_fmap; lia).
  apply read_ring_records.
  - apply Forall_app. split; [|apply Forall_replicate; by split].
    apply Forall_fmap, Forall_fmap. eapply Forall_impl; [exact Hticks|].
    intros r Hr. split; [done|]. cbn. congruence.
  - unfold profiled. rewrite length_app, !length_fmap, length_replicate. lia.
  - unfold profiled. rewrite length_app, !length_fmap, length_replicate. lia.
Qed.
End printed.

(** A sample stored past word 48000 is found by the monitor once the ring
    is clear, but it wraps after its first word: the record it prints has the
    time stamp of that sample and three sentinels. *)
Theorem monitor_past_ring w rest :
  w ≠ -1 →
  ∃ buf, monitor (cleared (Z.to_nat 48000) (w :: rest)) = Ok (Some ([[w; -1; -1; -1]], buf)).
Proof.
  intros Hw. pose proof ring_size. eexists. apply read_ring_past_end; [done|lia].
Qed.

(** ** Concrete instances *)

Lemma monitor_terminates_witness :
  let buf := replicate (Z.to_nat 65536) 7 in
  ∃ rs buf', monitor buf = Ok (Some (rs, buf')) ∧ length buf' = length buf ∧
    (length rs ≤ unread buf)%nat.
Proof.
  intros buf. apply (monitor_terminates buf).
  unfold buf. rewrite length_replicate, Z2Nat.id; [reflexivity|vm_compute; discriminate].
Defined.

Lemma monitor_reads_records_witness :
  monitor (concat [[100; 5; 1; 42]; [113; 0; 0; 3]] ++ [-1; 9]) =
    Ok (Some ([[100; 5; 1; 42]; [113; 0; 0; 3]], cleared 8 [-1; 9])).
Proof.
  apply (monitor_reads_records [[100; 5; 1; 42]; [113; 0; 0; 3]] [-1; 9]).
  - apply Forall_cons. split; [split; [reflexivity|discriminate]|].
    apply Forall_cons. split; [split; [reflexivity|discriminate]|].
    apply Forall_nil. exact I.
  - simpl. lia.
  - vm_compute. discriminate.
  - intros _. reflexivity.
Defined.

Lemma monitor_past_ring_witness :
  ∃ buf, monitor (cleared (Z.to_nat 48000) [7]) = Ok (Some ([[7; -1; -1; -1]], buf)).
Proof. apply (monitor_past_ring 7 []). discriminate. Defined.

(** Two samples of the two registered processes. *)
Lemma profile_printed_witness :
  let s := ex_listed [2%positive; 1%positive] in
  let rs := [(ex_procs, ex_answers None 100); (ex_procs, ex_answers None 113)] in
  ∃ s' tr words buf,
    profile id id rs s = Ok (tt, s', tr) ∧ mem_buf s' = Live words ∧
    monitor (mapped words) =
      Ok (Some ((mapped <$> profiled id id s rs) ++
                replicate (Z.to_nat 12000 - length rs) [0; 0; 0; 0], buf)).
Proof.
  intros s rs. apply (profile_printed (KL := seq_klist) id id id rs s).
  - apply ex_listed_wf.
  - repeat (apply Forall_cons; split; [apply ex_run_ok|]). apply Forall_nil. exact I.
  - reflexivity.
  - reflexivity.
  - repeat (apply Forall_cons; split; [vm_compute; discriminate|]). apply Forall_nil. exact I.
  - vm_compute. discriminate.
Defined.
