(* ===== verification/MonitorMain.v ===== *)
(** * MP3: the monitor program against the loaded module (src/MP3/monitor.c)

    [buf_init], [buf_exit] and [main] on a state that holds the module's own
    state, so that opening the device runs the module's [dev_mmap], and the
    words the program reads and clears are the words of the module's buffer. *)
From Stdlib Require Import Ascii String.
From stdpp Require Import prelude gmap.
From S2P Require Import Prelude CInt CText Kernel UserApp Mp3 Mp3Facts Mp3System Mp3Device Monitor.
Open Scope Z_scope.

Definition NPAGES : Z := 128.

Section program.
Context {KL : KList}.
Context (pfn_of : Z → Z) (remap : Z → Z → Z).

(** The module and the program's globals. *)
Record process : Type := Process {
  module : Mp3.state;
  buf_fd : Z;
  buf_len : Z;
}.

Definition set_module (s : Mp3.state) (x : process) : process := Process s (buf_fd x) (buf_len x).
Definition set_fd (fd : Z) (x : process) : process := Process (module x) fd (buf_len x).
Definition set_len (len : Z) (x : process) : process := Process (module x) (buf_fd x) len.

(** What the system answers the program: the size of a page, the descriptor
    [open] returns or -1, and the address at which [mmap] sets up a mapping
    of a length, if it finds one. *)
Record answers : Type := Answers {
  getpagesize : Z;
  open_fd : text → Z;
  mmap_addr : Z → option Z;
}.

(** The module's code, run by a system call or by its work queue. *)
Definition in_module {A} (m : kern Mp3.state A) : user process A := λ x,
  match m (module x) with
  | Ok (a, s, t) => Ok (a, set_module s x, Kernel <$> t)
  | Fault f => Fault f
  end.

(** [mmap (0, len, ..., fd, 0)]: a length in whole pages, and then the
    driver's [mmap]; false for [MAP_FAILED]. *)
Definition mmap (k : answers) (len : Z) : user process bool :=
  let size := PAGE_SIZE * ((len + PAGE_SIZE - 1) / PAGE_SIZE) in
  match mmap_addr k size with
  | None => mret false
  | Some vm_start =>
      r ← in_module (dev_mmap pfn_of remap vm_start (vm_start + size));
      mret (bool_decide (r = Some 0))
  end.

(** [buf_init]: whether it returns a mapping. *)
Definition buf_init (k : answers) (fname : text) : user process bool :=
  x ← get;
  opened ← (if decide (buf_fd x = -1) then
              modify (set_len (int32 (NPAGES * getpagesize k))) ;;
              modify (set_fd (open_fd k fname)) ;;
              if decide (open_fd k fname < 0) then
                printf ("file open error. %s" ++ newline) [AStr fname] ;; mret false
              else emit (Open fname) ;; mret true
            else mret true : user process bool);
  if opened : bool then
    x ← get;
    kadr ← mmap k (buf_len x);
    (if kadr : bool then mret true
     else printf ("buf file open error." ++ newline) [] ;; mret false)
  else mret false.

Definition buf_exit : user process unit :=
  x ← get;
  if decide (buf_fd x ≠ -1) then emit (Close (buf_fd x)) ;; modify (set_fd (-1))
  else mret tt.

(** The four [printf]s of one record. *)
Definition print_record (r : list Z) : user process unit :=
  for_each (take 3 r) (λ w, printf "%ld " [AInt w]) ;;
  for_each (drop 3 r) (λ w, printf ("%ld" ++ newline) [AInt w]).

(** The words of the mapping, and their values after the program's stores. *)
Definition mapped_words (x : process) : outcome (list Z) :=
  match mem_buf (module x) with
  | Unset => Fault NullDeref
  | Freed => Fault UseAfterFree
  | Live words => Ok words
  end.
Definition store_words (words : list Z) (x : process) : process :=
  set_module (set_buf (Live words) (mem_buf_ptr (module x)) (module x)) x.

(** The two loops of [main] on the mapping of [buf_len] bytes: the number of
    records printed; [None] when the fuel of [monitor] runs out. *)
Definition read_profile : user process (option Z) :=
  x ← get;
  words ← lift (mapped_words x);
  let n := Z.to_nat (buf_len x / 8) in
  r ← lift (monitor (mapped (take n words)));
  match r with
  | None => mret None
  | Some (rs, buf') =>
      modify (store_words ((uint64 <$> buf') ++ drop n words)) ;;
      for_each rs print_record ;;
      mret (Some (int32 (Z.of_nat (length rs))))
  end.

Definition main (k : answers) : user process (option Z) :=
  buf ← buf_init k (lit "node");
  if buf : bool then
    i ← read_profile;
    match i with
    | None => mret None
    | Some i =>
        printf ("read %d profiled data" ++ newline) [AInt i] ;;
        buf_exit ;;
        mret (Some 0)
    end
  else mret (Some (-1)).
End program.

(** ** What is printed *)

Definition printed_record (r : list Z) : list uevent :=
  ((λ w, Printed (sprintf "%ld " [AInt w])) <$> take 3 r) ++
  ((λ w, Printed (sprintf ("%ld" ++ newline) [AInt w])) <$> drop 3 r).

(** One line of the profile, and the last line of the output. *)
Definition report (r : list Z) : text :=
  concat ((λ w, dec (int64 w) ++ [" "%char]) <$> take 3 r) ++
  concat ((λ w, dec (int64 w) ++ [NL]) <$> drop 3 r).
Definition summary (n : nat) : text :=
  lit "read " ++ dec (Z.of_nat n) ++ lit " profiled data" ++ [NL].

Section facts.
Context {KL : KList}.
Context (pfn_of : Z → Z) (remap : Z → Z → Z).
Implicit Types x : process.

Lemma for_each_printf {S} fmt (ws : list Z) (x : S) :
  for_each ws (λ w, printf fmt [AInt w]) x =
  Ok (tt, x, (λ w, Printed (sprintf fmt [AInt w])) <$> ws).
Proof.
  induction ws as [|w ws IH]; [done|]. cbn [for_each].
  rewrite (bind_ok _ _ x tt x [Printed (sprintf fmt [AInt w])]) by done. by rewrite IH.
Qed.

Lemma print_record_eq r x : print_record r x = Ok (tt, x, printed_record r).
Proof.
  pose proof (for_each_printf "%ld " (take 3 r) x) as H1.
  pose proof (for_each_printf ("%ld" ++ newline) (drop 3 r) x) as H2.
  unfold print_record, mbind, cmd_bind. by rewrite H1, H2.
Qed.

Lemma print_records rs x :
  for_each rs print_record x = Ok (tt, x, concat (printed_record <$> rs)).
Proof.
  induction rs as [|r rs IH]; [done|]. cbn [for_each fmap list_fmap concat].
  rewrite (bind_ok _ _ x tt x (printed_record r)) by apply print_record_eq.
  by rewrite IH.
Qed.

Lemma output_fmap {A} (f : A → text) l : output ((λ a, Printed (f a)) <$> l) = concat (f <$> l).
Proof. induction l as [|a l IH]; [done|]. cbn. by f_equal. Qed.

Lemma output_records rs : output (concat (printed_record <$> rs)) = concat (report <$> rs).
Proof.
  induction rs as [|r rs IH]; [done|]. cbn [fmap list_fmap concat].
  unfold printed_record at 1. rewrite !output_app, !output_fmap, IH. unfold report. f_equal.
Qed.

(** ** The two system calls *)

(** The mapping loop returns whatever the pages are. *)
Lemma map_pages_total n fuel start pos (s : Mp3.state) :
  (n < fuel)%nat → Z.of_nat n ≤ PAGE_NUM →
  ∃ r t, map_pages pfn_of remap fuel start pos (PAGE_SIZE * Z.of_nat n) s = Ok (Some r, s, t).
Proof.
  unfold PAGE_SIZE, PAGE_NUM. revert fuel start pos.
  induction n as [|n IH]; intros [|fuel] start pos Hf Hn; try lia; cbn [map_pages].
  - rewrite decide_False by lia. by do 2 eexists.
  - rewrite decide_True by lia. unfold PAGE_SIZE. run.
    destruct (decide (remap start (pfn_of pos) = 0)) as [Hr|Hr]; [|by do 2 eexists].
    replace (4096 * Z.of_nat (S n) - 4096) with (4096 * Z.of_nat n) by lia.
    rewrite (uint64_small (4096 * Z.of_nat n)) by (red; lia).
    destruct (IH fuel (uint64 (start + 4096)) (pos + 4096)) as (r & t & Heq); [lia|lia|].
    rewrite Heq. by do 2 eexists.
Qed.

Lemma mmap_total k x :
  (∀ a, mmap_addr k (PAGE_SIZE * PAGE_NUM) = Some a → 0 ≤ a) →
  ∃ b t, mmap pfn_of remap k (PAGE_SIZE * PAGE_NUM) x = Ok (b, x, Kernel <$> t).
Proof.
  intros Ha. unfold mmap. change (PAGE_SIZE * ((PAGE_SIZE * PAGE_NUM + PAGE_SIZE - 1) / PAGE_SIZE))
    with (PAGE_SIZE * PAGE_NUM).
  destruct (mmap_addr k (PAGE_SIZE * PAGE_NUM)) as [a|] eqn:Hk; [|by exists false, []].
  unfold dev_mmap. replace (a + PAGE_SIZE * PAGE_NUM - a) with (PAGE_SIZE * PAGE_NUM) by lia.
  change (uint64 (PAGE_SIZE * PAGE_NUM)) with (PAGE_SIZE * Z.of_nat 128).
  rewrite decide_False by (unfold PAGE_NUM, PAGE_SIZE; lia).
  destruct (map_pages_total 128 (S (Z.to_nat PAGE_NUM)) a 0 (module x)) as (r & t & Heq);
    [by apply Nat.ltb_lt|done|].
  exists (bool_decide (r = 0)), t. unfold in_module. run. rewrite app_nil_r.
  destruct x. repeat f_equal. by apply bool_decide_ext; split; [intros [= ->]|intros ->].
Qed.

(** When every page of the buffer can be remapped. *)
Definition mappable (k : answers) : Prop :=
  ∃ a, mmap_addr k (PAGE_SIZE * PAGE_NUM) = Some a ∧ 0 ≤ a ∧ a + PAGE_SIZE * PAGE_NUM < 2 ^ 64 ∧
    ∀ i, (i < 128)%nat → remap_at pfn_of remap a 0 i = 0.

Lemma mmap_ok k x :
  mappable k → ∃ t, mmap pfn_of remap k (PAGE_SIZE * PAGE_NUM) x = Ok (true, x, Kernel <$> t).
Proof.
  intros (a & Hk & H0 & Hmax & Hr). unfold mmap.
  change (PAGE_SIZE * ((PAGE_SIZE * PAGE_NUM + PAGE_SIZE - 1) / PAGE_SIZE))
    with (PAGE_SIZE * PAGE_NUM).
  rewrite Hk. unfold dev_mmap.
  replace (a + PAGE_SIZE * PAGE_NUM - a) with (PAGE_SIZE * PAGE_NUM) by lia.
  change (uint64 (PAGE_SIZE * PAGE_NUM)) with (PAGE_SIZE * Z.of_nat 128).
  rewrite decide_False by (unfold PAGE_NUM, PAGE_SIZE; lia).
  assert (Heq : map_pages pfn_of remap (S (Z.to_nat PAGE_NUM)) a 0 (PAGE_SIZE * Z.of_nat 128)
                  (module x) = Ok (Some 0, module x, remaps pfn_of a 0 128)).
  { apply map_pages_ok; [by apply Nat.ltb_lt|done|exact Hmax|exact Hr]. }
  exists (remaps pfn_of a 0 128). unfold in_module. run. rewrite app_nil_r. by destruct x.
Qed.

(** ** The program *)

Definition node : text := lit "node".

(** The program once the device is open. *)
Definition device_open (k : answers) x : process :=
  Process (module x) (open_fd k node) (PAGE_SIZE * PAGE_NUM).

Definition starts (k : answers) x : Prop :=
  getpagesize k = PAGE_SIZE ∧ buf_fd x = -1 ∧ 0 ≤ open_fd k node.

Lemma buf_init_eq k x b t :
  starts k x →
  mmap pfn_of remap k (PAGE_SIZE * PAGE_NUM) (device_open k x) =
    Ok (b, device_open k x, Kernel <$> t) →
  buf_init pfn_of remap k node x =
    Ok (b, device_open k x, Open node :: (Kernel <$> t) ++
          (if b then [] else [Printed (lit "buf file open error." ++ [NL])])).
Proof.
  intros (Hp & Hfd & Ho) Hm. unfold buf_init, printf. run. rewrite Hfd, Hp.
  rewrite decide_True by done. rewrite decide_False by lia.
  change (int32 (NPAGES * PAGE_SIZE)) with (PAGE_SIZE * PAGE_NUM).
  change (set_fd (open_fd k node) (set_len (PAGE_SIZE * PAGE_NUM) x)) with (device_open k x).
  run. change (buf_len (device_open k x)) with (PAGE_SIZE * PAGE_NUM).
  rewrite Hm. by destruct b; rewrite ?app_nil_r.
Qed.

Lemma buf_init_refused k x :
  buf_fd x = -1 → open_fd k node < 0 →
  buf_init pfn_of remap k node x =
    Ok (false, set_fd (open_fd k node) (set_len (int32 (NPAGES * getpagesize k)) x),
        [Printed (lit "file open error. node" ++ [NL])]).
Proof.
  intros Hfd Ho. unfold buf_init, printf. run. rewrite Hfd, decide_True by done.
  by rewrite decide_True.
Qed.

Lemma int32_count n : Z.of_nat n ≤ INT_MAX → int32 (Z.of_nat n) = Z.of_nat n.
Proof.
  intros Hn. apply int32_small. split; [lia|].
  change (2 ^ (32 - 1)) with (INT_MAX + 1). lia.
Qed.

Lemma summary_eq n :
  Z.of_nat n ≤ INT_MAX →
  sprintf ("read %d profiled data" ++ newline) [AInt (Z.of_nat n)] = summary n.
Proof.
  intros Hn. unfold summary. rewrite <-(int32_count n) at 2 by done. reflexivity.
Qed.

(** The state a run leaves: the words as the stores of the program wrote them,
    the device closed. *)
Definition consumed (buf' : list Z) x : process :=
  Process (set_buf (Live (uint64 <$> buf')) (mem_buf_ptr (module x)) (module x)) (-1)
    (PAGE_SIZE * PAGE_NUM).

Lemma main_eq k x words rs buf' t :
  starts k x →
  mmap pfn_of remap k (PAGE_SIZE * PAGE_NUM) (device_open k x) =
    Ok (true, device_open k x, Kernel <$> t) →
  mem_buf (module x) = Live words → Z.of_nat (length words) = capacity →
  monitor (mapped words) = Ok (Some (rs, buf')) → Z.of_nat (length rs) ≤ INT_MAX →
  main pfn_of remap k x =
    Ok (Some 0, consumed buf' x,
        Open node :: (Kernel <$> t) ++ concat (printed_record <$> rs) ++
          [Printed (summary (length rs)); Close (open_fd k node)]).
Proof.
  intros Hs Hm Hb Hlen Hmon Hrs. pose proof (buf_init_eq k x true t Hs Hm) as Hinit.
  destruct Hs as (_ & _ & Ho).
  set (x1 := device_open k x) in *. set (x2 := store_words (uint64 <$> buf') x1).
  assert (Hn : (Z.to_nat (buf_len x1 / 8) = length words)%nat).
  { change (buf_len x1 / 8) with capacity. rewrite <-Hlen. apply Nat2Z.id. }
  assert (Hread : read_profile x1 = Ok (Some (Z.of_nat (length rs)), x2, concat (printed_record <$> rs))).
  { assert (Hw : mapped_words x1 = Ok words) by (unfold mapped_words, x1, device_open; cbn [module]; by rewrite Hb).
    rewrite <-(take_ge words (length words)), <-Hn in Hmon by done.
    pose proof (print_records rs x2) as Hpr. unfold x2 in Hpr.
    unfold read_profile, get, lift, modify, mret, cmd_ret, mbind, cmd_bind.
    rewrite Hw, Hmon, Hn, drop_ge, app_nil_r by done. rewrite Hpr. cbn [prepend app].
    by rewrite app_nil_r, int32_count. }
  unfold main. rewrite (bind_ok _ _ _ _ _ _ Hinit). cbv beta iota.
  rewrite (bind_ok _ _ _ _ _ _ Hread). cbv beta iota. unfold buf_exit, printf. run.
  cbn [x2 store_words set_module x1 device_open buf_fd]. rewrite decide_True by lia. run.
  by rewrite app_nil_r, summary_eq.
Qed.

(** ** Properties *)

End facts.

(** ** The monitor run again

    The words a first run cleared are filled by later samples. *)
Section again.
Context {KL : KList} {KLL : KListLaws KL}.
Context (jiffies_to_msecs cputime_to_jiffies msecs_to_jiffies : Z → Z).
Context (pfn_of : Z → Z) (remap : Z → Z → Z).

Abbreviation mp_profile := (profile jiffies_to_msecs cputime_to_jiffies).
Abbreviation mp_profiled := (profiled jiffies_to_msecs cputime_to_jiffies).
Abbreviation samples := (list (gmap addr task_struct * Mp3.answers)).

(** The words of the ring and of the buffer and the records of the ring: the
    proofs need their values only. *)
Context (ring_words all_words ring_records : nat).
Context (Hring : Z.of_nat ring_words = 48000) (Hall : Z.of_nat all_words = 65536)
        (Hrecords : Z.of_nat ring_records = 12000)
        (Hmonitor : ∀ l, monitor l = read_ring ring_words l).

Lemma ring_length : ring_words = (4 * ring_records)%nat.
Proof. lia. Qed.

(** No sample at a tick that reads as the sentinel. *)
Definition ticks_ok (rs : samples) : Prop := Forall (λ r, int64 (jiffies r.2) ≠ -1) rs.

(** The words the program sees after [n] samples following a first run. *)
Definition second_log (n1 : nat) (recs : list (list Z)) : list Z :=
  cleared (4 * n1) (concat recs ++ replicate (ring_words - 4 * (n1 + length recs)) (-1) ++
                    replicate (all_words - ring_words) 0).

Definition second_profile (recs : list (list Z)) : list (list Z) :=
  if decide (recs = []) then [[0; -1; -1; -1]] else recs.

Lemma length_pos {A} (l : list A) : l ≠ [] → (0 < length l)%nat.
Proof. destruct l; simpl; [done|lia]. Qed.

Lemma monitor_second n1 recs :
  Forall is_record recs → Z.of_nat (n1 + length recs) ≤ 12000 →
  ∃ buf, read_ring ring_words (second_log n1 recs) = Ok (Some (second_profile recs, buf)).
Proof.
  intros Hrs Hn. unfold second_profile, second_log.
  case_decide as Hnil.
  - subst recs. cbn [concat app length].
    replace (all_words - ring_words)%nat with (S (all_words - ring_words - 1)) by lia.
    unfold cleared. rewrite app_assoc, <-replicate_add. cbn [replicate].
    replace (4 * n1 + (ring_words - 4 * (n1 + 0)))%nat with ring_words by lia.
    eexists. apply read_ring_past_end; [discriminate|lia].
  - pose proof (length_pos recs Hnil). eexists. apply read_ring_from; [exact Hrs|lia|lia|].
    intros Hlt. destruct (ring_words - 4 * (n1 + length recs))%nat as [|d] eqn:Hd; [lia|reflexivity].
Qed.

Lemma second_profile_length n recs :
  Z.of_nat (n + length recs) ≤ 12000 → Z.of_nat (length (second_profile recs)) ≤ INT_MAX.
Proof. unfold second_profile, INT_MAX. case_decide; cbn [length]; lia. Qed.

Lemma profiled_records rs s : ticks_ok rs → Forall is_record (mapped <$> mp_profiled s rs).
Proof.
  intros Hticks. apply Forall_fmap, Forall_fmap. eapply Forall_impl; [exact Hticks|].
  intros r Hr. split; [done|]. cbn. congruence.
Qed.

Lemma uint64_cleared k l :
  uint64 <$> cleared k l = replicate k (2 ^ 64 - 1) ++ (uint64 <$> l).
Proof. unfold cleared. by rewrite fmap_app, fmap_replicate. Qed.

(** The words a first run leaves behind. *)
Definition after_run : list Z := uint64 <$> cleared ring_words (replicate (all_words - ring_words) 0).

Lemma after_run_length : Z.of_nat (length after_run) = 65536.
Proof. clear Hrecords. unfold after_run, cleared. rewrite length_fmap, length_app, !length_replicate. lia. Qed.

(** Words stored after a first run, as the program sees them. *)
Lemma mapped_inserts n ws :
  (n + length ws ≤ ring_words)%nat →
  mapped (list_inserts n ws after_run) =
  cleared n (mapped ws ++ replicate (ring_words - (n + length ws)) (-1) ++
             replicate (all_words - ring_words) 0).
Proof.
  clear Hring Hall Hrecords. intros Hn. unfold after_run. rewrite uint64_cleared, fmap_replicate. change (uint64 0) with 0.
  replace ring_words with (n + (length ws + (ring_words - (n + length ws))))%nat at 1 by lia.
  rewrite !replicate_add, <-!app_assoc.
  replace n with (length (replicate n (2 ^ 64 - 1)%Z) + 0)%nat at 1
    by (rewrite length_replicate; lia).
  rewrite list_inserts_app_r, list_inserts_0_r by (by rewrite length_replicate).
  unfold mapped, cleared. by rewrite !fmap_app, !fmap_replicate.
Qed.

Lemma mapped_second n1 recs :
  Z.of_nat (n1 + length recs) ≤ 12000 → Forall (λ r, length r = 4%nat) recs →
  mapped (list_inserts (4 * n1) (concat recs) after_run) = second_log n1 (mapped <$> recs).
Proof.
  intros Hn Hrecs.
  assert (Hlen : length (concat recs) = (4 * length recs)%nat).
  { clear Hn. induction Hrecs as [|r recs Hr _ IH]; [done|]. cbn [concat length].
    rewrite length_app. lia. }
  rewrite mapped_inserts by lia. unfold second_log, mapped. rewrite mapped_concat, length_fmap, Hlen.
  by replace (4 * n1 + 4 * length recs)%nat with (4 * (n1 + length recs))%nat by lia.
Qed.

(** The two halves of a session. *)
Definition session (k : answers) (rs1 rs2 : samples) : user process (option Z) :=
  in_module (mp_profile rs1) ;;
  main pfn_of remap k ;;
  in_module (mp_profile rs2) ;;
  main pfn_of remap k.

Lemma in_module_ok {A} (m : kern Mp3.state A) x a s t :
  m (module x) = Ok (a, s, t) → in_module m x = Ok (a, set_module s x, Kernel <$> t).
Proof. intros Heq. unfold in_module. by rewrite Heq. Qed.

Definition first_profile s (rs1 : samples) : list (list Z) :=
  (mapped <$> mp_profiled s rs1) ++ replicate (ring_records - length rs1) [0; 0; 0; 0].

Lemma first_profile_length s rs1 :
  Z.of_nat (length rs1) ≤ 12000 → length (first_profile s rs1) = ring_records.
Proof.
  intros Hn. unfold first_profile, profiled.
  rewrite length_app, !length_fmap, length_replicate. lia.
Qed.

(** A first run on the log of a fresh buffer. *)
Lemma monitor_first s rs1 :
  ticks_ok rs1 → Z.of_nat (length rs1) ≤ 12000 →
  read_ring ring_words (mapped (concat (mp_profiled s rs1) ++ replicate (all_words - 4 * length rs1) 0)) =
    Ok (Some (first_profile s rs1, cleared ring_words (replicate (all_words - ring_words) 0))).
Proof.
  intros Hticks Hn. pose proof (first_profile_length s rs1 Hn) as Hlen.
  rewrite (mapped_log ring_records) by (unfold profiled; rewrite ?length_fmap; lia).
  fold (first_profile s rs1).
  rewrite ring_length, <-Hlen.
  apply read_ring_records; [|lia|lia].
  apply Forall_app. split; [by apply profiled_records|]. by apply Forall_replicate.
Qed.

(** A run of the program after the samples of [rs1]. *)
Lemma first_half k x rs1 s :
  wf s → Forall (run_ok s) rs1 → ticks_ok rs1 → Z.of_nat (length rs1) ≤ 12000 →
  mem_buf s = mem_buf (initial msecs_to_jiffies ∅) → mem_buf_ptr s = 0 →
  module x = s → starts k x → mappable pfn_of remap k →
  ∃ m t1 x1 t2, in_module (mp_profile rs1) x = Ok (tt, x1, Kernel <$> t1) ∧
    main pfn_of remap k x1 =
      Ok (Some 0, consumed (cleared ring_words (replicate (all_words - ring_words) 0)) x1, t2) ∧
    output t2 = concat (report <$> first_profile s rs1) ++ summary ring_records ∧
    starts k x1 ∧ mem_buf_ptr (module x1) = 4 * Z.of_nat (length rs1) ∧
    ∃ b, module x1 = set_buf b (4 * Z.of_nat (length rs1)) (set_structs m s).
Proof.
  intros Hwf Hrs Hticks Hn Hb Hp Hx Hstart Hk.
  destruct (profile_fresh msecs_to_jiffies jiffies_to_msecs cputime_to_jiffies rs1 s)
    as (m & t1 & Heq); [exact Hwf|exact Hrs|exact Hb|exact Hp|lia|].
  replace (Z.to_nat capacity) with all_words in Heq by (change capacity with 65536; lia).
  set (words := concat (mp_profiled s rs1) ++ replicate (all_words - 4 * length rs1) 0) in Heq.
  set (s1 := set_buf (Live words) _ (set_structs m s)) in Heq. subst s.
  set (x1 := set_module s1 x). assert (Hs1 : starts k x1) by exact Hstart.
  destruct (mmap_ok pfn_of remap k (device_open k x1) Hk) as [t Hm].
  pose proof (main_eq pfn_of remap k x1 words (first_profile (module x) rs1)
    (cleared ring_words (replicate (all_words - ring_words) 0)) t Hs1 Hm) as Hmain.
  rewrite Hmonitor, (first_profile_length _ _ Hn) in Hmain.
  exists m, t1, x1. eexists. split; [by apply in_module_ok|]. split; [apply Hmain|].
  - reflexivity.
  - unfold words. rewrite length_app, length_replicate, profiled_length.
    change capacity with 65536. lia.
  - by apply monitor_first.
  - unfold INT_MAX. lia.
  - split; [events; rewrite output_records; by events|]. split; [exact Hs1|].
    split; [reflexivity|]. by exists (Live words).
Qed.

(** A second run, after the samples of [rs2]. *)
Lemma second_half k x n1 rs2 m s :
  wf s → Forall (run_ok s) rs2 → ticks_ok rs2 → Z.of_nat (n1 + length rs2) ≤ 12000 →
  module x = set_buf (Live after_run) (4 * Z.of_nat n1) (set_structs m s) →
  starts k x → mappable pfn_of remap k →
  let recs := second_profile (mapped <$> mp_profiled s rs2) in
  ∃ t1 x1 t2 x2, in_module (mp_profile rs2) x = Ok (tt, x1, Kernel <$> t1) ∧
    main pfn_of remap k x1 = Ok (Some 0, x2, t2) ∧
    output t2 = concat (report <$> recs) ++ summary (length recs).
Proof.
  intros Hwf Hrs Hticks Hn Hx Hstart Hk recs.
  assert (Hlen : length (mapped <$> mp_profiled s rs2) = length rs2)
    by (unfold profiled; by rewrite !length_fmap).
  set (words := after_run) in Hx.
  assert (Hwords : Z.of_nat (length words) = 65536) by apply after_run_length.
  destruct (profile_ok jiffies_to_msecs cputime_to_jiffies rs2 words (module x))
    as (m' & t1 & Heq); rewrite ?Hx; cbn [mem_buf mem_buf_ptr set_buf]; try done;
    [lia|change capacity with 65536; lia|].
  rewrite Hx in Heq. cbn [mem_buf_ptr set_buf] in Heq.
  replace (Z.to_nat (4 * Z.of_nat n1)) with (4 * n1)%nat in Heq by lia.
  change (profiled _ _ (set_buf _ _ _) rs2) with (mp_profiled s rs2) in Heq.
  set (words2 := list_inserts _ _ words) in Heq. rewrite <-Hx in Heq.
  set (s2 := set_buf (Live words2) _ _) in Heq. set (x1 := set_module s2 x).
  assert (Hs1 : starts k x1) by exact Hstart.
  destruct (mmap_ok pfn_of remap k (device_open k x1) Hk) as [t Hm].
  destruct (monitor_second n1 (mapped <$> mp_profiled s rs2)) as [buf Hmon];
    [by apply profiled_records|by rewrite Hlen|].
  pose proof (main_eq pfn_of remap k x1 words2 recs buf t Hs1 Hm) as Hmain.
  rewrite Hmonitor in Hmain.
  exists t1, x1. do 2 eexists. split; [by apply in_module_ok|]. split; [apply Hmain|].
  - reflexivity.
  - unfold words2. rewrite length_inserts, Hwords. reflexivity.
  - unfold words2. rewrite mapped_second; [exact Hmon| |].
    + unfold profiled in *. by rewrite length_fmap in *.
    + apply Forall_fmap, Forall_true. done.
  - apply (second_profile_length n1). by rewrite Hlen.
  - events. rewrite output_records. by events.
Qed.
End again.

Section sessions.
Context {KL : KList} {KLL : KListLaws KL}.

(** C12: From the samples to the printed profiles, over two runs of the program:
    on a module whose buffer is fresh, with the processes running between the
    samples (and no sample at a tick that reads as -1), the first run prints the
    records of the samples so far, in order and as they were written, and then,
    as data, records of zeros up to the 12000th, since the module fills its
    buffer with zeros where the program expects -1.  The second run prints
    exactly the records of the samples since the first; when there are none it
    prints one record that no sample wrote, made of the word behind the ring. *)
Theorem monitor_sessions jiffies_to_msecs cputime_to_jiffies msecs_to_jiffies pfn_of remap
    k x rs1 rs2 :
  let s := module x in
  let recs1 := first_profile jiffies_to_msecs cputime_to_jiffies (Z.to_nat 12000) s rs1 in
  let recs2 := second_profile (mapped <$> profiled jiffies_to_msecs cputime_to_jiffies s rs2) in
  wf s → Forall (run_ok s) (rs1 ++ rs2) → ticks_ok (rs1 ++ rs2) →
  Z.of_nat (length rs1 + length rs2) ≤ 12000 →
  mem_buf s = mem_buf (initial msecs_to_jiffies ∅) → mem_buf_ptr s = 0 →
  starts k x → mappable pfn_of remap k →
  ∃ x' t, session jiffies_to_msecs cputime_to_jiffies pfn_of remap k rs1 rs2 x =
      Ok (Some 0, x', t) ∧
    output t = concat (report <$> recs1) ++ summary (Z.to_nat 12000) ++
               concat (report <$> recs2) ++ summary (length recs2).
Proof.
  intros s recs1 recs2 Hwf [Hr1 Hr2]%Forall_app [Ht1 Ht2]%Forall_app Hn Hb Hp Hs Hk.
  assert (Hall : Z.of_nat (Z.to_nat 65536) = 65536) by (by apply Z2Nat.id).
  assert (Hrecords : Z.of_nat (Z.to_nat 12000) = 12000) by (by apply Z2Nat.id).
  pose proof ring_size as Hring.
  destruct (first_half jiffies_to_msecs cputime_to_jiffies msecs_to_jiffies pfn_of remap
    (Z.to_nat 48000) (Z.to_nat 65536) (Z.to_nat 12000) Hring Hall Hrecords (λ l, eq_refl)
    k x rs1 s) as (m & t1 & x1 & t2 & Hrun1 & Hmain1 & Hout1 & Hs1 & Hp1 & b & Hx1);
    [exact Hwf|exact Hr1|exact Ht1|lia|exact Hb|exact Hp|reflexivity|exact Hs|exact Hk|].
  destruct (second_half jiffies_to_msecs cputime_to_jiffies pfn_of remap
    (Z.to_nat 48000) (Z.to_nat 65536) (Z.to_nat 12000) Hring Hall (λ l, eq_refl)
    k (consumed (cleared (Z.to_nat 48000) (replicate (Z.to_nat 65536 - Z.to_nat 48000) 0)) x1)
    (length rs1) rs2 m s) as (t3 & x3 & t4 & x4 & Hrun2 & Hmain2 & Hout2);
    [exact Hwf|exact Hr2|exact Ht2|exact Hn| | |exact Hk|].
  { unfold consumed. cbn [module]. rewrite Hp1, Hx1. reflexivity. }
  { destruct Hs1 as (Hpg & _ & Ho). by split_and!. }
  unfold session. rewrite (bind_ok _ _ _ _ _ _ Hrun1), (bind_ok _ _ _ _ _ _ Hmain1).
  rewrite (bind_ok _ _ _ _ _ _ Hrun2), Hmain2. cbn [prepend].
  do 2 eexists. split; [reflexivity|]. events. by rewrite Hout1, Hout2, <-!app_assoc.
Qed.
End sessions.

(** ** Concrete instances *)

Definition ex_system (fd : Z) : answers := Answers 4096 (λ _, fd) (λ _, Some 65536).
Definition ex_process (s : @Mp3.state seq_klist) : process := Process s (-1) 0.

Lemma ex_starts s : starts (ex_system 3) (ex_process s).
Proof. split_and!; [done|done|discriminate]. Qed.

Lemma ex_mappable : mappable id (λ _ _, 0) (ex_system 3).
Proof. exists 65536. split_and!; [done|discriminate|done|done]. Qed.


(** One sample, the program, one more sample, and the program again. *)
Lemma monitor_sessions_witness :
  let x := ex_process (ex_listed [2%positive; 1%positive]) in
  let s := module x in
  let rs1 := [(ex_procs, ex_answers None 100)] in
  let rs2 := [(ex_procs, ex_answers None 113)] in
  let recs1 := first_profile id id (Z.to_nat 12000) s rs1 in
  let recs2 := second_profile (mapped <$> profiled id id s rs2) in
  ∃ x' t, session id id id (λ _ _, 0) (ex_system 3) rs1 rs2 x = Ok (Some 0, x', t) ∧
    output t = concat (report <$> recs1) ++ summary (Z.to_nat 12000) ++
               concat (report <$> recs2) ++ summary (length recs2).
Proof.
  intros x s rs1 rs2. apply (monitor_sessions (KL := seq_klist) id id id id (λ _ _, 0)
                               (ex_system 3) x rs1 rs2).
  - apply ex_listed_wf.
  - repeat (apply Forall_cons; split; [apply ex_run_ok|]). apply Forall_nil. exact I.
  - repeat (apply Forall_cons; split; [vm_compute; discriminate|]). apply Forall_nil. exact I.
  - vm_compute. discriminate.
  - reflexivity.
  - reflexivity.
  - apply ex_starts.
  - apply ex_mappable.
Defined.
