(* ===== verification/MonitorRace.v ===== *)
(** * MP3: the monitor runs while a sample is stored (src/MP3/mp3.c, monitor.c)

    The module stores a sample as four separate words under a lock the monitor,
    which reads the mapped pages, does not take.  Here a whole run of the
    monitor falls between two of the four stores. *)
From Stdlib Require Import Ascii String.
From stdpp Require Import prelude gmap.
From S2P Require Import Prelude CInt CText Kernel UserApp Mp3 Mp3Facts Mp3System Mp3Device Monitor MonitorMain.
Open Scope Z_scope.

(** ** The stores of a sample one by one *)

Section stores.
Context {KL : KList}.
Context (jiffies_to_msecs cputime_to_jiffies : Z → Z).

(** [mp_work_func] up to its first store, with the words it is to store, and
    after its last one. *)
Definition sample_before (k : Mp3.answers) : kern Mp3.state (list Z) :=
  emit Kspin_lock ;;
  emit Klist_for_each ;;
  s ← get;
  u ← sum_entries k (entries s) (Sums 0 0 0);
  emit Kspin_unlock ;;
  emit Kspin_lock ;;
  mret (record jiffies_to_msecs cputime_to_jiffies k u).
Definition sample_after : kern Mp3.state unit := emit Kspin_unlock ;; requeue.

Lemma push_all_app vs ws (s : Mp3.state) :
  push_all (vs ++ ws) s = (push_all vs ;; push_all ws) s.
Proof. apply for_each_app. Qed.

(** These parts, with the stores in between, are the function. *)
Lemma work_func_split i k s :
  mp_work_func jiffies_to_msecs cputime_to_jiffies k s =
  (ws ← sample_before k; push_all (take i ws) ;; push_all (drop i ws) ;; sample_after) s.
Proof.
  unfold mp_work_func, work_sample, work_sum, work_write, sample_before, sample_after. run.
  destruct (sum_entries k (entries s) (Sums 0 0 0) s) as [[[u s1] t]|f]; [|done]. run.
  pose proof (push_all_app (take i (record jiffies_to_msecs cputime_to_jiffies k u))
                (drop i (record jiffies_to_msecs cputime_to_jiffies k u)) s1) as Hp.
  rewrite take_drop, <-write_sample_eq in Hp. revert Hp. run. intros Hp. rewrite Hp.
  destruct (push_all (take i _) s1) as [[[[] s2] t2]|f]; [|done]. run.
  destruct (push_all (drop i _) s2) as [[[[] s3] t3]|f]; [|done].
  destruct (requeue s3) as [[[[] s4] t4]|f]; [|done].
  by repeat (progress cbn [app] || rewrite <-!app_assoc).
Qed.

Lemma sample_before_ok k s :
  wf s → answers_ok k s →
  sample_before k s = Ok (sample jiffies_to_msecs cputime_to_jiffies k s,
    set_structs (reset (processes k s) (task_structs s)) s,
    [Kspin_lock; Klist_for_each; Kspin_unlock; Kspin_lock]).
Proof.
  intros Hwf Hk. pose proof (sweep_ok k s Hwf Hk) as Hsum.
  unfold sample_before. run. by rewrite ?app_nil_r.
Qed.
End stores.

(** ** Records out of step *)

(** The lines printed of a stream that starts with the last words [tl] of a
    record and goes on with the records [recs]. *)
Fixpoint shifted (i : nat) (tl : list Z) (recs : list (list Z)) : list (list Z) :=
  match recs with
  | [] => [tl ++ replicate i (-1)]
  | r :: recs' => (tl ++ take i r) :: shifted i (drop i r) recs'
  end.

Definition data (r : list Z) : Prop := length r = 4%nat ∧ Forall (.≠ -1) r.

Lemma concat_shifted i tl recs :
  concat (shifted i tl recs) = tl ++ concat recs ++ replicate i (-1).
Proof.
  revert tl. induction recs as [|r recs IH]; intros tl; cbn [shifted concat].
  - by rewrite app_nil_r.
  - by rewrite IH, <-!app_assoc, !(assoc_L (++) (take i r)), take_drop.
Qed.

Lemma shifted_length i tl recs : length (shifted i tl recs) = S (length recs).
Proof. revert tl. induction recs as [|r recs IH]; intros tl; [done|]. cbn. by rewrite IH. Qed.

Lemma shifted_records i tl recs :
  (i < 4)%nat → length tl = (4 - i)%nat → Forall (.≠ -1) tl → Forall data recs →
  Forall is_record (shifted i tl recs).
Proof.
  intros Hi Hl Htl Hrecs. revert tl Hl Htl.
  assert (Hhead : ∀ tl us, length tl = (4 - i)%nat → Forall (.≠ -1) tl → length us = i →
            is_record (tl ++ us)).
  { intros [|w tl] us Hl Htl Hus; cbn [length] in Hl; [lia|]. apply Forall_cons in Htl as [Hw _].
    split; [rewrite length_app; cbn [length]; lia|]. cbn. congruence. }
  induction Hrecs as [|r recs [Hr Hd] _ IH]; intros tl Hl Htl; cbn [shifted].
  - apply Forall_singleton, Hhead; [done|done|]. apply length_replicate.
  - apply Forall_cons. split; [apply Hhead; [done|done|]; rewrite length_take_le; lia|].
    apply IH; [rewrite length_drop; lia|by apply Forall_drop].
Qed.

(** ** The session *)

Section race.
Context {KL : KList}.
Context (jiffies_to_msecs cputime_to_jiffies : Z → Z).
Context (pfn_of : Z → Z) (remap : Z → Z → Z).

Abbreviation mp_profile := (profile jiffies_to_msecs cputime_to_jiffies).
Abbreviation mp_profiled := (profiled jiffies_to_msecs cputime_to_jiffies).
Abbreviation mp_sample := (sample jiffies_to_msecs cputime_to_jiffies).
Abbreviation samples := (list (gmap addr task_struct * Mp3.answers)).

(** The monitor runs after [i] of the stores of the sample [r]; the samples
    [rs] follow, and the monitor runs again. *)
Definition torn_session (k : answers) (i : nat) (r : gmap addr task_struct * Mp3.answers)
    (rs : samples) : user process (option Z) :=
  ws ← in_module (modify (set_structs r.1) ;;
                  sample_before jiffies_to_msecs cputime_to_jiffies r.2);
  in_module (push_all (take i ws)) ;;
  main pfn_of remap k ;;
  in_module (push_all (drop i ws) ;; sample_after) ;;
  in_module (mp_profile rs) ;;
  main pfn_of remap k.

Context (ring_words all_words : nat).
Context (Hring : Z.of_nat ring_words = 48000) (Hall : Z.of_nat all_words = 65536)
        (Hmonitor : ∀ l, monitor l = read_ring ring_words l).

Abbreviation after_run := (MonitorMain.after_run ring_words all_words).
Abbreviation swept := (cleared ring_words (replicate (all_words - ring_words) 0)).

(** A run of the program on words [ws] stored at [n] after a first run: with
    sentinels behind them they are the records [rs]. *)
Lemma read_stored n ws p rs :
  mapped ws ++ replicate p (-1) = concat rs → Forall is_record rs → (0 < length rs)%nat →
  (n + 4 * length rs < ring_words)%nat →
  read_ring ring_words (mapped (list_inserts n ws after_run)) = Ok (Some (rs, swept)).
Proof.
  intros Hws Hrs Hpos Hn. pose proof (f_equal length Hws) as Hlen. unfold mapped in Hlen.
  rewrite concat_length, length_app, length_fmap, length_replicate in Hlen by done.
  rewrite (mapped_inserts ring_words all_words) by lia.
  replace (ring_words - (n + length ws))%nat
    with (p + (ring_words - (n + 4 * length rs)))%nat by lia.
  rewrite replicate_add, <-!app_assoc, (assoc_L (++) (mapped ws)), Hws.
  rewrite read_ring_from; [|done|done|lia|].
  - do 3 f_equal. unfold cleared. rewrite app_assoc, <-replicate_add. do 2 f_equal. lia.
  - intros _. destruct (ring_words - (n + 4 * length rs))%nat as [|d] eqn:Hd; [lia|done].
Qed.

Lemma main_stored k x n ws p rs :
  starts k x → mappable pfn_of remap k → mem_buf (module x) = Live (list_inserts n ws after_run) →
  mapped ws ++ replicate p (-1) = concat rs → Forall is_record rs → (0 < length rs)%nat →
  (n + 4 * length rs < ring_words)%nat →
  ∃ t, main pfn_of remap k x = Ok (Some 0, consumed swept x, t) ∧
    output t = concat (report <$> rs) ++ summary (length rs).
Proof.
  intros Hs Hk Hb Hws Hrs Hpos Hn.
  destruct (mmap_ok pfn_of remap k (device_open k x) Hk) as [t Hm].
  pose proof (main_eq pfn_of remap k x _ rs swept t Hs Hm Hb) as Hmain.
  eexists. split; [apply Hmain|].
  - rewrite length_inserts. apply (after_run_length _ _ Hring Hall).
  - rewrite Hmonitor. by apply (read_stored n ws p).
  - unfold INT_MAX. lia.
  - events. rewrite output_records. by events.
Qed.

(** A module whose buffer a run of the program has swept, [n] words into it. *)
Definition swept_module (n : nat) (s : Mp3.state) : Prop :=
  wf s ∧ mem_buf s = Live after_run ∧ mem_buf_ptr s = Z.of_nat n.

(** Storing words at the end of what is stored. *)
Lemma push_stored n ws b (s : Mp3.state) :
  mem_buf s = Live b → Z.of_nat (length b) = 65536 → mem_buf_ptr s = Z.of_nat n →
  Z.of_nat (n + length ws) ≤ 65536 →
  push_all ws s = Ok (tt, set_buf (Live (list_inserts n ws b)) (Z.of_nat (n + length ws)) s, []).
Proof.
  intros Hb Hl Hp Hn. rewrite (push_all_ok ws b s) by (done || (unfold INT_MAX; lia)).
  rewrite Hp, Nat2Z.id. do 4 f_equal. lia.
Qed.

(** Up to the first run of the program. *)
Lemma torn_first k i n r x :
  swept_module n (module x) → run_ok (module x) r → (i < 4)%nat → (n + 4 < ring_words)%nat →
  let ws := mp_sample r.2 (set_structs r.1 (module x)) in
  Forall (λ w, int64 w ≠ -1) ws → (0 < i)%nat → starts k x → mappable pfn_of remap k →
  let torn := mapped (take i ws) ++ replicate (4 - i) (-1) in
  ∃ m t1 x1 t2, in_module (modify (set_structs r.1) ;;
        sample_before jiffies_to_msecs cputime_to_jiffies r.2) x = Ok (ws, set_module (set_structs m (module x)) x, Kernel <$> t1) ∧
    in_module (push_all (take i ws)) (set_module (set_structs m (module x)) x) = Ok (tt, x1, []) ∧
    main pfn_of remap k x1 = Ok (Some 0, consumed swept x1, t2) ∧
    module (consumed swept x1) = set_buf (Live after_run) (Z.of_nat (n + i)) (set_structs m (module x)) ∧
    output t2 = concat (report <$> [torn]) ++ summary 1.
Proof.
  intros (Hwf & Hb & Hp) Hr Hi Hn ws Hws Hi0 Hs Hk torn. set (s := module x) in *.
  pose proof (sample_before_ok jiffies_to_msecs cputime_to_jiffies r.2 (set_structs r.1 s) Hwf Hr) as Hbefore.
  set (m := reset _ _) in Hbefore. fold ws in Hbefore.
  assert (Hlen : length (take i ws) = i) by (rewrite length_take_le; [done|change (i ≤ 4)%nat; lia]).
  set (s1 := set_structs m s).
  assert (Hpush : push_all (take i ws) s1 =
    Ok (tt, set_buf (Live (list_inserts n (take i ws) after_run)) (Z.of_nat (n + i)) s1, [])).
  { rewrite (push_stored n _ after_run) by
      (rewrite ?Hlen; done || lia || apply (after_run_length _ _ Hring Hall)). by rewrite Hlen. }
  set (s2 := set_buf _ _ s1) in Hpush. set (x1 := set_module s2 x).
  destruct (main_stored k x1 n (take i ws) (4 - i) [torn]) as (t2 & Hmain & Hout);
    [exact Hs|exact Hk|done|cbn; by rewrite app_nil_r| |cbn; lia|cbn [length]; lia|].
  { apply Forall_singleton. unfold torn. destruct i as [|i]; [lia|].
    unfold ws in *. split; [by rewrite length_app, length_replicate; unfold mapped; rewrite length_fmap, Hlen; lia|].
    apply Forall_cons in Hws as [Hw _]. cbn. congruence. }
  exists m. eexists _, x1, t2. split_and!.
  - unfold in_module. fold s. rewrite (bind_ok _ _ _ tt (set_structs r.1 s) []) by done.
    rewrite Hbefore. reflexivity.
  - unfold in_module. cbn [set_module module]. fold s s1. by rewrite Hpush.
  - done.
  - reflexivity.
  - exact Hout.
Qed.

Lemma profiled_data s (rs : samples) :
  Forall (λ w, int64 w ≠ -1) (concat (mp_profiled s rs)) →
  Forall data (mapped <$> mp_profiled s rs).
Proof.
  intros Hd. apply Forall_fmap. unfold profiled in *.
  induction rs as [|r rs IH]; [constructor|]. cbn [fmap list_fmap concat] in *.
  apply Forall_app in Hd as [Hr Hd]. apply Forall_cons. split; [|by apply IH].
  split; [done|]. by apply Forall_fmap.
Qed.

(** From the remaining stores to the second run. *)
Lemma torn_second k i n m ws rs s x :
  wf s → Forall (run_ok s) rs → (0 < i < 4)%nat → length ws = 4%nat →
  module x = set_buf (Live after_run) (Z.of_nat (n + i)) (set_structs m s) →
  (n + 4 * S (length rs) + 4 ≤ ring_words)%nat →
  Forall (λ w, int64 w ≠ -1) (ws ++ concat (mp_profiled s rs)) → starts k x → mappable pfn_of remap k →
  let recs := shifted i (mapped (drop i ws)) (mapped <$> mp_profiled s rs) in
  ∃ t1 x1 t2 x2 t3 x3,
    in_module (push_all (drop i ws) ;; sample_after) x = Ok (tt, x1, Kernel <$> t1) ∧
    in_module (mp_profile rs) x1 = Ok (tt, x2, Kernel <$> t2) ∧
    main pfn_of remap k x2 = Ok (Some 0, x3, t3) ∧
    output t3 = concat (report <$> recs) ++ summary (length recs).
Proof.
  intros Hwf Hrs Hi Hlen Hx Hn [Hws Hdata]%Forall_app Hs Hk recs.
  pose proof (after_run_length _ _ Hring Hall) as Hal.
  assert (Hdrop : length (drop i ws) = (4 - i)%nat) by (rewrite length_drop; lia).
  assert (Hpush : push_all (drop i ws) (module x) =
    Ok (tt, set_buf (Live (list_inserts (n + i) (drop i ws) after_run)) (Z.of_nat (n + 4)) (module x), [])).
  { rewrite (push_stored (n + i) _ after_run) by (rewrite ?Hx, ?Hdrop; done || lia).
    do 4 f_equal. rewrite Hdrop. lia. }
  set (s1 := set_buf _ _ (module x)) in Hpush. set (x1 := set_module s1 x).
  destruct (profile_ok jiffies_to_msecs cputime_to_jiffies rs
    (list_inserts (n + i) (drop i ws) after_run) s1) as (m' & t2 & Hprof).
  { unfold s1. rewrite Hx. exact Hwf. } { unfold s1. rewrite Hx. exact Hrs. } { done. }
  { rewrite length_inserts. exact Hal. } { cbn. lia. }
  { cbn. change capacity with 65536. lia. }
  change (mem_buf_ptr s1) with (Z.of_nat (n + 4)) in Hprof. rewrite Nat2Z.id in Hprof.
  replace (profiled jiffies_to_msecs cputime_to_jiffies s1 rs) with (mp_profiled s rs) in Hprof
    by (unfold s1; by rewrite Hx).
  replace (n + 4)%nat with (length (drop i ws) + (n + i))%nat in Hprof at 1 by lia.
  rewrite <-list_inserts_app_l in Hprof.
  set (s2 := set_buf _ _ _) in Hprof. set (x2 := set_module s2 x1).
  destruct (main_stored k x2 (n + i) (drop i ws ++ concat (mp_profiled s rs)) i recs)
    as (t3 & Hmain & Hout); try done.
  - unfold recs. rewrite concat_shifted. unfold mapped at 1. by rewrite fmap_app, mapped_concat, <-app_assoc.
  - apply shifted_records; [lia| | |by apply profiled_data].
    + unfold mapped. by rewrite length_fmap.
    + apply Forall_fmap. by apply Forall_drop.
  - unfold recs. rewrite shifted_length. lia.
  - unfold recs, profiled. rewrite shifted_length, !length_fmap. lia.
  - do 2 eexists. exists t2, x2, t3. eexists. split; [|split; [by apply in_module_ok|by split]].
    apply in_module_ok. rewrite (bind_ok _ _ _ _ _ _ Hpush). reflexivity.
Qed.
End race.

(** ** Properties *)

(** C32: The four stores of a sample are not atomic for the monitor, which reads
    the mapped pages without the module's lock.  When a run of the monitor falls
    after the first [i] stores of a sample, it prints an incomplete record,
    filled up with sentinels, and clears it; the remaining words are then taken
    for the beginning of a record, and every line of the next run mixes the end
    of one sample with the beginning of the following one. *)
Theorem torn_sample {KL : KList} jiffies_to_msecs cputime_to_jiffies
    pfn_of remap k i n r rs x :
  let s := module x in
  let ws := sample jiffies_to_msecs cputime_to_jiffies r.2 (set_structs r.1 s) in
  let recs := profiled jiffies_to_msecs cputime_to_jiffies s rs in
  let torn := mapped (take i ws) ++ replicate (4 - i) (-1) in
  let lines := shifted i (mapped (drop i ws)) (mapped <$> recs) in
  swept_module (Z.to_nat 48000) (Z.to_nat 65536) n s →
  run_ok s r → Forall (run_ok s) rs → (0 < i < 4)%nat →
  Forall (λ w, int64 w ≠ -1) (ws ++ concat recs) →
  Z.of_nat n + 4 * (2 + Z.of_nat (length rs)) ≤ 48000 →
  starts k x → mappable pfn_of remap k →
  (∀ s', mp_work_func jiffies_to_msecs cputime_to_jiffies r.2 s' =
     (ws ← sample_before jiffies_to_msecs cputime_to_jiffies r.2;
      push_all (take i ws) ;; push_all (drop i ws) ;; sample_after) s') ∧
  ∃ x' t, torn_session jiffies_to_msecs cputime_to_jiffies pfn_of remap k i r rs x =
      Ok (Some 0, x', t) ∧
    output t = concat (report <$> [torn]) ++ summary 1 ++
               concat (report <$> lines) ++ summary (S (length rs)).
Proof.
  intros s ws recs torn lines Hsw Hr Hrs Hi Hd Hn Hs Hk. split; [intros s'; apply work_func_split|].
  assert (Hall : Z.of_nat (Z.to_nat 65536) = 65536) by (by apply Z2Nat.id).
  pose proof ring_size as Hring. pose proof Hd as [Hws _]%Forall_app.
  destruct (torn_first jiffies_to_msecs cputime_to_jiffies pfn_of remap (Z.to_nat 48000)
    (Z.to_nat 65536) Hring Hall (λ l, eq_refl) k i n r x Hsw Hr)
    as (m & t1 & x1 & t2 & Hbefore & Hpush & Hmain & Hx1 & Hout1);
    [lia|lia|exact Hws|lia|exact Hs|exact Hk|].
  set (x2 := consumed _ x1) in Hmain, Hx1.
  destruct (torn_second jiffies_to_msecs cputime_to_jiffies pfn_of remap (Z.to_nat 48000)
    (Z.to_nat 65536) Hring Hall (λ l, eq_refl) k i n m ws rs s x2)
    as (t3 & x3 & t4 & x4 & t5 & x5 & Hafter & Hprof & Hmain2 & Hout2);
    [apply Hsw|exact Hrs|exact Hi|reflexivity|exact Hx1|lia|exact Hd| |exact Hk|].
  { destruct Hs as (Hpg & _ & Ho). by split_and!. }
  unfold torn_session. rewrite (bind_ok _ _ _ _ _ _ Hbefore), (bind_ok _ _ _ _ _ _ Hpush).
  rewrite (bind_ok _ _ _ _ _ _ Hmain), (bind_ok _ _ _ _ _ _ Hafter), (bind_ok _ _ _ _ _ _ Hprof).
  rewrite Hmain2. cbn [prepend]. do 2 eexists. split; [reflexivity|]. events.
  rewrite Hout1, Hout2, shifted_length. unfold recs, profiled. by rewrite !length_fmap, <-!app_assoc.
Qed.

(** ** Concrete instances *)

(** A module after one sample and a run of the program. *)
Definition ex_swept : @Mp3.state seq_klist :=
  set_buf (Live (after_run (Z.to_nat 48000) (Z.to_nat 65536))) 4 (ex_listed [2%positive; 1%positive]).

(** The program runs after the first store of a sample; another sample follows. *)
Lemma torn_sample_witness :
  let x := ex_process ex_swept in
  let r := (ex_procs, ex_answers None 100) in
  let rs := [(ex_procs, ex_answers None 113)] in
  let s := module x in
  let ws := sample (KL := seq_klist) id id r.2 (set_structs r.1 s) in
  let recs := profiled (KL := seq_klist) id id s rs in
  let torn := mapped (take 1 ws) ++ replicate 3 (-1) in
  let lines := shifted 1 (mapped (drop 1 ws)) (mapped <$> recs) in
  (∀ s', mp_work_func (KL := seq_klist) id id r.2 s' =
     (ws ← sample_before (KL := seq_klist) id id r.2;
      push_all (take 1 ws) ;; push_all (drop 1 ws) ;; sample_after (KL := seq_klist)) s') ∧
  ∃ x' t, torn_session id id id (λ _ _, 0) (ex_system 3) 1 r rs x = Ok (Some 0, x', t) ∧
    output t = concat (report <$> [torn]) ++ summary 1 ++
               concat (report <$> lines) ++ summary 2.
Proof.
  intros x r rs. apply (torn_sample (KL := seq_klist) id id id (λ _ _, 0) (ex_system 3) 1 4 r rs x).
  - split; [exact ex_listed_wf|]. split; reflexivity.
  - exact (ex_run_ok 100 [2%positive; 1%positive]).
  - apply Forall_cons. split; [exact (ex_run_ok 113 [2%positive; 1%positive])|]. apply Forall_nil. exact I.
  - lia.
  - repeat (apply Forall_cons; split; [vm_compute; discriminate|]). apply Forall_nil. exact I.
  - vm_compute. discriminate.
  - apply ex_starts.
  - apply ex_mappable.
Defined.
