(* ===== verification/Work.v ===== *)
(** * MP3: the synthetic workload (src/MP3/work.c)

    The workload registers itself, allocates [msize] blocks of one megabyte,
    touches them at random or with locality, frees them and unregisters. *)
From Stdlib Require Import Ascii String.
From stdpp Require Import prelude gmap.
From S2P Require Import Prelude CInt CText Kernel.
Open Scope Z_scope.

Definition N_ITERATION : nat := 20.
Definition MB : Z := 1048576.

(** The calls of the process. *)
Inductive call : Type :=
  | Csystem (cmd : text)
  | Cmalloc (a : option addr)
  | Cfree (a : addr)
  | Cstore (blk target : Z)     (* buffer[blk][target] = '*' *)
  | Cprintf (t : text)
  | Csleep.

Section work.
(** The results of successive calls of [rand] and [malloc], and the thread id
    the process got. *)
Context (rand : nat → Z) (malloc : nat → option addr) (mypid : Z).

(** [buffer] (the allocated blocks, in order) and the number of [rand] calls. *)
Record state : Type := State { buffer : list addr; rands : nat }.

Definition next_rand : cmd state call Z :=
  s ← get; modify (λ s, State (buffer s) (S (rands s))) ;; mret (rand (rands s)).

(** [rand_access]: the indexing reads the block pointer. *)
Definition rand_access (msize : Z) : cmd state call unit :=
  r ← next_rand;
  let target := Z.rem r (int32 (msize * 1024 * 1024)) in
  let target := if decide (target < 0) then int32 (target * -1) else target in
  let blk := Z.quot (Z.quot target 1024) 1024 in
  let offset := int32 (target - int32 (blk * 1024 * 1024)) in
  s ← get;
  _ ← lift (if decide (0 ≤ blk)
            then from_option_or OutOfBounds (buffer s !! Z.to_nat blk)
            else Fault OutOfBounds);
  if decide (0 ≤ offset < MB) then emit (Cstore blk offset) else failwith OutOfBounds.

Definition local_access (a : Z) : cmd state call Z :=
  r ← next_rand;
  if decide (r < 0) then mret (int32 (a + 1))
  else r' ← next_rand; mret (int32 (a + Z.rem r' 300)).

(** The inner loop: [n] accesses. *)
Fixpoint accesses (msize : Z) (temporal : bool) (n : nat) (a : Z) : cmd state call Z :=
  match n with
  | O => mret a
  | S n' =>
      a' ← (if temporal then
              r ← next_rand;
              let locality := Z.rem r 10 in
              if decide (-2 < locality < 2) then rand_access msize ;; mret a
              else local_access a
            else rand_access msize ;; mret a);
      accesses msize temporal n' a'
  end.

Definition start_format : string :=
  "A work prcess starts (configuration: %d %d %d)" ++ String NL EmptyString.
Definition iteration_format : string := "[%d] %d iteration" ++ String NL EmptyString.

(** The iterations from number [k] on, [n] of them. *)
Fixpoint iterations (msize : Z) (temporal : bool) (naccess n : nat) (k a : Z) :
    cmd state call unit :=
  match n with
  | O => mret tt
  | S n' =>
      emit (Cprintf (sprintf iteration_format [AInt mypid; AInt k])) ;;
      a' ← accesses msize temporal naccess a;
      emit Csleep ;;
      iterations msize temporal naccess n' (k + 1) a'
  end.

(** The allocation loop for [i = first, ..., first + n - 1]: [false] when a
    [malloc] returned NULL. *)
Fixpoint allocate (n first : nat) : cmd state call bool :=
  match n with
  | O => mret true
  | S n' =>
      emit (Cmalloc (malloc first)) ;;
      match malloc first with
      | Some a => modify (λ s, State (buffer s ++ [a]) (rands s)) ;; allocate n' (S first)
      | None => mret false
      end
  end.

Definition free_all (blocks : list addr) : cmd state call unit :=
  for_each blocks (λ a, emit (Cfree a)).

Definition reg_format : string := "echo 'R %u'> /proc/mp/status".
Definition unreg_format : string := "echo 'U %u'> /proc/mp/status".
Definition oom_format : string := "Out of memory error! (failed at %dMB)" ++ String NL EmptyString.

(** [main] on its three arguments, as strings; the counter of the rollback
    loop is -1 when the message is printed. *)
Definition main (arg1 arg2 arg3 : text) : cmd state call Z :=
  let msize := atoi arg1 in
  if decide (1024 < msize ∨ msize < 1) then
    emit (Cprintf (lit "memsize shall be between 1 and 1024" ++ [NL])) ;; mret (-1)
  else
  let temporal := negb (bool_decide (arg2 !! 0%nat = Some "R"%char)) in
  let naccess := atoi arg3 in
  if decide (naccess < 1) then
    emit (Cprintf (lit "naccess shall be >=1" ++ [NL])) ;; mret (-1)
  else
    emit (Cprintf (sprintf start_format
      [AInt msize; AInt (if temporal then 1 else 0); AInt naccess])) ;;
    emit (Csystem (sprintf reg_format [AInt mypid])) ;;
    ok ← allocate (Z.to_nat msize) 0;
    s ← get;
    if ok : bool then
      iterations msize temporal (Z.to_nat naccess) N_ITERATION 0 0 ;;
      free_all (buffer s) ;;
      emit (Csystem (sprintf unreg_format [AInt mypid])) ;;
      mret 0
    else
      free_all (reverse (buffer s)) ;;
      emit (Cprintf (sprintf oom_format [AInt (-1)])) ;;
      mret (-1).
End work.

(** The blocks a trace allocates and frees, and the commands it runs. *)
Definition allocated (t : list call) : list addr :=
  omap (λ c, match c with Cmalloc (Some a) => Some a | _ => None end) t.
Definition freed (t : list call) : list addr :=
  omap (λ c, match c with Cfree a => Some a | _ => None end) t.
Definition systems (t : list call) : list text :=
  omap (λ c, match c with Csystem x => Some x | _ => None end) t.

Definition quiet (t : list call) : Prop :=
  allocated t = [] ∧ freed t = [] ∧ systems t = [].

Lemma quiet_app t1 t2 : quiet t1 → quiet t2 → quiet (t1 ++ t2).
Proof.
  unfold quiet, allocated, freed, systems. rewrite !omap_app.
  by intros (-> & -> & ->) (-> & -> & ->).
Qed.

Section work_theory.
Context (rand : nat → Z) (malloc : nat → option addr) (mypid : Z).
Implicit Types s : state.

(** The target of a random access, and its block. *)
Definition target_of (r msize : Z) : Z := Z.abs (Z.rem r (msize * MB)).

Lemma target_range r msize : 1 ≤ msize → 0 ≤ target_of r msize < msize * MB.
Proof.
  intros Hm. unfold target_of, MB. pose proof (Z.rem_bound_abs r (msize * 1048576)). lia.
Qed.

Lemma rand_access_ok msize s :
  1 ≤ msize ≤ 1024 → Z.of_nat (length (buffer s)) = msize →
  ∃ blk offset, rand_access rand msize s =
      Ok (tt, State (buffer s) (S (rands s)), [Cstore blk offset]) ∧
    0 ≤ blk < msize ∧ 0 ≤ offset < MB ∧
    blk * MB + offset = target_of (rand (rands s)) msize.
Proof.
  intros Hm Hlen. set (target := target_of (rand (rands s)) msize).
  pose proof (target_range (rand (rands s)) msize ltac:(lia)) as Ht. fold target in Ht.
  assert (Hdiv : target / 1024 / 1024 = target / MB) by (by rewrite Z.div_div by lia).
  pose proof (Z.div_mod target MB ltac:(done)) as Hdm.
  pose proof (Z.mod_pos_bound target MB ltac:(done)) as Hmod.
  assert (Hblk : 0 ≤ target / MB < msize).
  { split; [apply Z.div_pos; unfold MB in *; lia|]. apply Z.div_lt_upper_bound; unfold MB in *; lia. }
  exists (target / MB), (target mod MB). split; [|split; [done|split; [done|lia]]].
  unfold rand_access, next_rand. run. cbn [buffer rands].
  rewrite (int32_small (msize * 1024 * 1024)) by (red; change (2 ^ (32 - 1)) with 2147483648; lia).
  replace (msize * 1024 * 1024) with (msize * MB) by (unfold MB; lia).
  set (r := Z.rem (rand (rands s)) (msize * MB)).
  assert (Habs : (if decide (r < 0) then int32 (r * -1) else r) = target).
  { pose proof (Z.rem_bound_abs (rand (rands s)) (msize * MB)) as Hb. fold r in Hb.
    unfold target, target_of. fold r. unfold MB in *. case_decide; [|lia].
    rewrite int32_small; [lia|]. red. change (2 ^ (32 - 1)) with 2147483648. lia. }
  rewrite Habs. rewrite (Z.quot_div_nonneg target 1024), (Z.quot_div_nonneg (target / 1024) 1024)
    by (try apply Z.div_pos; lia).
  rewrite Hdiv. unfold MB in *.
  replace (target / 1048576 * 1024 * 1024) with (1048576 * (target / 1048576)) by lia.
  rewrite (int32_small (1048576 * _)) by (red; change (2 ^ (32 - 1)) with 2147483648; lia).
  replace (target - 1048576 * (target / 1048576)) with (target mod 1048576) by lia.
  rewrite (int32_small (_ mod _)) by (red; change (2 ^ (32 - 1)) with 2147483648; lia).
  rewrite decide_True by lia.
  destruct (lookup_lt_is_Some_2 (buffer s) (Z.to_nat (target / 1048576))) as [a Ha]; [lia|].
  rewrite Ha. run. by rewrite decide_True by lia.
Qed.

Definition touches (msize : Z) s (s' : state) (t : list call) : Prop :=
  buffer s' = buffer s ∧ quiet t ∧
  ∀ blk off, Cstore blk off ∈ t → 0 ≤ blk < msize ∧ 0 ≤ off < MB.

Lemma touches_app msize s s1 s2 t1 t2 :
  touches msize s s1 t1 → touches msize s1 s2 t2 → touches msize s s2 (t1 ++ t2).
Proof.
  intros (Hb1 & Hq1 & H1) (Hb2 & Hq2 & H2). split; [congruence|].
  split; [by apply quiet_app|]. intros blk off [?|?]%elem_of_app; eauto.
Qed.

Lemma touches_rand msize s : touches msize s (State (buffer s) (S (rands s))) [].
Proof. split; [done|]. split; [done|]. intros ? ? H. inversion H. Qed.

Lemma rand_access_wp msize s F :
  1 ≤ msize ≤ 1024 → Z.of_nat (length (buffer s)) = msize →
  wp (rand_access rand msize) s (λ _ s' t, touches msize s s' t) F.
Proof.
  intros Hm Hl. destruct (rand_access_ok msize s Hm Hl) as (blk & off & Heq & Hb & Ho & _).
  eapply wp_intro; [exact Heq|]. split; [done|]. split; [done|].
  intros b o Hin. apply list_elem_of_singleton in Hin. by injection Hin as -> ->.
Qed.

Lemma local_access_wp msize a s F :
  wp (local_access rand a) s (λ _ s' t, touches msize s s' t) F.
Proof.
  unfold local_access, next_rand. wp_go. cbn [buffer rands].
  destruct (decide _); wp_go; (split; [done|split; [done|intros ? ? H; inversion H]]).
Qed.

Lemma accesses_wp msize temporal n a s F :
  1 ≤ msize ≤ 1024 → Z.of_nat (length (buffer s)) = msize →
  wp (accesses rand msize temporal n a) s (λ _ s' t, touches msize s s' t) F.
Proof.
  intros Hm. revert a s. induction n as [|n IH]; intros a s Hl; cbn [accesses].
  { wp_go. split; [done|]. split; [done|]. intros ? ? H. inversion H. }
  assert (Hone : wp (if temporal then
              r ← next_rand rand;
              let locality := Z.rem r 10 in
              if decide (-2 < locality < 2) then rand_access rand msize ;; mret a
              else local_access rand a
            else rand_access rand msize ;; mret a) s (λ _ s' t, touches msize s s' t) F).
  { destruct temporal.
    - unfold next_rand at 1. wp_go. cbn [buffer rands]. destruct (decide _).
      + rewrite wp_bind. eapply wp_mono; [by apply rand_access_wp| |done].
        intros [] s' t Ht. wp_go. rewrite app_nil_r.
        exact (touches_app _ _ _ _ [] _ (touches_rand msize s) Ht).
      + eapply wp_mono; [apply (local_access_wp msize)| |done]. intros ? s' t Ht.
        exact (touches_app _ _ _ _ [] _ (touches_rand msize s) Ht).
    - rewrite wp_bind. eapply wp_mono; [by apply rand_access_wp| |done].
      intros [] s' t Ht. wp_go. by rewrite app_nil_r. }
  rewrite wp_bind. eapply wp_mono; [exact Hone| |done]. intros a' s' t Ht.
  eapply wp_mono; [apply IH| |done].
  - by rewrite (proj1 Ht).
  - intros a'' s'' t' Ht'. exact (touches_app _ _ _ _ _ _ Ht Ht').
Qed.

(** A call that neither allocates nor touches memory. *)
Lemma touches_call msize s s' c t :
  quiet [c] → (∀ blk off, c ≠ Cstore blk off) → touches msize s s' t → touches msize s s' (c :: t).
Proof.
  intros Hq Hc Ht. apply (touches_app msize s s s' [c] t); [|done]. split; [done|]. split; [done|].
  intros blk off Hin%list_elem_of_singleton. by destruct (Hc blk off).
Qed.

Lemma iterations_wp msize temporal naccess n k a s F :
  1 ≤ msize ≤ 1024 → Z.of_nat (length (buffer s)) = msize →
  wp (iterations rand mypid msize temporal naccess n k a) s (λ _ s' t, touches msize s s' t) F.
Proof.
  intros Hm. revert k a s. induction n as [|n IH]; intros k a s Hl; cbn [iterations].
  { wp_go. split; [done|]. split; [done|]. intros ? ? H. inversion H. }
  wp_go. eapply wp_mono; [by apply accesses_wp| |done]. intros a' s' t Ht. wp_go.
  eapply wp_mono; [apply IH| |done].
  - by rewrite (proj1 Ht).
  - intros [] s'' t' Ht'. cbn [app]. apply touches_call; [done|done|].
    eapply touches_app; [exact Ht|]. by apply touches_call.
Qed.

Lemma allocate_ok n first s :
  ∃ ok got t, allocate malloc n first s = Ok (ok, State (buffer s ++ got) (rands s), t) ∧
    allocated t = got ∧ freed t = [] ∧ systems t = [] ∧
    (∀ blk off, Cstore blk off ∉ t) ∧
    (if ok : bool then length got = n ∧ ∀ i, (first ≤ i < first + n)%nat → is_Some (malloc i)
     else ∃ i, (first ≤ i < first + n)%nat ∧ malloc i = None).
Proof.
  revert first s. induction n as [|n IH]; intros first s; cbn [allocate].
  { exists true, [], []. rewrite app_nil_r. split; [by destruct s|].
    split_and!; try done; [intros ?? H; inversion H|lia]. }
  destruct (malloc first) as [a|] eqn:Ha.
  - destruct (IH (S first) (State (buffer s ++ [a]) (rands s)))
      as (ok & got & t & Heq & Hal & Hfr & Hsy & Hst & Hok).
    exists ok, (a :: got), (Cmalloc (Some a) :: t). split; [|split_and!].
    + cbn [buffer rands] in Heq. rewrite <-app_assoc in Heq. run. done.
    + unfold allocated in *. cbn. by rewrite Hal.
    + done.
    + done.
    + intros blk off [|Hin]%elem_of_cons; [done|]. by eapply Hst.
    + destruct ok.
      * destruct Hok as [Hl Hi]. split; [cbn; lia|]. intros i Hi'.
        destruct (decide (i = first)) as [->|]; [by eexists|]. apply Hi. lia.
      * destruct Hok as (i & Hi & Hn). exists i. split; [lia|done].
  - exists false, [], [Cmalloc None]. rewrite app_nil_r. split; [by destruct s|].
    split_and!; try done.
    + intros blk off Hin. apply list_elem_of_singleton in Hin. done.
    + exists first. split; [lia|done].
Qed.

Lemma free_all_ok blocks s : free_all blocks s = Ok (tt, s, Cfree <$> blocks).
Proof.
  unfold free_all. induction blocks as [|a blocks IH]; [done|]. cbn [for_each].
  rewrite (bind_ok _ _ _ tt s [Cfree a]) by done. by rewrite IH.
Qed.

(** What the parts of a trace contribute. *)
Lemma allocated_app t1 t2 : allocated (t1 ++ t2) = allocated t1 ++ allocated t2.
Proof. apply omap_app. Qed.

Lemma freed_app t1 t2 : freed (t1 ++ t2) = freed t1 ++ freed t2.
Proof. apply omap_app. Qed.

Lemma systems_app t1 t2 : systems (t1 ++ t2) = systems t1 ++ systems t2.
Proof. apply omap_app. Qed.

Lemma freed_frees blocks : freed (Cfree <$> blocks) = blocks.
Proof. induction blocks as [|a l IH]; [done|]. unfold freed in *. cbn. by f_equal. Qed.

Lemma allocated_frees blocks : allocated (Cfree <$> blocks) = [].
Proof. by induction blocks. Qed.

Lemma systems_frees blocks : systems (Cfree <$> blocks) = [].
Proof. by induction blocks. Qed.

Lemma frees_no_store (blocks : list addr) blk off : Cstore blk off ∉ Cfree <$> blocks.
Proof. intros (? & ? & ?)%list_elem_of_fmap. done. Qed.

#[local] Hint Rewrite allocated_app freed_app systems_app allocated_frees freed_frees systems_frees : calls.

(** The arguments [main] accepts. *)
Definition valid_args (arg1 arg3 : text) : Prop := 1 ≤ atoi arg1 ≤ 1024 ∧ 1 ≤ atoi arg3.

(** ** The three ways [main] ends *)

Abbreviation main := (main rand malloc mypid).
Abbreviation starts arg1 arg2 arg3 :=
  (Cprintf (sprintf start_format
    [AInt (atoi arg1); AInt (if negb (bool_decide (arg2 !! 0%nat = Some "R"%char)) then 1 else 0);
     AInt (atoi arg3)])).
Abbreviation registers := (Csystem (sprintf reg_format [AInt mypid])).
Abbreviation unregisters := (Csystem (sprintf unreg_format [AInt mypid])).

Lemma main_rejects arg1 arg2 arg3 s :
  ¬ valid_args arg1 arg3 → ∃ x, main arg1 arg2 arg3 s = Ok (-1, s, [Cprintf x]).
Proof.
  unfold valid_args, Work.main. intros Hv.
  destruct (decide (1024 < atoi arg1 ∨ atoi arg1 < 1)); [by eexists|].
  rewrite decide_True by lia. by eexists.
Qed.

Lemma main_completes arg1 arg2 arg3 got ta s :
  valid_args arg1 arg3 →
  allocate malloc (Z.to_nat (atoi arg1)) 0 s = Ok (true, State got (rands s), ta) →
  length got = Z.to_nat (atoi arg1) →
  ∃ s' ti, main arg1 arg2 arg3 s =
      Ok (0, s', [starts arg1 arg2 arg3; registers] ++ ta ++ ti ++ (Cfree <$> got) ++ [unregisters]) ∧
    touches (atoi arg1) (State got (rands s)) s' ti.
Proof.
  intros [Hm Hn] Heq Hl.
  set (temporal := negb (bool_decide (arg2 !! 0%nat = Some "R"%char))).
  pose proof (iterations_wp (atoi arg1) temporal (Z.to_nat (atoi arg3)) N_ITERATION 0 0
    (State got (rands s)) (λ _, False) ltac:(lia) ltac:(cbn; lia)) as Hit.
  apply wp_ok in Hit as ([] & s' & ti & Hieq & Ht).
  exists s', ti. split; [|done].
  pose proof (free_all_ok (buffer (State got (rands s))) s') as Hfree. unfold Work.main.
  rewrite !decide_False by lia. run. fold temporal. rewrite Hieq. run. done.
Qed.

Lemma main_out_of_memory arg1 arg2 arg3 got ta s :
  valid_args arg1 arg3 →
  allocate malloc (Z.to_nat (atoi arg1)) 0 s = Ok (false, State got (rands s), ta) →
  main arg1 arg2 arg3 s =
    Ok (-1, State got (rands s),
        [starts arg1 arg2 arg3; registers] ++ ta ++ (Cfree <$> reverse got) ++
        [Cprintf (sprintf oom_format [AInt (-1)])]).
Proof.
  intros [Hm Hn] Heq.
  pose proof (free_all_ok (reverse (buffer (State got (rands s)))) (State got (rands s))) as Hfree.
  unfold Work.main. rewrite !decide_False by lia. run. done.
Qed.

(** ** Properties *)

(** C33: The workload never indexes outside its blocks and frees every block it
    allocated exactly once, whatever its arguments and random numbers.  With
    valid arguments and enough memory it returns 0 after registering and
    unregistering; when an allocation fails it returns -1 and stays registered
    with the module. *)
Theorem work_balanced arg1 arg2 arg3 :
  ∃ r s t, main arg1 arg2 arg3 (State [] 0) = Ok (r, s, t) ∧
    Permutation (freed t) (allocated t) ∧
    (∀ blk off, Cstore blk off ∈ t → 0 ≤ blk < atoi arg1 ∧ 0 ≤ off < MB) ∧
    (¬ valid_args arg1 arg3 → r = -1 ∧ allocated t = [] ∧ systems t = []) ∧
    (valid_args arg1 arg3 → (∀ i, (i < Z.to_nat (atoi arg1))%nat → is_Some (malloc i)) →
       r = 0 ∧ systems t = [sprintf reg_format [AInt mypid]; sprintf unreg_format [AInt mypid]]) ∧
    (valid_args arg1 arg3 → (∃ i, (i < Z.to_nat (atoi arg1))%nat ∧ malloc i = None) →
       r = -1 ∧ systems t = [sprintf reg_format [AInt mypid]]).
Proof.
  destruct (decide (valid_args arg1 arg3)) as [Hv|Hv].
  2: { destruct (main_rejects arg1 arg2 arg3 (State [] 0) Hv) as (x & Heq). do 3 eexists.
       split; [exact Heq|]. split_and!; try done. intros blk off H.
       apply list_elem_of_singleton in H. done. }
  destruct (allocate_ok (Z.to_nat (atoi arg1)) 0 (State [] 0))
    as (ok & got & ta & Heq & Hal & Hfr & Hsy & Hst & Hok). destruct ok.
  - destruct Hok as [Hl Hi].
    destruct (main_completes arg1 arg2 arg3 got ta (State [] 0) Hv Heq Hl)
      as (s & ti & Hmain & _ & (Hia & Hif & His) & Hist).
    do 3 eexists. split; [exact Hmain|].
    autorewrite with calls. rewrite Hal, Hfr, Hsy, Hia, Hif, His. cbn.
    rewrite !app_nil_r. split_and!; try done.
    + intros blk off. rewrite !elem_of_cons, !elem_of_app. intros [?|[?|[Hin|[Hin|[Hin|Hin]]]]]; try done.
      * by destruct (Hst _ _ Hin).
      * by apply Hist.
      * by destruct (frees_no_store _ _ _ Hin).
      * apply list_elem_of_singleton in Hin. done.
    + intros _ (i & Hi' & Hnone). destruct (Hi i) as [? ?]; [lia|congruence].
  - destruct Hok as (i & Hi & Hnone). do 3 eexists.
    split; [exact (main_out_of_memory arg1 arg2 arg3 got ta (State [] 0) Hv Heq)|].
    autorewrite with calls. rewrite Hal, Hfr, Hsy. cbn.
    rewrite !app_nil_r. split_and!; try done.
    + apply reverse_Permutation.
    + intros blk off. rewrite !elem_of_cons, !elem_of_app. intros [?|[?|[Hin|[Hin|Hin]]]]; try done.
      * by destruct (Hst _ _ Hin).
      * by destruct (frees_no_store _ _ _ Hin).
      * apply list_elem_of_singleton in Hin. done.
    + intros _ Hall. destruct (Hall i) as [? ?]; [lia|congruence].
Qed.
End work_theory.

(** ** Concrete instances *)

Definition ex_rand (i : nat) : Z := Z.of_nat (i mod 7) * 123456789.

Lemma work_balanced_witness :
  let malloc := λ i, if decide (i < 2)%nat then Some (Pos.of_succ_nat i) else None in
  ∃ r s t, main ex_rand malloc 71 (lit "3") (lit "R") (lit "10") (State [] 0) = Ok (r, s, t) ∧
    Permutation (freed t) (allocated t) ∧
    (∀ blk off, Cstore blk off ∈ t → 0 ≤ blk < atoi (lit "3") ∧ 0 ≤ off < MB) ∧
    (¬ valid_args (lit "3") (lit "10") → r = -1 ∧ allocated t = [] ∧ systems t = []) ∧
    (valid_args (lit "3") (lit "10") →
     (∀ i, (i < Z.to_nat (atoi (lit "3")))%nat → is_Some (malloc i)) →
       r = 0 ∧ systems t = [sprintf reg_format [AInt 71]; sprintf unreg_format [AInt 71]]) ∧
    (valid_args (lit "3") (lit "10") →
     (∃ i, (i < Z.to_nat (atoi (lit "3")))%nat ∧ malloc i = None) →
       r = -1 ∧ systems t = [sprintf reg_format [AInt 71]]).
Proof.
  intros malloc.
  apply (work_balanced ex_rand malloc 71 (lit "3") (lit "R") (lit "10")).
Defined.
