(* ===== verification/Queue.v ===== *)
(** * MP4: the blocking queue (src/MP4/queue.c, src/MP4/queue.h)

    A linked list with head and tail pointers under a mutex and one condition
    variable.  The list code is modelled on an explicit heap and refines a
    FIFO sequence; the threads that call it form a transition system. *)
From stdpp Require Import prelude gmap.
From S2P Require Import Prelude CInt.
Open Scope Z_scope.

Abbreviation addr := positive.

Record queue_node_t : Type := Node { next : option addr; data : Z }.

(** [queue_t] without its mutex and condition variable, and the node heap. *)
Record state : Type := State {
  nodes : gmap addr queue_node_t;
  head : option addr;
  tail : option addr;
  size : Z;
  maxSize : Z;
}.

Inductive event : Type := Broadcast | Free (a : addr).

Abbreviation qcmd := (cmd state event).

Definition put_node (a : addr) (n : queue_node_t) (s : state) : state :=
  State (<[a:=n]> (nodes s)) (head s) (tail s) (size s) (maxSize s).
Definition drop_node (a : addr) (s : state) : state :=
  State (delete a (nodes s)) (head s) (tail s) (size s) (maxSize s).
Definition set_head (p : option addr) (s : state) : state :=
  State (nodes s) p (tail s) (size s) (maxSize s).
Definition set_tail (p : option addr) (s : state) : state :=
  State (nodes s) (head s) p (size s) (maxSize s).
Definition set_size (n : Z) (s : state) : state :=
  State (nodes s) (head s) (tail s) n (maxSize s).

(** [p->...]. *)
Definition load (p : option addr) : qcmd queue_node_t :=
  s ← get;
  match p with
  | None => failwith NullDeref
  | Some a => lift (from_option_or UseAfterFree (nodes s !! a))
  end.

(** [p->next = q]. *)
Definition store_next (p q : option addr) : qcmd unit :=
  n ← load p;
  match p with
  | Some a => modify (put_node a (Node q (data n)))
  | None => failwith NullDeref
  end.

(** ** Operations *)

Definition queue_create (max : Z) (h : gmap addr queue_node_t) : state :=
  State h None None 0 max.

(** The node [queue_push] allocates before it takes the lock; [malloc]'s
    result is not tested. *)
Definition new_node (malloc : option addr) (d : Z) : qcmd addr :=
  a ← lift (from_option_or NullDeref malloc);
  modify (put_node a (Node None d)) ;;
  mret a.

(** The loop conditions of the two waits. *)
Definition push_waits (s : state) : bool := (0 <? maxSize s) && (size s =? maxSize s).
Definition pull_waits (s : state) : bool := size s =? 0.

(** [queue_push] once it no longer waits, up to the unlock. *)
Definition enqueue (nd : addr) : qcmd unit :=
  modify (λ s, set_size (int32 (size s + 1)) s) ;;
  s ← get;
  match tail s with
  | Some _ => store_next (tail s) (Some nd)
  | None => modify (set_head (Some nd))
  end ;;
  modify (set_tail (Some nd)) ;;
  s ← get;
  if decide (size s = 1) then emit Broadcast else mret tt.

(** [queue_pull] once it no longer waits, up to the unlock. *)
Definition dequeue : qcmd Z :=
  s ← get;
  let tofree := head s in
  n ← load (head s);
  modify (λ s, set_size (int32 (size s - 1)) s) ;;
  s ← get;
  (if decide (size s = 0) then modify (set_tail None) else mret tt) ;;
  s ← get;
  h ← load (head s);
  modify (set_head (next h)) ;;
  a ← lift (from_option_or NullDeref tofree);
  modify (drop_node a) ;;
  emit (Free a) ;;
  s ← get;
  (if decide (0 < maxSize s ∧ size s = int32 (maxSize s - 1)) then emit Broadcast
   else mret tt) ;;
  mret (data n).

(** A whole call by a single thread: [None] when it would block. *)
Definition queue_push (malloc : option addr) (d : Z) : qcmd (option unit) :=
  nd ← new_node malloc d;
  s ← get;
  if push_waits s then mret None else enqueue nd ;; mret (Some tt).

Definition queue_pull : qcmd (option Z) :=
  s ← get;
  if pull_waits s then mret None else d ← dequeue; mret (Some d).

(** [queue_destroy]: the node loop; [false] when the fuel runs out. *)
Fixpoint destroy_nodes (fuel : nat) (curr : option addr) : qcmd bool :=
  match fuel with
  | O => mret false
  | S fuel' =>
      match curr with
      | None => mret true
      | Some tofree =>
          n ← load curr;
          modify (drop_node tofree) ;;
          emit (Free tofree) ;;
          destroy_nodes fuel' (next n)
      end
  end.

Definition queue_destroy : qcmd bool :=
  s ← get;
  destroy_nodes (S (map_size (nodes s))) (head s).

(** ** The sequence a queue represents *)

(** [ns] are the nodes from pointer [p] on and [xs] their data. *)
Fixpoint chain (h : gmap addr queue_node_t) (p : option addr) (ns : list addr) (xs : list Z) :
    Prop :=
  match ns, xs with
  | [], [] => p = None
  | a :: ns', x :: xs' => p = Some a ∧ ∃ q, h !! a = Some (Node q x) ∧ chain h q ns' xs'
  | _, _ => False
  end.

(** The queue [s] holds [xs] in the nodes [ns]. *)
Record rep (s : state) (ns : list addr) (xs : list Z) : Prop := {
  rep_chain : chain (nodes s) (head s) ns xs;
  rep_nodup : NoDup ns;
  rep_tail : tail s = last ns;
  rep_size : size s = Z.of_nat (length xs);
}.

Lemma chain_length h p ns xs : chain h p ns xs → length ns = length xs.
Proof.
  revert p xs. induction ns as [|a ns IH]; intros p [|x xs]; simpl; try done.
  intros (_ & q & _ & H). f_equal. by eapply IH.
Qed.

Lemma chain_unique h p ns xs ns' xs' :
  chain h p ns xs → chain h p ns' xs' → ns = ns' ∧ xs = xs'.
Proof.
  revert p xs ns' xs'. induction ns as [|a ns IH]; intros p [|x xs] [|a' ns'] [|x' xs']; simpl;
    try done; try (by intros -> [? _]); try (by intros [-> _]).
  intros (-> & q & Ha & Hc) ([= <-] & q' & Ha' & Hc'). rewrite Ha in Ha'. injection Ha' as <- <-.
  by destruct (IH q xs ns' xs' Hc Hc') as [-> ->].
Qed.

Lemma chain_frame h p ns xs a n : a ∉ ns → chain h p ns xs → chain (<[a:=n]> h) p ns xs.
Proof.
  revert p xs. induction ns as [|b ns IH]; intros p [|x xs] Ha; simpl; try done.
  rewrite not_elem_of_cons in Ha. destruct Ha as [Hne Ha].
  intros (-> & q & Hb & H). split; [done|]. exists q. rewrite lookup_insert_ne by done. auto.
Qed.

Lemma chain_delete h p ns xs a : a ∉ ns → chain h p ns xs → chain (delete a h) p ns xs.
Proof.
  revert p xs. induction ns as [|b ns IH]; intros p [|x xs] Ha; simpl; try done.
  rewrite not_elem_of_cons in Ha. destruct Ha as [Hne Ha].
  intros (-> & q & Hb & H). split; [done|]. exists q. rewrite lookup_delete_ne by done. auto.
Qed.

(** Linking a node behind the last one. *)
Lemma chain_snoc h p ns t xs x a d :
  NoDup (ns ++ [t]) → a ∉ ns ++ [t] → chain h p (ns ++ [t]) (xs ++ [x]) →
  h !! a = Some (Node None d) → length ns = length xs →
  chain (<[t := Node (Some a) x]> h) p (ns ++ [t; a]) (xs ++ [x; d]).
Proof.
  intros Hnd Ha Hc Hd Hl. revert p xs Hl Hc. induction ns as [|b ns IH]; intros p [|y xs] Hl Hc;
    try done; simpl in *.
  - destruct Hc as (-> & q & Ht & ->). split; [done|]. exists (Some a).
    rewrite lookup_insert_eq. split; [done|]. split; [done|]. exists None.
    rewrite lookup_insert_ne; [done|]. intros ->. apply Ha. by left.
  - destruct Hc as (-> & q & Hb & Hc). apply NoDup_cons in Hnd as [Hb' Hnd].
    rewrite not_elem_of_cons in Ha. destruct Ha as [_ Ha].
    split; [done|]. exists q. rewrite lookup_insert_ne.
    + split; [done|]. apply IH; [done|done|lia|done].
    + intros <-. apply Hb'. rewrite elem_of_app. right. by left.
Qed.

Lemma chain_live h p ns xs a : chain h p ns xs → a ∈ ns → is_Some (h !! a).
Proof.
  revert p xs. induction ns as [|b ns IH]; intros p [|x xs]; simpl; try done.
  { intros _ H. inversion H. }
  intros (-> & q & Hb & Hc) [->|Hin]%elem_of_cons; [by eexists|by eapply IH].
Qed.

(** ** The operations on the represented sequence *)

(** [push] and [pull] of the specification, with the calls they make. *)
Definition push_signals (xs : list Z) : list event :=
  if decide (xs = []) then [Broadcast] else [].
Definition pull_signals (max : Z) (rest : list Z) : list event :=
  if decide (0 < max ∧ Z.of_nat (length rest) = max - 1) then [Broadcast] else [].

(** The state after [enqueue]. *)
Definition enqueued (nd : addr) (s : state) : state :=
  State (match tail s with
         | Some t => match nodes s !! t with
                     | Some n => <[t := Node (Some nd) (data n)]> (nodes s)
                     | None => nodes s end
         | None => nodes s end)
    (match tail s with Some _ => head s | None => Some nd end)
    (Some nd) (size s + 1) (maxSize s).

Lemma last_split (ns : list addr) t : last ns = Some t → ∃ ns', ns = ns' ++ [t].
Proof.
  intros H. destruct ns as [|b ns' _] using rev_ind; [done|].
  rewrite last_snoc in H. injection H as ->. eauto.
Qed.

(** Symbolic execution through the fields of the queue. *)
Ltac q_run :=
  repeat first [ run_step
               | progress cbn [nodes head tail size maxSize set_size set_head set_tail
                               put_node drop_node next data] ].

Lemma enqueue_ok s ns xs nd d :
  rep s ns xs → nodes s !! nd = Some (Node None d) → nd ∉ ns →
  Z.of_nat (length xs) < INT_MAX →
  enqueue nd s = Ok (tt, enqueued nd s, push_signals xs) ∧
  rep (enqueued nd s) (ns ++ [nd]) (xs ++ [d]).
Proof.
  intros [Hc Hnd Ht Hsz] Hn Hnin Hmax.
  assert (Hs32 : int32 (size s + 1) = size s + 1).
  { apply int32_small. red. change (2 ^ (32 - 1)) with (INT_MAX + 1). unfold INT_MAX in *. lia. }
  assert (Hnd' : NoDup (ns ++ [nd])).
  { apply NoDup_app. split; [done|]. split; [|apply NoDup_singleton].
    intros b Hb ->%list_elem_of_singleton. done. }
  pose proof (chain_length _ _ _ _ Hc) as Hlen.
  unfold enqueue, enqueued, push_signals. destruct (tail s) as [t|] eqn:Htl.
  - symmetry in Ht. destruct (last_split _ _ Ht) as [ns' ->].
    destruct xs as [|x xs' _] using rev_ind; [rewrite length_app in Hlen; simpl in Hlen; lia|].
    rewrite !length_app in Hlen. cbn [length] in Hlen.
    destruct (chain_live _ _ _ _ t Hc) as [n Hnt]; [rewrite elem_of_snoc; auto|].
    assert (Hx : data n = x).
    { clear -Hc Hnt Hlen. revert Hc. generalize (head s). revert xs' Hlen.
      induction ns' as [|b ns' IH]; intros [|y xs'] Hlen p; simpl in *; try lia.
      - intros (_ & q & Ht & _). rewrite Hnt in Ht. by injection Ht as ->.
      - intros (_ & q & _ & Hc). eapply (IH xs'); [lia|exact Hc]. }
    split.
    + unfold store_next, load. q_run. rewrite ?Htl. q_run. rewrite Hs32.
      rewrite (decide_False (P := size s + 1 = 1)) by (rewrite Hsz, length_app; cbn [length]; lia).
      rewrite (decide_False (P := xs' ++ [x] = [])) by (by destruct xs'). done.
    + rewrite Hnt, Hx. split; cbn [nodes head tail size].
      * rewrite <-!app_assoc. apply chain_snoc; try done; lia.
      * done.
      * by rewrite last_snoc.
      * rewrite !length_app in *. cbn [length] in *. lia.
  - symmetry in Ht. apply last_None in Ht as ->. destruct xs as [|x xs]; [|done].
    split.
    + q_run. rewrite Hs32.
      rewrite (decide_True (P := size s + 1 = 1)) by (rewrite Hsz; done).
      by rewrite decide_True.
    + split; cbn [nodes head tail size app]; [|done|done|].
      * split; [done|]. by exists None.
      * cbn [length]. rewrite Hsz. done.
Qed.

(** The state after [dequeue] of node [a]. *)
Definition dequeued (a : addr) (q : option addr) (s : state) : state :=
  State (delete a (nodes s)) q (if decide (size s - 1 = 0) then None else tail s) (size s - 1)
    (maxSize s).

Lemma dequeue_ok s a ns x xs :
  rep s (a :: ns) (x :: xs) → Z.of_nat (length (x :: xs)) ≤ INT_MAX →
  is_sint 32 (maxSize s) →
  ∃ q, dequeue s = Ok (x, dequeued a q s, Free a :: pull_signals (maxSize s) xs) ∧
    rep (dequeued a q s) ns xs.
Proof.
  intros [Hc Hnd Ht Hsz] Hmax Hmx. cbn [chain] in Hc. destruct Hc as (Hhd & q & Ha & Hc).
  exists q. pose proof (chain_length _ _ _ _ Hc) as Hlen. cbn [length] in *.
  assert (Hs32 : int32 (size s - 1) = size s - 1).
  { apply int32_small. red. change (2 ^ (32 - 1)) with (INT_MAX + 1). unfold INT_MAX in *. lia. }
  assert (Hm : 0 < maxSize s → int32 (maxSize s - 1) = maxSize s - 1).
  { intros Hpos. apply int32_small. red in Hmx |- *. lia. }
  apply NoDup_cons in Hnd as [Hna Hnd].
  split.
  - assert (Hsignal : (if decide (0 < maxSize s ∧ size s - 1 = int32 (maxSize s - 1))
              then [Broadcast] else []) = pull_signals (maxSize s) xs).
    { unfold pull_signals. replace (Z.of_nat (length xs)) with (size s - 1) by lia.
      repeat case_decide; try done; exfalso; naive_solver lia. }
    rewrite <-Hsignal. unfold dequeue, dequeued, load. q_run. rewrite ?Hs32.
    destruct (decide (size s - 1 = 0)); q_run; rewrite ?Hs32;
      destruct (decide (0 < maxSize s ∧ _)); q_run; done.
  - split; cbn [nodes head tail size dequeued].
    + by apply chain_delete.
    + done.
    + case_decide as H0.
      * assert (xs = []) as -> by (destruct xs; [done|cbn [length] in *; lia]).
        by destruct ns.
      * rewrite Ht. destruct ns as [|b ns]; [|done].
        destruct xs; [cbn [length] in *; lia|done].
    + lia.
Qed.

(** ** Destroying the queue *)

Definition dropped (ns : list addr) (s : state) : state :=
  State (foldr delete (nodes s) ns) (head s) (tail s) (size s) (maxSize s).

Lemma foldr_delete_comm (a : addr) (ns : list addr) (h : gmap addr queue_node_t) :
  foldr delete (delete a h) ns = delete a (foldr delete h ns).
Proof. induction ns as [|b ns IH]; [done|]. cbn. by rewrite IH, delete_delete. Qed.

Lemma destroy_ok fuel s ns xs p :
  chain (nodes s) p ns xs → NoDup ns → (length ns < fuel)%nat →
  destroy_nodes fuel p s = Ok (true, dropped ns s, Free <$> ns).
Proof.
  revert s p xs ns. induction fuel as [|fuel IH]; intros s p xs ns Hc Hnd Hf; [lia|].
  destruct ns as [|a ns], xs as [|x xs]; try done; cbn [chain] in Hc.
  - rewrite Hc. by destruct s.
  - destruct Hc as (-> & q & Ha & Hc). apply NoDup_cons in Hnd as [Hna Hnd].
    cbn [length] in Hf.
    assert (Hih := IH (drop_node a s) q xs ns). cbn [nodes drop_node] in Hih.
    specialize (Hih (chain_delete _ _ _ _ _ Hna Hc) Hnd ltac:(lia)).
    cbn [destroy_nodes]. unfold load. q_run.
    unfold dropped in *. cbn [foldr fmap list_fmap nodes head tail size maxSize drop_node] in *.
    by rewrite foldr_delete_comm.
Qed.

Lemma chain_size h p ns xs : chain h p ns xs → NoDup ns → (length ns ≤ map_size h)%nat.
Proof.
  intros Hc Hnd.
  assert (Hsub : list_to_set ns ⊆@{gset addr} dom h).
  { intros a Ha%elem_of_list_to_set. apply elem_of_dom. by eapply chain_live. }
  apply subseteq_size in Hsub. rewrite size_list_to_set in Hsub by done.
  unfold map_size. by rewrite size_dom in Hsub.
Qed.
