(* ===== verification/QueueThreads.v ===== *)
(** * MP4: the queue as a FIFO, alone and under threads

    The list code refines a bounded sequence, and the threads that share a
    queue neither reorder its elements nor sleep through their wake-up. *)
From stdpp Require Import prelude gmap.
From S2P Require Import Prelude CInt Queue.
Open Scope Z_scope.

(** ** The specification: a bounded sequence *)

Inductive op : Type := Push (d : Z) | Pull.
Inductive result : Type := Pushed | Pulled (d : Z) | Blocked.

Definition fifo (max : Z) (o : op) (xs : list Z) : result * list Z :=
  match o with
  | Push d => if decide (0 < max ∧ Z.of_nat (length xs) = max) then (Blocked, xs)
              else (Pushed, xs ++ [d])
  | Pull => match xs with
            | [] => (Blocked, [])
            | x :: xs' => (Pulled x, xs')
            end
  end.

(** A thread runs its calls until one blocks. *)
Fixpoint fifo_run (max : Z) (os : list op) (xs : list Z) : list result :=
  match os with
  | [] => []
  | o :: os' =>
      let '(r, xs') := fifo max o xs in
      match r with
      | Blocked => [Blocked]
      | _ => r :: fifo_run max os' xs'
      end
  end.

Section threads.
(** [malloc] on the current heap never returns a live address. *)
Context (malloc : gmap addr queue_node_t → addr) (malloc_fresh : ∀ h, h !! malloc h = None).
Implicit Types s : state.

Definition queue_op (o : op) : qcmd result :=
  match o with
  | Push d =>
      s ← get;
      r ← queue_push (Some (malloc (nodes s))) d;
      mret (match r with Some _ => Pushed | None => Blocked end)
  | Pull =>
      r ← queue_pull;
      mret (match r with Some d => Pulled d | None => Blocked end)
  end.

Fixpoint queue_run (os : list op) (s : state) : outcome (list result) :=
  match os with
  | [] => Ok []
  | o :: os' =>
      match queue_op o s with
      | Ok (Blocked, _, _) => Ok [Blocked]
      | Ok (r, s', _) => cons r <$> queue_run os' s'
      | Fault f => Fault f
      end
  end.

Lemma rep_fresh s ns xs a : rep s ns xs → nodes s !! a = None → a ∉ ns.
Proof.
  intros Hr Ha Hin. destruct (chain_live _ _ _ _ a (rep_chain _ _ _ Hr) Hin) as [n Hn]. congruence.
Qed.

Lemma rep_put s ns xs a n : rep s ns xs → a ∉ ns → rep (put_node a n s) ns xs.
Proof. intros [] Ha. split; try done. by apply chain_frame. Qed.

Lemma push_waits_spec s ns xs :
  rep s ns xs →
  push_waits s = bool_decide (0 < maxSize s ∧ Z.of_nat (length xs) = maxSize s).
Proof.
  intros Hr. unfold push_waits. rewrite (rep_size _ _ _ Hr).
  destruct (Z.ltb_spec 0 (maxSize s)), (Z.eqb_spec (Z.of_nat (length xs)) (maxSize s));
    symmetry; cbn [andb]; rewrite ?bool_decide_eq_true, ?bool_decide_eq_false; lia.
Qed.

Lemma pull_waits_spec s ns xs : rep s ns xs → pull_waits s = bool_decide (xs = []).
Proof.
  intros Hr. unfold pull_waits. rewrite (rep_size _ _ _ Hr).
  destruct xs; [done|]. rewrite bool_decide_eq_false_2 by done. apply Z.eqb_neq. cbn [length]. lia.
Qed.

(** One call against the specification. *)
Lemma queue_op_refines o s ns xs :
  rep s ns xs → is_sint 32 (maxSize s) → Z.of_nat (length xs) < INT_MAX →
  ∃ s' t ns', queue_op o s = Ok ((fifo (maxSize s) o xs).1, s', t) ∧
    rep s' ns' (fifo (maxSize s) o xs).2 ∧ maxSize s' = maxSize s.
Proof.
  intros Hr Hmx Hlen. destruct o as [d|].
  - set (a := malloc (nodes s)).
    pose proof (rep_fresh _ _ _ a Hr (malloc_fresh _)) as Ha.
    set (s1 := put_node a (Node None d) s).
    assert (Hr1 : rep s1 ns xs) by (by apply rep_put).
    destruct (enqueue_ok s1 ns xs a d Hr1) as [He Hre]; [apply lookup_insert_eq|done|done|].
    pose proof (push_waits_spec s1 ns xs Hr1) as Hw.
    change (maxSize s1) with (maxSize s) in Hw. cbn [fifo].
    unfold queue_op, queue_push, new_node.
    destruct (decide (0 < maxSize s ∧ Z.of_nat (length xs) = maxSize s)) as [Hd|Hd].
    + rewrite bool_decide_eq_true_2 in Hw by done. exists s1, [], ns.
      split; [unfold s1, a in *; run; done|]. done.
    + rewrite bool_decide_eq_false_2 in Hw by done.
      exists (enqueued a s1), (push_signals xs), (ns ++ [a]).
      split; [unfold s1, a in *; run; by rewrite !app_nil_r|]. done.
  - pose proof (pull_waits_spec s ns xs Hr) as Hw.
    unfold queue_op, queue_pull. cbn [fifo]. destruct xs as [|x xs].
    + rewrite bool_decide_eq_true_2 in Hw by done. exists s, [], ns. split; [run; done|]. done.
    + rewrite bool_decide_eq_false_2 in Hw by done.
      destruct ns as [|a ns]; [by destruct (rep_chain _ _ _ Hr)|].
      destruct (dequeue_ok s a ns x xs Hr) as (q & Hd & Hrd); [lia|done|].
      do 3 eexists. split; [run; reflexivity|]. done.
Qed.

Lemma fifo_length max o xs :
  (length (fifo max o xs).2 ≤ S (length xs))%nat.
Proof.
  destruct o as [d|]; cbn [fifo].
  - case_decide; cbn [snd]; rewrite ?length_app; cbn [length]; lia.
  - destruct xs; cbn [snd length]; lia.
Qed.

Lemma queue_run_refines os s ns xs :
  rep s ns xs → is_sint 32 (maxSize s) → Z.of_nat (length xs) + Z.of_nat (length os) < INT_MAX →
  queue_run os s = Ok (fifo_run (maxSize s) os xs).
Proof.
  revert s ns xs. induction os as [|o os IH]; intros s ns xs Hr Hmx Hlen; [done|].
  cbn [queue_run fifo_run length] in *.
  destruct (queue_op_refines o s ns xs Hr Hmx) as (s' & t & ns' & -> & Hr' & Hm); [lia|].
  pose proof (fifo_length (maxSize s) o xs) as Hl.
  destruct (fifo (maxSize s) o xs) as [r xs']. cbn [fst snd] in *.
  specialize (IH s' ns' xs' Hr'). rewrite Hm in IH.
  destruct r; [rewrite IH by (done || lia); done..|done].
Qed.
End threads.

(** ** Threads sharing a queue *)

(** A call in progress; a push has already allocated its node. *)
Inductive call : Type := CPush (d : Z) (nd : addr) | CPull.
Inductive status : Type :=
  | Idle
  | Ready (c : call)      (* about to take the mutex and test its condition *)
  | Waiting (c : call).   (* inside pthread_cond_wait *)

#[export] Instance event_eq_dec : EqDecision event.
Proof. solve_decision. Defined.

(** [pthread_cond_broadcast]. *)
Definition wake (x : status) : status :=
  match x with Waiting c => Ready c | _ => x end.
Definition signal (t : list event) (ts : list status) : list status :=
  if decide (Broadcast ∈ t) then wake <$> ts else ts.

(** The queue, the threads, and the values pushed and pulled so far. *)
Record sys : Type := Sys {
  mem : state; threads : list status; pushed : list Z; pulled : list Z }.

Definition waits (c : call) (s : state) : bool :=
  match c with CPush _ _ => push_waits s | CPull => pull_waits s end.

(** The critical sections are atomic; a waiting thread may also wake up
    spuriously. *)
Inductive step : sys → sys → Prop :=
  | step_call_push s ts ps rs i d a s' t :
      ts !! i = Some Idle → nodes s !! a = None → new_node (Some a) d s = Ok (a, s', t) →
      step (Sys s ts ps rs) (Sys s' (<[i := Ready (CPush d a)]> ts) ps rs)
  | step_call_pull s ts ps rs i :
      ts !! i = Some Idle →
      step (Sys s ts ps rs) (Sys s (<[i := Ready CPull]> ts) ps rs)
  | step_wait s ts ps rs i c :
      ts !! i = Some (Ready c) → waits c s = true →
      step (Sys s ts ps rs) (Sys s (<[i := Waiting c]> ts) ps rs)
  | step_push s ts ps rs i d a s' t :
      ts !! i = Some (Ready (CPush d a)) → waits (CPush d a) s = false →
      enqueue a s = Ok (tt, s', t) →
      step (Sys s ts ps rs) (Sys s' (signal t (<[i := Idle]> ts)) (ps ++ [d]) rs)
  | step_pull s ts ps rs i d s' t :
      ts !! i = Some (Ready CPull) → waits CPull s = false →
      dequeue s = Ok (d, s', t) →
      step (Sys s ts ps rs) (Sys s' (signal t (<[i := Idle]> ts)) ps (rs ++ [d]))
  | step_spurious s ts ps rs i c :
      ts !! i = Some (Waiting c) →
      step (Sys s ts ps rs) (Sys s (<[i := Ready c]> ts) ps rs).

Definition start (max : Z) (n : nat) : sys :=
  Sys (queue_create max ∅) (replicate n Idle) [] [].

Definition has_call (x : status) (c : call) : Prop := x = Ready c ∨ x = Waiting c.

(** A thread that pushes owns a node outside the list. *)
Record pending_ok (s : state) (ns : list addr) (ts : list status) : Prop := {
  pending_node i x d a :
    ts !! i = Some x → has_call x (CPush d a) → nodes s !! a = Some (Node None d) ∧ a ∉ ns;
  pending_own i j x y d e a :
    ts !! i = Some x → ts !! j = Some y → has_call x (CPush d a) → has_call y (CPush e a) → i = j;
}.

Record inv (max : Z) (y : sys) : Prop := {
  inv_rep : ∃ ns xs, rep (mem y) ns xs ∧ pushed y = pulled y ++ xs ∧
              Z.of_nat (length xs) ≤ max ∧ pending_ok (mem y) ns (threads y);
  inv_max : maxSize (mem y) = max;
  inv_waits i c : threads y !! i = Some (Waiting c) → waits c (mem y) = true;
}.

Lemma signal_lookup t ts i x :
  signal t ts !! i = Some x → ∃ x', ts !! i = Some x' ∧ (x = x' ∨ x = wake x').
Proof.
  unfold signal. case_decide; [|eauto]. rewrite list_lookup_fmap.
  intros (x' & Hx & ->)%fmap_Some. eauto.
Qed.

Lemma wake_call x c : has_call (wake x) c → has_call x c.
Proof. unfold has_call. destruct x; cbn; naive_solver. Qed.

(** Threads that keep or lose their calls keep their nodes. *)
Lemma pending_mono s ns ts ts' :
  pending_ok s ns ts →
  (∀ i x', ts' !! i = Some x' → ∃ x, ts !! i = Some x ∧
     ∀ d a, has_call x' (CPush d a) → has_call x (CPush d a)) →
  pending_ok s ns ts'.
Proof.
  intros [Hn Ho] Hm. split.
  - intros i x' d a Hi Hc. destruct (Hm i x' Hi) as (x & Hx & Hxc). eauto.
  - intros i j x' y' d e a Hi Hj Hci Hcj.
    destruct (Hm i x' Hi) as (x & Hx & Hxc). destruct (Hm j y' Hj) as (y & Hy & Hyc). eauto.
Qed.

(** The threads of [ts'] push nothing beyond what those of [ts] do. *)
Definition fewer_calls (ts ts' : list status) : Prop :=
  ∀ i x', ts' !! i = Some x' → ∃ x, ts !! i = Some x ∧
    ∀ d a, has_call x' (CPush d a) → has_call x (CPush d a).

Lemma insert_fewer ts i x x' :
  ts !! i = Some x → (∀ d a, has_call x' (CPush d a) → has_call x (CPush d a)) →
  fewer_calls ts (<[i:=x']> ts).
Proof.
  intros Hi Hc j y Hj. destruct (decide (i = j)) as [<-|Hne].
  - rewrite list_lookup_insert_eq in Hj by (by eapply lookup_lt_Some). injection Hj as <-. eauto.
  - rewrite list_lookup_insert_ne in Hj by done. eauto.
Qed.

Lemma signal_fewer t ts ts' : fewer_calls ts ts' → fewer_calls ts (signal t ts').
Proof.
  intros Hf i x' Hi. destruct (signal_lookup t ts' i x' Hi) as (x & Hx & Hxx).
  destruct (Hf i x Hx) as (z & Hz & Hc). exists z. split; [done|].
  intros d a H. apply Hc. destruct Hxx as [-> | ->]; [done|by apply wake_call].
Qed.

(** A broadcast leaves no thread waiting. *)
Lemma signal_waiting t ts i c :
  signal t ts !! i = Some (Waiting c) → Broadcast ∉ t ∧ ts !! i = Some (Waiting c).
Proof.
  unfold signal. case_decide as Hb; [|done]. rewrite list_lookup_fmap.
  intros (x & Hx & Hw)%fmap_Some. by destruct x.
Qed.

Lemma pull_sleeps s ns x xs : rep s ns (x :: xs) → pull_waits s = false.
Proof. intros Hr. rewrite (pull_waits_spec _ _ _ Hr). by apply bool_decide_eq_false_2. Qed.

(** ** Every step keeps the invariant *)

Section system.
Context (max : Z) (Hmax : 0 < max ≤ INT_MAX).

Lemma max_sint : is_sint 32 max.
Proof. red. change (2 ^ (32 - 1)) with (INT_MAX + 1). unfold INT_MAX in *. lia. Qed.

Lemma inv_call_push s ts ps rs i d a s' t :
  inv max (Sys s ts ps rs) → ts !! i = Some Idle → nodes s !! a = None →
  new_node (Some a) d s = Ok (a, s', t) →
  inv max (Sys s' (<[i := Ready (CPush d a)]> ts) ps rs).
Proof.
  intros [(ns & xs & Hr & Hlog & Hlen & Hpend) Hm Hw] Hi Ha Heq.
  cbn [mem pulled pushed threads] in *.
  injection Heq as <- <-. pose proof (rep_fresh _ _ _ _ Hr Ha) as Hna.
  split; cbn [mem pulled pushed threads]; [|done|].
  - exists ns, xs. split; [by apply rep_put|]. split; [done|]. split; [done|].
    destruct Hpend as [Hn Ho].
    assert (Hold : ∀ j x e b, ts !! j = Some x → has_call x (CPush e b) → b ≠ a).
    { intros j x e b Hj Hc ->. destruct (Hn j x e a Hj Hc). congruence. }
    assert (Hcase : ∀ j x, <[i:=Ready (CPush d a)]> ts !! j = Some x →
      (i = j ∧ x = Ready (CPush d a)) ∨ ts !! j = Some x).
    { intros j x Hj. destruct (decide (i = j)) as [<-|Hne].
      - rewrite list_lookup_insert_eq in Hj by (by eapply lookup_lt_Some). left. naive_solver.
      - rewrite list_lookup_insert_ne in Hj by done. by right. }
    split.
    + intros j x e b Hj Hc. destruct (Hcase j x Hj) as [[<- ->]|Hj'].
      * assert (e = d ∧ b = a) as [-> ->] by (unfold has_call in Hc; naive_solver).
        split; [apply lookup_insert_eq|done].
      * destruct (Hn j x e b Hj' Hc) as [Hnb ?]. split; [|done]. cbn [nodes put_node].
        rewrite lookup_insert_ne; [done|]. intros <-. by eapply Hold.
    + intros j k x y e f b Hj Hk Hcj Hck.
      destruct (Hcase j x Hj) as [[<- ->]|Hj'], (Hcase k y Hk) as [[<- ->]|Hk']; [done| | |eauto].
      * assert (b = a) as -> by (unfold has_call in Hcj; naive_solver). by destruct (Hold k y f a Hk' Hck).
      * assert (b = a) as -> by (unfold has_call in Hck; naive_solver). by destruct (Hold j x e a Hj' Hcj).
  - intros j c Hj. destruct (decide (i = j)) as [<-|Hne].
    + rewrite list_lookup_insert_eq in Hj by (by eapply lookup_lt_Some). done.
    + rewrite list_lookup_insert_ne in Hj by done. by apply Hw in Hj.
Qed.

(** Steps that leave the queue alone. *)
Lemma inv_threads s ts ts' ps rs :
  inv max (Sys s ts ps rs) → fewer_calls ts ts' →
  (∀ i c, ts' !! i = Some (Waiting c) → waits c s = true) →
  inv max (Sys s ts' ps rs).
Proof.
  intros [(ns & xs & Hr & Hlog & Hlen & Hpend) Hm Hw] Hf Hw'.
  split; cbn [mem pulled pushed threads] in *; [|done|done].
  exists ns, xs. split_and!; try done. by eapply pending_mono.
Qed.

Lemma waiting_insert s (ts : list status) i x :
  (∀ i c, ts !! i = Some (Waiting c) → waits c s = true) →
  ts !! i = Some x → ∀ x', (∀ c, x' = Waiting c → waits c s = true) →
  ∀ j c, <[i:=x']> ts !! j = Some (Waiting c) → waits c s = true.
Proof.
  intros Hw Hi x' Hx' j c Hj. destruct (decide (i = j)) as [<-|Hne].
  - rewrite list_lookup_insert_eq in Hj by (by eapply lookup_lt_Some). injection Hj as ->. auto.
  - rewrite list_lookup_insert_ne in Hj by done. eauto.
Qed.

Lemma enqueued_other s ns xs a b :
  rep s ns xs → b ∉ ns → nodes (enqueued a s) !! b = nodes s !! b.
Proof.
  intros Hr Hb. cbn [nodes enqueued]. destruct (tail s) as [t|] eqn:Ht; [|done].
  destruct (nodes s !! t); [|done]. rewrite lookup_insert_ne; [done|].
  intros ->. apply Hb. rewrite (rep_tail _ _ _ Hr) in Ht.
  destruct (last_split _ _ Ht) as [ns' ->]. rewrite elem_of_snoc. auto.
Qed.

Lemma inv_push s ts ps rs i d a s' t :
  inv max (Sys s ts ps rs) → ts !! i = Some (Ready (CPush d a)) →
  push_waits s = false → enqueue a s = Ok (tt, s', t) →
  inv max (Sys s' (signal t (<[i := Idle]> ts)) (ps ++ [d]) rs).
Proof.
  intros [(ns & xs & Hr & Hlog & Hlen & [Hn Ho]) Hm Hw] Hi Hpw Heq.
  cbn [mem pulled pushed threads] in *.
  destruct (Hn i _ d a Hi) as [Ha Hna]; [by left|].
  rewrite (push_waits_spec _ _ _ Hr) in Hpw. apply bool_decide_eq_false in Hpw. rewrite Hm in Hpw.
  destruct (enqueue_ok s ns xs a d Hr Ha Hna) as [He Hre]; [lia|].
  rewrite He in Heq. injection Heq as <- <-.
  assert (Hfew : fewer_calls ts (signal (push_signals xs) (<[i:=Idle]> ts))).
  { apply signal_fewer. eapply insert_fewer; [done|]. intros ? ? [|]; done. }
  split; cbn [mem pulled pushed threads]; [|done|].
  - exists (ns ++ [a]), (xs ++ [d]). split; [done|]. split; [by rewrite Hlog, app_assoc|].
    split; [rewrite length_app; cbn [length]; lia|]. split.
    + intros j x' e b Hj Hc. destruct (Hfew j x' Hj) as (x & Hx & Hxc).
      destruct (Hn j x e b Hx (Hxc _ _ Hc)) as [Hb Hnb].
      rewrite (enqueued_other s ns xs) by done. split; [done|].
      rewrite elem_of_snoc. intros [| ->]; [done|].
      assert (i = j) as <- by (eapply Ho; [exact Hi|exact Hx|by left|by apply Hxc]).
      destruct (signal_lookup _ _ _ _ Hj) as (y & Hy & Hxy).
      rewrite list_lookup_insert_eq in Hy by (by eapply lookup_lt_Some). injection Hy as <-.
      destruct Hxy as [-> | ->]; destruct Hc as [|]; done.
    + intros j k x' y' e f b Hj Hk Hcj Hck.
      destruct (Hfew j x' Hj) as (x & Hx & Hxc). destruct (Hfew k y' Hk) as (y & Hy & Hyc). eauto.
  - intros j c Hj. destruct (signal_waiting _ _ _ _ Hj) as [Hb Hj'].
    destruct (decide (i = j)) as [<-|Hne].
    { rewrite list_lookup_insert_eq in Hj' by (by eapply lookup_lt_Some). done. }
    rewrite list_lookup_insert_ne in Hj' by done. apply Hw in Hj'. exfalso.
    destruct c as [e b|]; cbn [waits] in Hj'.
    + rewrite (push_waits_spec _ _ _ Hr), Hm in Hj'. by apply bool_decide_eq_true in Hj'.
    + rewrite (pull_waits_spec _ _ _ Hr) in Hj'. apply bool_decide_eq_true in Hj' as ->.
      apply Hb. by left.
Qed.

Lemma inv_pull s ts ps rs i d s' t :
  inv max (Sys s ts ps rs) → ts !! i = Some (Ready CPull) →
  pull_waits s = false → dequeue s = Ok (d, s', t) →
  inv max (Sys s' (signal t (<[i := Idle]> ts)) ps (rs ++ [d])).
Proof.
  intros [(ns & xs & Hr & Hlog & Hlen & Hpend) Hm Hw] Hi Hpw Heq.
  cbn [mem pulled pushed threads] in *.
  rewrite (pull_waits_spec _ _ _ Hr) in Hpw. apply bool_decide_eq_false in Hpw.
  destruct xs as [|x xs]; [done|]. destruct ns as [|a ns]; [by destruct (rep_chain _ _ _ Hr)|].
  destruct (dequeue_ok s a ns x xs Hr) as (q & Hd & Hrd); [lia|rewrite Hm; apply max_sint|].
  rewrite Hd in Heq. injection Heq as <- <- <-.
  assert (Hfew : fewer_calls ts (signal (Free a :: pull_signals (maxSize s) xs) (<[i:=Idle]> ts))).
  { apply signal_fewer. eapply insert_fewer; [done|]. intros ? ? [|]; done. }
  split; cbn [mem pulled pushed threads]; [|done|].
  - exists ns, xs. split; [done|]. split; [by rewrite Hlog, <-app_assoc|].
    cbn [length] in Hlen. split; [lia|]. eapply pending_mono; [|exact Hfew].
    destruct Hpend as [Hn Ho]. split; [|done]. intros j y e b Hj Hc.
    destruct (Hn j y e b Hj Hc) as [Hb Hnb]. rewrite not_elem_of_cons in Hnb.
    destruct Hnb as [Hne Hnb]. cbn [nodes dequeued]. by rewrite lookup_delete_ne.
  - intros j c Hj. destruct (signal_waiting _ _ _ _ Hj) as [Hb Hj'].
    destruct (decide (i = j)) as [<-|Hne].
    { rewrite list_lookup_insert_eq in Hj' by (by eapply lookup_lt_Some). done. }
    rewrite list_lookup_insert_ne in Hj' by done. apply Hw in Hj'. exfalso.
    destruct c as [e b|]; cbn [waits] in Hj'.
    + rewrite (push_waits_spec _ _ _ Hr), Hm in Hj'. apply bool_decide_eq_true in Hj' as [_ Hl].
      cbn [length] in Hl. apply Hb. right. unfold pull_signals. rewrite Hm.
      rewrite decide_True by lia. by left.
    + by rewrite (pull_sleeps _ _ _ _ Hr) in Hj'.
Qed.

Lemma queue_step_inv x y : inv max x → step x y → inv max y.
Proof.
  intros Hi Hs. pose proof (inv_waits _ _ Hi) as Hw. inv Hs; cbn [mem threads] in Hw.
  - by eapply inv_call_push.
  - eapply inv_threads; [done| |].
    + eapply insert_fewer; [done|]. by intros ? ? [|].
    + eapply waiting_insert; [done|done|]. done.
  - eapply inv_threads; [done| |].
    + eapply insert_fewer; [done|]. intros ? ? [|[= ->]]; [done|by left].
    + eapply waiting_insert; [done|done|]. by intros ? [= <-].
  - by eapply inv_push.
  - by eapply inv_pull.
  - eapply inv_threads; [done| |].
    + eapply insert_fewer; [done|]. intros ? ? [[= ->]|]; [by right|done].
    + eapply waiting_insert; [done|done|]. done.
Qed.

Lemma queue_start_inv n : inv max (start max n).
Proof.
  assert (Hidle : ∀ i x, replicate n Idle !! i = Some x → x = Idle).
  { intros i x. rewrite lookup_replicate. by intros [-> _]. }
  split; cbn [start mem threads pushed pulled]; [|done|].
  - exists [], []. split; [split; [done|apply NoDup_nil_2|done|done]|]. split; [done|]. cbn [length]. split; [lia|].
    split; [intros i x d a Hi Hc|intros i j x y d e a Hi Hj Hc Hc'];
      apply Hidle in Hi as ->; by destruct Hc.
  - intros i c Hi. by apply Hidle in Hi.
Qed.

Lemma queue_reachable_inv n y : rtc step (start max n) y → inv max y.
Proof.
  apply (rtc_ind_r (λ y, inv max y)); [apply queue_start_inv|].
  intros x z _ Hs Hi. by eapply queue_step_inv.
Qed.
End system.

(** ** No node is lost *)

Section accounted.
Context (max : Z) (Hmax : 0 < max ≤ INT_MAX).

Definition pushing (ts : list status) (a : addr) : Prop :=
  ∃ i x d, ts !! i = Some x ∧ has_call x (CPush d a).

(** Every live node is in the list or belongs to a push in progress. *)
Definition accounted (y : sys) : Prop :=
  ∃ ns xs, rep (mem y) ns xs ∧
    ∀ a, is_Some (nodes (mem y) !! a) → a ∈ ns ∨ pushing (threads y) a.

Lemma wake_keeps x c : has_call x c → has_call (wake x) c.
Proof. unfold has_call. destruct x; cbn; naive_solver. Qed.

Lemma pushing_signal t ts a : pushing ts a → pushing (signal t ts) a.
Proof.
  intros (i & x & d & Hi & Hc). unfold signal. case_decide; [|by exists i, x, d].
  exists i, (wake x), d. rewrite list_lookup_fmap, Hi. split; [done|by apply wake_keeps].
Qed.

(** A thread that changes its status: its own node may be affected only. *)
Lemma pushing_insert ts i x x' a :
  ts !! i = Some x → (∀ d, has_call x (CPush d a) → has_call x' (CPush d a)) →
  pushing ts a → pushing (<[i:=x']> ts) a.
Proof.
  intros Hi Hx (j & y & d & Hj & Hc). destruct (decide (i = j)) as [<-|Hne].
  - exists i, x', d. rewrite list_lookup_insert_eq by (by eapply lookup_lt_Some).
    split; [done|]. apply Hx. naive_solver.
  - exists j, y, d. by rewrite list_lookup_insert_ne.
Qed.

Lemma enqueued_live s a b : is_Some (nodes (enqueued a s) !! b) → is_Some (nodes s !! b).
Proof.
  cbn [nodes enqueued]. destruct (tail s) as [t|]; [|done].
  destruct (nodes s !! t) eqn:Ht; [|done].
  destruct (decide (t = b)) as [->|]; [by rewrite Ht|by rewrite lookup_insert_ne].
Qed.

Lemma rep_unique s ns xs ns' xs' : rep s ns xs → rep s ns' xs' → ns = ns' ∧ xs = xs'.
Proof. intros [Hc _ _ _] [Hc' _ _ _]. by eapply chain_unique. Qed.

Lemma accounted_threads s ts ts' ps rs :
  accounted (Sys s ts ps rs) → (∀ a, pushing ts a → pushing ts' a) →
  accounted (Sys s ts' ps rs).
Proof.
  intros (ns & xs & Hr & Ha) Hp. exists ns, xs. split; [done|]. cbn [mem threads] in *.
  intros b Hb. destruct (Ha b Hb); auto.
Qed.

Lemma accounted_call_push s ts ps rs i d a s' t :
  accounted (Sys s ts ps rs) → ts !! i = Some Idle → nodes s !! a = None →
  new_node (Some a) d s = Ok (a, s', t) →
  accounted (Sys s' (<[i := Ready (CPush d a)]> ts) ps rs).
Proof.
  intros (ns & xs & Hr & Ha) Hi Hn Heq. injection Heq as <- _. cbn [mem threads] in *.
  exists ns, xs. split; [apply rep_put; [done|by eapply rep_fresh]|]. cbn [mem threads].
  intros b Hb. cbn [nodes put_node] in Hb. destruct (decide (a = b)) as [<-|Hne].
  - right. exists i, (Ready (CPush d a)), d.
    rewrite list_lookup_insert_eq by (by eapply lookup_lt_Some). split; [done|by left].
  - rewrite lookup_insert_ne in Hb by done. destruct (Ha b Hb) as [|Hp]; [by left|right].
    eapply pushing_insert; [done| |done]. by intros e [|].
Qed.

Lemma accounted_push s ts ps rs i d a s' t :
  inv max (Sys s ts ps rs) → accounted (Sys s ts ps rs) → ts !! i = Some (Ready (CPush d a)) →
  push_waits s = false → enqueue a s = Ok (tt, s', t) →
  accounted (Sys s' (signal t (<[i := Idle]> ts)) (ps ++ [d]) rs).
Proof.
  intros [(ns & xs & Hr & _ & Hlen & [Hn _]) Hm _] (ns' & xs' & Hr' & Ha) Hi Hpw Heq.
  cbn [mem threads] in *. destruct (rep_unique _ _ _ _ _ Hr Hr') as [<- <-].
  destruct (Hn i _ d a Hi) as [Hnd Hna]; [by left|].
  rewrite (push_waits_spec _ _ _ Hr), Hm in Hpw. apply bool_decide_eq_false in Hpw.
  destruct (enqueue_ok s ns xs a d Hr Hnd Hna) as [He Hre]; [lia|].
  rewrite He in Heq. injection Heq as <- <-. exists (ns ++ [a]), (xs ++ [d]).
  split; [done|]. cbn [mem threads]. intros b Hb%enqueued_live. rewrite elem_of_snoc.
  destruct (Ha b Hb) as [|(j & x & e & Hj & Hc)]; [by left; left|].
  destruct (decide (i = j)) as [<-|Hne].
  - left. right. rewrite Hi in Hj. injection Hj as <-. unfold has_call in Hc. naive_solver.
  - right. apply pushing_signal. exists j, x, e. by rewrite list_lookup_insert_ne.
Qed.

Lemma accounted_pull s ts ps rs i d s' t :
  inv max (Sys s ts ps rs) → accounted (Sys s ts ps rs) → ts !! i = Some (Ready CPull) →
  pull_waits s = false → dequeue s = Ok (d, s', t) →
  accounted (Sys s' (signal t (<[i := Idle]> ts)) ps (rs ++ [d])).
Proof.
  intros [(ns & xs & Hr & _ & Hlen & _) Hm _] (ns' & xs' & Hr' & Ha) Hi Hpw Heq.
  cbn [mem threads] in *. destruct (rep_unique _ _ _ _ _ Hr Hr') as [<- <-].
  rewrite (pull_waits_spec _ _ _ Hr) in Hpw. apply bool_decide_eq_false in Hpw.
  destruct xs as [|x xs]; [done|]. destruct ns as [|a ns]; [by destruct (rep_chain _ _ _ Hr)|].
  destruct (dequeue_ok s a ns x xs Hr) as (q & Hd & Hrd); [lia|rewrite Hm; by apply max_sint|].
  rewrite Hd in Heq. injection Heq as <- <- <-. exists ns, xs. split; [done|].
  cbn [mem threads]. intros b Hb. cbn [nodes dequeued] in Hb.
  destruct (decide (a = b)) as [<-|Hne]; [rewrite lookup_delete_eq in Hb; by destruct Hb|].
  rewrite lookup_delete_ne in Hb by done. destruct (Ha b Hb) as [Hin|Hp].
  - left. apply elem_of_cons in Hin as [->|]; done.
  - right. apply pushing_signal. eapply pushing_insert; [exact Hi| |done]. by intros e [|].
Qed.

Lemma queue_step_accounted x y : inv max x → accounted x → step x y → accounted y.
Proof.
  intros Hi Ha Hs. inv Hs.
  - by eapply accounted_call_push.
  - eapply accounted_threads; [done|]. intros a. eapply pushing_insert; [done|]. by intros e [|].
  - eapply accounted_threads; [done|]. intros a. eapply pushing_insert; [done|].
    intros e [[= ->]|]; [by right|done].
  - by eapply accounted_push.
  - by eapply accounted_pull.
  - eapply accounted_threads; [done|]. intros a. eapply pushing_insert; [done|].
    intros e [|[= ->]]; [done|by left].
Qed.

Lemma queue_accounted n y : rtc step (start max n) y → accounted y.
Proof.
  intros Hr. assert (inv max y ∧ accounted y) as [_ ?]; [|done].
  revert y Hr. apply (rtc_ind_r (λ y, inv max y ∧ accounted y)).
  - split; [by apply queue_start_inv|]. exists [], [].
    split; [split; [done|apply NoDup_nil_2|done|done]|]. intros a. by intros [? ?].
  - intros x z _ Hs [Hi Ha]. split; [by eapply queue_step_inv|by eapply queue_step_accounted].
Qed.
End accounted.

(** Destroying a queue frees each of its nodes exactly once, from the head
    on, and nothing else. *)
Lemma queue_destroy_frees s ns xs :
  rep s ns xs →
  ∃ s', queue_destroy s = Ok (true, s', Free <$> ns) ∧
    ∀ a, nodes s' !! a = if decide (a ∈ ns) then None else nodes s !! a.
Proof.
  intros [Hc Hnd _ _]. exists (dropped ns s). split.
  - unfold queue_destroy.
    pose proof (destroy_ok (S (map_size (nodes s))) s ns xs (Queue.head s) Hc Hnd) as Hd.
    rewrite (bind_ok _ _ _ s s []) by done. rewrite Hd; [done|].
    pose proof (chain_size _ _ _ _ Hc Hnd). lia.
  - intros a. cbn [nodes dropped]. clear Hc Hnd. induction ns as [|b ns IH]; cbn [foldr].
    + rewrite decide_False; [done|]. apply not_elem_of_nil.
    + rewrite lookup_delete, IH. repeat case_decide; try done;
        rewrite elem_of_cons in *; naive_solver.
Qed.

(** ** Properties *)

(** C11: The list code refines the bounded FIFO: whatever sequence of pushes and
    pulls a single thread makes on a new queue, its results (up to the first
    call that blocks) are those of the sequence. *)
Theorem queue_refines_fifo malloc max os :
  (∀ h, h !! malloc h = None) → is_sint 32 max → Z.of_nat (length os) < INT_MAX →
  queue_run malloc os (queue_create max ∅) = Ok (fifo_run max os []).
Proof.
  intros Hfresh Hmax Hlen.
  apply (queue_run_refines malloc Hfresh os (queue_create max ∅) [] []); [|done|done].
  split; [done|apply NoDup_nil_2|done|done].
Qed.

(** C5: In every reachable state of any number of threads on a bounded queue:
    what has been pulled followed by what the queue holds is what has been
    pushed, in order; the queue never exceeds its bound; a thread sleeps on the
    condition variable only while its condition holds (no wake-up is lost);
    the next call that can proceed does so without a fault; and destroying the
    queue frees exactly the nodes it holds, each once, from the head on, so that
    of all nodes ever allocated only those of pushes in progress are left. *)
Theorem queue_threads_safe max n y :
  0 < max ≤ INT_MAX → rtc step (start max n) y →
  ∃ ns xs, rep (mem y) ns xs ∧ pushed y = pulled y ++ xs ∧ Z.of_nat (length xs) ≤ max ∧
    (∀ i, threads y !! i = Some (Waiting CPull) → xs = []) ∧
    (∀ i d a, threads y !! i = Some (Waiting (CPush d a)) → Z.of_nat (length xs) = max) ∧
    (∀ i d a, threads y !! i = Some (Ready (CPush d a)) → push_waits (mem y) = false →
       ∃ s' t, enqueue a (mem y) = Ok (tt, s', t)) ∧
    (xs ≠ [] → ∃ d s' t, dequeue (mem y) = Ok (d, s', t) ∧ xs !! 0%nat = Some d) ∧
    (∃ s', queue_destroy (mem y) = Ok (true, s', Free <$> ns) ∧
       (∀ a, nodes s' !! a = if decide (a ∈ ns) then None else nodes (mem y) !! a) ∧
       ∀ a, is_Some (nodes s' !! a) → pushing (threads y) a).
Proof.
  intros Hmax Hr. destruct (queue_reachable_inv max Hmax n y Hr) as [(ns & xs & Hrep & Hlog & Hlen & Hp)
    Hm Hw]. exists ns, xs. split; [done|]. split; [done|]. split; [done|]. split_and!.
  - intros i Hi. apply Hw in Hi. cbn [waits] in Hi.
    rewrite (pull_waits_spec _ _ _ Hrep) in Hi. by apply bool_decide_eq_true in Hi.
  - intros i d a Hi. apply Hw in Hi. cbn [waits] in Hi.
    rewrite (push_waits_spec _ _ _ Hrep), Hm in Hi. by apply bool_decide_eq_true in Hi as [_ ?].
  - intros i d a Hi Hpw. destruct (pending_node _ _ _ Hp i _ d a Hi) as [Ha Hna]; [by left|].
    rewrite (push_waits_spec _ _ _ Hrep), Hm in Hpw. apply bool_decide_eq_false in Hpw.
    destruct (enqueue_ok (mem y) ns xs a d Hrep Ha Hna) as [He _]; [lia|]. eauto.
  - intros Hne. destruct xs as [|x xs]; [done|].
    destruct ns as [|a ns]; [by destruct (rep_chain _ _ _ Hrep)|].
    destruct (dequeue_ok (mem y) a ns x xs Hrep) as (q & Hd & _);
      [lia|rewrite Hm; by apply max_sint|]. eauto.
  - destruct (queue_destroy_frees _ _ _ Hrep) as (s' & Hd & Hs). exists s'.
    split; [done|]. split; [done|]. intros a Ha. rewrite Hs in Ha.
    case_decide as Hin; [by destruct Ha|].
    destruct (queue_accounted max Hmax n y Hr) as (ns' & xs' & Hrep' & Hacc).
    destruct (rep_unique _ _ _ _ _ Hrep Hrep') as [<- <-]. by destruct (Hacc a Ha).
Qed.

(** ** Concrete instances *)

Definition ex_malloc (h : gmap addr queue_node_t) : addr := fresh (elements (dom h : gset addr)).

Lemma ex_malloc_fresh h : h !! ex_malloc h = None.
Proof.
  apply (not_elem_of_dom (D := gset addr)). intros Hin%elem_of_elements.
  by eapply infinite_is_fresh.
Qed.

Lemma queue_refines_fifo_witness :
  queue_run ex_malloc [Push 7; Push 8; Pull; Push 9; Pull; Pull; Pull] (queue_create 2 ∅) =
    Ok [Pushed; Pushed; Pulled 7; Pushed; Pulled 8; Pulled 9; Blocked].
Proof.
  apply (queue_refines_fifo ex_malloc 2 [Push 7; Push 8; Pull; Push 9; Pull; Pull; Pull]).
  - apply ex_malloc_fresh.
  - apply (bool_decide_unpack _). vm_compute. exact I.
  - reflexivity.
Defined.

Lemma queue_threads_safe_witness :
  let y := Sys (queue_create 1 ∅) [Waiting CPull; Idle] [] [] in
  ∃ ns xs, rep (mem y) ns xs ∧ pushed y = pulled y ++ xs ∧ Z.of_nat (length xs) ≤ 1 ∧
    (∀ i, threads y !! i = Some (Waiting CPull) → xs = []) ∧
    (∀ i d a, threads y !! i = Some (Waiting (CPush d a)) → Z.of_nat (length xs) = 1) ∧
    (∀ i d a, threads y !! i = Some (Ready (CPush d a)) → push_waits (mem y) = false →
       ∃ s' t, enqueue a (mem y) = Ok (tt, s', t)) ∧
    (xs ≠ [] → ∃ d s' t, dequeue (mem y) = Ok (d, s', t) ∧ xs !! 0%nat = Some d) ∧
    (∃ s', queue_destroy (mem y) = Ok (true, s', Free <$> ns) ∧
       (∀ a, nodes s' !! a = if decide (a ∈ ns) then None else nodes (mem y) !! a) ∧
       ∀ a, is_Some (nodes s' !! a) → pushing (threads y) a).
Proof.
  intros y. apply (queue_threads_safe 1 2 y).
  - split; [reflexivity|]. vm_compute. discriminate.
  - apply (rtc_l _ _ (Sys (queue_create 1 ∅) [Ready CPull; Idle] [] [])).
    + apply (step_call_pull (queue_create 1 ∅) [Idle; Idle] [] [] 0). reflexivity.
    + apply rtc_once.
      apply (step_wait (queue_create 1 ∅) [Ready CPull; Idle] [] [] 0 CPull); reflexivity.
Defined.

Definition ex_queue : state :=
  State {[ 1%positive := Node (Some 2%positive) 7; 2%positive := Node None 8;
           3%positive := Node None 9 ]} (Some 1%positive) (Some 2%positive) 2 4.
