(* ===== verification/QueueProgress.v ===== *)
(** * MP4: every call on a shared queue comes to its end (src/MP4/queue.c)

    Threads that run programs of pushes and pulls on one bounded queue.
    [QueueThreads] shows that they are safe; here a run of producers and
    consumers ends after a bounded number of actions, with every program
    finished, whatever the scheduler does and whichever waits are interrupted
    by spurious wake-ups. *)
From stdpp Require Import prelude gmap list_tactics.
From S2P Require Import Prelude CInt Queue QueueThreads.
Open Scope Z_scope.

(** ** Programs *)

(** The threads of [QueueThreads] and what each of them has still to call. *)
Record psys : Type := PSys { core : sys; todo : list (list op) }.

(** An action of one thread: a call, a wait, or the rest of a call. *)
Inductive act : psys → psys → Prop :=
  | act_call_push s ts ps rs P i d os a s' t :
      P !! i = Some (Push d :: os) → ts !! i = Some Idle →
      nodes s !! a = None → new_node (Some a) d s = Ok (a, s', t) →
      act (PSys (Sys s ts ps rs) P)
          (PSys (Sys s' (<[i := Ready (CPush d a)]> ts) ps rs) (<[i := os]> P))
  | act_call_pull s ts ps rs P i os :
      P !! i = Some (Pull :: os) → ts !! i = Some Idle →
      act (PSys (Sys s ts ps rs) P)
          (PSys (Sys s (<[i := Ready CPull]> ts) ps rs) (<[i := os]> P))
  | act_wait s ts ps rs P i c :
      ts !! i = Some (Ready c) → waits c s = true →
      act (PSys (Sys s ts ps rs) P) (PSys (Sys s (<[i := Waiting c]> ts) ps rs) P)
  | act_push s ts ps rs P i d a s' t :
      ts !! i = Some (Ready (CPush d a)) → waits (CPush d a) s = false →
      enqueue a s = Ok (tt, s', t) →
      act (PSys (Sys s ts ps rs) P) (PSys (Sys s' (signal t (<[i := Idle]> ts)) (ps ++ [d]) rs) P)
  | act_pull s ts ps rs P i d s' t :
      ts !! i = Some (Ready CPull) → waits CPull s = false → dequeue s = Ok (d, s', t) →
      act (PSys (Sys s ts ps rs) P) (PSys (Sys s' (signal t (<[i := Idle]> ts)) ps (rs ++ [d])) P).

(** A run of [a] actions and [t] spurious wake-ups. *)
Inductive run : nat → nat → psys → psys → Prop :=
  | run_refl x : run 0 0 x x
  | run_act a t x y z : run a t x y → act y z → run (S a) t x z
  | run_spurious a t x s ts ps rs P i c :
      run a t x (PSys (Sys s ts ps rs) P) → ts !! i = Some (Waiting c) →
      run a (S t) x (PSys (Sys s (<[i := Ready c]> ts) ps rs) P).

Definition pstart (max : Z) (progs : list (list op)) : psys :=
  PSys (start max (length progs)) progs.

Lemma act_step x y : act x y → step (core x) (core y).
Proof. by intros []; cbn [core]; econstructor. Qed.

Lemma run_steps a t x y : run a t x y → rtc step (core x) (core y).
Proof.
  induction 1 as [x|a t x y z _ IH Ha|a t x s ts ps rs P i c _ IH Hi]; [done|..];
    (eapply rtc_r; [exact IH|]); [by apply act_step|by eapply step_spurious].
Qed.

(** ** Sums over the threads *)

Section sums.
Context {A : Type}.

Lemma sum_insert (f : A → nat) (l : list A) i x x' :
  l !! i = Some x →
  (sum_list_with f (<[i := x']> l) + f x = sum_list_with f l + f x')%nat.
Proof.
  intros Hi. rewrite insert_take_drop by (by eapply lookup_lt_Some).
  rewrite <-(take_drop_middle l i x Hi) at 3. rewrite !sum_list_with_app.
  cbn [sum_list_with]. lia.
Qed.

Lemma concat_insert {B} (f : A → list B) (l : list A) i x x' :
  l !! i = Some x → concat (f <$> <[i := x']> l) ++ f x ≡ₚ f x' ++ concat (f <$> l).
Proof.
  intros Hi. rewrite insert_take_drop by (by eapply lookup_lt_Some).
  rewrite <-(take_drop_middle l i x Hi) at 3. rewrite !fmap_app, !concat_app.
  cbn [fmap list_fmap concat]. solve_Permutation.
Qed.

Lemma sum_zero (f : A → nat) (l : list A) :
  (∀ i x, l !! i = Some x → f x = 0%nat) → sum_list_with f l = 0%nat.
Proof.
  induction l as [|x l IH]; intros Hf; [done|]. cbn [sum_list_with].
  rewrite (Hf 0%nat x eq_refl), IH; [done|]. intros i. apply (Hf (S i)).
Qed.

Lemma sum_lookup (f : A → nat) (l : list A) i x :
  l !! i = Some x → (f x ≤ sum_list_with f l)%nat.
Proof.
  revert i. induction l as [|y l IH]; intros [|i]; try done; cbn [sum_list_with].
  - intros [= ->]. lia.
  - intros Hi%IH. lia.
Qed.

Lemma concat_zero {B} (f : A → list B) (l : list A) :
  (∀ i x, l !! i = Some x → f x = []) → concat (f <$> l) = [].
Proof.
  induction l as [|x l IH]; intros Hf; [done|]. cbn [fmap list_fmap concat].
  rewrite (Hf 0%nat x eq_refl), IH; [done|]. intros i. apply (Hf (S i)).
Qed.

Lemma length_concat_sum {B} (f : A → list B) (l : list A) :
  length (concat (f <$> l)) = sum_list_with (λ x, length (f x)) l.
Proof. induction l as [|x l IH]; [done|]. cbn. by rewrite length_app, IH. Qed.
End sums.

(** ** Termination *)

(** With [n] threads: an open call can be woken by each of the others. *)
Definition open_weight (n : nat) (x : status) : nat :=
  match x with Idle => 0 | Ready _ => S n | Waiting _ => n end.
Definition weight (y : psys) : nat :=
  let n := length (threads (core y)) in
  (sum_list_with (open_weight n) (threads (core y)) +
  sum_list_with (λ os, (n + 2) * length os) (todo y))%nat.

Lemma signal_length t ts : length (signal t ts) = length ts.
Proof. unfold signal. case_decide; [apply length_fmap|done]. Qed.

Lemma signal_weight n t ts :
  (sum_list_with (open_weight n) (signal t ts) ≤
   sum_list_with (open_weight n) ts + length ts)%nat.
Proof.
  unfold signal. case_decide; [|lia]. induction ts as [|x ts IH]; [done|].
  cbn [fmap list_fmap sum_list_with length]. destruct x; cbn [wake open_weight]; lia.
Qed.

Lemma act_length x y :
  act x y → length (threads (core y)) = length (threads (core x)) ∧ length (todo y) = length (todo x).
Proof. intros []; cbn [core threads todo]; by rewrite ?signal_length, ?length_insert. Qed.

Lemma queue_act_weight x y : act x y → (weight y < weight x)%nat.
Proof.
  intros Ha. unfold weight. rewrite (proj1 (act_length x y Ha)).
  destruct Ha as [s ts ps rs P i d os a s' t HP Hi _ _|s ts ps rs P i os HP Hi|
    s ts ps rs P i c Hi _|s ts ps rs P i d a s' t Hi _ _|s ts ps rs P i d s' t Hi _ _];
    cbn [core threads todo]; set (n := length ts).
  - pose proof (sum_insert (open_weight n) ts i _ (Ready (CPush d a)) Hi).
    pose proof (sum_insert (λ os, (n + 2) * length os)%nat P i _ os HP).
    cbn [open_weight length] in *. lia.
  - pose proof (sum_insert (open_weight n) ts i _ (Ready CPull) Hi).
    pose proof (sum_insert (λ os, (n + 2) * length os)%nat P i _ os HP).
    cbn [open_weight length] in *. lia.
  - pose proof (sum_insert (open_weight n) ts i _ (Waiting c) Hi). cbn [open_weight] in *. lia.
  - pose proof (sum_insert (open_weight n) ts i _ Idle Hi).
    pose proof (signal_weight n t (<[i := Idle]> ts)) as Hs. rewrite length_insert in Hs.
    cbn [open_weight] in *. lia.
  - pose proof (sum_insert (open_weight n) ts i _ Idle Hi).
    pose proof (signal_weight n t (<[i := Idle]> ts)) as Hs. rewrite length_insert in Hs.
    cbn [open_weight] in *. lia.
Qed.

Lemma run_weight a t x y : run a t x y → (a + weight y ≤ weight x + t)%nat.
Proof.
  induction 1 as [x|a t x y z _ IH Ha|a t x s ts ps rs P i c _ IH Hi]; [lia|..].
  - pose proof (queue_act_weight y z Ha). lia.
  - revert IH. unfold weight. cbn [core threads todo]. rewrite length_insert.
    pose proof (sum_insert (open_weight (length ts)) ts i _ (Ready c) Hi).
    cbn [open_weight] in *. lia.
Qed.

Definition total (progs : list (list op)) : nat := sum_list_with length progs.

Lemma queue_start_weight max progs :
  weight (pstart max progs) = ((length progs + 2) * total progs)%nat.
Proof.
  unfold weight, pstart, total. cbn [core threads todo start]. rewrite length_replicate.
  assert (H0 : ∀ n k, sum_list_with (open_weight k) (replicate n Idle) = 0%nat)
    by (intros n k; by induction n).
  rewrite H0. generalize (length progs + 2)%nat. intros k. cbn [Nat.add].
  induction progs as [|os progs IH]; [cbn; lia|]. cbn [sum_list_with]. lia.
Qed.

(** ** What is in progress *)

Definition op_values (o : op) : list Z := match o with Push d => [d] | Pull => [] end.
Definition op_pulls (o : op) : nat := match o with Pull => 1 | _ => 0 end.
Definition values (os : list op) : list Z := concat (op_values <$> os).
Definition pulls (os : list op) : nat := sum_list_with op_pulls os.

Definition open_values (x : status) : list Z :=
  match x with Ready (CPush d _) | Waiting (CPush d _) => [d] | _ => [] end.
Definition open_pulls (x : status) : nat :=
  match x with Ready CPull | Waiting CPull => 1 | _ => 0 end.

(** A program only pushes or only pulls. *)
Definition one_sided (os : list op) : Prop := values os = [] ∨ pulls os = 0%nat.

Record progress (progs : list (list op)) (y : psys) : Prop := {
  prog_length : length (threads (core y)) = length (todo y);
  prog_values :
    pushed (core y) ++ concat (open_values <$> threads (core y)) ++
      concat (values <$> todo y) ≡ₚ concat (values <$> progs);
  prog_pulls :
    (length (pulled (core y)) + sum_list_with open_pulls (threads (core y)) +
     sum_list_with pulls (todo y) = sum_list_with pulls progs)%nat;
  prog_sided i x os : threads (core y) !! i = Some x → todo y !! i = Some os →
    (open_values x ++ values os = []) ∨ (open_pulls x + pulls os = 0)%nat;
  prog_order i os : progs !! i = Some os → ∃ x rest sent,
    threads (core y) !! i = Some x ∧ todo y !! i = Some rest ∧
    values os = sent ++ open_values x ++ values rest ∧ sent `sublist_of` pushed (core y);
}.

Lemma wake_values x : open_values (wake x) = open_values x.
Proof. by destruct x. Qed.
Lemma wake_pulls x : open_pulls (wake x) = open_pulls x.
Proof. by destruct x. Qed.

Lemma signal_values t ts : concat (open_values <$> signal t ts) = concat (open_values <$> ts).
Proof.
  unfold signal. case_decide; [|done]. rewrite <-list_fmap_compose. f_equal.
  apply list_fmap_ext. intros ? x _. apply wake_values.
Qed.

Lemma signal_pulls t ts : sum_list_with open_pulls (signal t ts) = sum_list_with open_pulls ts.
Proof.
  unfold signal. case_decide; [|done]. induction ts as [|x ts IH]; [done|].
  cbn [fmap list_fmap sum_list_with]. by rewrite wake_pulls, IH.
Qed.

(** A thread that changes its status, and possibly its program. *)
Lemma lookup_insert_cases {A} (l : list A) i j x y :
  <[i := x]> l !! j = Some y → (i = j ∧ y = x ∧ is_Some (l !! i)) ∨ (i ≠ j ∧ l !! j = Some y).
Proof.
  intros Hj. destruct (decide (i = j)) as [<-|Hne].
  - left. assert (i < length l)%nat as Hi.
    { apply lookup_lt_Some in Hj. by rewrite length_insert in Hj. }
    rewrite list_lookup_insert_eq in Hj by done. split; [done|]. split; [congruence|].
    by apply lookup_lt_is_Some.
  - right. by rewrite list_lookup_insert_ne in Hj.
Qed.

(** One thread takes the next call of its program, or none, or completes its
    call: [ps'] and [rs'] are the logs it leaves. *)
Lemma progress_step progs s s' ts ps rs P i x x' os os' t dp dr :
  progress progs (PSys (Sys s ts ps rs) P) →
  ts !! i = Some x → P !! i = Some os →
  open_values x ++ values os = dp ++ open_values x' ++ values os' →
  (open_pulls x + pulls os = length dr + open_pulls x' + pulls os')%nat →
  progress progs (PSys (Sys s' (signal t (<[i := x']> ts)) (ps ++ dp) (rs ++ dr)) (<[i := os']> P)).
Proof.
  intros [Hl Hv Hp Hs Ho] Hi HP Hval Hpul. cbn [core threads todo pushed pulled] in *.
  split; cbn [core threads todo pushed pulled].
  - by rewrite signal_length, !length_insert.
  - rewrite signal_values, <-Hv.
    pose proof (concat_insert open_values ts i x x' Hi) as Ht.
    pose proof (concat_insert values P i os os' HP) as HPt.
    apply (Permutation_app_inv_r (open_values x ++ values os)).
    rewrite Hval at 2. revert Ht HPt.
    generalize (concat (open_values <$> <[i := x']> ts)) (concat (open_values <$> ts))
      (concat (values <$> <[i := os']> P)) (concat (values <$> P)).
    intros a b c d Ht HPt.
    transitivity (ps ++ dp ++ (a ++ open_values x) ++ (c ++ values os)); [solve_Permutation|].
    rewrite Ht, HPt. solve_Permutation.
  - rewrite signal_pulls, length_app.
    pose proof (sum_insert open_pulls ts i x x' Hi). pose proof (sum_insert pulls P i os os' HP). lia.
  - intros j y rest Hj Hr. destruct (signal_lookup _ _ _ _ Hj) as (z & Hz & Hyz).
    assert (open_values y = open_values z ∧ open_pulls y = open_pulls z) as [-> ->]
      by (destruct Hyz as [-> | ->]; by rewrite ?wake_values, ?wake_pulls).
    destruct (lookup_insert_cases _ _ _ _ _ Hz) as [(<- & -> & _)|[Hne Hz']].
    + rewrite list_lookup_insert_eq in Hr by (by eapply lookup_lt_Some). injection Hr as <-.
      destruct (Hs i x os Hi HP) as [He|He]; [left|right; lia].
      rewrite Hval in He. by apply app_nil in He as [_ ?].
    + rewrite list_lookup_insert_ne in Hr by done. eauto.
  - intros j prog Hj. destruct (Ho j prog Hj) as (z & rest & sent & Hz & Hr & Heq & Hsub).
    assert (Hw : ∀ u, <[i := x']> ts !! j = Some u →
      ∃ u', signal t (<[i := x']> ts) !! j = Some u' ∧ open_values u' = open_values u).
    { intros u Hu. unfold signal. case_decide; [|by exists u]. exists (wake u).
      by rewrite list_lookup_fmap, Hu, wake_values. }
    destruct (decide (i = j)) as [<-|Hne].
    + assert (z = x) as -> by congruence. assert (rest = os) as -> by congruence.
      destruct (Hw x') as (u' & Hu' & Hvu); [by apply list_lookup_insert_eq; eapply lookup_lt_Some|].
      exists u', os', (sent ++ dp). split; [done|].
      split; [by apply list_lookup_insert_eq; eapply lookup_lt_Some|].
      split; [by rewrite Hvu, Heq, Hval, <-!app_assoc|]. by apply sublist_app.
    + destruct (Hw z) as (u' & Hu' & Hvu); [by rewrite list_lookup_insert_ne|].
      exists u', rest, sent. split; [done|]. split; [by rewrite list_lookup_insert_ne|].
      split; [by rewrite Hvu|]. by apply sublist_inserts_r.
Qed.

(** A step that gives no signal, and logs nothing. *)
Lemma progress_silent progs s s' ts ps rs P i x x' os os' :
  progress progs (PSys (Sys s ts ps rs) P) →
  ts !! i = Some x → P !! i = Some os →
  open_values x ++ values os = open_values x' ++ values os' →
  (open_pulls x + pulls os = open_pulls x' + pulls os')%nat →
  progress progs (PSys (Sys s' (<[i := x']> ts) ps rs) (<[i := os']> P)).
Proof.
  intros Hp Hi HP Hv Hn. rewrite <-(app_nil_r ps), <-(app_nil_r rs).
  change (<[i := x']> ts) with (signal [] (<[i := x']> ts)).
  by apply (progress_step progs s s' ts ps rs P i x x' os os' [] [] []).
Qed.

Lemma progress_todo progs s ts ps rs P i x :
  progress progs (PSys (Sys s ts ps rs) P) → ts !! i = Some x → ∃ os, P !! i = Some os.
Proof.
  intros [Hl _ _ _ _] Hi. cbn [core threads todo] in Hl. apply lookup_lt_is_Some_2.
  rewrite <-Hl. by eapply lookup_lt_Some.
Qed.

Lemma act_progress progs x y : progress progs x → act x y → progress progs y.
Proof.
  intros Hp Ha. destruct Ha as [s ts ps rs P i d os a s' t HP Hi _ _|s ts ps rs P i os HP Hi|
    s ts ps rs P i c Hi _|s ts ps rs P i d a s' t Hi _ _|s ts ps rs P i d s' t Hi _ _].
  - by eapply (progress_silent progs s s').
  - by eapply (progress_silent progs s s).
  - destruct (progress_todo _ _ _ _ _ _ _ _ Hp Hi) as [os HP].
    rewrite <-(list_insert_id P i os HP). by eapply (progress_silent progs s s); [..|destruct c].
  - destruct (progress_todo _ _ _ _ _ _ _ _ Hp Hi) as [os HP].
    rewrite <-(list_insert_id P i os HP), <-(app_nil_r rs).
    by eapply (progress_step progs s s' ts ps rs P i _ Idle os os t [d] []).
  - destruct (progress_todo _ _ _ _ _ _ _ _ Hp Hi) as [os HP].
    rewrite <-(list_insert_id P i os HP), <-(app_nil_r ps).
    by eapply (progress_step progs s s' ts ps rs P i _ Idle os os t [] [d]).
Qed.

Lemma start_progress max progs : Forall one_sided progs → progress progs (pstart max progs).
Proof.
  intros Hone. assert (Hidle : ∀ i x, replicate (length progs) Idle !! i = Some x → x = Idle).
  { intros i x. rewrite lookup_replicate. by intros [-> _]. }
  assert (Hnone : ∀ n, concat (open_values <$> replicate n Idle) = []) by (intros n; by induction n).
  assert (Hzero : ∀ n, sum_list_with open_pulls (replicate n Idle) = 0%nat)
    by (intros n; by induction n).
  split; cbn [pstart start core threads todo pushed pulled].
  - apply length_replicate.
  - by rewrite Hnone.
  - by rewrite Hzero.
  - intros i x os ->%Hidle Hos. rewrite Forall_lookup in Hone.
    destruct (Hone i os Hos) as [He|He]; [by left|by right].
  - intros i os Hos. exists Idle, os, []. split.
    + apply lookup_replicate_2. by eapply lookup_lt_Some.
    + split; [done|]. split; [done|]. by apply sublist_nil_l.
Qed.

Lemma run_progress progs max a t y :
  Forall one_sided progs → run a t (pstart max progs) y → progress progs y.
Proof.
  intros Hone. set (x := pstart max progs). intros Hr. revert Hone.
  assert (Hx : Forall one_sided progs → progress progs x) by apply start_progress.
  revert Hx. generalize x Hr. clear x Hr. intros x Hr Hx Hone. specialize (Hx Hone).
  induction Hr as [x|a t x y z _ IH Ha|a t x s ts ps rs P i c _ IH Hi]; [done|..].
  - eapply act_progress; [by apply IH|done].
  - specialize (IH Hx). destruct (progress_todo _ _ _ _ _ _ _ _ IH Hi) as [os HP].
    rewrite <-(list_insert_id P i os HP). by eapply (progress_silent progs s s); [..|destruct c].
Qed.

(** ** Where nothing can move *)

Definition finished (y : psys) : Prop :=
  Forall (.= Idle) (threads (core y)) ∧ Forall (.= []) (todo y).

Section stuck.
Context (max : Z) (Hmax : 0 < max ≤ INT_MAX).

(** A thread that has something to do and does not sleep can act. *)
Lemma ready_acts y i c :
  inv max (core y) → threads (core y) !! i = Some (Ready c) → ∃ z, act y z.
Proof.
  destruct y as [[s ts ps rs] P]. intros [(ns & xs & Hr & _ & Hlen & Hp) Hm _] Hi.
  cbn [core mem threads] in *. destruct (waits c s) eqn:Hw; [by eexists; eapply act_wait|].
  destruct c as [d a|]; cbn [waits] in Hw.
  - destruct (pending_node _ _ _ Hp i _ d a Hi) as [Ha Hna]; [by left|].
    pose proof Hw as Hw'. rewrite (push_waits_spec _ _ _ Hr), Hm in Hw'.
    apply bool_decide_eq_false in Hw'.
    destruct (enqueue_ok s ns xs a d Hr Ha Hna) as [He _]; [lia|]. by eexists; eapply act_push.
  - pose proof Hw as Hw'. rewrite (pull_waits_spec _ _ _ Hr) in Hw'.
    apply bool_decide_eq_false in Hw'. destruct xs as [|x xs]; [done|].
    destruct ns as [|a ns]; [by destruct (rep_chain _ _ _ Hr)|].
    destruct (dequeue_ok s a ns x xs Hr) as (q & Hd & _); [lia|rewrite Hm; by apply max_sint|].
    by eexists; eapply act_pull.
Qed.

Lemma idle_acts y i o os :
  threads (core y) !! i = Some Idle → todo y !! i = Some (o :: os) → ∃ z, act y z.
Proof.
  destruct y as [[s ts ps rs] P]. cbn [core threads todo]. intros Hi HP. destruct o as [d|].
  - eexists. eapply (act_call_push s ts ps rs P i d os (fresh (dom (nodes s) : gset addr)));
      [done|done| |reflexivity]. apply (not_elem_of_dom (D := gset addr)), is_fresh.
  - eexists. by eapply act_call_pull.
Qed.

(** So in a stuck state every thread has finished or sleeps. *)
Lemma stuck_thread y i x os :
  inv max (core y) → (∀ z, ¬ act y z) → threads (core y) !! i = Some x → todo y !! i = Some os →
  (x = Idle ∧ os = []) ∨ ∃ c, x = Waiting c.
Proof.
  intros Hi Hn Hx Hos. destruct x as [|c|c]; [|exfalso|by right; exists c].
  - left. destruct os as [|o os]; [done|]. exfalso.
    destruct (idle_acts y i o os Hx Hos) as [z Hz]. by eapply Hn.
  - destruct (ready_acts y i c Hi Hx) as [z Hz]. by eapply Hn.
Qed.

(** A condition that holds for all threads of a stuck state. *)
Lemma stuck_forall progs y (Q : status → list op → Prop) :
  inv max (core y) → progress progs y → (∀ z, ¬ act y z) → Q Idle [] →
  (∀ c os i, threads (core y) !! i = Some (Waiting c) → todo y !! i = Some os → Q (Waiting c) os) →
  ∀ i x os, threads (core y) !! i = Some x → todo y !! i = Some os → Q x os.
Proof.
  intros Hi Hp Hn H0 Hw i x os Hx Hos.
  destruct (stuck_thread y i x os Hi Hn Hx Hos) as [[-> ->]|[c ->]]; eauto.
Qed.

(** Both halves of a thread's state. *)
Lemma both_zero progs y (f : status → nat) (g : list op → nat) :
  progress progs y →
  (∀ i x os, threads (core y) !! i = Some x → todo y !! i = Some os → (f x + g os = 0)%nat) →
  (sum_list_with f (threads (core y)) + sum_list_with g (todo y) = 0)%nat.
Proof.
  intros Hp Hz. pose proof (prog_length _ _ Hp) as Hl.
  rewrite !sum_zero; [done| |].
  - intros i os Hos. destruct (lookup_lt_is_Some_2 (threads (core y)) i) as [x Hx];
      [rewrite Hl; by eapply lookup_lt_Some|]. specialize (Hz i x os Hx Hos). lia.
  - intros i x Hx. destruct (lookup_lt_is_Some_2 (todo y) i) as [os Hos];
      [rewrite <-Hl; by eapply lookup_lt_Some|]. specialize (Hz i x os Hx Hos). lia.
Qed.

Lemma stuck_finished progs y :
  inv max (core y) → progress progs y → (∀ z, ¬ act y z) →
  let pushes := length (concat (values <$> progs)) in
  (sum_list_with pulls progs ≤ pushes)%nat →
  Z.of_nat pushes ≤ Z.of_nat (sum_list_with pulls progs) + max →
  finished y ∧ pushed (core y) ≡ₚ concat (values <$> progs) ∧
  length (pulled (core y)) = sum_list_with pulls progs.
Proof.
  intros Hi Hp Hn pushes Hle Hge.
  pose proof Hi as [(ns & xs & Hr & Hlog & Hlen & _) Hm Hw].
  pose proof (f_equal length Hlog) as Hlog'. rewrite length_app in Hlog'.
  pose proof (Permutation_length (prog_values _ _ Hp)) as Hv.
  rewrite !length_app, !length_concat_sum in Hv. unfold pushes in *. rewrite length_concat_sum in *.
  pose proof (prog_pulls _ _ Hp) as Hpl. pose proof (prog_sided _ _ Hp) as Hs.
  assert (Hpull : ∀ i, threads (core y) !! i = Some (Waiting CPull) → xs = []).
  { intros i Ht%Hw. cbn [waits] in Ht. rewrite (pull_waits_spec _ _ _ Hr) in Ht.
    by apply bool_decide_eq_true in Ht. }
  assert (Hpush : ∀ i d a, threads (core y) !! i = Some (Waiting (CPush d a)) → Z.of_nat (length xs) = max).
  { intros i d a Ht%Hw. cbn [waits] in Ht. rewrite (push_waits_spec _ _ _ Hr), Hm in Ht.
    by apply bool_decide_eq_true in Ht as [_ ?]. }
  assert (Hidle : ∀ i x os, threads (core y) !! i = Some x → todo y !! i = Some os → x = Idle ∧ os = []).
  { apply (stuck_forall progs y (λ x os, x = Idle ∧ os = [])); [done|done|done|done|].
    intros c os i Ht Hos. exfalso. destruct c as [d a|].
    - (* a producer sleeps: no pull is left, and the queue holds more than is pushed *)
      pose proof (Hpush i d a Ht) as Hfull.
      assert (Hz : (sum_list_with open_pulls (threads (core y)) + sum_list_with pulls (todo y) = 0)%nat).
      { apply (both_zero progs y _ _ Hp).
        apply (stuck_forall progs y (λ x os, (open_pulls x + pulls os = 0)%nat)); [done..|].
        intros [e b|] os' j Hj Hos'; [by destruct (Hs j _ os' Hj Hos') as [|]|].
        apply Hpull in Hj. subst xs. cbn in Hfull. lia. }
      pose proof (sum_lookup (λ x, length (open_values x)) _ _ _ Ht). cbn in *. lia.
    - (* a consumer sleeps: all is pushed, so all is pulled *)
      pose proof (Hpull i Ht) as ->. cbn [length] in Hlog'.
      assert (Hz : (sum_list_with (λ x, length (open_values x)) (threads (core y)) +
              sum_list_with (λ os, length (values os)) (todo y) = 0)%nat).
      { apply (both_zero progs y _ _ Hp).
        apply (stuck_forall progs y (λ x os, (length (open_values x) + length (values os) = 0)%nat));
          [done..|]. intros [e b|] os' j Hj Hos'; [apply Hpush in Hj; cbn in Hj; lia|].
        destruct (Hs j _ os' Hj Hos') as [He|]; [|done]. cbn in *. by rewrite He. }
      pose proof (sum_lookup open_pulls _ _ _ Ht). cbn in *. lia. }
  assert (Hzv : (sum_list_with (λ x, length (open_values x)) (threads (core y)) +
           sum_list_with (λ os, length (values os)) (todo y) = 0)%nat).
  { apply (both_zero progs y _ _ Hp). intros j x os Hx Hos.
    by destruct (Hidle j x os Hx Hos) as [-> ->]. }
  assert (Hzp : (sum_list_with open_pulls (threads (core y)) + sum_list_with pulls (todo y) = 0)%nat).
  { apply (both_zero progs y _ _ Hp). intros j x os Hx Hos.
    by destruct (Hidle j x os Hx Hos) as [-> ->]. }
  pose proof (prog_length _ _ Hp) as Hl. split_and!; [split; apply Forall_lookup| |lia].
  - intros j x Hx. destruct (lookup_lt_is_Some_2 (todo y) j) as [os Hos];
      [rewrite <-Hl; by eapply lookup_lt_Some|]. by destruct (Hidle j x os Hx Hos).
  - intros j os Hos. destruct (lookup_lt_is_Some_2 (threads (core y)) j) as [x Hx];
      [rewrite Hl; by eapply lookup_lt_Some|]. by destruct (Hidle j x os Hx Hos).
  - rewrite <-(prog_values _ _ Hp).
    assert (Hnil : concat (open_values <$> threads (core y)) ++ concat (values <$> todo y) = []).
    { apply length_zero_iff_nil. rewrite length_app, !length_concat_sum. lia. }
    by rewrite Hnil, app_nil_r.
Qed.
End stuck.

(** ** Properties *)

(** C6: Producers and consumers on one bounded queue always come to their end:
    in every run, whatever the scheduler does, the number of actions is bounded
    by the number of calls and of spurious wake-ups, and a state in which no
    thread can act is one in which every program has finished, as long as the
    queue holds what is pushed beyond what is pulled.  Then everything pushed
    beyond it has been pulled, each value once, in the order of the pushes, and
    among them the values of each producer in its own order. *)
Theorem queue_progress max progs a t y :
  0 < max ≤ INT_MAX → Forall one_sided progs →
  let all := concat (values <$> progs) in
  let pulled_count := sum_list_with pulls progs in
  Z.of_nat pulled_count ≤ Z.of_nat (length all) ≤ Z.of_nat pulled_count + max →
  run a t (pstart max progs) y →
  (a ≤ (length progs + 2) * total progs + t)%nat ∧
  ((∀ z, ¬ act y z) →
     finished y ∧ pushed (core y) ≡ₚ all ∧
     pulled (core y) = take pulled_count (pushed (core y)) ∧
     ∀ i os, progs !! i = Some os → values os `sublist_of` pushed (core y)).
Proof.
  intros Hmax Hone all pulled_count [Hle Hge] Hr. split.
  { pose proof (run_weight _ _ _ _ Hr) as Hw. rewrite queue_start_weight in Hw. lia. }
  intros Hn. pose proof (run_progress _ _ _ _ _ Hone Hr) as Hp.
  pose proof (queue_reachable_inv max Hmax _ _ (run_steps _ _ _ _ Hr)) as Hi.
  destruct (stuck_finished max Hmax progs y Hi Hp Hn) as (Hf & Hpu & Hpl);
    [by apply Nat2Z.inj_le|done|].
  split; [done|]. split; [done|]. split.
  - destruct Hi as [(ns & xs & _ & -> & _) _ _]. unfold pulled_count. by rewrite <-Hpl, take_app_length.
  - intros i os Hos. destruct (prog_order _ _ Hp i os Hos) as (x & rest & sent & Hx & Hrest & Hval & Hsub).
    destruct Hf as [Hft Hfd]. rewrite Forall_lookup in Hft. rewrite Forall_lookup in Hfd.
    rewrite (Hft i x Hx), (Hfd i rest Hrest) in Hval. cbn [open_values values app] in Hval.
    cbn in Hval. by rewrite Hval, app_nil_r.
Qed.

(** ** Concrete instances *)

(** Two producers and a consumer on a queue of one place. *)
Definition ex_programs : list (list op) :=
  [[Push 1; Push 2]; [Push 3]; [Pull; Pull]].

Lemma queue_progress_witness :
  let y := PSys (Sys (queue_create 1 ∅) [Idle; Idle; Waiting CPull] [] [])
             [[Push 1; Push 2]; [Push 3]; [Pull]] in
  (2 ≤ (3 + 2) * total ex_programs + 0)%nat ∧
  ((∀ z, ¬ act y z) →
     finished y ∧ pushed (core y) ≡ₚ [1; 2; 3] ∧
     pulled (core y) = take 2 (pushed (core y)) ∧
     ∀ i os, ex_programs !! i = Some os → values os `sublist_of` pushed (core y)).
Proof.
  intros y. apply (queue_progress 1 ex_programs 2 0 y).
  - split; [reflexivity|]. vm_compute. discriminate.
  - repeat (apply Forall_cons; split; [first [by left | by right]|]). apply Forall_nil. exact I.
  - split; vm_compute; discriminate.
  - apply (run_act 1 0 _ (PSys (Sys (queue_create 1 ∅) [Idle; Idle; Ready CPull] [] [])
             [[Push 1; Push 2]; [Push 3]; [Pull]])).
    + apply (run_act 0 0 _ (pstart 1 ex_programs)); [apply run_refl|].
      apply (act_call_pull (queue_create 1 ∅) [Idle; Idle; Idle] [] [] ex_programs 2 [Pull]); reflexivity.
    + apply (act_wait (queue_create 1 ∅) [Idle; Idle; Ready CPull] [] [] _ 2 CPull); reflexivity.
Defined.
