(* ===== verification/Wire.v ===== *)
(** * MP4: the wire (src/MP4/utils.c)

    [read_all_from_socket] and [write_all_to_socket] over a socket that moves
    data in pieces and may be interrupted, and the encoding of the values and
    of the state message.  The messages built on them are in Frames.v. *)
From Stdlib Require Import SpecFloat.
From stdpp Require Import prelude.
From S2P Require Import Prelude CInt CFloat.
Open Scope Z_scope.

Definition MESSAGE_SIZE_DIGITS : nat := 4.
Definition MSG_TYPE_DATA : Z := 0.
Definition MSG_TYPE_STATE : Z := -1.
Definition MSG_TYPE_REBALANCE : Z := 2.

(** ** The socket *)

(** How the kernel answers one [read] or [write]: it moves up to [n] bytes (at
    least one), finds the peer gone, is interrupted (EINTR) or fails. *)
Inductive answer : Type := Moves (n : nat) | Closed | Interrupted | Fails.

(** The bytes the peer has sent, the bytes sent to it, and the answers to the
    coming system calls. *)
Record socket : Type := Socket {
  inbox : list byte; outbox : list byte; answers : list answer }.

(** How much of at most [avail] bytes a call moves. *)
Definition amount (n avail : nat) : nat := Nat.min (Nat.max 1 n) avail.

(** The results 0, -1 with errno EINTR, -1 with another errno, or the bytes. *)
Inductive io : Type := IoZero | IoIntr | IoError | IoBytes (bs : list byte).

(** [read (fd, buf, count)]; [None] when it never returns. *)
Definition sys_read (count : nat) (s : socket) : option (io * socket) :=
  match answers s with
  | [] => None
  | a :: rest =>
      match a with
      | Closed => Some (IoZero, Socket (inbox s) (outbox s) rest)
      | Interrupted => Some (IoIntr, Socket (inbox s) (outbox s) rest)
      | Fails => Some (IoError, Socket (inbox s) (outbox s) rest)
      | Moves n =>
          let k := amount n (Nat.min count (length (inbox s))) in
          match k with
          | O => if decide (count = O) then Some (IoZero, Socket (inbox s) (outbox s) rest)
                 else None
          | _ => Some (IoBytes (take k (inbox s)),
                       Socket (drop k (inbox s)) (outbox s) rest)
          end
      end
  end.

(** [write (fd, buf, count)] of [bs]. *)
Definition sys_write (bs : list byte) (s : socket) : option (io * socket) :=
  match answers s with
  | [] => None
  | a :: rest =>
      match a with
      | Closed => Some (IoZero, Socket (inbox s) (outbox s) rest)
      | Interrupted => Some (IoIntr, Socket (inbox s) (outbox s) rest)
      | Fails => Some (IoError, Socket (inbox s) (outbox s) rest)
      | Moves n =>
          let k := amount n (length bs) in
          match k with
          | O => Some (IoZero, Socket (inbox s) (outbox s) rest)
          | _ => Some (IoBytes (take k bs), Socket (inbox s) (outbox s ++ take k bs) rest)
          end
      end
  end.

(** ** The transfer loops *)

(** The do-while loop of [read_all_from_socket]: the return value and the bytes
    stored so far.  Every iteration consumes an answer. *)
Fixpoint read_loop (fuel count : nat) (got : list byte) (s : socket) :
    option (Z * list byte * socket) :=
  match fuel with
  | O => None
  | S fuel' =>
      '(r, s') ← sys_read (count - length got) s;
      match r with
      | IoZero => Some (0, got, s')
      | IoError => Some (-1, got, s')
      | IoIntr =>
          if decide (length got < count)%nat then read_loop fuel' count got s'
          else Some (Z.of_nat (length got), got, s')
      | IoBytes bs =>
          let got' := got ++ bs in
          if decide (length got' < count)%nat then read_loop fuel' count got' s'
          else Some (Z.of_nat (length got'), got', s')
      end
  end.

Definition read_all_from_socket (count : nat) (s : socket) : option (Z * list byte * socket) :=
  read_loop (S (length (answers s))) count [] s.

Fixpoint write_loop (fuel : nat) (buffer : list byte) (total : nat) (s : socket) :
    option (Z * socket) :=
  match fuel with
  | O => None
  | S fuel' =>
      '(r, s') ← sys_write (drop total buffer) s;
      match r with
      | IoZero => Some (0, s')
      | IoError => Some (-1, s')
      | IoIntr =>
          if decide (total < length buffer)%nat then write_loop fuel' buffer total s'
          else Some (Z.of_nat total, s')
      | IoBytes bs =>
          let total' := (total + length bs)%nat in
          if decide (total' < length buffer)%nat then write_loop fuel' buffer total' s'
          else Some (Z.of_nat total', s')
      end
  end.

Definition write_all_to_socket (buffer : list byte) (s : socket) : option (Z * socket) :=
  write_loop (S (length (answers s))) buffer 0 s.

(** ** Values *)

Definition get_single_value (s : socket) : option (Z * socket) :=
  '(read_bytes, bs, s') ← read_all_from_socket MESSAGE_SIZE_DIGITS s;
  if decide (read_bytes = 0 ∨ read_bytes = -1) then Some (-2, s')
  else Some (int32 (be_val bs), s').

Definition get_msg_type : socket → option (Z * socket) := get_single_value.
Definition get_jobid : socket → option (Z * socket) := get_single_value.

Definition send_single_value (value : Z) (s : socket) : option (Z * socket) :=
  write_all_to_socket (be_bytes MESSAGE_SIZE_DIGITS (uint32 value)) s.

Definition write_jobid : Z → socket → option (Z * socket) := send_single_value.
Definition send_msg_type : Z → socket → option (Z * socket) := send_single_value.

(** ** The state message *)

(** A [float] and a [double] are given by their bit patterns; [float_of_bits]
    is the value of a [float] and [float_of_int] the conversion from [int]. *)
Definition float_of_int (z : Z) : spec_float := of_int single z.

Definition float_of_bits (b : Z) : spec_float :=
  let sign := Z.testbit b 31 in
  let e := Z.shiftr b 23 mod 256 in
  let m := b mod 8388608 in
  if decide (e = 255) then (if decide (m = 0) then S754_infinity sign else S754_nan)
  else if decide (e = 0) then
    match m with Zpos p => S754_finite sign p (-149) | _ => S754_zero sign end
  else match m + 8388608 with Zpos p => S754_finite sign p (e - 150) | _ => S754_nan end.

(** [int state[4]] as [send_state] fills it. *)
Definition state_image (num_jobs throttle_bits cpu_bits : Z) : list byte :=
  le_bytes 4 num_jobs ++ le_bytes 4 throttle_bits ++ le_bytes 8 cpu_bits.

Definition send_state (num_jobs throttle_bits cpu_bits : Z) (s : socket) :
    option (Z * socket) :=
  '(_, s1) ← send_msg_type MSG_TYPE_STATE s;
  '(ret, s2) ← write_all_to_socket (state_image num_jobs throttle_bits cpu_bits) s1;
  Some (if decide (ret = 16) then 0 else -1, s2).

(** What [state_handle] knows of its peer. *)
Record peer : Type := Peer {
  peer_num_jobs : Z; peer_throttle_value : spec_float; peer_cpu_usage : Z }.

(** [int buffer[i]] of a buffer of bytes. *)
Definition word_at (bs : list byte) (i : nat) : Z :=
  int32 (le_val (take 4 (drop (4 * i) bs))).

(** [state_handle] up to its call of [adaptor]: the return value when it
    returns early, and the peer afterwards. *)
Definition state_handle (p : peer) (s : socket) : option (option Z * peer * socket) :=
  '(retval, buffer, s') ← read_all_from_socket 16 s;
  if decide (retval ≠ 16) then Some (Some (-1), p, s')
  else if decide (peer_num_jobs p = -1 ∧ word_at buffer 0 = 0) then Some (Some 0, p, s')
  else Some (None,
             Peer (word_at buffer 0) (float_of_int (word_at buffer 1))
                  (le_val (take 8 (drop 8 buffer))), s').

(** ** The loops move everything *)

Definition is_move (a : answer) : bool := match a with Moves _ => true | _ => false end.
Definition works (a : answer) : bool :=
  match a with Moves _ | Interrupted => true | _ => false end.

(** The coming calls neither close nor fail, and [n] of them move data. *)
Definition ready (n : nat) (l : list answer) : Prop :=
  forallb works l = true ∧ (n ≤ length (List.filter is_move l))%nat.

Lemma ready_le n m l : (m ≤ n)%nat → ready n l → ready m l.
Proof. intros ? [? ?]. split; [done|lia]. Qed.

Lemma ready_cons_intr n l : ready n (Interrupted :: l) → ready n l.
Proof. done. Qed.

Lemma ready_cons_move n k l : ready (S n) (Moves k :: l) → ready n l.
Proof. unfold ready. cbn [forallb works List.filter is_move length andb]. intros [? ?]. split; [done|lia]. Qed.

Lemma amount_pos n avail : (0 < avail)%nat → (1 ≤ amount n avail ≤ avail)%nat.
Proof. unfold amount. lia. Qed.

Lemma read_loop_ok l : ∀ fuel count got inb out m,
  (length l < fuel)%nat → (length got < count)%nat → (count ≤ length got + length inb)%nat →
  ready (count - length got + m) l →
  ∃ l', read_loop fuel count got (Socket inb out l) =
      Some (Z.of_nat count, got ++ take (count - length got) inb,
            Socket (drop (count - length got) inb) out l') ∧ ready m l'.
Proof.
  induction l as [|a l IH]; intros fuel count got inb out m Hf Hg Hc Hr.
  { destruct Hr as [_ Hr]. cbn in Hr. lia. }
  destruct fuel as [|fuel]; [simpl in Hf; lia|]. cbn [length] in Hf.
  destruct a as [n| | |]; try (destruct Hr as [Hw _]; discriminate Hw).
  - pose proof (amount_pos n (Nat.min (count - length got) (length inb))) as Hk.
    set (k := amount n (Nat.min (count - length got) (length inb))) in *.
    assert (Hread : sys_read (count - length got) (Socket inb out (Moves n :: l)) =
      Some (IoBytes (take k inb), Socket (drop k inb) out l)).
    { unfold sys_read. cbn [answers inbox outbox]. fold k. destruct k as [|k']; [lia|done]. }
    cbn [read_loop]. rewrite Hread. cbn [mbind option_bind].
    rewrite length_app, length_take_le by lia.
    assert (Hr' : ready (count - length got - k + m) l).
    { apply ready_cons_move with n. eapply ready_le; [|exact Hr]. lia. }
    case_decide as Hd.
    + destruct (IH fuel count (got ++ take k inb) (drop k inb) out m) as (l' & Heq & Hl').
      * lia.
      * rewrite length_app, length_take_le by lia. lia.
      * rewrite length_app, length_take_le, length_drop by lia. lia.
      * rewrite length_app, length_take_le by lia.
        replace (count - (length got + k))%nat with (count - length got - k)%nat by lia. done.
      * exists l'. split; [|done]. rewrite Heq.
        rewrite length_app, length_take_le by lia.
        replace (count - (length got + k))%nat with (count - length got - k)%nat by lia.
        rewrite <-app_assoc, drop_drop.
        replace (k + (count - length got - k))%nat with (count - length got)%nat by lia.
        rewrite take_drop_commute.
        replace (k + (count - length got - k))%nat with (count - length got)%nat by lia.
        rewrite <-(take_drop k (take (count - length got) inb)) at 2.
        rewrite take_take, Nat.min_l by lia. done.
    + exists l. replace (length got + k)%nat with count by lia.
      replace k with (count - length got)%nat by lia. split; [done|].
      eapply ready_le; [|exact Hr']. lia.
  - cbn [read_loop]. cbn [mbind option_bind sys_read answers inbox outbox].
    rewrite decide_True by done. apply IH; [lia|done|done|]. by apply ready_cons_intr.
Qed.

Lemma read_all_ok count inb out l m :
  (0 < count ≤ length inb)%nat → ready (count + m) l →
  ∃ l', read_all_from_socket count (Socket inb out l) =
      Some (Z.of_nat count, take count inb, Socket (drop count inb) out l') ∧ ready m l'.
Proof.
  intros Hc Hr. unfold read_all_from_socket. cbn [answers].
  destruct (read_loop_ok l (S (length l)) count [] inb out m) as (l' & Heq & Hl');
    cbn [length]; try lia; [by rewrite Nat.sub_0_r|].
  rewrite Nat.sub_0_r in Heq. eauto.
Qed.

Lemma write_loop_ok l : ∀ fuel buffer total inb out m,
  (length l < fuel)%nat → (total < length buffer)%nat →
  ready (length buffer - total + m) l →
  ∃ l', write_loop fuel buffer total (Socket inb out l) =
      Some (Z.of_nat (length buffer), Socket inb (out ++ drop total buffer) l') ∧ ready m l'.
Proof.
  induction l as [|a l IH]; intros fuel buffer total inb out m Hf Ht Hr.
  { destruct Hr as [_ Hr]. cbn in Hr. lia. }
  destruct fuel as [|fuel]; [simpl in Hf; lia|]. cbn [length] in Hf.
  destruct a as [n| | |]; try (destruct Hr as [Hw _]; discriminate Hw).
  - pose proof (amount_pos n (length (drop total buffer))) as Hk.
    set (k := amount n (length (drop total buffer))) in *. rewrite length_drop in Hk.
    assert (Hwrite : sys_write (drop total buffer) (Socket inb out (Moves n :: l)) =
      Some (IoBytes (take k (drop total buffer)),
            Socket inb (out ++ take k (drop total buffer)) l)).
    { unfold sys_write. cbn [answers inbox outbox]. fold k. destruct k as [|k']; [lia|done]. }
    cbn [write_loop]. rewrite Hwrite. cbn [mbind option_bind].
    rewrite length_take_le by (rewrite length_drop; lia).
    assert (Hr' : ready (length buffer - total - k + m) l).
    { apply ready_cons_move with n. eapply ready_le; [|exact Hr]. lia. }
    case_decide as Hd.
    + destruct (IH fuel buffer (total + k)%nat inb (out ++ take k (drop total buffer)) m)
        as (l' & Heq & Hl'); [lia|lia| |].
      { by replace (length buffer - (total + k))%nat with (length buffer - total - k)%nat by lia. }
      exists l'. split; [|done]. rewrite Heq. rewrite <-app_assoc, <-drop_drop.
      by rewrite take_drop.
    + exists l. replace (total + k)%nat with (length buffer) by lia. split.
      * do 3 f_equal. rewrite take_ge; [done|]. rewrite length_drop. lia.
      * eapply ready_le; [|exact Hr']. lia.
  - cbn [write_loop]. cbn [mbind option_bind sys_write answers inbox outbox].
    rewrite decide_True by done. apply IH; [lia|done|]. by apply ready_cons_intr.
Qed.

Lemma write_all_ok buffer inb out l m :
  (0 < length buffer)%nat → ready (length buffer + m) l →
  ∃ l', write_all_to_socket buffer (Socket inb out l) =
      Some (Z.of_nat (length buffer), Socket inb (out ++ buffer) l') ∧ ready m l'.
Proof.
  intros Hb Hr. unfold write_all_to_socket. cbn [answers].
  destruct (write_loop_ok l (S (length l)) buffer 0 inb out m) as (l' & Heq & Hl');
    [lia|lia|by rewrite Nat.sub_0_r|]. rewrite drop_0 in Heq. eauto.
Qed.

Lemma be_bytes_pos v : (0 < length (be_bytes 4 v))%nat.
Proof. rewrite be_bytes_length. lia. Qed.

Lemma send_value_ok v inb out l m :
  ready (4 + m) l →
  ∃ l', send_single_value v (Socket inb out l) =
      Some (4, Socket inb (out ++ be_bytes 4 (uint32 v)) l') ∧ ready m l'.
Proof.
  intros Hr. destruct (write_all_ok (be_bytes 4 (uint32 v)) inb out l m) as (l' & Heq & Hl');
    rewrite ?be_bytes_length; [lia|done|].
  exists l'. split; [|done]. unfold send_single_value, MESSAGE_SIZE_DIGITS.
  by rewrite Heq, be_bytes_length.
Qed.

Lemma be_val_wrap v : be_val (be_bytes 4 (uint32 v)) = uint32 v.
Proof. rewrite be_val_bytes. apply wrap_idemp. Qed.

Lemma get_value_ok v rest out l m :
  is_sint 32 v → ready (4 + m) l →
  ∃ l', get_single_value (Socket (be_bytes 4 (uint32 v) ++ rest) out l) =
      Some (v, Socket rest out l') ∧ ready m l'.
Proof.
  intros Hv Hr.
  destruct (read_all_ok 4 (be_bytes 4 (uint32 v) ++ rest) out l m) as (l' & Heq & Hl');
    [rewrite length_app, be_bytes_length; lia|done|].
  exists l'. split; [|done]. unfold get_single_value, MESSAGE_SIZE_DIGITS. rewrite Heq.
  cbn [mbind option_bind]. rewrite decide_False by lia.
  rewrite take_app_length', drop_app_length' by (by rewrite be_bytes_length).
  by rewrite be_val_wrap, int32_uint32, int32_small.
Qed.

Lemma state_image_length n t c : length (state_image n t c) = 16%nat.
Proof. unfold state_image. by rewrite !length_app, !le_bytes_length. Qed.

Lemma le_val_le_bytes n w x : w = 8 * Z.of_nat n → is_uint w x → le_val (le_bytes n x) = x.
Proof. intros -> Hx. rewrite le_val_bytes. by apply wrap_small. Qed.

Lemma word_image n t c :
  word_at (state_image n t c) 0 = int32 n ∧ word_at (state_image n t c) 1 = int32 t.
Proof.
  assert (H4 : ∀ x, int32 (le_val (le_bytes 4 x)) = int32 x).
  { intros x. rewrite le_val_bytes. apply (swrap_wrap 32). }
  unfold word_at, state_image. split.
  - change (drop (4 * 0) ?l) with l. by rewrite take_app_length'.
  - rewrite drop_app_length' by (by rewrite le_bytes_length).
    by rewrite take_app_length'.
Qed.

Lemma cpu_image n t c : is_uint 64 c → le_val (take 8 (drop 8 (state_image n t c))) = c.
Proof.
  intros Hc. unfold state_image. rewrite app_assoc.
  rewrite drop_app_length' by (rewrite length_app, !le_bytes_length; done).
  rewrite take_ge by (by rewrite le_bytes_length). by apply (le_val_le_bytes 8 64).
Qed.

(** ** Properties *)

(** C16: Whatever the pieces in which the sockets on both sides move the data,
    and however often they are interrupted, a buffer written with
    [write_all_to_socket] arrives whole and in order at a
    [read_all_from_socket] of its length, and what follows it in the stream is
    left untouched. *)
Theorem transfer_any_chunking buffer inb out lw rest out' lr :
  (0 < length buffer)%nat → ready (length buffer) lw → ready (length buffer) lr →
  ∃ lw' lr',
    write_all_to_socket buffer (Socket inb out lw) =
      Some (Z.of_nat (length buffer), Socket inb (out ++ buffer) lw') ∧
    read_all_from_socket (length buffer) (Socket (buffer ++ rest) out' lr) =
      Some (Z.of_nat (length buffer), buffer, Socket rest out' lr').
Proof.
  intros Hb Hw Hr.
  destruct (write_all_ok buffer inb out lw 0) as (lw' & Heqw & _); [done|by rewrite Nat.add_0_r|].
  destruct (read_all_ok (length buffer) (buffer ++ rest) out' lr 0) as (lr' & Heqr & _);
    [rewrite length_app; lia|by rewrite Nat.add_0_r|].
  rewrite take_app_length, drop_app_length in Heqr. eauto.
Qed.

(** C30: A state message carries the number of jobs and the CPU usage to the
    peer unchanged, but not the throttle value: the receiver converts the
    integer whose bits are those of the [float] instead of reading the bits, so
    that a throttle of 1.0 arrives as 1065353216.0.  The exception: a count of 0
    that reaches a peer which holds no count yet ([peer_num_jobs] is -1) is
    dropped, message and all, and nothing of the peer's picture changes. *)
Theorem state_message n throttle cpu p inb out lw rest out' lr :
  is_sint 32 n → is_uint 64 cpu → ready 20 lw → ready 20 lr →
  (∃ bs lw' lr1 lr2, send_state n throttle cpu (Socket inb out lw) =
      Some (0, Socket inb (out ++ bs) lw') ∧
    get_msg_type (Socket (bs ++ rest) out' lr) =
      Some (MSG_TYPE_STATE, Socket (state_image n throttle cpu ++ rest) out' lr1) ∧
    state_handle p (Socket (state_image n throttle cpu ++ rest) out' lr1) =
      Some (if decide (peer_num_jobs p = -1 ∧ n = 0) then (Some 0, p, Socket rest out' lr2)
            else (None, Peer n (float_of_int (int32 throttle)) cpu, Socket rest out' lr2))) ∧
  float_of_bits 1065353216 = S754_finite false 8388608 (-23) ∧
  float_of_int (int32 1065353216) = S754_finite false 16646144 6.
Proof.
  intros Hn Hcpu Hw Hr.
  destruct (send_value_ok MSG_TYPE_STATE inb out lw 16) as (lw1 & Hs1 & Hw1); [done|].
  set (type := be_bytes 4 (uint32 MSG_TYPE_STATE)) in *.
  destruct (write_all_ok (state_image n throttle cpu) inb (out ++ type) lw1 0) as (lw2 & Hs2 & _);
    rewrite ?state_image_length; [lia|done|]. rewrite state_image_length in Hs2.
  destruct (get_value_ok MSG_TYPE_STATE (state_image n throttle cpu ++ rest) out' lr 16)
    as (lr1 & Hg1 & Hr1); [done|done|].
  destruct (read_all_ok 16 (state_image n throttle cpu ++ rest) out' lr1 0) as (lr2 & Hg2 & _);
    [rewrite length_app, state_image_length; lia|done|].
  rewrite take_app_length', drop_app_length' in Hg2 by (by rewrite state_image_length).
  destruct (word_image n throttle cpu) as [Hw0 Hw1'].
  split; [|by vm_compute].
  exists (type ++ state_image n throttle cpu), lw2, lr1, lr2. split; [|split].
  - unfold send_state, send_msg_type. rewrite Hs1. cbn [mbind option_bind].
    rewrite Hs2. cbn [mbind option_bind]. by rewrite decide_True, app_assoc.
  - rewrite <-app_assoc. exact Hg1.
  - unfold state_handle. rewrite Hg2. cbn [mbind option_bind].
    rewrite decide_False by (by intros []). rewrite Hw0, Hw1', int32_small by done.
    case_decide; [done|]. by rewrite cpu_image.
Qed.

(** ** Concrete instances *)

(** A socket that hands over single bytes and is interrupted in between. *)
Definition ex_slow : list answer :=
  concat (replicate 20 [Interrupted; Moves 1]).
Definition ex_fast : list answer := replicate 20 (Moves 64).

Lemma ex_slow_ready n : (n ≤ 20)%nat → ready n ex_slow.
Proof. intros Hn. split; [reflexivity|]. etrans; [exact Hn|]. by vm_compute. Qed.
Lemma ex_fast_ready n : (n ≤ 20)%nat → ready n ex_fast.
Proof. intros Hn. split; [reflexivity|]. etrans; [exact Hn|]. by vm_compute. Qed.

Lemma transfer_any_chunking_witness :
  ∃ lw' lr',
    write_all_to_socket [1; 2; 3; 4; 5] (Socket [] [9] ex_slow) =
      Some (5, Socket [] [9; 1; 2; 3; 4; 5] lw') ∧
    read_all_from_socket 5 (Socket ([1; 2; 3; 4; 5] ++ [6]) [] ex_fast) =
      Some (5, [1; 2; 3; 4; 5], Socket [6] [] lr').
Proof.
  apply (transfer_any_chunking [1; 2; 3; 4; 5] [] [9] ex_slow [6] [] ex_fast).
  - simpl. lia.
  - apply ex_slow_ready. simpl. lia.
  - apply ex_fast_ready. simpl. lia.
Defined.

(** The first message with 512 jobs, and one with none that is dropped. *)
Lemma state_message_witness :
  let p := Peer (-1) (S754_zero false) 0 in
  (∃ bs lw' lr1 lr2, send_state 512 1065353216 4602678819172646912 (Socket [] [] ex_slow) =
      Some (0, Socket [] ([] ++ bs) lw') ∧
    get_msg_type (Socket (bs ++ [7]) [] ex_slow) =
      Some (MSG_TYPE_STATE,
            Socket (state_image 512 1065353216 4602678819172646912 ++ [7]) [] lr1) ∧
    state_handle p (Socket (state_image 512 1065353216 4602678819172646912 ++ [7]) [] lr1) =
      Some (None, Peer 512 (float_of_int (int32 1065353216)) 4602678819172646912,
            Socket [7] [] lr2)) ∧
  (∃ lr1 lr2, state_handle p (Socket (state_image 0 1065353216 0 ++ [7]) [] lr1) =
      Some (Some 0, p, Socket [7] [] lr2)) ∧
  float_of_bits 1065353216 = S754_finite false 8388608 (-23) ∧
  float_of_int (int32 1065353216) = S754_finite false 16646144 6.
Proof.
  intros p.
  destruct (state_message 512 1065353216 4602678819172646912 p [] [] ex_slow [7] [] ex_slow)
    as [H1 H3].
  1-2: apply (bool_decide_unpack _); vm_compute; exact I.
  1-2: apply ex_slow_ready; lia.
  destruct (state_message 0 1065353216 0 p [] [] ex_slow [7] [] ex_slow)
    as [(bs & lw' & lr1 & lr2 & _ & _ & H2) _].
  1-2: apply (bool_decide_unpack _); vm_compute; exact I.
  1-2: apply ex_slow_ready; lia.
  split; [exact H1|]. split; [exists lr1, lr2; exact H2|exact H3].
Defined.
