(* ===== verification/Jobs.v ===== *)
(** * MP4: the distributed job computation (src/MP4/utils.c, src/MP4/client.c,
      src/MP4/server.c)

    A vector is cut into jobs.  The client keeps half of them and sends the
    other half to the server; each side computes its jobs, the server returns
    its results, and the two exchange their queue lengths and move jobs that
    are not computed yet from the longer queue to the shorter one.  The threads
    of both processes are transition functions on the state of their process;
    messages travel over two ordered channels (Frames.v has their bytes). *)
From stdpp Require Import prelude.
From S2P Require Import Prelude CInt.
Open Scope Z_scope.

Definition DIFF_THRESHOLD : Z := 5.
Definition transfer_policy : Z := 1.

Section jobs.
(** The numbers of the type [double] and [x += 1.111111]; the macros
    [JOB_NUM] (1024) and [JOB_SIZE] (4096). *)
Context {D : Type} (add_const : D → D) (JOB_NUM JOB_SIZE : nat).

(** ** The vector *)

(** [vec[i] += 1.111111], 6000 times. *)
Definition work (x : D) : D := Nat.iter 6000 add_const x.

(** The loop of [compute] over [n] indices from [i]. *)
Fixpoint compute_loop (n i : nat) (vec : list D) : outcome (list D) :=
  match n with
  | O => Ok vec
  | S n' =>
      x ← from_option_or OutOfBounds (vec !! i);
      compute_loop n' (S i) (<[i := work x]> vec)
  end.

(** A negative job would start below the array. *)
Definition compute (vec : list D) (jobID : Z) : outcome (list D) :=
  if decide (0 ≤ jobID) then compute_loop JOB_SIZE (Z.to_nat jobID * JOB_SIZE) vec
  else Fault OutOfBounds.

(** [create_message]: the index of the first number of the message. *)
Definition create_message (job_id : Z) : Z :=
  let job_id := if decide (Z.of_nat JOB_NUM < job_id) then job_id - Z.of_nat JOB_NUM else job_id in
  Z.of_nat JOB_SIZE * job_id.

(** The [JOB_SIZE] numbers from an index on, as [write] reads them. *)
Definition read_slice (vec : list D) (i : Z) : outcome (list D) :=
  if decide (0 ≤ i ∧ i + Z.of_nat JOB_SIZE ≤ Z.of_nat (length vec))
  then Ok (take JOB_SIZE (drop (Z.to_nat i) vec)) else Fault OutOfBounds.

(** [storeLocal]. *)
Fixpoint store_loop (i : nat) (data vec : list D) : outcome (list D) :=
  match data with
  | [] => Ok vec
  | x :: data' =>
      if decide (i < length vec)%nat then store_loop (S i) data' (<[i := x]> vec)
      else Fault OutOfBounds
  end.
Definition storeLocal (jobId : Z) (data vec : list D) : outcome (list D) :=
  if decide (0 ≤ jobId) then store_loop (Z.to_nat jobId * JOB_SIZE) data vec
  else Fault OutOfBounds.

(** ** Messages and processes *)

(** A data message without payload is the end mark -1. *)
Inductive message : Type :=
  | Data (jobID : Z) (payload : option (list D))
  | State (num_jobs : Z)
  | Rebalance.

(** Where a thread stands: before its loop test, inside the iteration, with a
    job it has pulled and computes, in [adaptor] with the difference of the queue
    lengths, in its loop with [k] jobs to go or with a job it has pulled there,
    or finished. *)
Inductive pc : Type :=
  | Check | Act
  | Working (jobID : Z)
  | Adapting (diff : Z) | Sending (k : Z) | Moving (k jobID : Z)
  | Exit.

(** The globals of one process and the positions of its threads: the computing
    thread, the writer of [job_tosend] and the reader of the socket; [noted] is
    the queue length that the state manager has read and not sent yet. *)
Record node : Type := Node {
  job_array : list D;
  job_todo : list Z;
  job_tosend : list Z;
  job_finished : Z;
  peer_num_jobs : Z;
  rebalance_requested : bool;
  worker : pc; writer : pc; reader : pc;
  noted : option Z;
}.

Definition set_array v (n : node) : node :=
  Node v (job_todo n) (job_tosend n) (job_finished n) (peer_num_jobs n)
    (rebalance_requested n) (worker n) (writer n) (reader n) (noted n).
Definition set_todo q (n : node) : node :=
  Node (job_array n) q (job_tosend n) (job_finished n) (peer_num_jobs n)
    (rebalance_requested n) (worker n) (writer n) (reader n) (noted n).
Definition set_tosend q (n : node) : node :=
  Node (job_array n) (job_todo n) q (job_finished n) (peer_num_jobs n)
    (rebalance_requested n) (worker n) (writer n) (reader n) (noted n).
Definition set_finished z (n : node) : node :=
  Node (job_array n) (job_todo n) (job_tosend n) z (peer_num_jobs n)
    (rebalance_requested n) (worker n) (writer n) (reader n) (noted n).
Definition set_peer z (n : node) : node :=
  Node (job_array n) (job_todo n) (job_tosend n) (job_finished n) z
    (rebalance_requested n) (worker n) (writer n) (reader n) (noted n).
Definition set_rebalance b (n : node) : node :=
  Node (job_array n) (job_todo n) (job_tosend n) (job_finished n) (peer_num_jobs n)
    b (worker n) (writer n) (reader n) (noted n).
Definition set_worker p (n : node) : node :=
  Node (job_array n) (job_todo n) (job_tosend n) (job_finished n) (peer_num_jobs n)
    (rebalance_requested n) p (writer n) (reader n) (noted n).
Definition set_writer p (n : node) : node :=
  Node (job_array n) (job_todo n) (job_tosend n) (job_finished n) (peer_num_jobs n)
    (rebalance_requested n) (worker n) p (reader n) (noted n).
Definition set_reader p (n : node) : node :=
  Node (job_array n) (job_todo n) (job_tosend n) (job_finished n) (peer_num_jobs n)
    (rebalance_requested n) (worker n) (writer n) p (noted n).
Definition set_noted k (n : node) : node :=
  Node (job_array n) (job_todo n) (job_tosend n) (job_finished n) (peer_num_jobs n)
    (rebalance_requested n) (worker n) (writer n) (reader n) k.

(** What a thread does next: nothing while it is blocked, else a new state of
    its process and the messages it sends. *)
Definition action : Type := node → outcome (option (node * list message)).

(** [queue_push] on a queue of [JOB_NUM] places; [None] while it is full. *)
Definition queue_push (q : list Z) (x : Z) : option (list Z) :=
  if decide (length q = JOB_NUM) then None else Some (q ++ [x]).

(** ** The parts both processes share *)

(** [transfer]: the message for a job id. *)
Definition transfer (jobID : Z) (n : node) : outcome (list message) :=
  if decide (jobID = -1) then Ok [Data jobID None]
  else payload ← read_slice (job_array n) (create_message jobID);
       Ok [Data jobID (Some payload)].

(** One iteration of [state_manager]: the length of the queue is read, and sent
    when no other thread is sending. *)
Definition state_manager : action := λ n,
  match noted n with
  | None => Ok (Some (set_noted (Some (Z.of_nat (length (job_todo n)))) n, []))
  | Some _ => Ok None
  end.
Definition send_state : action := λ n,
  match noted n with
  | Some num_jobs => Ok (Some (set_noted None n, [State num_jobs]))
  | None => Ok None
  end.

(** The peer's queue length arrives, and [adaptor] reads the own one. *)
Definition state_handle (num_jobs : Z) (n : node) : node :=
  if decide (peer_num_jobs n = -1 ∧ num_jobs = 0) then set_reader Check n
  else set_reader (Adapting (int32 (Z.of_nat (length (job_todo n)) - num_jobs)))
         (set_peer num_jobs n).

(** [adaptor]: the request for a rebalance, and the number of jobs to move. *)
Definition adaptor : action := λ n,
  match reader n with
  | Adapting diff =>
      let to_transfer := Z.quot diff 2 in
      Ok (Some
        (set_reader
           (if decide (DIFF_THRESHOLD < diff ∧ peer_num_jobs n ≠ -1 ∧
                       (transfer_policy = 0 ∨ transfer_policy = 2 ∨ rebalance_requested n = true))
            then Sending to_transfer else Check) n,
         if decide (0 < transfer_policy ∧ diff < DIFF_THRESHOLD) then [Rebalance] else []))
  | _ => Ok None
  end.

(** The loop of [adaptor]: a job is pulled, then sent. *)
Definition adaptor_loop : action := λ n,
  match reader n with
  | Sending k =>
      if decide (0 < k) then
        match job_todo n with
        | [] => Ok None
        | jobID :: q =>
            Ok (Some (set_reader (if decide (-1 < jobID) then Moving k jobID else Check)
                        (set_todo q n), []))
        end
      else Ok (Some (set_reader Check n, []))
  | Moving k jobID =>
      ms ← transfer (Z.of_nat JOB_NUM + jobID) n;
      Ok (Some (set_reader (Sending (k - 1)) n, ms))
  | _ => Ok None
  end.

(** ** The client *)

(** The main thread: compute until all jobs are finished, then queue the end
    mark. *)
Definition client_worker : action := λ n,
  match worker n with
  | Check =>
      if decide (job_finished n < Z.of_nat JOB_NUM) then Ok (Some (set_worker Act n, []))
      else match queue_push (job_tosend n) (-1) with
           | Some q => Ok (Some (set_worker Exit (set_tosend q n), []))
           | None => Ok None
           end
  | Act =>
      match job_todo n with
      | [] => Ok None
      | jobID :: q =>
          Ok (Some (set_worker (if decide (jobID = -1) then Check else Working jobID)
                      (set_todo q n), []))
      end
  | Working jobID =>
      vec ← compute (job_array n) jobID;
      Ok (Some (set_worker Check (set_finished (job_finished n + 1) (set_array vec n)), []))
  | _ => Ok None
  end.

Definition write_to_server : action := λ n,
  match writer n with
  | Check =>
      Ok (Some (set_writer (if decide (job_finished n = Z.of_nat JOB_NUM) then Exit else Act) n, []))
  | Act =>
      match job_tosend n with
      | [] => Ok None
      | jobID :: q =>
          ms ← transfer jobID n;
          Ok (Some (set_writer Check (set_tosend q n), ms))
      end
  | _ => Ok None
  end.

(** [read_from_server]: the loop test, and the handling of one message. *)
Definition client_reader_check : action := λ n,
  match reader n with
  | Check =>
      if decide (job_finished n = Z.of_nat JOB_NUM) then
        match queue_push (job_todo n) (-1) with
        | Some q => Ok (Some (set_reader Exit (set_todo q n), []))
        | None => Ok None
        end
      else Ok (Some (set_reader Act n, []))
  | _ => Ok None
  end.

(** A payload is read whatever the id is: after the end mark, which has none,
    the reader blocks. *)
Definition client_receive (m : message) : action := λ n,
  match reader n with
  | Act =>
      match m with
      | State num_jobs => Ok (Some (state_handle num_jobs n, []))
      | Rebalance => Ok (Some (set_reader Check (set_rebalance true n), []))
      | Data jobID (Some buffer) =>
          if decide (-1 < jobID < Z.of_nat JOB_NUM) then
            vec ← storeLocal jobID buffer (job_array n);
            Ok (Some (set_reader Check (set_finished (job_finished n + 1) (set_array vec n)), []))
          else if decide (Z.of_nat JOB_NUM ≤ jobID) then
            match queue_push (job_todo n) (jobID - Z.of_nat JOB_NUM) with
            | Some q => Ok (Some (set_reader Check (set_todo q n), []))
            | None => Ok None
            end
          else Ok (Some (set_reader Check n, []))
      | Data jobID None => Ok None
      end
  | _ => Ok None
  end.

(** ** The server *)

(** A job is pulled, then computed and its result queued. *)
Definition compute_worker : action := λ n,
  match worker n with
  | Check =>
      match job_todo n with
      | [] => Ok None
      | jobID :: q =>
          Ok (Some (set_worker (if decide (-1 < jobID) then Working jobID else Exit)
                      (set_todo q n), []))
      end
  | Working jobID =>
      vec ← compute (job_array n) jobID;
      match queue_push (job_tosend n) jobID with
      | Some r => Ok (Some (set_worker Check (set_tosend r (set_array vec n)), []))
      | None => Ok None
      end
  | _ => Ok None
  end.

(** After the end mark the process kills itself. *)
Definition write_to_clients : action := λ n,
  match writer n with
  | Exit => Ok None
  | _ =>
      match job_tosend n with
      | [] => Ok None
      | jobID :: q =>
          ms ← transfer jobID n;
          Ok (Some ((if decide (jobID = -1) then set_writer Exit else id) (set_tosend q n), ms))
      end
  end.

(** [transfer_handler]. *)
Definition transfer_handler (jobID : Z) (payload : option (list D)) : action := λ n,
  if decide (jobID = -1) then
    match queue_push (job_tosend n) (-1) with
    | Some q => Ok (Some (set_tosend q n, []))
    | None => Ok None
    end
  else if decide (-1 < jobID) then
    match payload with
    | Some buffer =>
        let jobID := if decide (Z.of_nat JOB_NUM < jobID) then jobID - Z.of_nat JOB_NUM else jobID in
        vec ← storeLocal jobID buffer (job_array n);
        match queue_push (job_todo n) jobID with
        | Some q => Ok (Some (set_todo q (set_array vec n), []))
        | None => Ok None
        end
    | None => Ok None
    end
  else Ok (Some (n, [])).

(** One message in [process_client]. *)
Definition server_receive (m : message) : action := λ n,
  match reader n with
  | Check =>
      match m with
      | Data jobID payload => transfer_handler jobID payload n
      | State num_jobs => Ok (Some (state_handle num_jobs n, []))
      | Rebalance => Ok (Some (set_rebalance true n, []))
      end
  | _ => Ok None
  end.
End jobs.

#[export] Instance message_eq_dec {D} `{!EqDecision D} : EqDecision (@message D).
Proof. solve_decision. Defined.

(** All the ways an action [H : h n = Ok (Some (n', ms))] can go, or be blocked. *)
Ltac action_cases H :=
  repeat match type of H with
    | Ok None = _ => first [discriminate H | clear H]
    | Fault _ = _ => discriminate H
    | Ok (Some (_, _)) = _ => first [discriminate H | injection H as <- <-]
    | mbind _ ?e = _ => destruct e eqn:?; cbn [mbind outcome_bind] in H
    | context [match ?e with _ => _ end] => destruct e eqn:?
    | context [if ?e then _ else _] => destruct e eqn:?
    end.
