(* ===== verification/Frames.v ===== *)
(** * MP4: the messages on the wire (src/MP4/utils.c, client.c, server.c)

    [Jobs] lets the processes exchange messages over ordered channels.  Here
    are the bytes of these messages as [transfer], [send_state] and [adaptor]
    write them and as the readers of the client and of the server take them
    apart, and the refinement: whatever pieces the sockets move, the readers
    recover the messages.  The one exception is the end mark at the client. *)
From stdpp Require Import prelude.
From S2P Require Import Prelude CInt Wire Jobs.
Open Scope Z_scope.

(** ** Arrays of doubles, given by their bit patterns *)

Definition doubles_image (data : list Z) : list byte := concat (le_bytes 8 <$> data).

Fixpoint doubles_of (n : nat) (bs : list byte) : list Z :=
  match n with
  | O => []
  | S n' => le_val (take 8 bs) :: doubles_of n' (drop 8 bs)
  end.

Lemma doubles_image_length data : length (doubles_image data) = (8 * length data)%nat.
Proof.
  unfold doubles_image. induction data as [|x data IH]; [done|].
  cbn [fmap list_fmap concat length]. rewrite length_app, le_bytes_length, IH. lia.
Qed.

Lemma doubles_of_image data rest :
  Forall (is_uint 64) data → doubles_of (length data) (doubles_image data ++ rest) = data.
Proof.
  unfold doubles_image. induction 1 as [|x data Hx _ IH]; [done|].
  cbn [fmap list_fmap concat length doubles_of]. rewrite <-app_assoc.
  rewrite take_app_length', drop_app_length' by (by rewrite le_bytes_length).
  by rewrite IH, (le_val_le_bytes 8 64).
Qed.

Section frames.
Context (JOB_SIZE : nat) (Hsize : (0 < JOB_SIZE)%nat).
(** The throttle and the CPU usage a state message carries. *)
Context (throttle cpu : Z).

Abbreviation message := (Jobs.message (D := Z)).

(** ** Writing *)

(** [transfer] from its first write on; [msg] points at the job's numbers. *)
Definition transfer (jobID : Z) (msg : list Z) (s : socket) : option socket :=
  '(_, s) ← send_msg_type MSG_TYPE_DATA s;
  '(retval, s) ← write_jobid jobID s;
  if decide (jobID = -1) then Some s
  else if decide (0 < retval) then '(_, s) ← write_all_to_socket (doubles_image msg) s; Some s
  else Some s.

(** The request of [adaptor]. *)
Definition request_rebalance (s : socket) : option socket :=
  '(_, s) ← send_msg_type MSG_TYPE_REBALANCE s; Some s.

Definition send (m : message) (s : socket) : option socket :=
  match m with
  | Data jobID payload => transfer jobID (default [] payload) s
  | State num_jobs => '(_, s) ← Wire.send_state num_jobs throttle cpu s; Some s
  | Rebalance => request_rebalance s
  end.

Fixpoint send_all (ms : list message) (s : socket) : option socket :=
  match ms with
  | [] => Some s
  | m :: ms' => s ← send m s; send_all ms' s
  end.

(** ** Reading *)

(** A payload into a [calloc]ed buffer: what does not arrive is zero. *)
Definition read_payload (s : socket) : option (list Z * socket) :=
  '(_, bs, s) ← read_all_from_socket (8 * JOB_SIZE) s;
  Some (doubles_of JOB_SIZE (bs ++ replicate (8 * JOB_SIZE - length bs) 0), s).

(** The bytes of a state message; [None] when they do not arrive. *)
Definition read_state (s : socket) : option (option message * socket) :=
  '(retval, buffer, s) ← read_all_from_socket 16 s;
  Some (if decide (retval ≠ 16) then None else Some (State (word_at buffer 0)), s).

(** The client's reader takes one message from the stream; [None] in the
    result for what it ignores. *)
Definition client_frame (s : socket) : option (option message * socket) :=
  '(msg_type, s) ← get_msg_type s;
  if decide (msg_type = -1) then read_state s
  else if decide (msg_type = 0) then
    '(jobID, s) ← get_jobid s;
    '(buffer, s) ← read_payload s;
    Some (Some (Data jobID (Some buffer)), s)
  else if decide (msg_type = 2) then Some (Some Rebalance, s)
  else Some (None, s).

(** The server's reader: [transfer_handler] reads a payload for a job only. *)
Definition server_frame (s : socket) : option (option message * socket) :=
  '(msg_type, s) ← get_msg_type s;
  if decide (msg_type = 0) then
    '(jobID, s) ← get_jobid s;
    if decide (jobID > -1) then
      '(buffer, s) ← read_payload s;
      Some (Some (Data jobID (Some buffer)), s)
    else Some (Some (Data jobID None), s)
  else if decide (msg_type = -1) then read_state s
  else if decide (msg_type = 2) then Some (Some Rebalance, s)
  else Some (None, s).

(** A reader that takes [n] messages. *)
Fixpoint receive_all (frame : socket → option (option message * socket)) (n : nat)
    (s : socket) : option (list (option message) * socket) :=
  match n with
  | O => Some ([], s)
  | S n' =>
      '(m, s) ← frame s;
      '(ms, s) ← receive_all frame n' s;
      Some (m :: ms, s)
  end.

(** ** The bytes of a message *)

Definition value_image (v : Z) : list byte := be_bytes 4 (uint32 v).

Definition encode (m : message) : list byte :=
  match m with
  | Data jobID None => value_image 0 ++ value_image jobID
  | Data jobID (Some data) => value_image 0 ++ value_image jobID ++ doubles_image data
  | State num_jobs => value_image (-1) ++ state_image num_jobs throttle cpu
  | Rebalance => value_image 2
  end.

(** The messages the processes send: jobs with a full payload, the end mark
    without one, and queue lengths. *)
Definition valid (m : message) : Prop :=
  match m with
  | Data jobID None => jobID = -1
  | Data jobID (Some data) =>
      is_sint 32 jobID ∧ -1 < jobID ∧ length data = JOB_SIZE ∧ Forall (is_uint 64) data
  | State num_jobs => is_sint 32 num_jobs
  | Rebalance => True
  end.

Definition end_mark : message := Data (-1) None.

Lemma value_image_length v : length (value_image v) = 4%nat.
Proof. apply be_bytes_length. Qed.

(** ** Writers write the encoding *)

Lemma send_value v inb out l m :
  ready (4 + m) l →
  ∃ l', send_single_value v (Socket inb out l) =
      Some (4, Socket inb (out ++ value_image v) l') ∧ ready m l'.
Proof. apply send_value_ok. Qed.

Lemma send_ok m inb out l k :
  valid m → ready (length (encode m) + k) l →
  ∃ l', send m (Socket inb out l) = Some (Socket inb (out ++ encode m) l') ∧ ready k l'.
Proof.
  intros Hm Hr. destruct m as [jobID payload|num_jobs|]; cbn [send encode] in *.
  - unfold transfer, send_msg_type, write_jobid.
    assert (Hr8 : ready (4 + (4 + (length (doubles_image (default [] payload)) + k))) l).
    { eapply ready_le; [|exact Hr]. destruct payload; cbn [default from_option id];
        rewrite !length_app, !value_image_length, ?doubles_image_length; cbn [length]; lia. }
    destruct (send_value MSG_TYPE_DATA inb out l _ Hr8) as (l1 & -> & Hr1).
    cbn [mbind option_bind]. edestruct (send_value jobID inb) as (l2 & -> & Hr2); [exact Hr1|].
    cbn [mbind option_bind]. destruct payload as [data|]; cbn [default from_option id] in *.
    + destruct Hm as (_ & Hj & Hl & _). rewrite decide_False by lia. rewrite decide_True by lia.
      edestruct (write_all_ok (doubles_image data) inb) as (l3 & -> & Hr3); [|exact Hr2|].
      { rewrite doubles_image_length. lia. }
      cbn [mbind option_bind]. exists l3. by rewrite <-!app_assoc.
    + rewrite decide_True by done. exists l2. by rewrite <-app_assoc.
  - unfold Wire.send_state, send_msg_type. rewrite length_app, value_image_length, state_image_length in Hr.
    destruct (send_value MSG_TYPE_STATE inb out l (16 + k)) as (l1 & -> & Hr1);
      [by eapply ready_le; [|exact Hr]; lia|].
    cbn [mbind option_bind].
    edestruct (write_all_ok (state_image num_jobs throttle cpu) inb) as (l2 & -> & Hr2);
      rewrite ?state_image_length; [lia|exact Hr1|].
    cbn [mbind option_bind]. exists l2. by rewrite <-app_assoc.
  - unfold request_rebalance, send_msg_type. rewrite value_image_length in Hr.
    destruct (send_value MSG_TYPE_REBALANCE inb out l k Hr) as (l1 & -> & Hr1). by exists l1.
Qed.

Lemma send_all_ok ms inb out l k :
  Forall valid ms → ready (length (concat (encode <$> ms)) + k) l →
  ∃ l', send_all ms (Socket inb out l) =
      Some (Socket inb (out ++ concat (encode <$> ms)) l') ∧ ready k l'.
Proof.
  intros Hms. revert out l. induction Hms as [|m ms Hm _ IH]; intros out l Hr.
  { exists l. cbn. by rewrite app_nil_r. }
  cbn [fmap list_fmap concat] in *. rewrite length_app, <-Nat.add_assoc in Hr.
  destruct (send_ok m inb out l _ Hm Hr) as (l1 & Heq & Hr1).
  destruct (IH (out ++ encode m) l1 Hr1) as (l2 & Heq2 & Hr2).
  exists l2. cbn [send_all]. rewrite Heq. cbn [mbind option_bind]. by rewrite Heq2, <-app_assoc.
Qed.

(** ** Readers recover the messages *)

Lemma read_payload_ok data rest out l k :
  length data = JOB_SIZE → Forall (is_uint 64) data → ready (8 * JOB_SIZE + k) l →
  ∃ l', read_payload (Socket (doubles_image data ++ rest) out l) =
      Some (data, Socket rest out l') ∧ ready k l'.
Proof.
  intros Hl Hd Hr. unfold read_payload.
  pose proof (doubles_image_length data) as Hi. rewrite Hl in Hi.
  destruct (read_all_ok (8 * JOB_SIZE) (doubles_image data ++ rest) out l k) as (l' & -> & Hr');
    [rewrite length_app, Hi; lia|done|].
  cbn [mbind option_bind]. exists l'. split; [|done].
  rewrite take_app_length', drop_app_length' by done. rewrite Hi, Nat.sub_diag. cbn [replicate].
  rewrite <-Hl at 1. by rewrite doubles_of_image.
Qed.

Lemma read_state_ok n rest out l k :
  is_sint 32 n → ready (16 + k) l →
  ∃ l', read_state (Socket (state_image n throttle cpu ++ rest) out l) =
      Some (Some (State n), Socket rest out l') ∧ ready k l'.
Proof.
  intros Hn Hr. unfold read_state. pose proof (state_image_length n throttle cpu) as Hl.
  destruct (read_all_ok 16 (state_image n throttle cpu ++ rest) out l k) as (l' & -> & Hr');
    [rewrite length_app, Hl; lia|done|].
  cbn [mbind option_bind]. exists l'. split; [|done]. rewrite decide_False by (intros H; by apply H).
  rewrite take_app_length', drop_app_length' by done.
  rewrite (proj1 (word_image n throttle cpu)). by rewrite int32_small.
Qed.

Lemma get_value v rest out l k :
  is_sint 32 v → ready (4 + k) l →
  ∃ l', get_single_value (Socket (value_image v ++ rest) out l) =
      Some (v, Socket rest out l') ∧ ready k l'.
Proof. apply get_value_ok. Qed.

Lemma server_frame_ok m rest out l k :
  valid m → ready (length (encode m) + k) l →
  ∃ l', server_frame (Socket (encode m ++ rest) out l) =
      Some (Some m, Socket rest out l') ∧ ready k l'.
Proof.
  intros Hm Hr. unfold server_frame, get_msg_type, get_jobid.
  destruct m as [jobID payload|num_jobs|]; cbn [encode] in *.
  - destruct payload as [data|].
    + destruct Hm as (Hs & Hj & Hl & Hd).
      rewrite !length_app, !value_image_length, doubles_image_length, Hl in Hr.
      rewrite <-!app_assoc.
      destruct (get_value 0 (value_image jobID ++ doubles_image data ++ rest) out l
        (4 + (8 * JOB_SIZE + k))) as (l1 & -> & Hr1); [done|by eapply ready_le; [|exact Hr]; lia|].
      cbn [mbind option_bind]. rewrite decide_True by done.
      destruct (get_value jobID (doubles_image data ++ rest) out l1 _ Hs Hr1) as (l2 & -> & Hr2).
      cbn [mbind option_bind]. rewrite decide_True by lia.
      destruct (read_payload_ok data rest out l2 k Hl Hd Hr2) as (l3 & -> & Hr3). by exists l3.
    + cbn in Hm. subst jobID. rewrite !length_app, !value_image_length in Hr. rewrite <-!app_assoc.
      destruct (get_value 0 (value_image (-1) ++ rest) out l (4 + k)) as (l1 & -> & Hr1); [done..|].
      cbn [mbind option_bind]. rewrite decide_True by done.
      destruct (get_value (-1) rest out l1 k) as (l2 & -> & Hr2); [done..|].
      cbn [mbind option_bind]. rewrite decide_False by lia. by exists l2.
  - rewrite length_app, value_image_length, state_image_length in Hr. rewrite <-app_assoc.
    destruct (get_value (-1) (state_image num_jobs throttle cpu ++ rest) out l (16 + k))
      as (l1 & -> & Hr1); [done..|].
    cbn [mbind option_bind]. rewrite decide_False, decide_True by done. by apply read_state_ok.
  - rewrite value_image_length in Hr.
    destruct (get_value 2 rest out l k) as (l1 & -> & Hr1); [done..|].
    cbn [mbind option_bind]. rewrite !decide_False by done. rewrite decide_True by done. by exists l1.
Qed.

(** The two readers differ on the end mark only. *)
Lemma client_frame_data jobID rest out l k :
  is_sint 32 jobID → ready (8 + k) l →
  ∃ l', client_frame (Socket (value_image 0 ++ value_image jobID ++ rest) out l) =
      ('(buffer, s) ← read_payload (Socket rest out l');
       Some (Some (Data jobID (Some buffer)), s)) ∧ ready k l'.
Proof.
  intros Hs Hr. unfold client_frame, get_msg_type, get_jobid.
  destruct (get_value 0 (value_image jobID ++ rest) out l (4 + k)) as (l1 & -> & Hr1); [done..|].
  cbn [mbind option_bind]. rewrite decide_False, decide_True by done.
  destruct (get_value jobID rest out l1 k Hs Hr1) as (l2 & -> & Hr2). by exists l2.
Qed.

Lemma client_frame_ok m rest out l k :
  valid m → m ≠ end_mark → ready (length (encode m) + k) l →
  ∃ l', client_frame (Socket (encode m ++ rest) out l) =
      Some (Some m, Socket rest out l') ∧ ready k l'.
Proof.
  intros Hm Hne Hr. destruct m as [jobID [data|]|num_jobs|]; cbn [encode] in *.
  - destruct Hm as (Hs & Hj & Hl & Hd).
    rewrite !length_app, !value_image_length, doubles_image_length, Hl in Hr. rewrite <-!app_assoc.
    destruct (client_frame_data jobID (doubles_image data ++ rest) out l (8 * JOB_SIZE + k) Hs)
      as (l1 & -> & Hr1); [by eapply ready_le; [|exact Hr]; lia|].
    destruct (read_payload_ok data rest out l1 k Hl Hd Hr1) as (l3 & -> & Hr3). by exists l3.
  - cbn in Hm. by subst.
  - rewrite length_app, value_image_length, state_image_length in Hr. rewrite <-app_assoc.
    unfold client_frame, get_msg_type.
    destruct (get_value (-1) (state_image num_jobs throttle cpu ++ rest) out l (16 + k))
      as (l1 & -> & Hr1); [done..|].
    cbn [mbind option_bind]. rewrite decide_True by done. by apply read_state_ok.
  - rewrite value_image_length in Hr. unfold client_frame, get_msg_type.
    destruct (get_value 2 rest out l k) as (l1 & -> & Hr1); [done..|].
    cbn [mbind option_bind]. rewrite !decide_False by done. rewrite decide_True by done. by exists l1.
Qed.

Lemma receive_all_ok (frame : socket → option (option message * socket)) (P : message → Prop)
    ms rest out l k :
  (∀ m rest out l k, P m → ready (length (encode m) + k) l →
     ∃ l', frame (Socket (encode m ++ rest) out l) = Some (Some m, Socket rest out l') ∧ ready k l') →
  Forall P ms → ready (length (concat (encode <$> ms)) + k) l →
  ∃ l', receive_all frame (length ms) (Socket (concat (encode <$> ms) ++ rest) out l) =
      Some (Some <$> ms, Socket rest out l') ∧ ready k l'.
Proof.
  intros Hframe Hms. revert l. induction Hms as [|m ms Hm _ IH]; intros l Hr; [by exists l|].
  cbn [fmap list_fmap concat length receive_all] in *.
  rewrite length_app, <-Nat.add_assoc in Hr. rewrite <-app_assoc.
  edestruct Hframe as (l1 & -> & Hr1); [exact Hm|exact Hr|]. cbn [mbind option_bind].
  destruct (IH l1 Hr1) as (l2 & -> & Hr2). by exists l2.
Qed.

(** The client reads a payload also after the end mark, which has none: it
    takes the next bytes of the stream, whatever messages they belong to, for
    the numbers of a job and continues behind them. *)
Lemma end_mark_desync next rest out l :
  length next = (8 * JOB_SIZE)%nat → ready (8 + 8 * JOB_SIZE) l →
  ∃ l', client_frame (Socket (encode end_mark ++ next ++ rest) out l) =
    Some (Some (Data (-1) (Some (doubles_of JOB_SIZE next))), Socket rest out l').
Proof.
  intros Hl Hr. unfold end_mark. cbn [encode]. rewrite <-app_assoc.
  destruct (client_frame_data (-1) (next ++ rest) out l (8 * JOB_SIZE)) as (l1 & -> & Hr1); [done..|].
  unfold read_payload. rewrite <-(Nat.add_0_r (8 * JOB_SIZE)) in Hr1.
  destruct (read_all_ok (8 * JOB_SIZE) (next ++ rest) out l1 0) as (l2 & Heq & _);
    [rewrite length_app; lia|done|].
  rewrite Heq. cbn [mbind option_bind]. exists l2.
  rewrite take_app_length', drop_app_length' by done.
  by rewrite Hl, Nat.sub_diag, app_nil_r.
Qed.

(** ** Properties *)

(** The message channels of the job system are implemented by the byte
    stream: whatever pieces the sockets move, however often they are
    interrupted, the messages one process sends are the messages the other
    one's reader takes from the stream, in order, and nothing after them is
    touched; for the server's reader, and for the client's as long as no end
    mark is among them.  That condition is needed: the client reads a payload
    also after the end mark, which has none, so it takes the next bytes of the
    stream for the numbers of a job and continues behind them. *)
Theorem stream_carries_messages ms inb out lw rest out' lr :
  Forall valid ms → ready (length (concat (encode <$> ms))) lw →
  ready (length (concat (encode <$> ms))) lr →
  (∃ bs lw' lr', send_all ms (Socket inb out lw) = Some (Socket inb (out ++ bs) lw') ∧
    receive_all server_frame (length ms) (Socket (bs ++ rest) out' lr) =
      Some (Some <$> ms, Socket rest out' lr') ∧
    (end_mark ∉ ms → ∃ lr2,
       receive_all client_frame (length ms) (Socket (bs ++ rest) out' lr) =
         Some (Some <$> ms, Socket rest out' lr2))) ∧
  (∀ next l, length next = (8 * JOB_SIZE)%nat → ready (8 + 8 * JOB_SIZE) l →
     ∃ l', client_frame (Socket (encode end_mark ++ next ++ rest) out' l) =
       Some (Some (Data (-1) (Some (doubles_of JOB_SIZE next))), Socket rest out' l')).
Proof.
  intros Hms Hw Hr. split; [|intros; by apply end_mark_desync]. rewrite <-(Nat.add_0_r (length _)) in Hw, Hr.
  destruct (send_all_ok ms inb out lw 0 Hms Hw) as (lw' & Heq & _).
  destruct (receive_all_ok server_frame valid ms rest out' lr 0) as (lr' & Heq' & _);
    [apply server_frame_ok|done|done|].
  do 3 eexists. split; [exact Heq|]. split; [exact Heq'|]. intros Hne.
  destruct (receive_all_ok client_frame (λ m, valid m ∧ m ≠ end_mark) ms rest out' lr 0)
    as (lr2 & Heq2 & _); [intros ????? []; by apply client_frame_ok| |done|by exists lr2].
  rewrite Forall_forall in *. intros m Hin. split; [by apply Hms|]. by intros ->.
Qed.
End frames.

(** ** Concrete instances *)

(** Jobs of two numbers; every second call is interrupted. *)
Definition ex_answers (n : nat) : list answer := concat (replicate n [Interrupted; Moves 3]).
Definition ex_messages : list (Jobs.message (D := Z)) :=
  [State 3; Data 5 (Some [4607682818760416000; 0]); Rebalance; Data (-1) None].

Lemma ex_answers_ready n m : (m ≤ n)%nat → ready m (ex_answers n).
Proof.
  intros Hm. unfold ready, ex_answers. revert m Hm.
  induction n as [|n IH]; intros m Hm; [split; [done|lia]|]. cbn.
  destruct (IH (Nat.pred m) ltac:(lia)) as [? ?]. split; [done|lia].
Qed.

Lemma stream_carries_messages_witness :
  (∃ bs lw' lr', send_all 1065353216 0 ex_messages (Socket [] [] (ex_answers 60)) =
      Some (Socket [] ([] ++ bs) lw') ∧
    receive_all (server_frame 2) (length ex_messages) (Socket (bs ++ [7]) [] (ex_answers 60)) =
      Some (Some <$> ex_messages, Socket [7] [] lr') ∧
    (end_mark ∉ ex_messages → ∃ lr2,
       receive_all (client_frame 2) (length ex_messages) (Socket (bs ++ [7]) [] (ex_answers 60)) =
         Some (Some <$> ex_messages, Socket [7] [] lr2))) ∧
  (∀ next l, length next = (8 * 2)%nat → ready (8 + 8 * 2) l →
     ∃ l', client_frame 2 (Socket (encode 1065353216 0 end_mark ++ next ++ [7]) [] l) =
       Some (Some (Data (-1) (Some (doubles_of 2 next))), Socket [7] [] l')).
Proof.
  apply (stream_carries_messages 2 ltac:(lia) 1065353216 0 ex_messages [] [] (ex_answers 60)
           [7] [] (ex_answers 60)).
  - unfold ex_messages. repeat (apply Forall_cons; split).
    + split; vm_compute; [discriminate|reflexivity].
    + split; [split; vm_compute; [discriminate|reflexivity]|].
      split; [reflexivity|]. split; [reflexivity|].
      repeat (apply Forall_cons; split; [split; vm_compute; [discriminate|reflexivity]|]).
      apply Forall_nil. exact I.
    + exact I.
    + reflexivity.
    + apply Forall_nil. exact I.
  - apply ex_answers_ready. vm_compute. lia.
  - apply ex_answers_ready. vm_compute. lia.
Defined.
