(* ===== verification/Streams.v ===== *)
(** * MP4: what a healthy socket can answer (src/MP4/utils.c)

    [Frames] shows that the readers recover the messages when the socket gives
    enough answers.  Here is the converse: a call that returns on a socket that
    neither closes nor fails has done what it is to do, because it would have
    done the same with more answers.  And the streams that encode a list of
    messages, each with the throttle and the CPU usage of its moment. *)
From stdpp Require Import prelude.
From S2P Require Import Prelude CInt Wire Jobs Frames.
Open Scope Z_scope.

(** ** More answers change nothing *)

Definition more (e : list answer) (s : socket) : socket :=
  Socket (inbox s) (outbox s) (answers s ++ e).

(** A call that returns returns the same when more answers are to come. *)
Class Extends {A} (f : socket → option (A * socket)) : Prop :=
  extends e s a s' : f s = Some (a, s') → f (more e s) = Some (a, more e s').

(** Move an [Extends] call of a hypothesis to the socket with more answers. *)
Ltac extend_call e :=
  match goal with
  | H : ?f ?s = Some (?a, ?s') |- context [?f (more e ?s)] =>
      rewrite (extends (f := f) e s a s' H); cbn [mbind option_bind]
  end.

(** Follow a function made of such calls. *)
Ltac extend_step e :=
  match goal with
  | |- ?x = ?x → _ => intros _
  | |- Some _ = Some _ → _ => intros [= <- <-]; reflexivity
  | |- None = Some _ → _ => discriminate
  | |- context [if decide ?P then _ else _] => destruct (decide P)
  | |- context [?f ?s ≫= _] =>
      let E := fresh "E" in
      destruct (f s) as [[? ?]|] eqn:E; cbn [mbind option_bind];
      [try extend_call e|discriminate]
  | |- context [match ?p with (_, _) => _ end] => is_var p; destruct p
  end.
Ltac extend := intros e s a s'; repeat extend_step e; try (by apply extends).

#[export] Instance sys_read_extends count : Extends (sys_read count).
Proof.
  intros e [inb out [|x l]] a s'; [done|]. unfold sys_read, more. cbn [answers inbox outbox app].
  destruct x; try (by intros [= <- <-]). destruct (amount _ _); [|by intros [= <- <-]].
  case_decide; [by intros [= <- <-]|done].
Qed.

#[export] Instance sys_write_extends bs : Extends (sys_write bs).
Proof.
  intros e [inb out [|x l]] a s'; [done|]. unfold sys_write, more. cbn [answers inbox outbox app].
  destruct x; try (by intros [= <- <-]). destruct (amount _ _); by intros [= <- <-].
Qed.

Lemma read_loop_extends fuel fuel' count got e s a s' :
  (fuel ≤ fuel')%nat → read_loop fuel count got s = Some (a, s') →
  read_loop fuel' count got (more e s) = Some (a, more e s').
Proof.
  revert fuel' got s. induction fuel as [|fuel IH]; intros fuel' got s Hf; [done|].
  destruct fuel' as [|fuel']; [lia|]. cbn [read_loop].
  destruct (sys_read (count - length got) s) as [[r s1]|] eqn:E; [|done].
  rewrite (extends e _ _ _ E). cbn [mbind option_bind].
  destruct r; try (by intros [= <- <-]); (case_decide; [apply IH; lia|by intros [= <- <-]]).
Qed.

Lemma write_loop_extends fuel fuel' buffer total e s a s' :
  (fuel ≤ fuel')%nat → write_loop fuel buffer total s = Some (a, s') →
  write_loop fuel' buffer total (more e s) = Some (a, more e s').
Proof.
  revert fuel' total s. induction fuel as [|fuel IH]; intros fuel' total s Hf; [done|].
  destruct fuel' as [|fuel']; [lia|]. cbn [write_loop].
  destruct (sys_write (drop total buffer) s) as [[r s1]|] eqn:E; [|done].
  rewrite (extends e _ _ _ E). cbn [mbind option_bind].
  destruct r; try (by intros [= <- <-]); (case_decide; [apply IH; lia|by intros [= <- <-]]).
Qed.

#[export] Instance read_all_extends count : Extends (read_all_from_socket count).
Proof.
  intros e s a s'. apply read_loop_extends. unfold more. cbn [answers]. rewrite length_app. lia.
Qed.

#[export] Instance write_all_extends buffer : Extends (write_all_to_socket buffer).
Proof.
  intros e s a s'. apply write_loop_extends. unfold more. cbn [answers]. rewrite length_app. lia.
Qed.

#[export] Instance get_single_value_extends : Extends get_single_value.
Proof. unfold get_single_value. extend. Qed.
#[export] Instance get_msg_type_extends : Extends get_msg_type := get_single_value_extends.
#[export] Instance get_jobid_extends : Extends get_jobid := get_single_value_extends.
#[export] Instance send_single_value_extends v : Extends (send_single_value v).
Proof. unfold send_single_value. extend. Qed.
#[export] Instance send_msg_type_extends v : Extends (send_msg_type v) := send_single_value_extends v.
#[export] Instance write_jobid_extends v : Extends (write_jobid v) := send_single_value_extends v.
#[export] Instance send_state_extends n t c : Extends (Wire.send_state n t c).
Proof. unfold Wire.send_state. extend. Qed.
#[export] Instance read_payload_extends size : Extends (read_payload size).
Proof. unfold read_payload. extend. Qed.
#[export] Instance read_state_extends : Extends read_state.
Proof. unfold read_state. extend. Qed.
#[export] Instance client_frame_extends size : Extends (client_frame size).
Proof. unfold client_frame. extend. Qed.
#[export] Instance server_frame_extends size : Extends (server_frame size).
Proof. unfold server_frame. extend. Qed.

Lemma send_extends throttle cpu m e s s' :
  send throttle cpu m s = Some s' → send throttle cpu m (more e s) = Some (more e s').
Proof.
  destruct m as [id p|k|]; cbn [send]; unfold transfer, request_rebalance;
    repeat extend_step e; by intros [= <-].
Qed.

Lemma send_all_extends throttle cpu ms e s s' :
  send_all throttle cpu ms s = Some s' → send_all throttle cpu ms (more e s) = Some (more e s').
Proof.
  revert s. induction ms as [|m ms IH]; intros s; cbn [send_all]; [by intros [= <-]|].
  destruct (send throttle cpu m s) as [s1|] eqn:E; [|done].
  rewrite (send_extends _ _ _ e _ _ E). cbn [mbind option_bind]. apply IH.
Qed.

(** ** Healthy sockets *)

(** Answers that neither close nor fail become enough of them. *)
Definition moves (n : nat) : list answer := replicate n (Moves 1).

Lemma moves_ready n l : forallb works l = true → ready n (l ++ moves n).
Proof.
  intros Hl. split.
  - rewrite forallb_app, Hl. unfold moves. by induction n.
  - rewrite List.filter_app, length_app. cut (length (List.filter is_move (moves n)) = n); [lia|].
    unfold moves. induction n as [|n IH]; [done|]. cbn. by rewrite IH.
Qed.

(** A call that returns, against what it returns with enough answers. *)
Lemma extends_works {A} (f : socket → option (A * socket)) `{!Extends f} n inb out l a s' b inb' :
  forallb works l = true → f (Socket inb out l) = Some (a, s') →
  (∀ l, ready n l → ∃ l', f (Socket inb out l) = Some (b, Socket inb' out l')) →
  a = b ∧ inbox s' = inb'.
Proof.
  intros Hl Hf Hb. destruct (Hb (l ++ moves n)) as (l' & Hl'); [by apply moves_ready|].
  pose proof (extends (moves n) _ _ _ Hf) as Hm. unfold more in Hm. cbn [inbox outbox answers] in Hm.
  rewrite Hm in Hl'. by injection Hl' as -> -> _.
Qed.

(** Nothing arrives from an empty stream. *)
Lemma read_loop_nothing fuel count out l :
  (0 < count)%nat → forallb works l = true → read_loop fuel count [] (Socket [] out l) = None.
Proof.
  intros Hc. revert l. induction fuel as [|fuel IH]; intros l Hl; [done|].
  destruct l as [|[k| | |] l]; try done; cbn [read_loop sys_read answers inbox outbox length].
  - rewrite Nat.sub_0_r, Nat.min_0_r. unfold amount. rewrite Nat.min_0_r.
    by rewrite decide_False by lia.
  - cbn [mbind option_bind]. rewrite decide_True by done. by apply IH.
Qed.

Lemma get_msg_type_nothing out l :
  forallb works l = true → get_msg_type (Socket [] out l) = None.
Proof.
  intros Hl. unfold get_msg_type, get_single_value, read_all_from_socket.
  by rewrite read_loop_nothing by (done || apply Nat.lt_0_succ).
Qed.

Section frames.
Context (JOB_SIZE : nat) (Hsize : (0 < JOB_SIZE)%nat).

Abbreviation message := (Jobs.message (D := Z)).
Abbreviation valid := (Frames.valid JOB_SIZE).
Implicit Types (m : message) (ms : list message).

Lemma client_frame_nothing out l :
  forallb works l = true → client_frame JOB_SIZE (Socket [] out l) = None.
Proof. intros Hl. unfold client_frame. by rewrite get_msg_type_nothing. Qed.

Lemma server_frame_nothing out l :
  forallb works l = true → server_frame JOB_SIZE (Socket [] out l) = None.
Proof. intros Hl. unfold server_frame. by rewrite get_msg_type_nothing. Qed.

Lemma server_frame_works throttle cpu m rest out l r s' :
  valid m → forallb works l = true →
  server_frame JOB_SIZE (Socket (encode throttle cpu m ++ rest) out l) = Some (r, s') →
  r = Some m ∧ inbox s' = rest.
Proof.
  intros Hm Hl Hf. eapply (extends_works (server_frame JOB_SIZE) (length (encode throttle cpu m) + 0)); [done..|].
  intros l1 Hr. destruct (server_frame_ok JOB_SIZE Hsize throttle cpu m rest out l1 0 Hm Hr)
    as (l' & ? & _). by exists l'.
Qed.

Lemma client_frame_works throttle cpu m rest out l r s' :
  valid m → m ≠ end_mark → forallb works l = true →
  client_frame JOB_SIZE (Socket (encode throttle cpu m ++ rest) out l) = Some (r, s') →
  r = Some m ∧ inbox s' = rest.
Proof.
  intros Hm Hne Hl Hf. eapply (extends_works (client_frame JOB_SIZE) (length (encode throttle cpu m) + 0)); [done..|].
  intros l1 Hr. destruct (client_frame_ok JOB_SIZE Hsize throttle cpu m rest out l1 0 Hm Hne Hr)
    as (l' & ? & _). by exists l'.
Qed.

(** After the end mark the client takes a payload: its id is still -1. *)
Lemma client_frame_end_mark throttle cpu rest out l r s' :
  forallb works l = true →
  client_frame JOB_SIZE (Socket (encode throttle cpu end_mark ++ rest) out l) = Some (r, s') →
  ∃ buffer, r = Some (Data (-1) (Some buffer)).
Proof.
  intros Hl Hf. pose proof (extends (f := client_frame JOB_SIZE) (moves 8) _ _ _ Hf) as Hm.
  unfold more in Hm. cbn [inbox outbox answers encode end_mark] in Hm. rewrite <-app_assoc in Hm.
  destruct (client_frame_data JOB_SIZE (-1) rest out (l ++ moves 8) 0)
    as (l' & Hd & _); [done|by apply moves_ready|].
  rewrite Hd in Hm. destruct (read_payload JOB_SIZE _) as [[buffer s1]|]; [|done].
  injection Hm as <- _. by exists buffer.
Qed.

(** ** Streams of messages *)

(** Every message is encoded with the throttle and the usage of its moment. *)
Inductive encodes : list message → list byte → Prop :=
  | encodes_nil : encodes [] []
  | encodes_cons throttle cpu m ms bs :
      encodes ms bs → encodes (m :: ms) (encode throttle cpu m ++ bs).

Lemma encodes_app ms bs ms' bs' :
  encodes ms bs → encodes ms' bs' → encodes (ms ++ ms') (bs ++ bs').
Proof.
  induction 1 as [|throttle cpu m ms bs _ IH]; intros H; [done|].
  rewrite <-app_assoc. by apply encodes_cons, IH.
Qed.

Lemma encodes_concat throttle cpu ms : encodes ms (concat (encode throttle cpu <$> ms)).
Proof. induction ms as [|m ms IH]; [constructor|]. by apply encodes_cons. Qed.

(** What a process sends is appended to the stream. *)
Lemma send_all_works throttle cpu ms bs l s' :
  Forall valid ms → forallb works l = true →
  send_all throttle cpu ms (Socket [] bs l) = Some s' →
  outbox s' = bs ++ concat (encode throttle cpu <$> ms).
Proof.
  intros Hms Hl Hs. set (k := length (concat (encode throttle cpu <$> ms))).
  destruct (send_all_ok JOB_SIZE Hsize throttle cpu ms [] bs (l ++ moves (k + 0)) 0)
    as (l' & Heq & _); [done|by apply moves_ready|].
  pose proof (send_all_extends _ _ _ (moves (k + 0)) _ _ Hs) as Hm. unfold more in Hm.
  cbn [inbox outbox answers] in Hm. rewrite Heq in Hm. by injection Hm as _ <- _.
Qed.

Lemma send_all_moves throttle cpu ms bs :
  Forall valid ms → ∃ l l', forallb works l = true ∧
    send_all throttle cpu ms (Socket [] bs l) =
    Some (Socket [] (bs ++ concat (encode throttle cpu <$> ms)) l').
Proof.
  intros Hms. set (k := length (concat (encode throttle cpu <$> ms))).
  pose proof (moves_ready (k + 0) [] eq_refl) as Hr.
  destruct (send_all_ok JOB_SIZE Hsize throttle cpu ms [] bs (moves (k + 0)) 0)
    as (l' & Heq & _); [done|done|].
  exists (moves (k + 0)), l'. split; [apply Hr|done].
Qed.
End frames.
