(* ===== verification/LostStream.v ===== *)
(** * MP4: the end of a stream (src/MP4/client.c, utils.c)

    When the server is gone, the kernel still delivers what has arrived of its
    stream; then every [read] returns 0, or fails.  What the client's reader
    makes of the last bytes: a message cut short by the end is ignored, except
    for a job, whose payload is filled up with zeros. *)
From stdpp Require Import prelude.
From S2P Require Import Prelude CInt Wire Jobs Frames Streams.
Open Scope Z_scope.

(** ** Sockets whose peer goes *)

Definition gone (l : list answer) : bool := forallb (λ a, negb (works a)) l.

(** The answers are healthy up to some call, and then neither data nor an
    interruption. *)
Fixpoint fading (l : list answer) : bool :=
  match l with
  | [] => true
  | a :: l' => if works a then fading l' else gone l'
  end.

(** A transfer that takes [k] bytes: all it asks for, or less because an answer
    of [l] is none. *)
Inductive read_end (count k : nat) (l : list answer) : Z → list answer → Prop :=
  | read_whole l' :
      k = count → fading l' = true → (forallb works l = true → forallb works l' = true) →
      read_end count k l (Z.of_nat count) l'
  | read_short r l' :
      (k < count)%nat → r = 0 ∨ r = -1 → gone l' = true → forallb works l = false →
      read_end count k l r l'.

Lemma read_end_cons count k a l r l' :
  works a = true → read_end count k l r l' → read_end count k (a :: l) r l'.
Proof.
  intros Ha [l1 Hk Hl1 Hw|r1 l1 Hk Hr Hl1 Hw]; [apply read_whole|apply read_short]; try done;
    cbn; by rewrite Ha.
Qed.

Lemma read_loop_fading fuel count got inb out l r bs s' :
  (length got < count)%nat → fading l = true →
  read_loop fuel count got (Socket inb out l) = Some (r, bs, s') →
  ∃ k l', (k ≤ length inb)%nat ∧ bs = got ++ take k inb ∧ s' = Socket (drop k inb) out l' ∧
    read_end count (length got + k) l r l'.
Proof.
  revert got inb l. induction fuel as [|fuel IH]; intros got inb l Hg Hl; [done|].
  assert (Hend : ∀ r0, r0 = 0 ∨ r0 = -1 → ∀ l', gone l' = true → forallb works l = false →
    Some (r0, got, Socket inb out l') = Some (r, bs, s') →
    ∃ k l', (k ≤ length inb)%nat ∧ bs = got ++ take k inb ∧ s' = Socket (drop k inb) out l' ∧
      read_end count (length got + k) l r l').
  { intros r0 Hr0 l' Hl' Hw [= <- <- <-]. exists 0%nat, l'. rewrite take_0, app_nil_r, Nat.add_0_r.
    split_and!; [lia|done..|]. by apply read_short. }
  destruct l as [|[n| | |] l]; [done|..]; cbn [read_loop sys_read answers inbox outbox].
  - pose proof (amount_pos n (Nat.min (count - length got) (length inb))) as Hk.
    assert (Hm : (amount n (Nat.min (count - length got) (length inb)) ≤
      Nat.min (count - length got) (length inb))%nat) by (unfold amount; lia).
    destruct (amount n _) as [|k0]; [by rewrite decide_False by lia|].
    set (k := S k0) in *. cbn [mbind option_bind]. rewrite length_app, length_take_le by lia.
    case_decide as Hd.
    + intros (k' & l' & Hk2 & -> & -> & He)%IH; [|rewrite length_app, length_take_le; lia|done].
      rewrite length_drop in Hk2. exists (k + k')%nat, l'. split; [lia|].
      rewrite <-app_assoc, drop_drop, <-take_take_drop. split_and!; [done..|].
      apply read_end_cons; [done|]. by rewrite length_app, length_take_le, <-Nat.add_assoc in He by lia.
    + intros [= <- <- <-]. exists k, l. split_and!; [lia|done..|].
      replace (length got + k)%nat with count by lia. by apply read_whole.
  - by apply Hend; [left|..].
  - cbn [mbind option_bind]. rewrite decide_True by done.
    intros (k & l' & Hk & Hb & Hs & He)%IH; [|done..]. exists k, l'. by split_and!; [..|apply read_end_cons].
  - by apply Hend; [right|..].
Qed.

Lemma read_all_fading count inb out l r bs s' :
  (0 < count)%nat → fading l = true →
  read_all_from_socket count (Socket inb out l) = Some (r, bs, s') →
  ∃ k l', (k ≤ length inb)%nat ∧ bs = take k inb ∧ s' = Socket (drop k inb) out l' ∧
    read_end count k l r l'.
Proof. apply (read_loop_fading _ count []). Qed.

(** Nothing more is read once an answer has failed. *)
Lemma read_all_gone count inb out l r bs s' :
  (0 < count)%nat → gone l = true →
  read_all_from_socket count (Socket inb out l) = Some (r, bs, s') →
  bs = [] ∧ (r = 0 ∨ r = -1) ∧ inbox s' = inb.
Proof.
  intros Hc Hl. unfold read_all_from_socket.
  destruct l as [|[n| | |] l]; try done; cbn [answers length read_loop sys_read inbox outbox];
    intros [= <- <- <-]; split_and!; auto.
Qed.

(** A value, whole or not: -2 then. *)
Lemma get_value_fading inb out l x s' :
  fading l = true → get_single_value (Socket inb out l) = Some (x, s') →
  ∃ k l', (k ≤ length inb)%nat ∧ s' = Socket (drop k inb) out l' ∧
    ((k = 4%nat ∧ x = int32 (be_val (take 4 inb)) ∧ fading l' = true ∧
        (forallb works l = true → forallb works l' = true)) ∨
     ((k < 4)%nat ∧ x = -2 ∧ gone l' = true ∧ forallb works l = false)).
Proof.
  intros Hl. unfold get_single_value, MESSAGE_SIZE_DIGITS.
  destruct (read_all_from_socket 4 _) as [[[r bs] s1]|] eqn:E; [|done].
  apply read_all_fading in E as (k & l' & Hk & -> & -> & He); [|lia|done].
  cbn [mbind option_bind]. destruct He as [l' -> Hl' Hw|r l' Hk4 Hr Hl' Hw].
  - rewrite decide_False by lia. intros [= <- <-]. exists 4%nat, l'. by split_and!; [..|left].
  - rewrite decide_True by done. intros [= <- <-]. exists k, l'. by split_and!; [..|right].
Qed.

(** ** The last message of a stream *)

Lemma doubles_of_length k bs : length (doubles_of k bs) = k.
Proof. revert bs. induction k as [|k IH]; intros bs; [done|]. cbn [doubles_of length]. by rewrite IH. Qed.

Section frames.
Context (JOB_SIZE : nat) (Hsize : (0 < JOB_SIZE)%nat).

Abbreviation message := (Jobs.message (D := Z)).
Abbreviation valid := (Frames.valid JOB_SIZE).
Implicit Types (m : message) (d : list byte).

(** The numbers read from a payload of which [bs] arrives. *)
Definition zero_padded (bs : list byte) : list Z :=
  doubles_of JOB_SIZE (bs ++ replicate (8 * JOB_SIZE - length bs) 0).

(** What the client's reader returns when it takes all that is left, [d] after
    the type of a message. *)
Definition last_body (msg_type : Z) d : option message :=
  if decide (msg_type = -1) then
    (if decide (length d < 16)%nat then None else Some (State (word_at d 0)))
  else if decide (msg_type = 0) then
    (if decide (length d < 4)%nat then Some (Data (-2) (Some (zero_padded [])))
     else Some (Data (int32 (be_val (take 4 d))) (Some (zero_padded (drop 4 d)))))
  else if decide (msg_type = 2) then Some Rebalance
  else None.
Definition last_frame d : option message :=
  if decide (length d < 4)%nat then None else last_body (int32 (be_val (take 4 d))) (drop 4 d).

(** The bytes the reader asks for, as far as it knows the type. *)
Definition type_size (msg_type : Z) : nat :=
  if decide (msg_type = -1) then 20%nat
  else if decide (msg_type = 0) then (8 + 8 * JOB_SIZE)%nat else 4%nat.
Lemma type_size_state : type_size (-1) = 20%nat.
Proof. done. Qed.
Lemma type_size_data : type_size 0 = (8 + 8 * JOB_SIZE)%nat.
Proof. done. Qed.

Definition frame_size d : nat :=
  if decide (length d < 4)%nat then 4%nat else type_size (int32 (be_val (take 4 d))).

Lemma read_payload_fading inb out l buffer s' :
  fading l = true → read_payload JOB_SIZE (Socket inb out l) = Some (buffer, s') →
  ∃ k, (k ≤ length inb)%nat ∧ inbox s' = drop k inb ∧ buffer = zero_padded (take k inb) ∧
    (k ≤ 8 * JOB_SIZE)%nat ∧ (forallb works l = true → k = (8 * JOB_SIZE)%nat).
Proof.
  intros Hl. unfold read_payload.
  destruct (read_all_from_socket _ _) as [[[r bs] s1]|] eqn:E; [|done].
  apply read_all_fading in E as (k & l' & Hk & -> & -> & He); [|lia|done].
  cbn [mbind option_bind]. intros [= <- <-]. exists k. split_and!; [done..| |].
  - destruct He; lia.
  - destruct He as [|? ? ? ? ? Hw]; [done|]. by rewrite Hw.
Qed.

Lemma read_payload_gone inb out l buffer s' :
  gone l = true → read_payload JOB_SIZE (Socket inb out l) = Some (buffer, s') →
  buffer = zero_padded [] ∧ inbox s' = inb.
Proof.
  intros Hl. unfold read_payload.
  destruct (read_all_from_socket _ _) as [[[r bs] s1]|] eqn:E; [|done].
  apply read_all_gone in E as (-> & _ & Hi); [|lia|done].
  cbn [mbind option_bind]. by intros [= <- <-].
Qed.

Lemma read_state_fading inb out l r s' :
  fading l = true → read_state (Socket inb out l) = Some (r, s') →
  ∃ k, (k ≤ length inb)%nat ∧ inbox s' = drop k inb ∧
    r = (if decide (k < 16)%nat then None else Some (State (word_at (take k inb) 0))) ∧
    (k ≤ 16)%nat ∧ (forallb works l = true → k = 16%nat).
Proof.
  intros Hl. unfold read_state.
  destruct (read_all_from_socket _ _) as [[[r1 bs] s1]|] eqn:E; [|done].
  apply read_all_fading in E as (k & l' & Hk & -> & -> & He); [|lia|done].
  cbn [mbind option_bind]. intros [= <- <-]. exists k.
  destruct He as [? -> ? ?|r1 ? Hk16 Hr ? Hw].
  - rewrite decide_False by (intros Hf; by apply Hf). by rewrite decide_False by lia.
  - rewrite decide_True by lia. rewrite decide_True by lia. split_and!; try done; [lia|by rewrite Hw].
Qed.

(** The reader has taken [k] bytes of [d], and returns what they say. *)
Definition frame_reads (healthy : bool) (k : nat) d (r : option message) : Prop :=
  (k ≤ length d)%nat ∧ r = last_frame (take k d) ∧ (k ≤ frame_size (take k d))%nat ∧
  (healthy = true → k = frame_size (take k d)).

(** What follows the type. *)
Lemma frame_reads_body healthy k d r t :
  (4 + k ≤ length d)%nat → t = int32 (be_val (take 4 d)) → r = last_body t (take k (drop 4 d)) →
  (4 + k ≤ type_size t)%nat → (healthy = true → (4 + k)%nat = type_size t) →
  frame_reads healthy (4 + k) d r.
Proof.
  intros Hk -> -> Hle Heq. unfold frame_reads, last_frame, frame_size.
  rewrite length_take_le by done. rewrite !(decide_False (P := (4 + k < 4)%nat)) by lia.
  rewrite take_take, Nat.min_l by lia. rewrite skipn_firstn_comm.
  by replace (4 + k - 4)%nat with k by lia.
Qed.

Lemma client_frame_fading d out l r s' :
  fading l = true → client_frame JOB_SIZE (Socket d out l) = Some (r, s') →
  ∃ k, inbox s' = drop k d ∧ frame_reads (forallb works l) k d r.
Proof.
  intros Hl. unfold client_frame, get_msg_type, get_jobid.
  destruct (get_single_value _) as [[t s1]|] eqn:E1; [|done]. cbn [mbind option_bind].
  apply get_value_fading in E1 as (k & l1 & Hk & -> & [(-> & Ht & Hl1 & Hw1)|(Hk4 & -> & Hl1 & Hw)]); [| |done].
  - pose proof (length_drop d 4) as Hd4.
    assert (Hread : ∀ k s, inbox s = drop k (drop 4 d) → frame_reads (forallb works l) (4 + k) d r →
      s = s' → ∃ k, inbox s' = drop k d ∧ frame_reads (forallb works l) k d r).
    { intros k s Hs Hr <-. exists (4 + k)%nat. by rewrite Hs, drop_drop. }
    pose proof (λ k, frame_reads_body (forallb works l) k d r t) as Hbody.
    destruct (decide (t = -1)) as [->|Hn1]; [|destruct (decide (t = 0)) as [->|Hn0]].
    + intros HR. apply read_state_fading in HR as (k & Hk' & Hi & -> & Hk16 & Hw16); [|done].
      eapply (Hread k s'); [done| |done]. apply Hbody; [lia|done| |rewrite type_size_state; lia|].
      * unfold last_body. rewrite (decide_True (P := -1 = -1)) by done. by rewrite length_take_le by done.
      * intros Hw. by rewrite Hw16 by auto.
    + destruct (get_single_value _) as [[id s2]|] eqn:E2; [|done]. cbn [mbind option_bind].
      destruct (read_payload JOB_SIZE s2) as [[buffer s3]|] eqn:E3; [|done]. intros [= <- <-].
      apply get_value_fading in E2
        as (k2 & l2 & Hk2 & -> & [(-> & Hid & Hl2 & Hw2)|(Hk4 & -> & Hl2 & Hw)]); [| |done].
      * apply read_payload_fading in E3 as (k3 & Hk3 & Hi & -> & Hle & Hw3); [|done].
        rewrite length_drop in Hk3. eapply (Hread (4 + k3)%nat s3); [by rewrite Hi, !drop_drop| |done].
        apply Hbody; [lia|done| |rewrite type_size_data; lia|].
        -- unfold last_body. rewrite decide_False, decide_True by done.
           rewrite decide_False by (rewrite length_take_le; lia).
           rewrite take_take, Nat.min_l by lia. rewrite skipn_firstn_comm.
           replace (4 + k3 - 4)%nat with k3 by lia. by rewrite Hid.
        -- intros Hw. rewrite Hw3 by auto. rewrite type_size_data. lia.
      * apply read_payload_gone in E3 as [-> Hi]; [|done].
        eapply (Hread k2 s3); [done| |done]. apply Hbody; [lia|done| |rewrite type_size_data; lia|].
        -- unfold last_body. rewrite decide_False, decide_True by done.
           by rewrite decide_True by (rewrite length_take_le; lia).
        -- intros Hh. specialize (Hw1 Hh). congruence.
    + intros H. assert (Hr : r = (if decide (t = 2) then Some Rebalance else None) ∧
        s' = Socket (drop 4 d) out l1) by (case_decide; by injection H as <- <-).
      destruct Hr as [Hr ->]. eapply (Hread 0%nat (Socket (drop 4 d) out l1)); [done| |done].
      assert (Hts : type_size t = 4%nat) by (unfold type_size; by rewrite !decide_False by done).
      apply Hbody; [lia|done| |lia|lia].
      unfold last_body. by rewrite !(decide_False (P := t = _)) by done.
  - rewrite !decide_False by lia. intros [= <- <-]. exists k. split; [done|].
    unfold frame_reads, last_frame, frame_size. rewrite length_take_le by done.
    rewrite !decide_True by done. split_and!; [done|done|lia|]. by rewrite Hw.
Qed.

(** *** Encoded messages *)

Lemma value_head v x :
  is_sint 32 v → int32 (be_val (take 4 (value_image v ++ x))) = v ∧
    drop 4 (value_image v ++ x) = x ∧ ¬ (length (value_image v ++ x) < 4)%nat.
Proof.
  intros Hv. pose proof (value_image_length v) as Hl. split_and!.
  - rewrite take_app_length' by done. unfold value_image.
    by rewrite be_val_wrap, int32_uint32, int32_small.
  - by rewrite drop_app_length'.
  - rewrite length_app. lia.
Qed.

Lemma last_frame_value v x : is_sint 32 v → last_frame (value_image v ++ x) = last_body v x.
Proof.
  intros Hv. destruct (value_head v x Hv) as (H1 & H2 & H3). unfold last_frame.
  by rewrite decide_False, H1, H2.
Qed.

Lemma last_body_data id x :
  is_sint 32 id → last_body 0 (value_image id ++ x) = Some (Data id (Some (zero_padded x))).
Proof.
  intros Hv. destruct (value_head id x Hv) as (H1 & H2 & H3). unfold last_body.
  rewrite decide_False, decide_True by done. by rewrite decide_False, H1, H2.
Qed.

(** What the client's reader ignores. *)
Definition ignored (r : option message) : Prop :=
  match r with None => True | Some (Data id (Some _)) => id < 0 | _ => False end.

Lemma last_frame_short d : (length d < 4)%nat → ignored (last_frame d).
Proof. intros Hd. unfold last_frame. by rewrite decide_True. Qed.

(** A cut between the type of a message and its end. *)
Lemma take_value i v x :
  (4 ≤ i)%nat → take i (value_image v ++ x) = value_image v ++ take (i - 4) x.
Proof.
  intros Hi. rewrite take_app, value_image_length. rewrite take_ge; [done|].
  rewrite value_image_length. lia.
Qed.

Lemma ignored_end_mark throttle cpu i rest :
  ignored (last_frame (take i (encode throttle cpu end_mark ++ rest))).
Proof.
  unfold end_mark. cbn [encode]. rewrite <-app_assoc. destruct (decide (i < 4)%nat).
  { apply last_frame_short. rewrite length_take. lia. }
  rewrite take_value, last_frame_value by (done || lia). destruct (decide (i - 4 < 4)%nat).
  - unfold last_body. rewrite decide_False, decide_True by done.
    rewrite decide_True by (rewrite length_take; lia). cbn. lia.
  - rewrite take_value, last_body_data by (done || lia). cbn. lia.
Qed.

(** A message of which at least a byte is missing is ignored, or it is a job
    with a payload filled up with zeros. *)
Lemma last_frame_cut throttle cpu m i :
  valid m → (i < length (encode throttle cpu m))%nat →
  ignored (last_frame (take i (encode throttle cpu m))) ∨
  ∃ id p k, m = Data id (Some p) ∧ (k < 8 * JOB_SIZE)%nat ∧
    last_frame (take i (encode throttle cpu m)) =
    Some (Data id (Some (zero_padded (take k (doubles_image p))))).
Proof.
  intros Hm Hi. destruct (decide (i < 4)%nat).
  { left. apply last_frame_short. rewrite length_take. lia. }
  destruct m as [id [p|]|k|].
  - destruct Hm as (Hid & Hj & Hl & Hp). cbn [encode] in *.
    rewrite !length_app, !value_image_length, doubles_image_length in Hi.
    rewrite take_value, last_frame_value by (done || lia). destruct (decide (i - 4 < 4)%nat).
    + left. unfold last_body. rewrite decide_False, decide_True by done.
      rewrite decide_True by (rewrite length_take; lia). cbn. lia.
    + right. rewrite take_value, last_body_data by (done || lia).
      exists id, p, (i - 4 - 4)%nat. split_and!; [done|lia|done].
  - cbn in Hm. subst id. left. rewrite <-(app_nil_r (encode _ _ _)). apply ignored_end_mark.
  - cbn [encode] in *. rewrite length_app, value_image_length, state_image_length in Hi. left.
    rewrite take_value, last_frame_value by (done || lia). unfold last_body.
    rewrite decide_True by done. by rewrite decide_True by (rewrite length_take; lia).
  - exfalso. cbn [encode] in Hi. rewrite value_image_length in Hi. lia.
Qed.

(** The size of a message that is there at least in part. *)
Lemma frame_size_encode throttle cpu m k rest :
  valid m → m ≠ end_mark → (4 ≤ k)%nat →
  frame_size (take k (encode throttle cpu m ++ rest)) = length (encode throttle cpu m).
Proof.
  intros Hm Hne Hk.
  assert (Hsize' : ∀ t x, is_sint 32 t → frame_size (take k (value_image t ++ x)) = type_size t).
  { intros t x Ht. rewrite take_value by done. destruct (value_head t (take (k - 4) x) Ht) as (H1 & _ & H3).
    unfold frame_size. by rewrite decide_False, H1. }
  destruct m as [id [p|]|q|]; cbn [encode].
  - destruct Hm as (_ & _ & Hl & _). rewrite <-app_assoc, Hsize' by done.
    rewrite !length_app, !value_image_length, doubles_image_length, Hl.
    rewrite type_size_data. lia.
  - cbn in Hm. by subst id.
  - rewrite <-app_assoc, Hsize' by done. by rewrite length_app, value_image_length, state_image_length.
  - by rewrite Hsize'.
Qed.

Lemma last_frame_encode throttle cpu m :
  valid m → m ≠ end_mark → last_frame (encode throttle cpu m) = Some m.
Proof.
  intros Hm Hne. destruct m as [id [p|]|q|]; cbn [encode].
  - destruct Hm as (Hid & Hj & Hl & Hp). rewrite last_frame_value, last_body_data by done.
    do 3 f_equal. unfold zero_padded. rewrite doubles_image_length, Hl, Nat.sub_diag, <-Hl.
    by apply doubles_of_image.
  - cbn in Hm. by subst id.
  - rewrite last_frame_value by done. unfold last_body. rewrite decide_True by done.
    rewrite decide_False by (rewrite state_image_length; lia). do 2 f_equal.
    rewrite (proj1 (word_image _ _ _)). by apply int32_small.
  - rewrite <-(app_nil_r (value_image 2)). by rewrite last_frame_value.
Qed.

(** The reader takes the first message of the stream, or the stream is cut
    before its end. *)
Lemma frame_reads_message healthy k i throttle cpu m rest r :
  valid m → m ≠ end_mark → frame_reads healthy k (take i (encode throttle cpu m ++ rest)) r →
  healthy = true ∨ drop k (take i (encode throttle cpu m ++ rest)) = [] →
  (r = Some m ∧ (length (encode throttle cpu m) ≤ i)%nat ∧
     drop k (take i (encode throttle cpu m ++ rest)) = take (i - length (encode throttle cpu m)) rest) ∨
  ((i < length (encode throttle cpu m))%nat ∧ r = last_frame (take i (encode throttle cpu m)) ∧
     drop k (take i (encode throttle cpu m ++ rest)) = []).
Proof.
  intros Hm Hne (Hk & -> & Hle & Hh) Hend. set (e := encode throttle cpu m) in *.
  rewrite length_take in Hk. rewrite take_take, Nat.min_l in * by lia.
  assert (H4 : (4 ≤ length e)%nat).
  { subst e. destruct m as [id [p|]|q|]; cbn [encode]; rewrite ?length_app, value_image_length; lia. }
  assert (Hfs : (4 ≤ k)%nat → frame_size (take k (e ++ rest)) = length e).
  { intros Hk4. by apply frame_size_encode. }
  destruct (decide (length e ≤ k)%nat) as [Hke|Hke].
  - left. rewrite Hfs in Hle by lia. assert (k = length e) as -> by lia.
    rewrite take_app_length. split; [by apply last_frame_encode|]. split; [lia|].
    rewrite skipn_firstn_comm. by rewrite drop_app_length.
  - right. destruct Hend as [Hend|Hend].
    + exfalso. specialize (Hh Hend). destruct (decide (4 ≤ k)%nat); [rewrite Hfs in Hh; lia|].
      unfold frame_size in Hh. rewrite length_take in Hh. rewrite decide_True in Hh by lia. lia.
    + split; [|split; [|done]].
      * assert (Hl : length (drop k (take i (e ++ rest))) = 0%nat) by (by rewrite Hend).
        rewrite length_drop, length_take, length_app in Hl. lia.
      * f_equal. assert (Hl : length (drop k (take i (e ++ rest))) = 0%nat) by (by rewrite Hend).
        rewrite length_drop, length_take, length_app in *.
        rewrite take_app_le by lia. destruct (decide (i ≤ length e)%nat); [f_equal; lia|lia].
Qed.
End frames.
