(* ===== verification/JobsData.v ===== *)
(** * MP4: slices of the job vector

    What [compute], [storeLocal] and [create_message] do to the part of the
    vector that belongs to a job, and that jobs do not disturb each other. *)
From stdpp Require Import prelude.
From S2P Require Import Prelude CInt Jobs.
Open Scope Z_scope.

Section slices.
Context {D : Type} (add_const : D → D) (JOB_NUM JOB_SIZE : nat).
Implicit Types v : list D.

(** The numbers of job [j]. *)
Definition slice v (j : nat) : list D := take JOB_SIZE (drop (j * JOB_SIZE) v).

(** The vector with the numbers of job [j] replaced. *)
Definition splice v (j : nat) (m : list D) : list D :=
  take (j * JOB_SIZE) v ++ m ++ drop (j * JOB_SIZE + JOB_SIZE) v.

Definition full v : Prop := length v = (JOB_NUM * JOB_SIZE)%nat.

Lemma job_bound v j : full v → (j < JOB_NUM)%nat → (j * JOB_SIZE + JOB_SIZE ≤ length v)%nat.
Proof. unfold full. intros -> ?. nia. Qed.

Lemma slice_length v j : full v → (j < JOB_NUM)%nat → length (slice v j) = JOB_SIZE.
Proof.
  intros Hv Hj. pose proof (job_bound v j Hv Hj). unfold slice.
  rewrite length_take_le; [done|]. rewrite length_drop. lia.
Qed.

Lemma lookup_slice v j i :
  slice v j !! i = if decide (i < JOB_SIZE)%nat then v !! (j * JOB_SIZE + i)%nat else None.
Proof.
  unfold slice. case_decide.
  - by rewrite lookup_take_lt, lookup_drop by done.
  - by rewrite lookup_take_ge by lia.
Qed.

Lemma splice_length v j m :
  full v → (j < JOB_NUM)%nat → length m = JOB_SIZE → length (splice v j m) = length v.
Proof.
  intros Hv Hj Hm. pose proof (job_bound v j Hv Hj). unfold splice.
  rewrite !length_app, length_take_le, length_drop by lia. lia.
Qed.

Lemma splice_full v j m :
  full v → (j < JOB_NUM)%nat → length m = JOB_SIZE → full (splice v j m).
Proof. intros Hv Hj Hm. unfold full. by rewrite splice_length. Qed.

Lemma slice_splice_eq v j m :
  full v → (j < JOB_NUM)%nat → length m = JOB_SIZE → slice (splice v j m) j = m.
Proof.
  intros Hv Hj Hm. pose proof (job_bound v j Hv Hj). unfold slice, splice.
  rewrite drop_app_length' by (rewrite length_take_le; lia).
  by rewrite take_app_length'.
Qed.

Lemma slice_splice_ne v j k m :
  full v → (j < JOB_NUM)%nat → length m = JOB_SIZE → j ≠ k → slice (splice v j m) k = slice v k.
Proof.
  intros Hv Hj Hm Hne. pose proof (job_bound v j Hv Hj) as Hb. apply list_eq. intros i.
  rewrite !lookup_slice. case_decide as Hi; [|done]. unfold splice.
  destruct (decide (k < j)%nat) as [Hk|Hk].
  - assert ((k * JOB_SIZE + i < j * JOB_SIZE)%nat) by nia.
    rewrite lookup_app_l by (rewrite length_take_le; lia).
    by rewrite lookup_take_lt by lia.
  - assert ((j * JOB_SIZE + JOB_SIZE ≤ k * JOB_SIZE + i)%nat) by nia.
    rewrite lookup_app_r by (rewrite length_take_le; lia).
    rewrite length_take_le by lia.
    rewrite lookup_app_r by lia. rewrite lookup_drop. f_equal. lia.
Qed.

(** The loop of [compute] on a vector split around its range. *)
Lemma compute_loop_ok (mid pre post : list D) :
  compute_loop add_const (length mid) (length pre) (pre ++ mid ++ post) =
  Ok (pre ++ (work add_const <$> mid) ++ post).
Proof.
  revert pre. induction mid as [|x mid IH]; intros pre; cbn [length compute_loop]; [done|].
  cbn [app]. rewrite list_lookup_middle by done. cbn [from_option_or mbind outcome_bind].
  rewrite insert_app_r_alt by lia. rewrite Nat.sub_diag. cbn [insert list_insert fmap list_fmap].
  specialize (IH (pre ++ [work add_const x])). rewrite length_app, Nat.add_comm in IH.
  cbn [length Nat.add] in IH. rewrite <-!app_assoc in IH. exact IH.
Qed.

Lemma split_slice v j :
  full v → (j < JOB_NUM)%nat →
  v = take (j * JOB_SIZE) v ++ slice v j ++ drop (j * JOB_SIZE + JOB_SIZE) v.
Proof.
  intros Hv Hj. unfold slice. rewrite <-drop_drop, take_drop. by rewrite take_drop.
Qed.

Lemma compute_ok v j :
  full v → (j < JOB_NUM)%nat →
  compute add_const JOB_SIZE v (Z.of_nat j) = Ok (splice v j (work add_const <$> slice v j)).
Proof.
  intros Hv Hj. unfold compute. rewrite decide_True by lia. rewrite Nat2Z.id.
  pose proof (job_bound v j Hv Hj).
  pose proof (compute_loop_ok (slice v j) (take (j * JOB_SIZE) v)
                (drop (j * JOB_SIZE + JOB_SIZE) v)) as Hc.
  rewrite <-split_slice, slice_length, length_take_le in Hc by (done || lia). exact Hc.
Qed.

Lemma store_loop_ok (data mid pre post : list D) :
  length data = length mid →
  store_loop (length pre) data (pre ++ mid ++ post) = Ok (pre ++ data ++ post).
Proof.
  revert mid pre. induction data as [|x data IH]; intros [|y mid] pre Hl; try done.
  cbn [length] in Hl. cbn [store_loop app].
  rewrite decide_True by (rewrite length_app; cbn [length]; lia).
  rewrite insert_app_r_alt by lia. rewrite Nat.sub_diag. cbn [insert list_insert].
  specialize (IH mid (pre ++ [x]) ltac:(lia)). rewrite length_app, Nat.add_comm in IH.
  cbn [length Nat.add] in IH. rewrite <-!app_assoc in IH. exact IH.
Qed.

Lemma storeLocal_ok v j data :
  full v → (j < JOB_NUM)%nat → length data = JOB_SIZE →
  storeLocal JOB_SIZE (Z.of_nat j) data v = Ok (splice v j data).
Proof.
  intros Hv Hj Hd. unfold storeLocal. rewrite decide_True by lia. rewrite Nat2Z.id.
  pose proof (job_bound v j Hv Hj).
  pose proof (store_loop_ok data (slice v j) (take (j * JOB_SIZE) v)
                (drop (j * JOB_SIZE + JOB_SIZE) v)) as Hc.
  rewrite <-split_slice, slice_length, length_take_le in Hc by (done || lia). by apply Hc.
Qed.

(** A job beyond the vector. *)
Lemma storeLocal_beyond v data :
  full v → data ≠ [] → storeLocal JOB_SIZE (Z.of_nat JOB_NUM) data v = Fault OutOfBounds.
Proof.
  intros Hv Hd. unfold storeLocal. rewrite decide_True by lia. rewrite Nat2Z.id.
  destruct data as [|x data]; [done|]. cbn [store_loop]. by rewrite decide_False by (rewrite Hv; lia).
Qed.

Lemma read_slice_ok v j :
  full v → (j < JOB_NUM)%nat →
  read_slice JOB_SIZE v (Z.of_nat JOB_SIZE * Z.of_nat j) = Ok (slice v j).
Proof.
  intros Hv Hj. pose proof (job_bound v j Hv Hj). unfold read_slice.
  rewrite decide_True by nia. unfold slice. do 3 f_equal. nia.
Qed.

(** The message of a job that is not computed yet; the one of job 0 would lie
    beyond the vector. *)
Lemma create_message_job v j :
  full v → (j < JOB_NUM)%nat →
  read_slice JOB_SIZE v (create_message JOB_NUM JOB_SIZE (Z.of_nat j)) = Ok (slice v j).
Proof.
  intros Hv Hj. unfold create_message. rewrite decide_False by lia. by apply read_slice_ok.
Qed.

Lemma create_message_balance v j :
  full v → (0 < j < JOB_NUM)%nat →
  read_slice JOB_SIZE v (create_message JOB_NUM JOB_SIZE (Z.of_nat JOB_NUM + Z.of_nat j)) =
  Ok (slice v j).
Proof.
  intros Hv Hj. unfold create_message. rewrite decide_True by lia.
  replace (Z.of_nat JOB_NUM + Z.of_nat j - Z.of_nat JOB_NUM) with (Z.of_nat j) by lia.
  apply read_slice_ok; [done|lia].
Qed.

Lemma create_message_zero v :
  full v → (0 < JOB_SIZE)%nat →
  read_slice JOB_SIZE v (create_message JOB_NUM JOB_SIZE (Z.of_nat JOB_NUM + 0)) =
  Fault OutOfBounds.
Proof.
  intros Hv Hs. unfold create_message, read_slice. rewrite Z.add_0_r.
  rewrite (decide_False (P := Z.of_nat JOB_NUM < Z.of_nat JOB_NUM)) by lia.
  rewrite decide_False; [done|]. rewrite Hv. nia.
Qed.

(** A vector is its slices. *)
Lemma slices_eq v w :
  (0 < JOB_SIZE)%nat → full v → full w → (∀ j, (j < JOB_NUM)%nat → slice v j = slice w j) → v = w.
Proof.
  intros Hs Hv Hw Hj. apply list_eq. intros x.
  destruct (decide (x < JOB_NUM * JOB_SIZE)%nat) as [Hx|Hx].
  - assert (Hq : (x / JOB_SIZE < JOB_NUM)%nat).
    { apply Nat.Div0.div_lt_upper_bound. lia. }
    specialize (Hj _ Hq). pose proof (Nat.div_mod_eq x JOB_SIZE) as Hdm.
    pose proof (Nat.mod_upper_bound x JOB_SIZE ltac:(lia)) as Hm.
    pose proof (lookup_slice v (x / JOB_SIZE) (x mod JOB_SIZE)) as Hlv.
    pose proof (lookup_slice w (x / JOB_SIZE) (x mod JOB_SIZE)) as Hlw.
    rewrite decide_True in Hlv, Hlw by done.
    replace (x / JOB_SIZE * JOB_SIZE + x mod JOB_SIZE)%nat with x in Hlv, Hlw by lia.
    by rewrite <-Hlv, <-Hlw, Hj.
  - rewrite !lookup_ge_None_2; [done|rewrite Hw; lia|rewrite Hv; lia].
Qed.

Lemma slice_fmap (f : D → D) v j : slice (f <$> v) j = f <$> slice v j.
Proof. unfold slice. by rewrite <-fmap_drop, <-fmap_take. Qed.
End slices.
