(* ===== verification/Throttle.v ===== *)
(** * MP4: throttled computation and the monitors (src/MP4/utils.c)

    A job is computed at full speed, then the thread sleeps in proportion to the
    time it took; the throttle value comes from the standard input. *)
From Stdlib Require Import Ascii String SpecFloat.
From stdpp Require Import prelude.
From S2P Require Import Prelude CInt CFloat CText Jobs JobsData.
Open Scope Z_scope.

Record timespec : Type := Timespec { ts_sec : Z; tv_nsec : Z }.

(** The microseconds to sleep: [time_t] arithmetic, a product of [float]s, and
    the conversion back. *)
Definition sleepTime (throttle : cfloat) (start end_ : timeval) : Z :=
  let seconds := int64 (tv_sec end_ - tv_sec start) in
  let usec := int64 (tv_usec end_ - tv_usec start) in
  to_sint 64 (fmul single (of_int single (int64 (seconds * 1000000 + usec)))
                (fsub single (of_int single 1) throttle)).

Definition request (sleepTime : Z) : timespec :=
  let seconds := Z.quot sleepTime 1000000 in
  let usec := int64 (sleepTime - seconds * 1000000) in
  Timespec seconds (int64 (usec * 1000)).

(** The nanoseconds [nanosleep] sleeps: it refuses any other request at once. *)
Definition slept (ts : timespec) : Z :=
  if decide (0 ≤ ts_sec ts ∧ 0 ≤ tv_nsec ts < 1000000000)
  then ts_sec ts * 1000000000 + tv_nsec ts else 0.

Section throttle.
Context {D : Type} (add_const : D → D) (JOB_NUM JOB_SIZE : nat).
Implicit Types v : list D.

(** The state is the vector, the trace holds the calls of [nanosleep]. *)
Definition compute_with_throttle (throttle : cfloat) (start end_ : timeval) (i : Z) :
    cmd (list D) timespec unit :=
  vec ← get;
  vec' ← lift (compute add_const JOB_SIZE vec i);
  modify (λ _, vec') ;;
  emit (request (sleepTime throttle start end_)).

Lemma sleepTime_range throttle start end_ : is_sint 64 (sleepTime throttle start end_).
Proof. by apply to_sint_range. Qed.

Lemma request_slept s : is_sint 64 s → slept (request s) = if decide (0 ≤ s) then s * 1000 else 0.
Proof.
  intros Hs. unfold request. pose proof (Z.quot_rem' s 1000000) as Hqr.
  assert (Hu : s - Z.quot s 1000000 * 1000000 = Z.rem s 1000000) by lia.
  pose proof (Z.rem_bound_abs s 1000000 ltac:(lia)) as Hb. rewrite Hu.
  rewrite !int64_small by (red; change (2 ^ (64 - 1)) with 9223372036854775808;
    rewrite ?int64_small by (red; change (2 ^ (64 - 1)) with 9223372036854775808; lia); lia).
  unfold slept. cbn [ts_sec tv_nsec]. case_decide as Hv.
  - rewrite decide_True by lia. lia.
  - rewrite decide_False; [done|]. intros H0. destruct Hv.
    pose proof (Z.quot_pos s 1000000). pose proof (Z.rem_bound_pos s 1000000). lia.
Qed.

(** C26: A throttled computation gives the same vector as a plain one, and then
    sleeps for the microseconds [sleepTime] names, or not at all when that is
    negative.  It is 0 for the default throttle of 1, whatever the clock said,
    and not negative when the clock did not go back, the throttle is at most 1
    and the product is in the range of [time_t]. *)
Theorem compute_with_throttle_spec throttle start end_ (j : nat) v :
  let s := sleepTime throttle start end_ in
  let elapsed := int64 (int64 (tv_sec end_ - tv_sec start) * 1000000 +
                        int64 (tv_usec end_ - tv_usec start)) in
  let idle := fsub single (of_int single 1) throttle in
  full JOB_NUM JOB_SIZE v → (j < JOB_NUM)%nat →
  ∃ v' ts, compute_with_throttle throttle start end_ (Z.of_nat j) v = Ok (tt, v', [ts]) ∧
    compute add_const JOB_SIZE v (Z.of_nat j) = Ok v' ∧
    slept ts = (if decide (0 ≤ s) then s * 1000 else 0) ∧
    (throttle = of_int single 1 → s = 0) ∧
    (0 ≤ elapsed → finite idle = true → nonneg idle = true →
     (∃ z, trunc (fmul single (of_int single elapsed) idle) = Some z ∧ is_sint 64 z) → 0 ≤ s).
Proof.
  intros s elapsed idle Hv Hj. pose proof (compute_ok add_const JOB_NUM JOB_SIZE v j Hv Hj) as Hc.
  eexists _, (request s). split; [unfold compute_with_throttle; run; reflexivity|].
  split; [exact Hc|]. split; [apply request_slept, sleepTime_range|].
  assert (Hroomy : roomy single) by (unfold roomy; cbn; lia).
  assert (Hfin : finite (of_int single elapsed) = true).
  { apply of_int_finite; [done|]. pose proof (swrap_range 64 ltac:(lia)
      (int64 (tv_sec end_ - tv_sec start) * 1000000 + int64 (tv_usec end_ - tv_usec start))) as Hr.
    change (swrap 64 _) with elapsed in Hr. unfold is_sint in Hr.
    change (2 ^ (64 - 1)) with 9223372036854775808 in Hr.
    change (2 ^ 64) with 18446744073709551616. lia. }
  split.
  - intros ->. unfold s, sleepTime. fold elapsed.
    change (fsub single (of_int single 1) (of_int single 1)) with (S754_zero false).
    unfold to_sint. by rewrite fmul_zero.
  - intros Hel Hfi Hni (z & Hz & Hzr). unfold s, sleepTime. fold elapsed idle.
    unfold to_sint. rewrite Hz, decide_True by done.
    eapply trunc_nonneg; [|exact Hz]. apply fmul_nonneg; try done. by apply of_int_nonneg.
Qed.
End throttle.

(** ** The monitors *)

(** [getInfo_fromMonitor], which nothing calls: [fp] is the parsed line of
    /proc/stat, as many values as [fscanf] converted, and [garbage] the array
    before.  The quotient is 0 / 0 when all counts are 0. *)
Definition getInfo_fromMonitor (fp : option (list cfloat)) (garbage : list cfloat) :
    outcome cfloat :=
  line ← from_option_or NullDeref fp;
  let a i := default S754_nan ((line ++ drop (length line) garbage) !! i) in
  let busy := SFadd 53 1024 (SFadd 53 1024 (a 0%nat) (a 1%nat)) (a 2%nat) in
  Ok (fdiv double busy (SFadd 53 1024 busy (a 3%nat))).

(** One iteration of [update_throttle]: [fgets (digits, 10, stdin)] leaves the
    array alone at the end of the input; [atof] reads the string in it. *)
Section update.
Context (atof : text → cfloat).
Definition update_throttle (line : option text) (digits : text) : outcome (cfloat * text) :=
  let digits := match line with
                | Some l => l ++ NUL :: drop (length l + 1) digits
                | None => digits
                end in
  str ← c_str digits;
  Ok (atof str, digits).

(** At the end of the input the loop keeps setting the same value, for ever. *)
Lemma update_throttle_eof line digits throttle digits' :
  update_throttle (Some line) digits = Ok (throttle, digits') →
  update_throttle None digits' = Ok (throttle, digits').
Proof.
  unfold update_throttle. destruct (c_str _) as [str|] eqn:Hs; [|done].
  cbn [mbind outcome_bind]. intros [= <- <-]. by rewrite Hs.
Qed.
End update.

(** ** Concrete instances *)

(** Half speed: as long asleep as at work. *)
Definition half : cfloat := S754_finite false 8388608 (-24).
Lemma sleepTime_half : sleepTime half (Timeval 10 900000) (Timeval 12 400000) = 750000.
Proof. reflexivity. Qed.

Lemma compute_with_throttle_spec_witness :
  ∃ v' ts, compute_with_throttle Z.succ 2 half (Timeval 10 900000) (Timeval 12 400000)
             (Z.of_nat 1) [1; 2; 3; 4] = Ok (tt, v', [ts]) ∧
    compute Z.succ 2 [1; 2; 3; 4] (Z.of_nat 1) = Ok v' ∧ slept ts = 750000 * 1000.
Proof.
  destruct (compute_with_throttle_spec Z.succ 2 2 half (Timeval 10 900000) (Timeval 12 400000)
              1 [1; 2; 3; 4]) as (v' & ts & H1 & H2 & H3 & _).
  - reflexivity.
  - apply Nat.ltb_lt. reflexivity.
  - exists v', ts. split; [exact H1|]. split; [exact H2|]. rewrite H3. reflexivity.
Defined.
