(* ===== verification/JobsSystem.v ===== *)
(** * MP4: no job is lost, none is computed twice

    The client, the server and the two channels as a transition system.  Every
    thread action is reduced to its effect on the places a job can be in; the
    invariant follows from the effects. *)
From stdpp Require Import prelude list_tactics.
From S2P Require Import Prelude CInt Jobs JobsData.
Open Scope Z_scope.

Section system.
Context {D : Type} (add_const : D → D) (JOB_NUM JOB_SIZE : nat).
Context (Hnum : (0 < JOB_NUM)%nat) (Hsize : (0 < JOB_SIZE)%nat).

Abbreviation node := (@Jobs.node D).
Abbreviation message := (@Jobs.message D).
Abbreviation JN := (Z.of_nat JOB_NUM).
Abbreviation slice := (JobsData.slice JOB_SIZE).
Abbreviation splice := (JobsData.splice JOB_SIZE).
Abbreviation full := (JobsData.full JOB_NUM JOB_SIZE).
Implicit Types (n : node) (ms : list message).

(** ** The transition system *)

Record sys : Type := Sys {
  client : node; server : node;
  c2s : list message; s2c : list message }.

Definition client_threads : list (@action D) :=
  [state_manager; send_state; adaptor; adaptor_loop JOB_NUM JOB_SIZE;
   client_worker add_const JOB_NUM JOB_SIZE; write_to_server JOB_NUM JOB_SIZE;
   client_reader_check JOB_NUM].
Definition server_threads : list (@action D) :=
  [state_manager; send_state; adaptor; adaptor_loop JOB_NUM JOB_SIZE;
   compute_worker add_const JOB_NUM JOB_SIZE; write_to_clients JOB_NUM JOB_SIZE].

(** A message is on its way once its [write] has returned; a thread that waits
    in [write] for room in the socket has not taken its step.  So these runs,
    over channels without a bound, contain those over sockets of any size;
    JobsSockets.v says which steps a socket lets through. *)
Inductive step : sys → sys → Prop :=
  | step_client h c s up down c' ms :
      h ∈ client_threads → h c = Ok (Some (c', ms)) →
      step (Sys c s up down) (Sys c' s (up ++ ms) down)
  | step_client_receive c s up m down c' ms :
      client_receive JOB_NUM JOB_SIZE m c = Ok (Some (c', ms)) →
      step (Sys c s up (m :: down)) (Sys c' s (up ++ ms) down)
  | step_server h c s up down s' ms :
      h ∈ server_threads → h s = Ok (Some (s', ms)) →
      step (Sys c s up down) (Sys c s' up (down ++ ms))
  | step_server_receive c s m up down s' ms :
      server_receive JOB_NUM JOB_SIZE m s = Ok (Some (s', ms)) →
      step (Sys c s (m :: up) down) (Sys c s' up (down ++ ms)).

(** [bootstrap] and the initial globals. *)
Definition bootstrap (v : list D) : node :=
  Node v (Z.of_nat <$> seq 0 (JOB_NUM / 2))
    (Z.of_nat <$> seq (JOB_NUM / 2) (JOB_NUM / 2)) 0 (-1) false Check Check Check None.
Definition start (v w : list D) : sys :=
  Sys (bootstrap v) (Node w [] [] 0 (-1) false Check Check Check None) [] [].

(** ** Where a job can be *)

(** The jobs of a queue: the end mark is none. *)
Definition jobs (q : list Z) : list Z := filter (.≠ -1) q.

(** The job a thread has pulled and is computing, or is about to move. *)
Definition hand (p : pc) : list Z :=
  match p with Working j | Moving _ j => [j] | _ => [] end.
(** The jobs of a process that are not computed yet, in its queue or in hand. *)
Definition own n : list Z := hand (worker n) ++ hand (reader n) ++ jobs (job_todo n).

(** The job a message carries. *)
Definition msg_job (m : message) : option Z :=
  match m with
  | Data id (Some _) => Some (if decide (JN ≤ id) then id - JN else id)
  | _ => None
  end.
Definition msg_jobs (ms : list message) : list Z := omap msg_job ms.

Definition outstanding (y : sys) : list Z :=
  own (client y) ++ jobs (job_tosend (client y)) ++ msg_jobs (c2s y) ++
  own (server y) ++ jobs (job_tosend (server y)) ++ msg_jobs (s2c y).

Definition all_jobs : list Z := Z.of_nat <$> seq 0 JOB_NUM.

Definition valid (q : list Z) : Prop := Forall (λ z, z ≠ -1 → ∃ j, z = Z.of_nat j ∧ (j < JOB_NUM)%nat) q.

Lemma jobs_app q r : jobs (q ++ r) = jobs q ++ jobs r.
Proof. apply filter_app. Qed.

Lemma jobs_job q (j : nat) : jobs (Z.of_nat j :: q) = Z.of_nat j :: jobs q.
Proof. unfold jobs. rewrite filter_cons_True; [done|lia]. Qed.

Lemma jobs_mark q : jobs (-1 :: q) = jobs q.
Proof. unfold jobs. by rewrite filter_cons_False by (by intros []). Qed.

Lemma jobs_snoc q (j : nat) : jobs (q ++ [Z.of_nat j]) = jobs q ++ [Z.of_nat j].
Proof. rewrite jobs_app. unfold jobs at 2. rewrite filter_cons_True by lia. done. Qed.

Lemma jobs_snoc_mark q : jobs (q ++ [-1]) = jobs q.
Proof. rewrite jobs_app. unfold jobs at 2. rewrite filter_cons_False by (by intros []). apply app_nil_r. Qed.

Lemma queue_push_some q x r : queue_push JOB_NUM q x = Some r → r = q ++ [x].
Proof. unfold queue_push. case_decide; [done|]. by intros [= <-]. Qed.

(** At most one message per transfer. *)
Lemma transfer_messages id n ms :
  transfer JOB_NUM JOB_SIZE id n = Ok ms → ∃ p, ms = [Data id p] ∧ (p = None → id = -1).
Proof.
  unfold transfer. case_decide; [intros [= <-]; by exists None|].
  destruct (read_slice _ _ _); [|done]. cbn [mbind outcome_bind]. intros [= <-]. by eexists.
Qed.

(** ** The effect of one action *)

(** Nothing a job depends on changes. *)
Definition same_jobs n n' : Prop :=
  job_array n' = job_array n ∧ own n' ≡ₚ own n ∧
  jobs (job_tosend n') = jobs (job_tosend n) ∧ job_finished n' = job_finished n.

(** Messages without a job. *)
Definition no_job (m : message) : Prop :=
  match m with Data id None => id = -1 | Data _ (Some _) => False | _ => True end.

Inductive effect n n' : list message → Prop :=
  | eff_quiet ms : same_jobs n n' → Forall no_job ms → effect n n' ms
  | eff_balance j :
      (0 < j < JOB_NUM)%nat → job_array n' = job_array n →
      own n ≡ₚ Z.of_nat j :: own n' →
      jobs (job_tosend n') = jobs (job_tosend n) → job_finished n' = job_finished n →
      effect n n' [Data (JN + Z.of_nat j) (Some (slice (job_array n) j))]
  | eff_send j :
      (j < JOB_NUM)%nat → job_array n' = job_array n →
      own n' ≡ₚ own n →
      jobs (job_tosend n) = Z.of_nat j :: jobs (job_tosend n') →
      job_finished n' = job_finished n →
      effect n n' [Data (Z.of_nat j) (Some (slice (job_array n) j))].

(** A job computed. *)
Record computed n n' (j : nat) : Prop := {
  computed_job : (j < JOB_NUM)%nat;
  computed_todo : own n ≡ₚ Z.of_nat j :: own n';
  computed_array :
    job_array n' = splice (job_array n) j (work add_const <$> slice (job_array n) j);
}.

Lemma valid_head z q : valid (z :: q) → z ≠ -1 → ∃ j, z = Z.of_nat j ∧ (j < JOB_NUM)%nat.
Proof. intros [H _]%Forall_cons. exact H. Qed.

Lemma state_manager_effect n n' ms : state_manager n = Ok (Some (n', ms)) → effect n n' ms.
Proof. unfold state_manager. destruct (noted n); [done|]. intros [= <- <-]. by apply eff_quiet. Qed.

Lemma send_state_effect n n' ms : send_state n = Ok (Some (n', ms)) → effect n n' ms.
Proof.
  unfold send_state. destruct (noted n); [|done]. intros [= <- <-].
  apply eff_quiet; [done|]. by repeat constructor.
Qed.

Lemma adaptor_effect n n' ms : adaptor n = Ok (Some (n', ms)) → effect n n' ms.
Proof.
  unfold adaptor. destruct (reader n) eqn:Hr; try done. intros [= <- <-].
  apply eff_quiet; [|destruct (decide _); by repeat constructor].
  split_and!; try done. unfold own. cbn [set_reader worker reader job_todo].
  rewrite Hr. by destruct (decide _).
Qed.

Lemma transfer_balance n z ms :
  full (job_array n) → (∃ j, z = Z.of_nat j ∧ (j < JOB_NUM)%nat) →
  transfer JOB_NUM JOB_SIZE (JN + z) n = Ok ms →
  ∃ j, z = Z.of_nat j ∧ (0 < j < JOB_NUM)%nat ∧
    ms = [Data (JN + Z.of_nat j) (Some (slice (job_array n) j))].
Proof.
  intros Hf (j & -> & Hj). unfold transfer. rewrite decide_False by lia.
  destruct (decide (j = 0)%nat) as [->|Hne].
  - pose proof (create_message_zero JOB_NUM JOB_SIZE (job_array n) Hf Hsize) as Hz.
    change (Z.of_nat 0) with 0. by rewrite Hz.
  - rewrite create_message_balance by (done || lia). cbn [mbind outcome_bind].
    intros [= <-]. exists j. split; [done|]. split; [lia|done].
Qed.

Lemma transfer_send n j :
  full (job_array n) → (j < JOB_NUM)%nat →
  transfer JOB_NUM JOB_SIZE (Z.of_nat j) n =
  Ok [Data (Z.of_nat j) (Some (slice (job_array n) j))].
Proof.
  intros Hf Hj. unfold transfer. rewrite decide_False by lia. by rewrite create_message_job.
Qed.

(** The jobs in hand and in the queue are jobs. *)
Definition jobs_ok n : Prop :=
  valid (job_todo n) ∧ valid (job_tosend n) ∧
  Forall (λ z, ∃ j, z = Z.of_nat j ∧ (j < JOB_NUM)%nat) (hand (worker n) ++ hand (reader n)).

Lemma adaptor_loop_effect n n' ms :
  full (job_array n) → jobs_ok n →
  adaptor_loop JOB_NUM JOB_SIZE n = Ok (Some (n', ms)) → effect n n' ms.
Proof.
  intros Hf (Hv & _ & Hh). unfold adaptor_loop, own. destruct (reader n) as [| | | |k|k z|] eqn:Hr; try done.
  - destruct (decide (0 < k)); [|intros [= <- <-]; apply eff_quiet; [|done]].
    + destruct (job_todo n) as [|z q] eqn:Hq; [done|]. pose proof (valid_head z q Hv) as Hz.
      intros [= <- <-]. apply eff_quiet; [|done]. split_and!; try done. unfold own.
      cbn [set_reader set_todo worker reader job_todo]. rewrite Hr, Hq.
      destruct (decide (-1 < z)).
      * destruct Hz as (j & -> & _); [lia|]. by rewrite jobs_job.
      * destruct (decide (z = -1)) as [->|]; [by rewrite jobs_mark|].
        destruct Hz as (j & -> & _); [done|lia].
    + split_and!; try done. unfold own. cbn [set_reader worker reader job_todo]. by rewrite Hr.
  - apply Forall_app in Hh as [_ Hh]. cbn [hand] in Hh. apply Forall_cons in Hh as [Hz _].
    destruct (transfer JOB_NUM JOB_SIZE (JN + z) n) as [ms'|] eqn:Ht; [|done].
    cbn [mbind outcome_bind]. intros [= <- <-].
    destruct (transfer_balance n z ms' Hf Hz Ht) as (j & -> & Hj & ->).
    apply eff_balance; try done. unfold own. cbn [set_reader worker reader job_todo].
    rewrite Hr. cbn [hand app]. solve_Permutation.
Qed.

(** The two writers. *)
Lemma pop_tosend_effect n n' z q ms :
  full (job_array n) → valid (job_tosend n) → job_tosend n = z :: q →
  transfer JOB_NUM JOB_SIZE z n = Ok ms →
  job_array n' = job_array n → own n' = own n → job_tosend n' = q →
  job_finished n' = job_finished n → effect n n' ms.
Proof.
  intros Hf Hv Hq Ht Ha Htd Hts Hfin. rewrite Hq in Hv. pose proof (valid_head z q Hv) as Hz.
  destruct (decide (z = -1)) as [->|Hne].
  - unfold transfer in Ht. rewrite decide_True in Ht by done. injection Ht as <-.
    apply eff_quiet; [|by repeat constructor]. split_and!; try done; [by rewrite Htd|].
    by rewrite Hq, Hts, jobs_mark.
  - destruct (Hz Hne) as (j & -> & Hj). rewrite transfer_send in Ht by done. injection Ht as <-.
    apply eff_send; try done; [by rewrite Htd|]. by rewrite Hq, Hts, jobs_job.
Qed.

Lemma write_to_server_effect n n' ms :
  full (job_array n) → valid (job_tosend n) →
  write_to_server JOB_NUM JOB_SIZE n = Ok (Some (n', ms)) → effect n n' ms.
Proof.
  intros Hf Hv. unfold write_to_server. destruct (writer n); try done.
  - intros [= <- <-]. by apply eff_quiet.
  - destruct (job_tosend n) as [|z q] eqn:Hq; [done|].
    destruct (transfer JOB_NUM JOB_SIZE z n) as [ms'|] eqn:Ht; [|done].
    cbn [mbind outcome_bind]. intros [= <- <-].
    eapply pop_tosend_effect; [done|by rewrite Hq|done|done|done..].
Qed.

Lemma write_to_clients_effect n n' ms :
  full (job_array n) → valid (job_tosend n) →
  write_to_clients JOB_NUM JOB_SIZE n = Ok (Some (n', ms)) → effect n n' ms.
Proof.
  intros Hf Hv. unfold write_to_clients. intros Heq.
  assert (Heq' : match job_tosend n with
                 | [] => Ok None
                 | jobID :: q =>
                     ms ← transfer JOB_NUM JOB_SIZE jobID n;
                     Ok (Some ((if decide (jobID = -1) then set_writer Exit else id)
                                 (set_tosend q n), ms))
                 end = Ok (Some (n', ms))) by (by destruct (writer n)).
  clear Heq. destruct (job_tosend n) as [|z q] eqn:Hq; [done|].
  destruct (transfer JOB_NUM JOB_SIZE z n) as [ms'|] eqn:Ht; [|done].
  cbn [mbind outcome_bind] in Heq'. injection Heq' as <- <-.
  eapply pop_tosend_effect; [done|by rewrite Hq|done|done|..]; by case_decide.
Qed.

(** A worker pulls a job, or the end mark. *)
Lemma pull_effect n n' z q p :
  valid (job_todo n) → job_todo n = z :: q → hand (worker n) = [] →
  hand p = (if decide (z = -1) then [] else [z]) → n' = set_worker p (set_todo q n) →
  effect n n' [].
Proof.
  intros Hv Hq Hw Hp ->. apply eff_quiet; [|done]. split_and!; try done. unfold own.
  cbn [set_worker set_todo worker reader job_todo]. rewrite Hp, Hw, Hq. rewrite Hq in Hv.
  destruct (decide (z = -1)) as [->|Hne]; [by rewrite jobs_mark|].
  destruct (valid_head z q Hv Hne) as (j & -> & _). rewrite jobs_job. solve_Permutation.
Qed.

Lemma client_worker_effect n n' ms :
  full (job_array n) → jobs_ok n →
  client_worker add_const JOB_NUM JOB_SIZE n = Ok (Some (n', ms)) →
  effect n n' ms ∨
  (∃ j, computed n n' j ∧ ms = [] ∧ jobs (job_tosend n') = jobs (job_tosend n) ∧
        job_finished n' = job_finished n + 1).
Proof.
  intros Hf (Hv & _ & Hh). unfold client_worker. destruct (worker n) as [| |z| | | |] eqn:Hw; try done.
  - destruct (decide _).
    { intros [= <- <-]. left. apply eff_quiet; [|done]. split_and!; try done. unfold own. by rewrite Hw. }
    destruct (queue_push JOB_NUM (job_tosend n) (-1)) as [q|] eqn:Hp; [|done].
    apply queue_push_some in Hp as ->. intros [= <- <-]. left. apply eff_quiet; [|done].
    split_and!; try done; [unfold own; by rewrite Hw|]. apply jobs_snoc_mark.
  - destruct (job_todo n) as [|z q] eqn:Hq; [done|]. intros [= <- <-]. left.
    eapply pull_effect; [by rewrite Hq|exact Hq|by rewrite Hw| |done]. by destruct (decide _).
  - apply Forall_cons in Hh as [(j & -> & Hj) _]. rewrite (compute_ok _ JOB_NUM) by done.
    cbn [mbind outcome_bind]. intros [= <- <-]. right. exists j.
    split; [|done]. split; [done| |done]. unfold own. by rewrite Hw.
Qed.

Lemma client_reader_check_effect n n' ms :
  client_reader_check JOB_NUM n = Ok (Some (n', ms)) → effect n n' ms.
Proof.
  unfold client_reader_check. destruct (reader n) eqn:Hr; try done. destruct (decide _).
  - destruct (queue_push JOB_NUM (job_todo n) (-1)) as [q|] eqn:Hp; [|done].
    apply queue_push_some in Hp as ->. intros [= <- <-]. apply eff_quiet; [|done].
    split_and!; try done. unfold own. cbn [set_reader set_todo worker reader job_todo].
    by rewrite Hr, jobs_snoc_mark.
  - intros [= <- <-]. apply eff_quiet; [|done]. split_and!; try done. unfold own. by rewrite Hr.
Qed.

Lemma compute_worker_effect n n' ms :
  full (job_array n) → jobs_ok n →
  compute_worker add_const JOB_NUM JOB_SIZE n = Ok (Some (n', ms)) →
  effect n n' ms ∨
  (∃ j, computed n n' j ∧ ms = [] ∧
        jobs (job_tosend n') = jobs (job_tosend n) ++ [Z.of_nat j] ∧
        job_finished n' = job_finished n).
Proof.
  intros Hf (Hv & _ & Hh). unfold compute_worker.
  destruct (worker n) as [| |z| | | |] eqn:Hw; try done.
  - destruct (job_todo n) as [|z q] eqn:Hq; [done|]. intros [= <- <-]. left.
    pose proof (valid_head z q Hv) as Hz.
    eapply pull_effect; [by rewrite Hq|exact Hq|by rewrite Hw| |done]. destruct (decide (-1 < z)).
    + by rewrite decide_False by lia.
    + destruct (decide (z = -1)); [done|]. destruct Hz as (j & -> & _); [done|lia].
  - apply Forall_cons in Hh as [(j & -> & Hj) _]. rewrite (compute_ok _ JOB_NUM) by done.
    cbn [mbind outcome_bind].
    destruct (queue_push JOB_NUM (job_tosend n) (Z.of_nat j)) as [r|] eqn:Hp; [|done].
    apply queue_push_some in Hp as ->. intros [= <- <-]. right. exists j.
    split; [split; [done| |done]|split; [done|split; [apply jobs_snoc|done]]].
    unfold own. by rewrite Hw.
Qed.

(** Every thread of the client has one of the effects, or computes a job. *)
Lemma client_thread_effect h n n' ms :
  full (job_array n) → jobs_ok n → h ∈ client_threads → h n = Ok (Some (n', ms)) →
  effect n n' ms ∨
  (∃ j, computed n n' j ∧ ms = [] ∧ jobs (job_tosend n') = jobs (job_tosend n) ∧
        job_finished n' = job_finished n + 1).
Proof.
  intros Hf Hok Hh He. unfold client_threads in Hh. rewrite !elem_of_cons, elem_of_nil in Hh.
  destruct Hh as [->|[->|[->|[->|[->|[->|[->|[]]]]]]]].
  - left. by apply state_manager_effect.
  - left. by apply send_state_effect.
  - left. by apply adaptor_effect.
  - left. by apply adaptor_loop_effect.
  - by apply client_worker_effect.
  - left. apply write_to_server_effect; [done|apply Hok|done].
  - left. by apply client_reader_check_effect.
Qed.

(** ** The effect of a message *)

Lemma state_handle_effect k n : hand (reader n) = [] → effect n (state_handle k n) [].
Proof.
  intros Hr. apply eff_quiet; [|done]. unfold state_handle.
  case_decide; (split_and!; try done); unfold own; by rewrite Hr.
Qed.

(** A message that asks for job [j], or brings its numbers [p]. *)
Lemma client_receive_quiet m n n' ms :
  no_job m → client_receive JOB_NUM JOB_SIZE m n = Ok (Some (n', ms)) → effect n n' ms.
Proof.
  intros Hm. unfold client_receive. destruct (reader n) eqn:Hr; try done.
  destruct m as [id [p|]|k|]; try done.
  - intros [= <- <-]. apply state_handle_effect. by rewrite Hr.
  - intros [= <- <-]. apply eff_quiet; [|done]. split_and!; try done. unfold own. by rewrite Hr.
Qed.

Lemma client_receive_result j p n n' ms :
  full (job_array n) → (j < JOB_NUM)%nat → length p = JOB_SIZE →
  client_receive JOB_NUM JOB_SIZE (Data (Z.of_nat j) (Some p)) n = Ok (Some (n', ms)) →
  job_array n' = splice (job_array n) j p ∧ own n' = own n ∧
  job_tosend n' = job_tosend n ∧ job_finished n' = job_finished n + 1 ∧ ms = [].
Proof.
  intros Hf Hj Hp. unfold client_receive. destruct (reader n) eqn:Hr; try done.
  rewrite decide_True by lia. rewrite (storeLocal_ok JOB_NUM) by done.
  cbn [mbind outcome_bind]. intros [= <- <-]. unfold own. by rewrite Hr.
Qed.

Lemma client_receive_back j p n n' ms :
  client_receive JOB_NUM JOB_SIZE (Data (JN + Z.of_nat j) (Some p)) n = Ok (Some (n', ms)) →
  job_array n' = job_array n ∧ own n' = own n ++ [Z.of_nat j] ∧
  job_tosend n' = job_tosend n ∧ job_finished n' = job_finished n ∧ ms = [].
Proof.
  unfold client_receive. destruct (reader n) eqn:Hr; try done.
  rewrite decide_False by lia. rewrite decide_True by lia.
  replace (JN + Z.of_nat j - JN) with (Z.of_nat j) by lia.
  destruct (queue_push JOB_NUM (job_todo n) (Z.of_nat j)) as [q|] eqn:Hq; [|done].
  apply queue_push_some in Hq as ->. intros [= <- <-]. unfold own.
  cbn [set_reader set_todo worker reader job_todo]. by rewrite Hr, jobs_snoc, <-app_assoc.
Qed.

Lemma server_receive_quiet m n n' ms :
  no_job m → server_receive JOB_NUM JOB_SIZE m n = Ok (Some (n', ms)) → effect n n' ms.
Proof.
  intros Hm. unfold server_receive. destruct (reader n) eqn:Hr; try done.
  destruct m as [id [p|]|k|]; try done.
  - cbn in Hm. subst id. unfold transfer_handler. rewrite decide_True by done.
    destruct (queue_push JOB_NUM (job_tosend n) (-1)) as [q|] eqn:Hq; [|done].
    apply queue_push_some in Hq as ->. intros [= <- <-]. apply eff_quiet; [|done].
    split_and!; try done. apply jobs_snoc_mark.
  - intros [= <- <-]. apply state_handle_effect. by rewrite Hr.
  - intros [= <- <-]. by apply eff_quiet.
Qed.

(** The id of a message for job [j] from the client: of its initial half, or
    one moved by the load balancing. *)
Definition request_id (id : Z) (j : nat) : Prop :=
  (j < JOB_NUM)%nat ∧ (id = Z.of_nat j ∨ (0 < j)%nat ∧ id = JN + Z.of_nat j).

Lemma request_job id j (p : list D) : request_id id j → msg_job (Data id (Some p)) = Some (Z.of_nat j).
Proof.
  intros [Hj [-> | [H0 ->]]]; cbn [msg_job].
  - by rewrite decide_False by lia.
  - rewrite decide_True by lia. f_equal. lia.
Qed.

Lemma server_receive_job id j p n n' ms :
  full (job_array n) → request_id id j → length p = JOB_SIZE →
  server_receive JOB_NUM JOB_SIZE (Data id (Some p)) n = Ok (Some (n', ms)) →
  job_array n' = splice (job_array n) j p ∧ own n' = own n ++ [Z.of_nat j] ∧
  job_tosend n' = job_tosend n ∧ job_finished n' = job_finished n ∧ ms = [].
Proof.
  intros Hf [Hj Hid] Hp. unfold server_receive. destruct (reader n); try done.
  unfold transfer_handler. rewrite decide_False by lia. rewrite decide_True by lia.
  assert (Hd : (if decide (JN < id) then id - JN else id) = Z.of_nat j).
  { destruct Hid as [-> | [H0 ->]]; case_decide; lia. }
  rewrite Hd, (storeLocal_ok JOB_NUM) by done. cbn [mbind outcome_bind].
  destruct (queue_push JOB_NUM (job_todo n) (Z.of_nat j)) as [q|] eqn:Hq; [|done].
  apply queue_push_some in Hq as ->. intros [= <- <-]. unfold own.
  cbn [set_todo set_array worker reader job_todo]. by rewrite jobs_snoc, !app_assoc.
Qed.

(** ** The invariant *)

Section invariant.
Context (v0 : list D) (Hv0 : full v0).

(** The numbers of job [j] before and after its computation. *)
Definition before (j : nat) : list D := slice v0 j.
Definition finished (j : nat) : list D := work add_const <$> slice v0 j.

Definition up_ok (m : message) : Prop :=
  no_job m ∨ ∃ id j, m = Data id (Some (before j)) ∧ request_id id j.
Definition down_ok (m : message) : Prop :=
  no_job m ∨
  (∃ j, (j < JOB_NUM)%nat ∧ m = Data (Z.of_nat j) (Some (finished j))) ∨
  (∃ j, (0 < j < JOB_NUM)%nat ∧ m = Data (JN + Z.of_nat j) (Some (before j))).

Record inv (done : list Z) (y : sys) : Prop := {
  inv_perm : outstanding y ++ done ≡ₚ all_jobs;
  inv_finished : job_finished (client y) = Z.of_nat (length done);
  inv_cfull : full (job_array (client y));
  inv_sfull : full (job_array (server y));
  inv_client j : (j < JOB_NUM)%nat →
    slice (job_array (client y)) j = if decide (Z.of_nat j ∈ done) then finished j else before j;
  inv_todo j : (j < JOB_NUM)%nat → Z.of_nat j ∈ own (server y) →
    slice (job_array (server y)) j = before j;
  inv_tosend j : (j < JOB_NUM)%nat → Z.of_nat j ∈ jobs (job_tosend (server y)) →
    slice (job_array (server y)) j = finished j;
  inv_up : Forall up_ok (c2s y);
  inv_down : Forall down_ok (s2c y);
}.

Lemma all_jobs_NoDup : NoDup all_jobs.
Proof. apply NoDup_fmap_2; [apply _|apply NoDup_seq]. Qed.

Lemma elem_of_all z : z ∈ all_jobs → ∃ j, z = Z.of_nat j ∧ (j < JOB_NUM)%nat.
Proof. intros (j & -> & Hj)%list_elem_of_fmap. exists j. apply elem_of_seq in Hj. split; [done|lia]. Qed.

(** A job that is somewhere is nowhere else. *)
Lemma unique_place (l : list Z) z rest : l ≡ₚ all_jobs → l ≡ₚ z :: rest → z ∉ rest.
Proof.
  intros Hl Hz. assert (Hnd : NoDup (z :: rest)) by (rewrite <-Hz, Hl; apply all_jobs_NoDup).
  by apply NoDup_cons in Hnd as [??].
Qed.

Lemma jobs_valid (l : list Z) q :
  l ≡ₚ all_jobs → (∀ z, z ∈ jobs q → z ∈ l) → valid q.
Proof.
  intros Hl Hq. apply Forall_forall. intros z Hz Hne. apply elem_of_all. rewrite <-Hl.
  apply Hq. unfold jobs. by apply list_elem_of_filter.
Qed.

Lemma msg_jobs_app ms1 ms2 : msg_jobs (ms1 ++ ms2) = msg_jobs ms1 ++ msg_jobs ms2.
Proof. apply omap_app. Qed.

Lemma msg_jobs_none ms : Forall no_job ms → msg_jobs ms = [].
Proof.
  induction 1 as [|m ms Hm _ IH]; [done|]. unfold msg_jobs in *.
  destruct m as [id [p|]|k|]; [done|..]; cbn; exact IH.
Qed.

Lemma msg_jobs_balance j (p : list D) :
  msg_jobs [Data (JN + Z.of_nat j) (Some p)] = [Z.of_nat j].
Proof. cbn. rewrite decide_True by lia. f_equal. lia. Qed.

Lemma msg_jobs_send j (p : list D) :
  (j < JOB_NUM)%nat → msg_jobs [Data (Z.of_nat j) (Some p)] = [Z.of_nat j].
Proof. intros Hj. cbn. by rewrite decide_False by lia. Qed.

Lemma msg_jobs_cons m ms :
  msg_jobs (m :: ms) = match msg_job m with Some j => j :: msg_jobs ms | None => msg_jobs ms end.
Proof. unfold msg_jobs. cbn. by destruct (msg_job m). Qed.

Lemma own_valid l n :
  l ≡ₚ all_jobs → (∀ z, z ∈ own n ∨ z ∈ jobs (job_tosend n) → z ∈ l) → jobs_ok n.
Proof.
  intros Hl Hn. unfold own in Hn. split_and!.
  - apply (jobs_valid l); [done|]. intros z Hz. apply Hn. rewrite !elem_of_app. auto.
  - apply (jobs_valid l); [done|]. intros z Hz. apply Hn. auto.
  - apply Forall_forall. intros z Hz%elem_of_app. apply elem_of_all. rewrite <-Hl.
    apply Hn. rewrite !elem_of_app. tauto.
Qed.

Lemma inv_valid done y : inv done y → jobs_ok (client y) ∧ jobs_ok (server y).
Proof.
  intros Hi. pose proof (inv_perm _ _ Hi) as Hp. unfold outstanding in Hp.
  split; (eapply own_valid; [exact Hp|]); intros z Hz; rewrite !elem_of_app; tauto.
Qed.

(** A job outside [done] has its initial numbers on the client. *)
Lemma client_before done y j rest :
  inv done y → (j < JOB_NUM)%nat → outstanding y ++ done ≡ₚ Z.of_nat j :: rest ++ done →
  slice (job_array (client y)) j = before j ∧ Z.of_nat j ∉ done.
Proof.
  intros Hi Hj Hp. pose proof (unique_place _ _ _ (inv_perm _ _ Hi) Hp) as Hn.
  rewrite not_elem_of_app in Hn. destruct Hn as [_ Hn].
  rewrite (inv_client _ _ Hi) by done. by rewrite decide_False.
Qed.

Ltac open_outstanding :=
  unfold outstanding in *; cbn [client server c2s s2c] in *.

Lemma inv_client_effect done c s up down c' ms :
  inv done (Sys c s up down) → effect c c' ms → inv done (Sys c' s (up ++ ms) down).
Proof.
  intros Hi He. pose proof Hi as [Hp Hfin Hcf Hsf Hc Htd Hts Hup Hdn].
  cbn [client server c2s s2c] in *.
  destruct He as [ms (Ha & Ht & Hs & Hf) Hq|j Hj Ha Ht Hs Hf|j Hj Ha Ht Hs Hf].
  - split; cbn [client server c2s s2c]; rewrite ?Ha, ?Hf; try done.
    + open_outstanding. by rewrite Ht, Hs, msg_jobs_app, (msg_jobs_none ms), app_nil_r.
    + apply Forall_app. split; [done|]. eapply Forall_impl; [exact Hq|]. by left.
  - destruct (client_before done (Sys c s up down) j
      (own c' ++ jobs (job_tosend c) ++ msg_jobs up ++ own s ++
       jobs (job_tosend s) ++ msg_jobs down) Hi) as [Hb _]; [lia| |].
    { open_outstanding. rewrite Ht. solve_Permutation. }
    split; cbn [client server c2s s2c]; rewrite ?Ha, ?Hf; try done.
    + rewrite <-Hp. open_outstanding. rewrite Hs, Ht, msg_jobs_app, msg_jobs_balance.
      solve_Permutation.
    + apply Forall_app. split; [done|]. apply Forall_singleton. right. cbn [client] in Hb.
      rewrite Hb. exists (JN + Z.of_nat j), j. split; [done|]. split; [lia|]. right. lia.
  - destruct (client_before done (Sys c s up down) j
      (own c ++ jobs (job_tosend c') ++ msg_jobs up ++ own s ++
       jobs (job_tosend s) ++ msg_jobs down) Hi) as [Hb _]; [done| |].
    { open_outstanding. rewrite Hs. solve_Permutation. }
    split; cbn [client server c2s s2c]; rewrite ?Ha, ?Hf; try done.
    + rewrite <-Hp. open_outstanding. rewrite Hs, Ht, msg_jobs_app, msg_jobs_send by done.
      solve_Permutation.
    + apply Forall_app. split; [done|]. apply Forall_singleton. right. cbn [client] in Hb.
      rewrite Hb. exists (Z.of_nat j), j. split; [done|]. split; [done|]. by left.
Qed.

(** The client array once job [j] is finished. *)
Lemma client_finishes done y j m :
  inv done y → (j < JOB_NUM)%nat → m = finished j →
  full (splice (job_array (client y)) j m) ∧
  ∀ k, (k < JOB_NUM)%nat → slice (splice (job_array (client y)) j m) k =
    if decide (Z.of_nat k ∈ Z.of_nat j :: done) then finished k else before k.
Proof.
  intros Hi Hj ->. pose proof (inv_cfull _ _ Hi) as Hf.
  assert (Hl : length (finished j) = JOB_SIZE).
  { unfold finished. rewrite length_fmap. by apply (slice_length JOB_NUM). }
  split; [by apply splice_full|]. intros k Hk. destruct (decide (j = k)) as [<-|Hne].
  - rewrite (slice_splice_eq JOB_NUM) by done. rewrite decide_True; [done|]. by left.
  - rewrite (slice_splice_ne JOB_NUM) by done. rewrite (inv_client _ _ Hi) by done.
    apply decide_ext. rewrite elem_of_cons. split; [auto|]. intros [H|H]; [lia|done].
Qed.

Lemma inv_client_computed done c s up down c' j :
  inv done (Sys c s up down) → computed c c' j →
  jobs (job_tosend c') = jobs (job_tosend c) → job_finished c' = job_finished c + 1 →
  inv (Z.of_nat j :: done) (Sys c' s up down).
Proof.
  intros Hi [Hj Ht Ha] Hs Hf. pose proof Hi as [Hp Hfin Hcf Hsf Hc Htd Hts Hup Hdn].
  cbn [client server c2s s2c] in *.
  destruct (client_before done (Sys c s up down) j
      (own c' ++ jobs (job_tosend c) ++ msg_jobs up ++ own s ++
       jobs (job_tosend s) ++ msg_jobs down) Hi) as [Hb _]; [done| |].
  { open_outstanding. rewrite Ht. solve_Permutation. }
  cbn [client] in Hb.
  destruct (client_finishes done (Sys c s up down) j (work add_const <$> slice (job_array c) j) Hi Hj)
    as [Hfull Hall]; [by rewrite Hb|]. cbn [client] in Hfull, Hall. rewrite <-Ha in Hfull, Hall.
  split; cbn [client server c2s s2c]; try done.
  - rewrite <-Hp. open_outstanding. rewrite Hs, Ht. solve_Permutation.
  - rewrite Hf, Hfin. cbn [length]. lia.
Qed.

Lemma inv_client_receive done c s up m down c' ms :
  inv done (Sys c s up (m :: down)) →
  client_receive JOB_NUM JOB_SIZE m c = Ok (Some (c', ms)) →
  ∃ done', inv done' (Sys c' s (up ++ ms) down).
Proof.
  intros Hi He. pose proof Hi as [Hp Hfin Hcf Hsf Hc Htd Hts Hup Hdn].
  cbn [client server c2s s2c] in *. apply Forall_cons in Hdn as [Hm Hdn].
  destruct Hm as [Hm|[(j & Hj & ->)|(j & Hj & ->)]].
  - exists done. apply client_receive_quiet in He; [|done].
    eapply inv_client_effect; [|exact He]. split; cbn [client server c2s s2c]; try done.
    rewrite <-Hp. open_outstanding. rewrite msg_jobs_cons. destruct m as [id [|]| |]; done.
  - destruct (client_receive_result j (finished j) c c' ms) as (Ha & Ht & Hs & Hf & ->); try done.
    { unfold finished. rewrite length_fmap. by apply (slice_length JOB_NUM). }
    exists (Z.of_nat j :: done). rewrite app_nil_r.
    destruct (client_finishes done _ j (finished j) Hi Hj eq_refl) as [Hfull Hall].
    cbn [client] in Hfull, Hall. rewrite <-Ha in Hfull, Hall.
    split; cbn [client server c2s s2c]; try done.
    + rewrite <-Hp. open_outstanding. rewrite Ht, Hs, (msg_jobs_cons (Data _ _)). cbn [msg_job].
      rewrite decide_False by lia. solve_Permutation.
    + rewrite Hf, Hfin. cbn [length]. lia.
  - apply client_receive_back in He as (Ha & Ht & Hs & Hf & ->).
    exists done. rewrite app_nil_r.
    split; cbn [client server c2s s2c]; rewrite ?Ha, ?Hf; try done.
    rewrite <-Hp. open_outstanding. rewrite Ht, Hs, (msg_jobs_cons (Data _ _)).
    cbn [msg_job]. rewrite decide_True by lia.
    replace (JN + Z.of_nat j - JN) with (Z.of_nat j) by lia. solve_Permutation.
Qed.

Lemma inv_server_effect done c s up down s' ms :
  inv done (Sys c s up down) → effect s s' ms → inv done (Sys c s' up (down ++ ms)).
Proof.
  intros Hi He. pose proof Hi as [Hp Hfin Hcf Hsf Hc Htd Hts Hup Hdn].
  cbn [client server c2s s2c] in *.
  destruct He as [ms (Ha & Ht & Hs & Hf) Hq|j Hj Ha Ht Hs Hf|j Hj Ha Ht Hs Hf].
  - split; cbn [client server c2s s2c]; rewrite ?Ha, ?Hs; try done.
    + open_outstanding. by rewrite Ht, Hs, msg_jobs_app, (msg_jobs_none ms), app_nil_r.
    + intros k Hk. rewrite Ht. by apply Htd.
    + apply Forall_app. split; [done|]. eapply Forall_impl; [exact Hq|]. by left.
  - split; cbn [client server c2s s2c]; rewrite ?Ha, ?Hs; try done.
    + rewrite <-Hp. open_outstanding. rewrite Hs, Ht, msg_jobs_app, msg_jobs_balance.
      solve_Permutation.
    + intros k Hk Hin. apply Htd; [done|]. rewrite Ht. by right.
    + apply Forall_app. split; [done|]. apply Forall_singleton. right. right.
      exists j. split; [done|]. rewrite Htd; [done|lia|]. rewrite Ht. by left.
  - split; cbn [client server c2s s2c]; rewrite ?Ha; try done.
    + rewrite <-Hp. open_outstanding. rewrite Hs, Ht, msg_jobs_app, msg_jobs_send by done.
      solve_Permutation.
    + intros k Hk. rewrite Ht. by apply Htd.
    + intros k Hk Hin. apply Hts; [done|]. rewrite Hs. by right.
    + apply Forall_app. split; [done|]. apply Forall_singleton. right. left.
      exists j. split; [done|]. rewrite Hts; [done|done|]. rewrite Hs. by left.
Qed.

Lemma inv_server_computed done c s up down s' j :
  inv done (Sys c s up down) → computed s s' j →
  jobs (job_tosend s') = jobs (job_tosend s) ++ [Z.of_nat j] →
  inv done (Sys c s' up down).
Proof.
  intros Hi [Hj Ht Ha] Hs. pose proof Hi as [Hp Hfin Hcf Hsf Hc Htd Hts Hup Hdn].
  cbn [client server c2s s2c] in *.
  assert (Hplace : Z.of_nat j ∉ own c ++ jobs (job_tosend c) ++ msg_jobs up ++
    own s' ++ jobs (job_tosend s) ++ msg_jobs down ++ done).
  { eapply unique_place; [exact Hp|]. open_outstanding. rewrite Ht. solve_Permutation. }
  rewrite !not_elem_of_app in Hplace. destruct Hplace as (_ & _ & _ & Hnt & Hns & _).
  assert (Hb : slice (job_array s) j = before j) by (apply Htd; [done|]; rewrite Ht; by left).
  assert (Hl : length (work add_const <$> slice (job_array s) j) = JOB_SIZE).
  { rewrite length_fmap. by apply (slice_length JOB_NUM). }
  split; cbn [client server c2s s2c]; try done.
  - rewrite <-Hp. open_outstanding. rewrite Hs, Ht. solve_Permutation.
  - rewrite Ha. by apply splice_full.
  - intros k Hk Hin. rewrite Ha, (slice_splice_ne JOB_NUM); try done.
    + apply Htd; [done|]. rewrite Ht. by right.
    + by intros ->.
  - intros k Hk Hin. rewrite Ha. rewrite Hs, elem_of_snoc in Hin.
    destruct (decide (j = k)) as [<-|Hne].
    + rewrite (slice_splice_eq JOB_NUM) by done. by rewrite Hb.
    + rewrite (slice_splice_ne JOB_NUM) by done. apply Hts; [done|].
      destruct Hin as [?|?]; [done|lia].
Qed.

Lemma inv_server_receive done c s m up down s' ms :
  inv done (Sys c s (m :: up) down) →
  server_receive JOB_NUM JOB_SIZE m s = Ok (Some (s', ms)) →
  inv done (Sys c s' up (down ++ ms)).
Proof.
  intros Hi He. pose proof Hi as [Hp Hfin Hcf Hsf Hc Htd Hts Hup Hdn].
  cbn [client server c2s s2c] in *. apply Forall_cons in Hup as [Hm Hup].
  destruct Hm as [Hm|(id & j & -> & Hid)].
  - apply server_receive_quiet in He; [|done].
    eapply inv_server_effect; [|exact He]. split; cbn [client server c2s s2c]; try done.
    rewrite <-Hp. open_outstanding. rewrite (msg_jobs_cons m). destruct m as [id [|]| |]; done.
  - pose proof Hid as [Hj _].
    assert (Hl : length (before j) = JOB_SIZE) by (by apply (slice_length JOB_NUM)).
    destruct (server_receive_job id j (before j) s s' ms) as (Ha & Ht & Hs & Hf & ->); try done.
    rewrite app_nil_r.
    assert (Hplace : Z.of_nat j ∉ own c ++ jobs (job_tosend c) ++ msg_jobs up ++
      own s ++ jobs (job_tosend s) ++ msg_jobs down ++ done).
    { eapply unique_place; [exact Hp|]. open_outstanding.
      rewrite (msg_jobs_cons (Data _ _)), (request_job id j) by done. solve_Permutation. }
    rewrite !not_elem_of_app in Hplace. destruct Hplace as (_ & _ & _ & Hnt & Hns & _).
    split; cbn [client server c2s s2c]; try done.
    + rewrite <-Hp. open_outstanding.
      rewrite Ht, Hs, (msg_jobs_cons (Data _ _)), (request_job id j) by done.
      solve_Permutation.
    + rewrite Ha. by apply splice_full.
    + intros k Hk Hin. rewrite Ha. rewrite Ht, elem_of_snoc in Hin.
      destruct (decide (j = k)) as [<-|Hne].
      * by rewrite (slice_splice_eq JOB_NUM).
      * rewrite (slice_splice_ne JOB_NUM) by done. apply Htd; [done|].
        destruct Hin as [?|?]; [done|lia].
    + intros k Hk Hin. rewrite Ha. rewrite Hs in Hin. rewrite (slice_splice_ne JOB_NUM); try done.
      * by apply Hts.
      * by intros ->.
Qed.

Lemma jobs_step_inv done x y : inv done x → step x y → ∃ done', inv done' y.
Proof.
  intros Hi Hs. destruct (inv_valid _ _ Hi) as [Hcv Hsv].
  pose proof (inv_cfull _ _ Hi) as Hcf. pose proof (inv_sfull _ _ Hi) as Hsf.
  destruct Hs as [h c s up down c' ms Hh He|c s up m down c' ms He|
                  h c s up down s' ms Hh He|c s m up down s' ms He];
    cbn [client server] in *.
  - apply client_thread_effect in He as [He|(j & Hj & -> & Hts & Hf)]; [| |done..].
    + exists done. by eapply inv_client_effect.
    + exists (Z.of_nat j :: done). rewrite app_nil_r. by eapply inv_client_computed.
  - by eapply inv_client_receive.
  - exists done. unfold server_threads in Hh. rewrite !elem_of_cons, elem_of_nil in Hh.
    destruct Hh as [->|[->|[->|[->|[->|[->|[]]]]]]].
    + eapply inv_server_effect; [done|]. by apply state_manager_effect.
    + eapply inv_server_effect; [done|]. by apply send_state_effect.
    + eapply inv_server_effect; [done|]. by apply adaptor_effect.
    + eapply inv_server_effect; [done|]. by apply adaptor_loop_effect.
    + apply compute_worker_effect in He as [He|(j & Hj & -> & Hts & Hf)]; [| |done|done].
      * by eapply inv_server_effect.
      * rewrite app_nil_r. by eapply inv_server_computed.
    + eapply inv_server_effect; [done|]. apply write_to_clients_effect; [done|apply Hsv|done].
  - exists done. by eapply inv_server_receive.
Qed.

Lemma jobs_seq i k : jobs (Z.of_nat <$> seq i k) = Z.of_nat <$> seq i k.
Proof.
  revert i. induction k as [|k IH]; intros i; [done|]. cbn [seq fmap list_fmap].
  rewrite jobs_job. f_equal. apply IH.
Qed.

Lemma jobs_start_inv w : Nat.Even JOB_NUM → full w → inv [] (start v0 w).
Proof.
  intros [h Hh] Hw. split; cbn [start bootstrap client server c2s s2c job_array job_todo job_tosend
    job_finished]; try done.
  - unfold outstanding, start, bootstrap.
    cbn [client server c2s s2c job_todo job_tosend]. unfold own.
    cbn [worker reader job_todo hand app]. rewrite !jobs_seq.
    assert (Hd : (JOB_NUM / 2 = h)%nat) by (rewrite Hh, Nat.mul_comm; by apply Nat.div_mul).
    rewrite Hd. change (msg_jobs []) with (@nil Z). change (jobs []) with (@nil Z).
    assert (Hs : seq 0 JOB_NUM = seq 0 h ++ seq h h).
    { replace JOB_NUM with (h + h)%nat by lia. apply (seq_app h h 0). }
    rewrite !app_nil_r, <-fmap_app. unfold all_jobs. by rewrite Hs.
  - intros j _ Hin. inversion Hin.
  - intros j _ Hin. inversion Hin.
Qed.

Lemma jobs_reachable_inv w y :
  Nat.Even JOB_NUM → full w → rtc step (start v0 w) y → ∃ done, inv done y.
Proof.
  intros He Hw. apply (rtc_ind_r (λ y, ∃ done, inv done y)).
  - exists []. by apply jobs_start_inv.
  - intros x z _ Hs (done & Hi). by eapply jobs_step_inv.
Qed.

(** No more jobs are finished than there are. *)
Lemma inv_le done y : inv done y → job_finished (client y) ≤ JN.
Proof.
  intros Hi. rewrite (inv_finished _ _ Hi). pose proof (inv_perm _ _ Hi) as Hp.
  apply Permutation_length in Hp. unfold all_jobs in Hp.
  rewrite length_app, length_fmap, length_seq in Hp. lia.
Qed.

(** When every job is finished the client has the whole result. *)
Lemma inv_result done y :
  inv done y → job_finished (client y) = JN → job_array (client y) = work add_const <$> v0.
Proof.
  intros Hi Hfin. rewrite (inv_finished _ _ Hi) in Hfin.
  pose proof (inv_perm _ _ Hi) as Hp.
  assert (Hout : outstanding y = []).
  { apply length_zero_iff_nil. apply Permutation_length in Hp.
    unfold all_jobs in Hp. rewrite length_app, length_fmap, length_seq in Hp. lia. }
  rewrite Hout in Hp. cbn [app] in Hp.
  apply (slices_eq JOB_NUM JOB_SIZE); [done|apply Hi|unfold full; by rewrite length_fmap|].
  intros j Hj. rewrite (inv_client _ _ Hi) by done. rewrite decide_True.
  - unfold finished. symmetry. apply slice_fmap.
  - rewrite Hp. unfold all_jobs. apply list_elem_of_fmap. exists j. split; [done|].
    apply elem_of_seq. lia.
Qed.
End invariant.

(** ** Properties *)

(** C2: In every state that the client, the server and the channels reach
    without a fault, under any interleaving of their threads: every job is in
    exactly one queue, in the hands of one thread, in one message or finished on
    the client, so none is lost or duplicated; the number of finished jobs is counted exactly; and as soon as
    the client counts all jobs its vector is the one a single process would
    have computed. *)
Theorem jobs_conserved v w y :
  Nat.Even JOB_NUM → full v → full w → rtc step (start v w) y →
  ∃ done, outstanding y ++ done ≡ₚ all_jobs ∧
    job_finished (client y) = Z.of_nat (length done) ∧
    (job_finished (client y) = JN → job_array (client y) = work add_const <$> v).
Proof.
  intros He Hv Hw Hr. destruct (jobs_reachable_inv v Hv w y He Hw Hr) as (done & Hi).
  exists done. split; [apply Hi|]. split; [apply Hi|]. by apply (inv_result v Hv done).
Qed.

(** Moving job 0 to the peer reads past the vector: its message id 1024 is
    not recognised as a moved job by [create_message], whose test is [>]; the
    server's handler has the same test and would store past its vector. *)
Theorem balance_job_zero n k q buffer :
  full (job_array n) → reader n = Sending k → 0 < k → job_todo n = 0 :: q → buffer ≠ [] →
  (∃ n', adaptor_loop JOB_NUM JOB_SIZE n = Ok (Some (n', [])) ∧ job_todo n' = q ∧
     adaptor_loop JOB_NUM JOB_SIZE n' = Fault OutOfBounds) ∧
  transfer_handler JOB_NUM JOB_SIZE (JN + 0) (Some buffer) n = Fault OutOfBounds.
Proof.
  intros Hf Hr Hk Hq Hb. split.
  - exists (set_reader (Moving k 0) (set_todo q n)). unfold adaptor_loop at 1.
    rewrite Hr, decide_True, Hq by done. split; [done|]. split; [done|].
    unfold adaptor_loop. cbn [set_reader reader]. unfold transfer. rewrite decide_False by lia.
    by rewrite create_message_zero.
  - unfold transfer_handler. rewrite Z.add_0_r. rewrite decide_False by lia.
    rewrite decide_True by lia. rewrite (decide_False (P := JN < JN)) by lia.
    by rewrite storeLocal_beyond.
Qed.

(** ** A deadlock of the load balancing *)

(** The client's reader is inside the loop of [adaptor] and the worker has
    computed all of [job_todo] in the meantime. *)
Definition drained (y : sys) : Prop :=
  (∃ k, reader (client y) = Sending k ∧ 0 < k) ∧ job_todo (client y) = [] ∧
  hand (worker (client y)) = [] ∧ job_finished (client y) < JN.

Lemma drained_same n n' :
  reader n' = reader n → job_todo n' = job_todo n → hand (worker n') = hand (worker n) →
  job_finished n' = job_finished n →
  ∀ s up up' down down', drained (Sys n s up down) →
  drained (Sys n' s up' down') ∧ job_finished n' = job_finished n.
Proof.
  unfold drained. cbn [client]. intros -> -> -> ->. done.
Qed.

Lemma drained_step x y :
  drained x → step x y → drained y ∧ job_finished (client y) = job_finished (client x).
Proof.
  intros Hd Hs. destruct Hs as [h c s up down c' ms Hin Heq|
    c s up m down c' ms Heq|h c s up down s' ms _ _|c s m up down s' ms _]; [| |done..].
  - pose proof Hd as ((k & Hk & Hpos) & Hq & Hw & Hf). cbn [client] in *.
    enough (reader c' = reader c ∧ job_todo c' = job_todo c ∧ hand (worker c') = hand (worker c) ∧
      job_finished c' = job_finished c) as (? & ? & ? & ?) by (by eapply drained_same).
    unfold client_threads in Hin. rewrite !elem_of_cons, elem_of_nil in Hin.
    destruct Hin as [->|[->|[->|[->|[->|[->|[->|[]]]]]]]].
    + unfold state_manager in Heq. by action_cases Heq.
    + unfold send_state in Heq. by action_cases Heq.
    + unfold adaptor in Heq. by rewrite Hk in Heq.
    + unfold adaptor_loop in Heq. by rewrite Hk, decide_True, Hq in Heq by done.
    + unfold client_worker in Heq. rewrite Hq in Heq. destruct (worker c); try done.
      rewrite decide_True in Heq by done. by injection Heq as <- <-.
    + unfold write_to_server in Heq. by action_cases Heq.
    + unfold client_reader_check in Heq. by rewrite Hk in Heq.
  - destruct Hd as ((k & Hk & _) & _). cbn [client] in *. unfold client_receive in Heq.
    by rewrite Hk in Heq.
Qed.

(** C40: The load balancing can deadlock: [adaptor] fixes the number of jobs to
    move before it pulls them from [job_todo], and the only thread that refills
    [job_todo] is the one that runs it.  Once the worker has computed the whole
    queue under the client's loop, no continuation of the run receives another
    result, and the job is never finished. *)
Theorem balance_deadlock x y :
  drained x → rtc step x y →
  drained y ∧ job_finished (client y) = job_finished (client x) ∧
  ∀ m, client_receive JOB_NUM JOB_SIZE m (client y) = Ok None.
Proof.
  intros Hx Hr. assert (Hy : drained y ∧ job_finished (client y) = job_finished (client x)).
  { induction Hr as [|x z y Hs _ IH]; [done|].
    destruct (drained_step x z Hx Hs) as [Hz Hf]. destruct (IH Hz) as [? ?]. split; [done|congruence]. }
  destruct Hy as [Hd Hf]. split; [done|]. split; [done|].
  destruct Hd as ((k & Hk & _) & _). intros m. unfold client_receive. by rewrite Hk.
Qed.

(** ** Schedules *)

(** Which thread of the client or of the server acts next, or which of them
    receives a message. *)
Inductive turn : Type := CThread (i : nat) | CReceive | SThread (i : nat) | SReceive.

Definition turn_step (x : sys) (u : turn) : option sys :=
  match u with
  | CThread i =>
      h ← client_threads !! i;
      match h (client x) with
      | Ok (Some (c', ms)) => Some (Sys c' (server x) (c2s x ++ ms) (s2c x))
      | _ => None
      end
  | CReceive =>
      match s2c x with
      | m :: down =>
          match client_receive JOB_NUM JOB_SIZE m (client x) with
          | Ok (Some (c', ms)) => Some (Sys c' (server x) (c2s x ++ ms) down)
          | _ => None
          end
      | [] => None
      end
  | SThread i =>
      h ← server_threads !! i;
      match h (server x) with
      | Ok (Some (s', ms)) => Some (Sys (client x) s' (c2s x) (s2c x ++ ms))
      | _ => None
      end
  | SReceive =>
      match c2s x with
      | m :: up =>
          match server_receive JOB_NUM JOB_SIZE m (server x) with
          | Ok (Some (s', ms)) => Some (Sys (client x) s' up (s2c x ++ ms))
          | _ => None
          end
      | [] => None
      end
  end.

Fixpoint schedule (us : list turn) (x : sys) : option sys :=
  match us with
  | [] => Some x
  | u :: us' => y ← turn_step x u; schedule us' y
  end.

Lemma turn_step_ok x u y : turn_step x u = Some y → step x y.
Proof.
  destruct x as [c s up down], u as [i| |i|]; unfold turn_step;
    cbn [client server c2s s2c].
  - destruct (client_threads !! i) as [h|] eqn:Hh; [|done]. cbn [mbind option_bind].
    destruct (h c) as [[[c' ms]|]|] eqn:He; try done. intros [= <-].
    eapply step_client; [|done]. by eapply list_elem_of_lookup_2.
  - destruct down as [|m down]; [done|].
    destruct (client_receive _ _ m c) as [[[c' ms]|]|] eqn:He; try done. intros [= <-].
    by apply step_client_receive.
  - destruct (server_threads !! i) as [h|] eqn:Hh; [|done]. cbn [mbind option_bind].
    destruct (h s) as [[[s' ms]|]|] eqn:He; try done. intros [= <-].
    eapply step_server; [|done]. by eapply list_elem_of_lookup_2.
  - destruct up as [|m up]; [done|].
    destruct (server_receive _ _ m s) as [[[s' ms]|]|] eqn:He; try done. intros [= <-].
    by apply step_server_receive.
Qed.

Lemma schedule_ok us x y : schedule us x = Some y → rtc step x y.
Proof.
  revert x. induction us as [|u us IH]; intros x; cbn [schedule].
  - intros [= <-]. apply rtc_refl.
  - destruct (turn_step x u) as [z|] eqn:Hz; [|done]. cbn [mbind option_bind]. intros Hy.
    eapply rtc_l; [by eapply turn_step_ok|]. by apply IH.
Qed.
End system.

(** ** Concrete instances *)

(** Two jobs of two numbers each: the client computes job 0, the server job 1. *)
Definition ex_turns : list turn :=
  [CThread 4; CThread 4; CThread 4; CThread 5; CThread 5; SReceive; SThread 4; SThread 4;
   SThread 5; CThread 6; CReceive].
Definition ex_start : sys := start 2 [1; 2; 3; 4] [0; 0; 0; 0].

Lemma ex_finishes :
  ∃ y, schedule Z.succ 2 2 ex_turns ex_start = Some y ∧ job_finished (client y) = 2 ∧
    job_array (client y) = [6001; 6002; 6003; 6004].
Proof. eexists. split; [vm_compute; reflexivity|]. split; reflexivity. Qed.

Definition ex_end : sys := default ex_start (schedule Z.succ 2 2 ex_turns ex_start).

Lemma jobs_conserved_witness :
  ∃ done, outstanding 2 ex_end ++ done ≡ₚ all_jobs 2 ∧
    job_finished (client ex_end) = Z.of_nat (length done) ∧
    (job_finished (client ex_end) = 2 → job_array (client ex_end) = work Z.succ <$> [1; 2; 3; 4]).
Proof.
  apply (jobs_conserved Z.succ 2 2) with (w := [0; 0; 0; 0]).
  - lia.
  - lia.
  - exists 1%nat. reflexivity.
  - reflexivity.
  - reflexivity.
  - apply schedule_ok with (us := ex_turns). vm_compute. reflexivity.
Defined.

(** Sixteen jobs: the server receives one job and reports its queue, the client
    is asked to rebalance before it has taken job 0. *)
Definition ex_balance : list turn :=
  [CThread 5; CThread 5; CThread 0; CThread 1; SReceive; SReceive; SThread 2; SThread 0; SThread 1;
   CThread 6; CReceive; CThread 6; CReceive; CThread 2].
Definition ex_vector : list Z := replicate 16 1.

Definition ex_move_zero : list turn := ex_balance ++ [CThread 3].

Lemma balance_job_zero_reached :
  ∃ y, rtc (step Z.succ 16 1) (start 16 ex_vector ex_vector) y ∧
    adaptor_loop 16 1 (client y) = Fault OutOfBounds.
Proof.
  destruct (schedule Z.succ 16 1 ex_move_zero (start 16 ex_vector ex_vector)) as [y|] eqn:Hs.
  - exists y. split; [by eapply schedule_ok|].
    assert (Hy : schedule Z.succ 16 1 ex_move_zero (start 16 ex_vector ex_vector) = Some y) by done.
    clear Hs. revert Hy. vm_compute. by intros [= <-].
  - exfalso. revert Hs. by vm_compute.
Qed.

Definition ex_zero : @node Z :=
  Node ex_vector [0; 1; 2; 3; 4; 5; 6; 7] [] 0 1 true Check Check (Sending 3) None.

Lemma balance_job_zero_witness :
  (∃ n', adaptor_loop 16 1 ex_zero = Ok (Some (n', [])) ∧ job_todo n' = [1; 2; 3; 4; 5; 6; 7] ∧
     adaptor_loop 16 1 n' = Fault OutOfBounds) ∧
  transfer_handler 16 1 (16 + 0) (Some [1]) ex_zero = Fault OutOfBounds.
Proof.
  apply (balance_job_zero 16 1 ltac:(lia) ltac:(lia) ex_zero 3 [1; 2; 3; 4; 5; 6; 7] [1]).
  - reflexivity.
  - reflexivity.
  - reflexivity.
  - reflexivity.
  - discriminate.
Defined.

(** The same run, except that the client has computed job 0 before, and
    computes the rest of its queue while it is inside the loop of [adaptor]. *)
Definition ex_drain : list turn :=
  replicate 3 (CThread 4) ++ ex_balance ++ replicate 21 (CThread 4).
Definition ex_drained : sys :=
  default ex_start (schedule Z.succ 16 1 ex_drain (start 16 ex_vector ex_vector)).

Lemma balance_deadlock_witness :
  rtc (step Z.succ 16 1) (start 16 ex_vector ex_vector) ex_drained ∧
  ∀ y, rtc (step Z.succ 16 1) ex_drained y →
    drained 16 y ∧ job_finished (client y) = 8 ∧
    ∀ m, client_receive 16 1 m (client y) = Ok None.
Proof.
  split.
  - apply schedule_ok with (us := ex_drain). vm_compute. reflexivity.
  - assert (Hd : drained 16 ex_drained).
    { split; [exists 3; split; vm_compute; reflexivity|]. split_and!; vm_compute; reflexivity. }
    assert (H8 : job_finished (client ex_drained) = 8) by (vm_compute; reflexivity).
    intros y Hy. rewrite <-H8. exact (balance_deadlock Z.succ 16 1 ex_drained y Hd Hy).
Defined.
