(* ===== verification/JobsTidy.v ===== *)
(** * MP4: the marks, the bounds and the counts of a run

    What every action of a thread keeps besides the jobs themselves
    (JobsSystem.v): the queue of jobs stays within its bound, a queue length
    that is sent is the length of the queue, the end mark only follows the end
    of the client's main thread, and that thread ends with the last job. *)
From stdpp Require Import prelude list_tactics.
From S2P Require Import Prelude CInt Jobs JobsData JobsSystem.
Open Scope Z_scope.

(** ** What every action keeps *)

Section actions.
Context {D : Type} (add_const : D → D) (JOB_NUM JOB_SIZE : nat).

Abbreviation node := (@Jobs.node D).
Abbreviation message := (@Jobs.message D).
Abbreviation sys := (@JobsSystem.sys D).
Abbreviation JN := (Z.of_nat JOB_NUM).
Implicit Types (n : node) (m : message) (ms : list message).

Definition mark : message := Data (-1) None.

(** A queue length that fits a queue. *)
Definition short m : Prop := match m with State k => 0 ≤ k ≤ JN | _ => True end.

(** The queue of jobs and its length that was noted stay bounded, and what is
    moved is no end mark. *)
Record bounded n : Prop := {
  bounded_todo : (length (job_todo n) ≤ JOB_NUM)%nat;
  bounded_noted : ∀ k, noted n = Some k → 0 ≤ k ≤ JN;
  bounded_moving : ∀ k z, reader n = Moving k z → 0 < k ∧ -1 < z;
}.

(** An action keeps the bounds and sends only such lengths, the end mark is
    passed on only where it came in ([P]), and the reader ends only if [Q]. *)
Record tame (P Q : Prop) n n' ms : Prop := {
  tame_bounded : bounded n';
  tame_short : Forall short ms;
  tame_tosend : -1 ∈ job_tosend n' → -1 ∈ job_tosend n ∨ P;
  tame_mark : mark ∈ ms → -1 ∈ job_tosend n ∨ P;
  tame_reader : reader n' = Exit → reader n = Exit ∨ Q;
}.

(** The client's count only grows, and its main thread ends with the last job. *)
Record counts n n' : Prop := {
  counts_finished : job_finished n ≤ job_finished n';
  counts_worker : worker n = Exit → worker n' = Exit;
  counts_end : worker n' = Exit → worker n = Exit ∨ JN ≤ job_finished n';
}.

Ltac setters :=
  cbn [set_array set_todo set_tosend set_finished set_peer set_rebalance set_worker set_writer
       set_reader set_noted job_todo job_tosend job_finished worker writer reader noted length id
       fst snd app short] in *.

(** One action of which all outcomes are known. *)
Ltac tame_cases n :=
  repeat match goal with
    | Hp : queue_push _ _ _ = Some _ |- _ =>
        unfold queue_push in Hp; case_decide; [discriminate Hp|injection Hp as <-]
    | Hp : Jobs.transfer _ _ _ _ = Ok _ |- _ => apply transfer_messages in Hp as (? & -> & ?)
    end;
  setters; repeat match goal with Hq : _ n = _ |- _ => rewrite Hq in * end;
  setters; repeat (case_decide; setters).
Ltac tame_field n :=
  setters; repeat match goal with Hq : _ n = _ |- _ => rewrite Hq end; unfold mark;
  rewrite ?length_app, ?elem_of_app, ?elem_of_cons, ?elem_of_nil, ?Forall_cons, ?Forall_nil;
  setters;
  first [assumption | lia | tauto | congruence | naive_solver lia].
Ltac tame_solve n :=
  try match goal with H : bounded n, Hk : noted n = Some ?k |- _ =>
    pose proof (bounded_noted n H k Hk) end;
  try match goal with H : bounded n, Hr : reader n = Moving ?k ?z |- _ =>
    pose proof (bounded_moving n H k z Hr) end;
  match goal with H : bounded n |- _ => destruct H end;
  tame_cases n; (split; [first [split; tame_field n | tame_field n]|tame_field n..]).

Lemma state_manager_spec n n' ms :
  state_manager n = Ok (Some (n', ms)) ↔
  noted n = None ∧ n' = set_noted (Some (Z.of_nat (length (job_todo n)))) n ∧ ms = [].
Proof. unfold state_manager. destruct (noted n); naive_solver. Qed.

Lemma client_tame h n n' ms :
  bounded n → h ∈ client_threads add_const JOB_NUM JOB_SIZE →
  h n = Ok (Some (n', ms)) → tame (worker n' = Exit) True n n' ms ∧ counts n n'.
Proof.
  intros Hn Hh He. unfold client_threads in Hh.
  rewrite !elem_of_cons, elem_of_nil in Hh. destruct Hh as [->|[->|[->|[->|[->|[->|[->|[]]]]]]]].
  - unfold state_manager in He. action_cases He; split; tame_solve n.
  - unfold send_state in He. action_cases He; split; tame_solve n.
  - unfold adaptor in He. action_cases He; split; tame_solve n.
  - unfold adaptor_loop in He. action_cases He; split; tame_solve n.
  - unfold client_worker in He. action_cases He; split; tame_solve n.
  - unfold write_to_server in He. action_cases He; split; tame_solve n.
  - unfold client_reader_check in He. action_cases He; split; tame_solve n.
Qed.

Lemma client_receive_tame m n n' ms :
  bounded n → client_receive JOB_NUM JOB_SIZE m n = Ok (Some (n', ms)) →
  tame False False n n' ms ∧ counts n n'.
Proof.
  intros Hn He. unfold client_receive in He. destruct (reader n) eqn:Hr; try done.
  destruct m as [id p|k|].
  - action_cases He; split; tame_solve n.
  - unfold state_handle in He. action_cases He; split; tame_solve n.
  - action_cases He; split; tame_solve n.
Qed.

Lemma server_tame h n n' ms :
  bounded n → h ∈ server_threads add_const JOB_NUM JOB_SIZE →
  h n = Ok (Some (n', ms)) → tame False False n n' ms.
Proof.
  intros Hn Hh He. unfold server_threads in Hh.
  rewrite !elem_of_cons, elem_of_nil in Hh. destruct Hh as [->|[->|[->|[->|[->|[->|[]]]]]]].
  - unfold state_manager in He. action_cases He; tame_solve n.
  - unfold send_state in He. action_cases He; tame_solve n.
  - unfold adaptor in He. action_cases He; tame_solve n.
  - unfold adaptor_loop in He. action_cases He; tame_solve n.
  - unfold compute_worker in He. action_cases He; tame_solve n.
  - unfold write_to_clients in He. action_cases He; tame_solve n.
Qed.

Lemma server_receive_tame m n n' ms :
  bounded n → no_job m ∨ (∃ id p, m = Data id (Some p) ∧ -1 < id) →
  server_receive JOB_NUM JOB_SIZE m n = Ok (Some (n', ms)) →
  tame (m = mark) False n n' ms.
Proof.
  intros Hn Hm He. unfold server_receive in He. destruct (reader n) eqn:Hr; try done.
  destruct m as [id p|k|].
  - assert (Hp : id = -1 → p = None) by (destruct p; naive_solver lia).
    unfold transfer_handler, mark in *. action_cases He; tame_solve n.
  - unfold state_handle in He. action_cases He; tame_solve n.
  - action_cases He; tame_solve n.
Qed.

(** ** What every reachable state of the message system satisfies *)

Record tidy (y : sys) : Prop := {
  tidy_client : bounded (client y);
  tidy_server : bounded (server y);
  tidy_up : Forall short (c2s y);
  tidy_down : Forall short (s2c y);
  tidy_end : worker (client y) = Exit → JN ≤ job_finished (client y);
  tidy_mark :
    -1 ∈ job_tosend (client y) ∨ mark ∈ c2s y ∨ -1 ∈ job_tosend (server y) ∨ mark ∈ s2c y →
    worker (client y) = Exit;
  tidy_reader : reader (server y) ≠ Exit;
}.

Lemma tidy_client_step P c s up down c' ms :
  tidy (Sys c s up down) → (P → worker c' = Exit) → tame P True c c' ms → counts c c' →
  tidy (Sys c' s (up ++ ms) down).
Proof.
  intros [Hc Hs Hu Hd He Hm Hr] HP [Ht Hsh Hts Hmk _] [Hf Hw Hen].
  cbn [client server c2s s2c] in *.
  split; cbn [client server c2s s2c]; try done.
  - by apply Forall_app.
  - intros [Hw'|]%Hen; [|done]. etrans; [by apply He|done].
  - rewrite elem_of_app. intros [[|]%Hts|[[|[|]%Hmk]|[|]]]; tauto.
Qed.

Lemma tidy_server_step P c s up down s' ms :
  tidy (Sys c s up down) → (P → worker c = Exit) → tame P False s s' ms →
  tidy (Sys c s' up (down ++ ms)).
Proof.
  intros [Hc Hs Hu Hd He Hm Hr] HP [Ht Hsh Hts Hmk Hrd]. cbn [client server c2s s2c] in *.
  split; cbn [client server c2s s2c]; try done.
  - by apply Forall_app.
  - rewrite elem_of_app. intros [|[|[[|]%Hts|[|[|]%Hmk]]]]; tauto.
  - intros [|[]]%Hrd. done.
Qed.

Lemma tame_weaken (P P' Q Q' : Prop) n n' ms :
  (P → P') → (Q → Q') → tame P Q n n' ms → tame P' Q' n n' ms.
Proof. intros HP HQ []. split; naive_solver. Qed.

Lemma tidy_down_tail c s up m down : tidy (Sys c s up (m :: down)) → tidy (Sys c s up down).
Proof.
  intros [Hc Hs Hu Hd He Hm Hr]. cbn [client server c2s s2c] in *. apply Forall_cons in Hd as [_ Hd].
  split; cbn [client server c2s s2c]; try done. rewrite elem_of_cons in Hm. tauto.
Qed.

Lemma tidy_up_tail c s m up down : tidy (Sys c s (m :: up) down) → tidy (Sys c s up down).
Proof.
  intros [Hc Hs Hu Hd He Hm Hr]. cbn [client server c2s s2c] in *. apply Forall_cons in Hu as [_ Hu].
  split; cbn [client server c2s s2c]; try done. rewrite elem_of_cons in Hm. tauto.
Qed.

Lemma tidy_step x y :
  Forall (λ m, no_job m ∨ ∃ id p, m = Data id (Some p) ∧ -1 < id) (c2s x) →
  tidy x → step add_const JOB_NUM JOB_SIZE x y → tidy y.
Proof.
  intros Hup Hx Hs. destruct Hs as [h c s up down c' ms Hh He|c s up m down c' ms He|
                  h c s up down s' ms Hh He|c s m up down s' ms He]; cbn [c2s] in Hup.
  - destruct (client_tame h c c' ms (tidy_client _ Hx) Hh He).
    by apply (tidy_client_step (worker c' = Exit) c).
  - destruct (client_receive_tame m c c' ms (tidy_client _ Hx) He) as [Ht Hc].
    apply (tidy_client_step False c s up down); [by eapply tidy_down_tail|by intros []| |done].
    by eapply tame_weaken; [..|exact Ht].
  - apply (tidy_server_step False c s up down); [done|by intros []|].
    by eapply server_tame; [apply Hx|..].
  - apply Forall_cons in Hup as [Hm _].
    apply (tidy_server_step (m = mark) c s up down); [by eapply tidy_up_tail|..].
    + intros Heq. apply (tidy_mark _ Hx). right. left. rewrite Heq. by left.
    + by apply server_receive_tame; [apply Hx|..].
Qed.

(** ** Reachable states *)

Context (Hnum : (0 < JOB_NUM)%nat) (Hsize : (0 < JOB_SIZE)%nat).
Context (v w : list D) (Heven : Nat.Even JOB_NUM).
Context (Hv : full JOB_NUM JOB_SIZE v) (Hw : full JOB_NUM JOB_SIZE w).

Abbreviation inv := (JobsSystem.inv add_const JOB_NUM JOB_SIZE v).
Abbreviation reachable := (rtc (step add_const JOB_NUM JOB_SIZE) (start JOB_NUM v w)).

Lemma up_no_job m :
  up_ok JOB_NUM JOB_SIZE v m → no_job m ∨ ∃ id p, m = Data id (Some p) ∧ -1 < id.
Proof.
  intros [Hm|(id & j & -> & Hj & Hid)]; [by left|]. right. eexists _, _. split; [done|lia].
Qed.

Lemma start_tidy : tidy (start JOB_NUM v w).
Proof.
  assert ((JOB_NUM / 2 ≤ JOB_NUM)%nat) by (apply Nat.Div0.div_le_upper_bound; lia).
  split; cbn [start bootstrap client server c2s s2c job_todo job_tosend worker reader]; try done.
  - split; cbn [bootstrap job_todo noted reader]; rewrite ?length_fmap, ?length_seq; done || lia.
  - split; cbn [job_todo noted reader length]; done || lia.
  - rewrite !elem_of_nil. intros [Hin|[[]|[[]|[]]]].
    apply list_elem_of_fmap in Hin as (j & ? & _). lia.
Qed.

Lemma reachable_tidy (y : sys) : reachable y → (∃ done, inv done y) ∧ tidy y.
Proof.
  intros Hr. split; [by eapply jobs_reachable_inv|]. revert y Hr.
  refine (rtc_ind_r _ _ start_tidy _). intros x z Hr Hs Ht.
  destruct (jobs_reachable_inv add_const JOB_NUM JOB_SIZE Hnum Hsize v Hv w x Heven Hw Hr) as (done & Hi).
  eapply tidy_step; [|done|done]. eapply Forall_impl; [apply (inv_up _ _ _ _ _ _ Hi)|apply up_no_job].
Qed.

End actions.
