(* ===== verification/JobsRun.v ===== *)
(** * MP4: every run of the distributed computation ends

    The steps of JobsSystem.v are split into actions and ticks, in which a state
    manager notes the length of its queue.  Every action uses up a part of a
    weight, also the actions that move jobs between the processes: a queue
    length brings the weight of the moves it can cause.  So the number of
    actions of a run is bounded by its number of ticks. *)
From stdpp Require Import prelude list_tactics.
From S2P Require Import Prelude CInt Jobs JobsData JobsSystem JobsTidy.
Open Scope Z_scope.

Section run.
Context {D : Type} (add_const : D → D) (JOB_NUM JOB_SIZE : nat).

Abbreviation node := (@Jobs.node D).
Abbreviation message := (@Jobs.message D).
Abbreviation sys := (@JobsSystem.sys D).
Abbreviation JN := (Z.of_nat JOB_NUM).
Abbreviation full := (JobsData.full JOB_NUM JOB_SIZE).
Abbreviation step := (JobsSystem.step add_const JOB_NUM JOB_SIZE).
Abbreviation start := (JobsSystem.start JOB_NUM).
Abbreviation short := (JobsTidy.short JOB_NUM).
Abbreviation tidy := (JobsTidy.tidy JOB_NUM).
Implicit Types (n : node) (ms : list message) (x y : sys).

(** ** Actions and ticks *)

(** A tick of one of the two state managers: it notes the length of its queue. *)
Inductive tick : sys → sys → Prop :=
  | tick_client c s up down :
      noted c = None →
      tick (Sys c s up down) (Sys (set_noted (Some (Z.of_nat (length (job_todo c)))) c) s up down)
  | tick_server c s up down :
      noted s = None →
      tick (Sys c s up down) (Sys c (set_noted (Some (Z.of_nat (length (job_todo s)))) s) up down).

(** Any other step. *)
Inductive act : sys → sys → Prop :=
  | act_client h c s up down c' ms :
      h ∈ tail (client_threads add_const JOB_NUM JOB_SIZE) → h c = Ok (Some (c', ms)) →
      act (Sys c s up down) (Sys c' s (up ++ ms) down)
  | act_client_receive c s up m down c' ms :
      client_receive JOB_NUM JOB_SIZE m c = Ok (Some (c', ms)) →
      act (Sys c s up (m :: down)) (Sys c' s (up ++ ms) down)
  | act_server h c s up down s' ms :
      h ∈ tail (server_threads add_const JOB_NUM JOB_SIZE) → h s = Ok (Some (s', ms)) →
      act (Sys c s up down) (Sys c s' up (down ++ ms))
  | act_server_receive c s m up down s' ms :
      server_receive JOB_NUM JOB_SIZE m s = Ok (Some (s', ms)) →
      act (Sys c s (m :: up) down) (Sys c s' up (down ++ ms)).

Lemma step_cases x y : step x y ↔ tick x y ∨ act x y.
Proof.
  split.
  - intros [h c s up down c' ms Hh He|c s up m down c' ms He|
            h c s up down s' ms Hh He|c s m up down s' ms He].
    + apply elem_of_cons in Hh as [->|Hh]; [|right; by eapply act_client].
      apply state_manager_spec in He as (Hn & -> & ->). rewrite app_nil_r. left. by constructor.
    + right. by apply act_client_receive.
    + apply elem_of_cons in Hh as [->|Hh]; [|right; by eapply act_server].
      apply state_manager_spec in He as (Hn & -> & ->). rewrite app_nil_r. left. by constructor.
    + right. by apply act_server_receive.
  - intros [[c s up down Hn|c s up down Hn]|[h c s up down c' ms Hh He|c s up m down c' ms He|
            h c s up down s' ms Hh He|c s m up down s' ms He]].
    + rewrite <-(app_nil_r up) at 2. eapply step_client; [by left|by apply state_manager_spec].
    + rewrite <-(app_nil_r down) at 2. eapply step_server; [by left|by apply state_manager_spec].
    + eapply step_client; [by right|done].
    + by apply step_client_receive.
    + eapply step_server; [by right|done].
    + by apply step_server_receive.
Qed.

(** A run of [a] actions and [t] ticks. *)
Inductive run : nat → nat → sys → sys → Prop :=
  | run_refl x : run 0 0 x x
  | run_act a t x y z : run a t x y → act y z → run (S a) t x z
  | run_tick a t x y z : run a t x y → tick y z → run a (S t) x z.

Lemma run_rtc a t x y : run a t x y → rtc step x y.
Proof.
  induction 1 as [x|a t x y z _ IH Ha|a t x y z _ IH Ht]; [done|..];
    (eapply rtc_r; [exact IH|]; apply step_cases); [by right|by left].
Qed.

Lemma act_rtc x y : rtc act x y → rtc step x y.
Proof. apply rtc_subrel. intros x' y' Ha. apply step_cases. by right. Qed.

Lemma rtc_run x y : rtc step x y → ∃ a t, run a t x y.
Proof.
  revert y. apply rtc_ind_r; [by exists 0%nat, 0%nat; constructor|].
  intros y z _ [Ht|Ha]%step_cases (a & t & Hr).
  - exists a, (S t). by eapply run_tick.
  - exists (S a), t. by eapply run_act.
Qed.

Lemma nsteps_run k x y : nsteps act k x y → run k 0 x y.
Proof.
  revert y. induction k as [|k IH]; intros y Hr.
  - inversion Hr; subst. constructor.
  - apply nsteps_inv_r in Hr as (z & Hz & Ha). eapply run_act; [by apply IH|done].
Qed.

(** ** The weight of a state *)

(** A job that is moved to the server is eight heavier on its way there. *)
Definition client_reader_weight (p : pc) : nat :=
  match p with
  | Check => 4
  | Act => 3
  | Adapting d => 7 + 8 * Z.to_nat (Z.quot d 2)
  | Sending k => 5 + 8 * Z.to_nat k
  | Moving k _ => 7 + 8 * Z.to_nat k
  | _ => 0
  end.
Definition server_reader_weight (p : pc) : nat :=
  match p with Adapting _ => 4 | Sending _ => 1 | Moving _ _ => 7 | _ => 0 end.
Definition client_worker_weight (p : pc) : nat :=
  match p with Check => 13 | Act => 12 | Working _ => 14 | _ => 0 end.
Definition server_worker_weight (p : pc) : nat :=
  match p with Working _ => 7 | _ => 0 end.
Definition writer_weight (p : pc) : nat :=
  match p with Check => 1 | _ => 0 end.
Definition up_weight (m : message) : nat :=
  match m with Data _ _ => 9 | State _ => 5 | Rebalance => 1 end.
Definition down_weight (m : message) : nat :=
  match m with Data _ _ => 5 | State _ => 4 * JOB_NUM + 5 | Rebalance => 2 end.
Definition noted_weight (send : nat) n : nat :=
  match noted n with Some _ => S send | None => 0 end.
Definition client_weight n : nat :=
  3 * length (job_todo n) + 11 * length (job_tosend n) + client_worker_weight (worker n) +
  writer_weight (writer n) + client_reader_weight (reader n) + noted_weight 5 n.
Definition server_weight n : nat :=
  8 * length (job_todo n) + 6 * length (job_tosend n) + server_worker_weight (worker n) +
  server_reader_weight (reader n) + noted_weight (4 * JOB_NUM + 5) n.
Definition up_weights ms : nat := sum_list_with up_weight ms.
Definition down_weights ms : nat := sum_list_with down_weight ms.
Definition weight y : nat :=
  client_weight (client y) + up_weights (c2s y) + server_weight (server y) + down_weights (s2c y).

Lemma queue_push_length q i r : queue_push JOB_NUM q i = Some r → length r = S (length q).
Proof. intros ->%queue_push_some. rewrite length_app. cbn [length]. lia. Qed.

Ltac weigh :=
  unfold client_weight, server_weight, up_weights, down_weights, noted_weight;
  cbn [set_array set_todo set_tosend set_finished set_peer set_rebalance set_worker set_writer
       set_reader set_noted job_todo job_tosend job_finished worker writer reader noted
       client_reader_weight server_reader_weight client_worker_weight server_worker_weight
       writer_weight sum_list_with up_weight down_weight length id fst snd app] in *.

Ltac weigh_cases n :=
  repeat match goal with
    | He : queue_push _ _ _ = Some _ |- _ => apply queue_push_length in He
    | He : transfer _ _ _ _ = Ok _ |- _ => apply transfer_messages in He as (? & -> & ?)
    end;
  weigh; repeat match goal with Hq : _ n = _ |- _ => rewrite Hq in * end;
  weigh; repeat (case_decide; weigh); lia.

Lemma client_act_weight h n n' ms :
  bounded JOB_NUM n → h ∈ tail (client_threads add_const JOB_NUM JOB_SIZE) →
  h n = Ok (Some (n', ms)) → (client_weight n' + up_weights ms < client_weight n)%nat.
Proof.
  intros Hb Hh He. unfold client_threads in Hh. cbn [tail] in Hh.
  rewrite !elem_of_cons, elem_of_nil in Hh. destruct Hh as [->|[->|[->|[->|[->|[->|[]]]]]]].
  - unfold send_state in He. action_cases He; weigh_cases n.
  - unfold adaptor in He. action_cases He; weigh_cases n.
  - unfold adaptor_loop in He. pose proof (bounded_moving _ _ Hb) as Hm.
    destruct (reader n) as [| | | | |k z|] eqn:Hr; try done; [action_cases He; weigh_cases n|].
    destruct (Hm k z eq_refl). action_cases He; weigh_cases n.
  - unfold client_worker in He. action_cases He; weigh_cases n.
  - unfold write_to_server in He. action_cases He; weigh_cases n.
  - unfold client_reader_check in He. action_cases He; weigh_cases n.
Qed.

Lemma server_act_weight h n n' ms :
  h ∈ tail (server_threads add_const JOB_NUM JOB_SIZE) → h n = Ok (Some (n', ms)) →
  (server_weight n' + down_weights ms < server_weight n)%nat.
Proof.
  intros Hh He. unfold server_threads in Hh. cbn [tail] in Hh.
  rewrite !elem_of_cons, elem_of_nil in Hh. destruct Hh as [->|[->|[->|[->|[->|[]]]]]].
  - unfold send_state in He. action_cases He; weigh_cases n.
  - unfold adaptor in He. action_cases He; weigh_cases n.
  - unfold adaptor_loop in He. action_cases He; weigh_cases n.
  - unfold compute_worker in He. action_cases He; weigh_cases n.
  - unfold write_to_clients in He. action_cases He; weigh_cases n.
Qed.

(** A message that arrives is heavier than what it leaves behind: a queue length
    makes the client move at most half of [JOB_NUM] jobs. *)
Lemma diff_bound k (l : nat) :
  JN ≤ INT_MAX → (l ≤ JOB_NUM)%nat → 0 ≤ k ≤ JN →
  (2 * Z.to_nat (Z.quot (int32 (Z.of_nat l - k)) 2) ≤ JOB_NUM)%nat.
Proof.
  intros Hmax Hl Hk. rewrite int32_small.
  - destruct (decide (0 ≤ Z.of_nat l - k)).
    + rewrite Z.quot_div_nonneg by lia. pose proof (Z.mul_div_le (Z.of_nat l - k) 2). lia.
    + pose proof (Z.quot_le_mono (Z.of_nat l - k) 0 2). rewrite Z.quot_0_l in * by lia. lia.
  - split; change (2 ^ (32 - 1)) with (INT_MAX + 1); lia.
Qed.

Lemma client_receive_weight m n n' ms :
  JN ≤ INT_MAX → bounded JOB_NUM n → short m →
  client_receive JOB_NUM JOB_SIZE m n = Ok (Some (n', ms)) →
  (client_weight n' + up_weights ms < client_weight n + down_weight m)%nat.
Proof.
  intros Hmax Hb Hm He. unfold client_receive in He. destruct (reader n) eqn:Hr; try done.
  destruct m as [id p|k|].
  - action_cases He; weigh_cases n.
  - pose proof (diff_bound k (length (job_todo n)) Hmax (bounded_todo _ _ Hb) Hm).
    unfold state_handle in He. action_cases He; weigh_cases n.
  - action_cases He; weigh_cases n.
Qed.

Lemma server_receive_weight m n n' ms :
  server_receive JOB_NUM JOB_SIZE m n = Ok (Some (n', ms)) →
  (server_weight n' + down_weights ms < server_weight n + up_weight m)%nat.
Proof.
  intros He. unfold server_receive in He. destruct (reader n) eqn:Hr; try done.
  destruct m as [id p|k|].
  - unfold transfer_handler in He. action_cases He; weigh_cases n.
  - unfold state_handle in He. action_cases He; weigh_cases n.
  - action_cases He; weigh_cases n.
Qed.

Lemma act_weight x y : JN ≤ INT_MAX → tidy x → act x y → (weight y < weight x)%nat.
Proof.
  intros Hmax [Hc _ _ Hdn _ _ _] Ha. revert Hc Hdn.
  destruct Ha as [h c s up down c' ms Hh He|c s up m down c' ms He|
                  h c s up down s' ms Hh He|c s m up down s' ms He];
    unfold weight; cbn [client server c2s s2c]; intros Hc Hdn.
  - pose proof (client_act_weight h c c' ms Hc Hh He).
    unfold up_weights in *. rewrite sum_list_with_app. lia.
  - apply Forall_cons in Hdn as [Hm _].
    pose proof (client_receive_weight m c c' ms Hmax Hc Hm He). unfold up_weights, down_weights in *.
    rewrite sum_list_with_app. cbn [sum_list_with]. lia.
  - pose proof (server_act_weight h s s' ms Hh He).
    unfold down_weights in *. rewrite sum_list_with_app. lia.
  - pose proof (server_receive_weight m s s' ms He). unfold up_weights, down_weights in *.
    rewrite sum_list_with_app. cbn [sum_list_with]. lia.
Qed.

Lemma tick_weight x y : tick x y → (weight y ≤ weight x + (4 * JOB_NUM + 6))%nat.
Proof.
  intros [c s up down Hn|c s up down Hn]; unfold weight; cbn [client server c2s s2c];
    weigh; rewrite Hn; lia.
Qed.

Lemma start_weight v w : weight (start v w) = (14 * (JOB_NUM / 2) + 18)%nat.
Proof.
  unfold weight, start, bootstrap. weigh. cbn [client server c2s s2c]. weigh.
  cbn [sum_list_with]. rewrite !length_fmap, !length_seq. lia.
Qed.

(** ** Runs from the start *)

Context (Hnum : (0 < JOB_NUM)%nat) (Hsize : (0 < JOB_SIZE)%nat) (Hmax : JN ≤ INT_MAX).
Context (v w : list D) (Heven : Nat.Even JOB_NUM) (Hv : full v) (Hw : full w).

Lemma run_tidy a t y :
  run a t (start v w) y →
  (∃ done, inv add_const JOB_NUM JOB_SIZE v done y) ∧ tidy y.
Proof.
  intros Hr. apply (reachable_tidy add_const JOB_NUM JOB_SIZE Hnum Hsize v w Heven Hv Hw).
  by eapply run_rtc.
Qed.

Lemma jobs_run_weight a t y :
  run a t (start v w) y → (a + weight y ≤ 14 * (JOB_NUM / 2) + 18 + (4 * JOB_NUM + 6) * t)%nat.
Proof.
  remember (start v w) as x eqn:Hx. intros Hr. revert Hx.
  induction Hr as [x|a t x y z Hr IH Ha|a t x y z Hr IH Ht]; intros ->.
  - rewrite start_weight. lia.
  - destruct (run_tidy _ _ _ Hr) as [_ Hy]. pose proof (act_weight y z Hmax Hy Ha).
    specialize (IH eq_refl). lia.
  - pose proof (tick_weight y z Ht). specialize (IH eq_refl). lia.
Qed.

(** ** Whether an action is possible is decidable *)

Lemma some_action n (hs : list (@action D)) :
  (∃ h r, h ∈ hs ∧ h n = Ok (Some r)) ∨ (∀ h r, h ∈ hs → h n ≠ Ok (Some r)).
Proof.
  induction hs as [|h hs [(h' & r & Hh & Hr)|IH]].
  - right. by intros h r ?%not_elem_of_nil.
  - left. exists h', r. split; [by right|done].
  - destruct (h n) as [[r|]|] eqn:Hr; [left; exists h, r; by split; [left|done]|..];
      right; intros h' r [->|Hh]%elem_of_cons; [by rewrite Hr|by apply IH|by rewrite Hr|by apply IH].
Qed.

Lemma some_receive (f : message → @action D) n ms :
  (∃ m ms' r, ms = m :: ms' ∧ f m n = Ok (Some r)) ∨
  (∀ m ms' r, ms = m :: ms' → f m n ≠ Ok (Some r)).
Proof.
  destruct ms as [|m ms]; [by right|]. destruct (f m n) as [[r|]|] eqn:Hr;
    [left; by exists m, ms, r|..]; right; intros m' ms' r [= <- <-]; by rewrite Hr.
Qed.

Lemma act_dec y : red act y ∨ nf act y.
Proof.
  destruct y as [c s up down].
  destruct (some_action c (tail (client_threads add_const JOB_NUM JOB_SIZE)))
    as [(h & [c' ms] & Hh & Hr)|Hc]; [left; eexists; by eapply act_client|].
  destruct (some_receive (client_receive JOB_NUM JOB_SIZE) c down)
    as [(m & ms' & [c' ms] & -> & Hr)|Hcr]; [left; eexists; by apply act_client_receive|].
  destruct (some_action s (tail (server_threads add_const JOB_NUM JOB_SIZE)))
    as [(h & [s' ms] & Hh & Hr)|Hs]; [left; eexists; by eapply act_server|].
  destruct (some_receive (server_receive JOB_NUM JOB_SIZE) s up)
    as [(m & ms' & [s' ms] & -> & Hr)|Hsr]; [left; eexists; by apply act_server_receive|].
  right. intros [z Ha]. inversion Ha; subst; naive_solver.
Qed.

(** Without further ticks every run goes on to a state where no action is
    possible. *)
Lemma run_normal a t y :
  run a t (start v w) y → ∃ a' z, run a' t (start v w) z ∧ rtc act y z ∧ nf act z.
Proof.
  remember (weight y) as k eqn:Hk. revert a y Hk.
  induction (lt_wf k) as [k _ IH]. intros a y -> Hr.
  destruct (act_dec y) as [[z Hz]|Hnf]; [|by exists a, y].
  destruct (run_tidy _ _ _ Hr) as [_ Hy].
  destruct (IH (weight z)) with (a := S a) (y := z) as (a' & u & Hu & Hzu & Hnf).
  - by apply act_weight.
  - done.
  - by eapply run_act.
  - exists a', u. split; [done|]. split; [by eapply rtc_l|done].
Qed.
End run.
