(* ===== verification/JobsLive.v ===== *)
(** * MP4: while a job is missing some action is possible

    No thread leaves its loop and no end mark is on its way before the last job
    is counted (JobsTidy.v); so if no action is possible and a job is missing,
    a reader has stalled in the loop of [adaptor]: on an empty queue, or the
    client's on job 0.  The same facts leave the client's move of job 0 as the
    only fault of any run. *)
From stdpp Require Import prelude list_tactics.
From S2P Require Import Prelude CInt Jobs JobsData JobsSystem JobsTidy JobsRun.
Open Scope Z_scope.

Section live.
Context {D : Type} (add_const : D → D) (JOB_NUM JOB_SIZE : nat).

Abbreviation node := (@Jobs.node D).
Abbreviation message := (@Jobs.message D).
Abbreviation sys := (@JobsSystem.sys D).
Abbreviation JN := (Z.of_nat JOB_NUM).
Abbreviation full := (JobsData.full JOB_NUM JOB_SIZE).
Abbreviation step := (JobsSystem.step add_const JOB_NUM JOB_SIZE).
Abbreviation start := (JobsSystem.start JOB_NUM).
Abbreviation tidy := (JobsTidy.tidy JOB_NUM).
Abbreviation act := (JobsRun.act add_const JOB_NUM JOB_SIZE).
Abbreviation inv := (JobsSystem.inv add_const JOB_NUM JOB_SIZE).
Implicit Types (n : node) (m : message) (ms : list message) (x y : sys).

(** ** What a thread keeps *)

(** Where the client's main thread, its writer and its reader, and the server's
    computing thread and reader can be. *)
Definition client_worker_pc (p : pc) : Prop :=
  match p with Check | Act | Working _ | Exit => True | _ => False end.
Definition client_writer_pc (p : pc) : Prop :=
  match p with Check | Act | Exit => True | _ => False end.
Definition client_reader_pc (p : pc) : Prop :=
  match p with Working _ => False | _ => True end.
Definition server_worker_pc (p : pc) : Prop :=
  match p with Check | Working _ => True | _ => False end.
Definition server_reader_pc (p : pc) : Prop :=
  match p with Check | Adapting _ | Sending _ => True | Moving _ z => 0 < z | _ => False end.
(** Job 0 is never sent to the server. *)
Definition away m : Prop := match m with Data id _ => id ≠ 0 | _ => True end.

(** The client's threads end, and its own end mark is queued, only when the
    last job is counted. *)
Record client_live n : Prop := {
  cl_todo : -1 ∈ job_todo n → JN ≤ job_finished n;
  cl_home : 0 ∉ job_tosend n;
  cl_worker : client_worker_pc (worker n);
  cl_writer : client_writer_pc (writer n);
  cl_reader : client_reader_pc (reader n);
  cl_writer_end : writer n = Exit → JN ≤ job_finished n;
  cl_reader_end : reader n = Exit → JN ≤ job_finished n;
}.

(** The server's computing thread and its reader never leave their loops, and
    meet no end mark and no job 0. *)
Record server_live n : Prop := {
  sl_todo : Forall (λ z, 0 < z) (job_todo n);
  sl_worker : server_worker_pc (worker n);
  sl_reader : server_reader_pc (reader n);
}.

Ltac setters :=
  cbn [set_array set_todo set_tosend set_finished set_peer set_rebalance set_worker set_writer
       set_reader set_noted job_todo job_tosend job_finished worker writer reader id fst snd app
       noted client_worker_pc client_writer_pc client_reader_pc
       server_worker_pc server_reader_pc away] in *.
Ltac live_cases n :=
  repeat match goal with
    | Hp : queue_push _ _ _ = Some _ |- _ => apply queue_push_some in Hp as ->
    | Hp : Jobs.transfer _ _ _ _ = Ok _ |- _ => apply transfer_messages in Hp as (? & -> & ?)
    end;
  setters; repeat match goal with Hq : _ n = _ |- _ => rewrite Hq in * end;
  setters; repeat (case_decide; setters);
  rewrite ?not_elem_of_cons, ?Forall_cons in *.
Ltac live_field n :=
  setters; repeat match goal with Hq : _ n = _ |- _ => rewrite Hq end;
  rewrite ?not_elem_of_app, ?not_elem_of_cons, ?elem_of_app, ?elem_of_cons, ?elem_of_nil,
    ?Forall_app, ?Forall_cons, ?Forall_nil in *;
  setters;
  first [lia | tauto | congruence | intros ?; cut (JN ≤ job_finished n); [lia|tauto] | naive_solver lia].
Ltac live_solve n := live_cases n; (split; [split|]); live_field n.

Lemma client_live_act h n n' ms :
  (0 < JOB_NUM)%nat → h ∈ tail (client_threads add_const JOB_NUM JOB_SIZE) →
  h n = Ok (Some (n', ms)) → bounded JOB_NUM n → client_live n → client_live n' ∧ Forall away ms.
Proof.
  intros Hnum Hh He [_ _ Hm] []. unfold client_threads in Hh. cbn [tail] in Hh.
  rewrite !elem_of_cons, elem_of_nil in Hh. destruct Hh as [->|[->|[->|[->|[->|[->|[]]]]]]].
  - unfold send_state in He. action_cases He; live_solve n.
  - unfold adaptor in He. action_cases He; live_solve n.
  - unfold adaptor_loop in He. destruct (reader n) as [| | | | |k z|] eqn:Hr; try done;
      [|destruct (Hm k z eq_refl)]; action_cases He; live_solve n.
  - unfold client_worker in He. action_cases He; live_solve n.
  - unfold write_to_server in He. action_cases He; live_solve n.
  - unfold client_reader_check in He. action_cases He; live_solve n.
Qed.

Lemma client_live_receive m n n' ms :
  client_receive JOB_NUM JOB_SIZE m n = Ok (Some (n', ms)) → client_live n →
  client_live n' ∧ Forall away ms.
Proof.
  intros He []. unfold client_receive in He. destruct (reader n) eqn:Hr; try done.
  destruct m as [id p|k|].
  - action_cases He; live_solve n.
  - unfold state_handle in He. action_cases He; live_solve n.
  - action_cases He; live_solve n.
Qed.

Lemma server_live_act h n n' ms :
  h ∈ tail (server_threads add_const JOB_NUM JOB_SIZE) → h n = Ok (Some (n', ms)) →
  server_live n → server_live n' ∧ (writer n' = Exit → writer n = Exit ∨ -1 ∈ job_tosend n).
Proof.
  intros Hh He []. unfold server_threads in Hh. cbn [tail] in Hh.
  rewrite !elem_of_cons, elem_of_nil in Hh. destruct Hh as [->|[->|[->|[->|[->|[]]]]]].
  - unfold send_state in He. action_cases He; live_solve n.
  - unfold adaptor in He. action_cases He; live_solve n.
  - unfold adaptor_loop in He. action_cases He; live_solve n.
  - unfold compute_worker in He. action_cases He; live_solve n.
  - unfold write_to_clients in He. action_cases He; live_solve n.
Qed.

Lemma server_live_receive m n n' ms :
  away m → (∀ p, m ≠ Data JN p) → server_receive JOB_NUM JOB_SIZE m n = Ok (Some (n', ms)) →
  server_live n → server_live n' ∧ (writer n' = Exit → writer n = Exit).
Proof.
  intros Hm Hz He []. unfold server_receive in He. destruct (reader n) eqn:Hr; try done.
  destruct m as [id p|k|].
  - assert (id ≠ JN) by (intros ->; by destruct (Hz p)).
    unfold transfer_handler in He. action_cases He; live_solve n.
  - unfold state_handle in He. action_cases He; live_solve n.
  - action_cases He; live_solve n.
Qed.

(** ** What every reachable state satisfies *)

Record live y : Prop := {
  live_client : client_live (client y);
  live_server : server_live (server y);
  live_up : Forall away (c2s y);
  live_writer : writer (server y) = Exit → JN ≤ job_finished (client y);
}.

(** The number of finished jobs never decreases, and is the client's. *)
Lemma act_finished x y : tidy x → act x y → job_finished (client x) ≤ job_finished (client y).
Proof.
  intros [Hc _ _ _ _ _ _] Ha. revert Hc.
  destruct Ha as [h c s up down c' ms Hh He|c s up m down c' ms He| |]; cbn [client]; intros Hc;
    [..|done|done].
  - apply (client_tame add_const JOB_NUM JOB_SIZE h c c' ms Hc); [by right|done].
  - by apply (client_receive_tame JOB_NUM JOB_SIZE m c c' ms Hc).
Qed.

Lemma up_not_zero v m p : (0 < JOB_NUM)%nat → up_ok JOB_NUM JOB_SIZE v m → m ≠ Data JN p.
Proof.
  intros Hn [Hm|(id & j & -> & Hj & Hid)] Heq; [|injection Heq; lia].
  subst m. destruct p; cbn in Hm; [done|lia].
Qed.

Lemma act_live v x y :
  (0 < JOB_NUM)%nat → Forall (up_ok JOB_NUM JOB_SIZE v) (c2s x) → tidy x → live x → act x y → live y.
Proof.
  intros Hn Hup Ht [Hc Hs Ha Hw] Hact. pose proof (act_finished x y Ht Hact) as Hf.
  assert (Hmark : -1 ∈ job_tosend (server x) → JN ≤ job_finished (client x)).
  { intros Hin. apply (tidy_end _ _ Ht), (tidy_mark _ _ Ht). by right; right; left. }
  pose proof (tidy_client _ _ Ht) as Hb. revert Hc Hs Ha Hw Hup Hf Hmark Hb. clear Ht.
  destruct Hact as [h c s up down c' ms Hh He|c s up m down c' ms He|
                    h c s up down s' ms Hh He|c s m up down s' ms He];
    cbn [client server c2s s2c]; intros Hc Hs Ha Hw Hup Hf Hmark Hb.
  - destruct (client_live_act h c c' ms Hn Hh He Hb Hc).
    split; cbn [client server c2s]; [done..|by apply Forall_app|]. intros ?%Hw. lia.
  - destruct (client_live_receive m c c' ms He Hc).
    split; cbn [client server c2s]; [done..|by apply Forall_app|]. intros ?%Hw. lia.
  - destruct (server_live_act h s s' ms Hh He Hs) as [? Hwr].
    split; cbn [client server c2s]; [done..|]. intros [|]%Hwr; auto.
  - apply Forall_cons in Ha as [Hm Ha]. apply Forall_cons in Hup as [Hu Hup].
    destruct (server_live_receive m s s' ms Hm) as [? Hwr]; [|done..|].
    { intros p. by eapply up_not_zero. }
    split; cbn [client server c2s]; [done..|]. auto.
Qed.

Lemma tick_live x y : tick x y → live x → live y.
Proof.
  intros [] [[] [] Ha Hw]; split; cbn [client server c2s s2c] in *; try done; by split.
Qed.

Lemma start_live v w : (0 < JOB_NUM)%nat → Nat.Even JOB_NUM → live (start v w).
Proof.
  intros Hn [i Hi]. assert (Hhalf : (JOB_NUM / 2 = i)%nat) by (subst; rewrite Nat.mul_comm; by apply Nat.div_mul).
  split; cbn [start bootstrap client server c2s]; [|by split|done|done].
  split; cbn [job_todo job_tosend worker writer reader]; try done.
  - intros (j & Hj & _)%list_elem_of_fmap. lia.
  - intros (j & Hj & Hin)%list_elem_of_fmap. apply elem_of_seq in Hin. lia.
Qed.

(** ** The places where a reader stalls *)

(** In the loop of [adaptor], on an empty queue. *)
Definition starved n : Prop := ∃ k, reader n = Sending k ∧ 0 < k ∧ job_todo n = [].
(** In the loop of [adaptor], with job 0 to move. *)
Definition takes_zero n : Prop := ∃ k, reader n = Moving k 0.
Definition stalled y : Prop :=
  starved (client y) ∨ takes_zero (client y) ∨ starved (server y).

(** ** Faults *)

(** No thread faults, and none would on the message it receives next, but for
    the client's move of job 0. *)
Record no_faults y : Prop := {
  no_fault_client h : h ∈ client_threads add_const JOB_NUM JOB_SIZE →
    (∃ r, h (client y) = Ok r) ∨ h = adaptor_loop JOB_NUM JOB_SIZE ∧ takes_zero (client y);
  no_fault_server h : h ∈ server_threads add_const JOB_NUM JOB_SIZE → ∃ r, h (server y) = Ok r;
  no_fault_up m : m ∈ c2s y → ∃ r, server_receive JOB_NUM JOB_SIZE m (server y) = Ok r;
  no_fault_down m : m ∈ s2c y → ∃ r, client_receive JOB_NUM JOB_SIZE m (client y) = Ok r;
}.

Context (Hnum : (0 < JOB_NUM)%nat) (Hsize : (0 < JOB_SIZE)%nat).

Abbreviation jobs_ok := (JobsSystem.jobs_ok JOB_NUM).

Lemma transfer_ok n z q :
  full (job_array n) → valid JOB_NUM (z :: q) → ∃ ms, transfer JOB_NUM JOB_SIZE z n = Ok ms.
Proof.
  intros Hf Hv. pose proof (valid_head JOB_NUM z q Hv) as Hz. destruct (decide (z = -1)) as [->|Hne].
  - unfold transfer. rewrite decide_True by done. by eexists.
  - destruct (Hz Hne) as (j & -> & Hj). rewrite (transfer_send JOB_NUM) by done. by eexists.
Qed.

Lemma transfer_moved n k z :
  full (job_array n) → jobs_ok n → reader n = Moving k z → z ≠ 0 →
  ∃ ms, transfer JOB_NUM JOB_SIZE (JN + z) n = Ok ms.
Proof.
  intros Hf (_ & _ & Hh) Hr Hz. rewrite Hr in Hh. apply Forall_app in Hh as [_ Hh].
  apply Forall_cons in Hh as [(j & -> & Hj) _].
  unfold transfer. rewrite decide_False by lia. rewrite create_message_balance by (done || lia).
  by eexists.
Qed.

Lemma compute_held n z :
  full (job_array n) → jobs_ok n → worker n = Working z →
  ∃ vec, compute add_const JOB_SIZE (job_array n) z = Ok vec.
Proof.
  intros Hf (_ & _ & Hh) Hw. rewrite Hw in Hh. apply Forall_cons in Hh as [(j & -> & Hj) _].
  rewrite (compute_ok _ JOB_NUM) by done. by eexists.
Qed.

(** The load balancing goes on, except on job 0 and on an empty queue. *)
Definition balancing (p : pc) : Prop :=
  match p with Adapting _ | Sending _ | Moving _ _ => True | _ => False end.

Lemma balancing_acts n :
  full (job_array n) → jobs_ok n → balancing (reader n) →
  starved n ∨ takes_zero n ∨
  ∃ h r, h ∈ [adaptor; adaptor_loop JOB_NUM JOB_SIZE] ∧ h n = Ok (Some r).
Proof.
  intros Hf Hj Hb. unfold starved, takes_zero.
  destruct (reader n) as [| | |d|k|k z|] eqn:Hr; try done.
  - right; right. exists adaptor. unfold adaptor. rewrite Hr. eexists. split; [by left|done].
  - destruct (decide (0 < k)) as [Hk|Hk]; [destruct (job_todo n) as [|z q] eqn:Hq|];
      [left; by exists k|right; right; exists (adaptor_loop JOB_NUM JOB_SIZE); unfold adaptor_loop;
       rewrite Hr..]; [rewrite decide_True, Hq by done|rewrite decide_False by done];
      eexists; (split; [right; by left|done]).
  - right. destruct (decide (z = 0)) as [->|Hz]; [left; by exists k|right].
    destruct (transfer_moved n k z Hf Hj Hr Hz) as [ms Hms].
    exists (adaptor_loop JOB_NUM JOB_SIZE). unfold adaptor_loop. rewrite Hr, Hms.
    eexists. split; [right; by left|done].
Qed.

Lemma adaptor_loop_no_fault n :
  full (job_array n) → jobs_ok n → (∃ r, adaptor_loop JOB_NUM JOB_SIZE n = Ok r) ∨ takes_zero n.
Proof.
  intros Hf Hj. unfold adaptor_loop. destruct (reader n) as [| | | |k|k z|] eqn:Hr;
    try (left; by eexists).
  - left. repeat case_match; by eexists.
  - destruct (decide (z = 0)) as [->|Hz]; [right; by exists k|left].
    destruct (transfer_moved n k z Hf Hj Hr Hz) as [ms ->]. by eexists.
Qed.

(** The action [h n] of the goal is no fault. *)
Ltac no_fault n :=
  repeat case_match; try (by eexists); simplify_eq;
  match goal with
  | Hq : job_tosend n = ?z :: ?q |- context [transfer _ _ ?z n] =>
      destruct (transfer_ok n z q) as [? ->]; [done|done|cbn [mbind outcome_bind]; by eexists]
  | Hw : worker n = Working ?z |- context [compute _ _ _ ?z] =>
      destruct (compute_held n z) as [? ->]; [done..|cbn [mbind outcome_bind]];
      repeat case_match; by eexists
  end.

Lemma client_no_fault h n :
  h ∈ client_threads add_const JOB_NUM JOB_SIZE → full (job_array n) → jobs_ok n →
  (∃ r, h n = Ok r) ∨ h = adaptor_loop JOB_NUM JOB_SIZE ∧ takes_zero n.
Proof.
  intros Hh Hf Hj. pose proof Hj as (_ & Hts & _). unfold client_threads in Hh.
  rewrite !elem_of_cons, elem_of_nil in Hh.
  destruct Hh as [->|[->|[->|[->|[->|[->|[->|[]]]]]]]].
  - left. unfold state_manager. no_fault n.
  - left. unfold send_state. no_fault n.
  - left. unfold adaptor. no_fault n.
  - destruct (adaptor_loop_no_fault n Hf Hj); auto.
  - left. unfold client_worker. no_fault n.
  - left. unfold write_to_server. no_fault n.
  - left. unfold client_reader_check. no_fault n.
Qed.

Lemma no_zero n : server_live n → ¬ takes_zero n.
Proof. clear Hnum Hsize. intros [_ _ Hr] (k & Hk). rewrite Hk in Hr. cbn in Hr. lia. Qed.

Lemma server_no_fault h n :
  h ∈ server_threads add_const JOB_NUM JOB_SIZE → server_live n → full (job_array n) →
  jobs_ok n → ∃ r, h n = Ok r.
Proof.
  intros Hh Hl Hf Hj. pose proof Hj as (_ & Hts & _). unfold server_threads in Hh.
  rewrite !elem_of_cons, elem_of_nil in Hh. destruct Hh as [->|[->|[->|[->|[->|[->|[]]]]]]].
  - unfold state_manager. no_fault n.
  - unfold send_state. no_fault n.
  - unfold adaptor. no_fault n.
  - destruct (adaptor_loop_no_fault n Hf Hj); [done|by destruct (no_zero n)].
  - unfold compute_worker. no_fault n.
  - unfold write_to_clients. no_fault n.
Qed.

Lemma client_receive_no_fault v m n :
  full v → full (job_array n) → down_ok add_const JOB_NUM JOB_SIZE v m →
  ∃ r, client_receive JOB_NUM JOB_SIZE m n = Ok r.
Proof.
  intros Hv Hf [Hm|[(j & Hj & ->)|(j & Hj & ->)]]; unfold client_receive;
    destruct (reader n); try (by eexists).
  - destruct m as [id [p|]|k|]; [done|by eexists..].
  - rewrite decide_True by lia. rewrite (storeLocal_ok JOB_NUM); [by eexists|done|done|].
    unfold finished. rewrite length_fmap. by apply (slice_length JOB_NUM).
  - rewrite decide_False by lia. rewrite decide_True by lia. case_match; by eexists.
Qed.

Lemma server_receive_no_fault v m n :
  full v → full (job_array n) → up_ok JOB_NUM JOB_SIZE v m →
  ∃ r, server_receive JOB_NUM JOB_SIZE m n = Ok r.
Proof.
  intros Hv Hf Hm. unfold server_receive. destruct (reader n); try (by eexists).
  destruct Hm as [Hm|(id & j & -> & Hj & Hid)].
  - destruct m as [id [p|]|k|]; [done| |by eexists..]. cbn in Hm. subst id.
    unfold transfer_handler. rewrite decide_True by done. case_match; by eexists.
  - unfold transfer_handler. rewrite decide_False by lia. rewrite decide_True by lia.
    assert (Hd : (if decide (JN < id) then id - JN else id) = Z.of_nat j).
    { destruct Hid as [-> | [H0 ->]]; case_decide; lia. }
    rewrite Hd, (storeLocal_ok JOB_NUM); [|done|done|by apply (slice_length JOB_NUM)].
    cbn [mbind outcome_bind]. destruct (queue_push _ _ _); by eexists.
Qed.

(** ** While a job is missing some action is possible *)

Lemma client_worker_blocked n :
  client_worker add_const JOB_NUM JOB_SIZE n = Ok None → worker n ≠ Exit →
  client_worker_pc (worker n) → job_finished n < JN → job_todo n = [] ∧ hand (worker n) = [].
Proof.
  intros He Hw Hp Hf. unfold client_worker in He. action_cases He; first [done|lia].
Qed.

Lemma write_to_server_blocked n :
  write_to_server JOB_NUM JOB_SIZE n = Ok None → writer n ≠ Exit → client_writer_pc (writer n) →
  job_tosend n = [].
Proof. intros He Hw Hp. unfold write_to_server in He. action_cases He; done. Qed.

Lemma client_reader_blocked n :
  client_reader_check JOB_NUM n = Ok None → reader n ≠ Exit → client_reader_pc (reader n) →
  ¬ balancing (reader n) → job_finished n < JN → reader n = Act.
Proof.
  clear Hnum Hsize. intros He Hw Hp Hb Hf. unfold client_reader_check in He.
  action_cases He; first [done|lia|by destruct Hb].
Qed.

(** A message other than the end mark is taken, unless the queue is full. *)
Lemma client_receive_blocked v m n :
  client_receive JOB_NUM JOB_SIZE m n = Ok None → reader n = Act →
  down_ok add_const JOB_NUM JOB_SIZE v m → m ≠ mark → length (job_todo n) = JOB_NUM.
Proof.
  intros He Hr Hm Hk. unfold client_receive in He. rewrite Hr in He. destruct m as [id [p|]|k|].
  - action_cases He; first [done|unfold queue_push in *; by case_decide].
  - unfold mark in Hk. destruct Hm as [Hm|[(j & _ & Hm)|(j & _ & Hm)]]; [|done..]. cbn in Hm. by subst.
  - by destruct (state_handle k n).
  - done.
Qed.

Lemma compute_worker_blocked n :
  compute_worker add_const JOB_NUM JOB_SIZE n = Ok None → server_worker_pc (worker n) →
  job_todo n = [] ∧ hand (worker n) = [] ∨ length (job_tosend n) = JOB_NUM.
Proof.
  intros He Hw. unfold compute_worker in He. action_cases He; try done; try (by left); right;
    unfold queue_push in *; by case_decide.
Qed.

Lemma write_to_clients_blocked n :
  write_to_clients JOB_NUM JOB_SIZE n = Ok None → writer n ≠ Exit → job_tosend n = [].
Proof. intros He Hw. unfold write_to_clients in He. action_cases He; done. Qed.

Lemma server_receive_blocked v m n :
  server_receive JOB_NUM JOB_SIZE m n = Ok None → reader n = Check →
  up_ok JOB_NUM JOB_SIZE v m → m ≠ mark → length (job_todo n) = JOB_NUM.
Proof.
  intros He Hr Hm Hk. unfold server_receive in He. rewrite Hr in He.
  destruct Hm as [Hm|(id & j & -> & Hj & Hid)].
  - destruct m as [id [p|]|k|]; [done| |done..]. cbn in Hm. by subst.
  - unfold transfer_handler in He. rewrite decide_False in He by lia.
    action_cases He; first [done|lia|unfold queue_push in *; by case_decide].
Qed.
End live.
