(* ===== verification/JobsComplete.v ===== *)
(** * MP4: the computation terminates with the result of a single process

    Every run of JobsRun.v has a bounded number of actions.  Without queue
    lengths on the way no reader enters the loop of [adaptor], so every run ends
    with every job counted; with JobsSystem.v, which shows that no job is lost,
    this is the total correctness of the computation.  JobsSockets.v takes up
    the runs with queue lengths. *)
From stdpp Require Import prelude list_tactics.
From S2P Require Import Prelude CInt Jobs JobsData JobsSystem JobsTidy JobsRun JobsLive.
Open Scope Z_scope.

Section complete.
Context {D : Type} (add_const : D → D) (JOB_NUM JOB_SIZE : nat).

Abbreviation node := (@Jobs.node D).
Abbreviation message := (@Jobs.message D).
Abbreviation sys := (@JobsSystem.sys D).
Abbreviation JN := (Z.of_nat JOB_NUM).
Abbreviation full := (JobsData.full JOB_NUM JOB_SIZE).
Abbreviation step := (JobsSystem.step add_const JOB_NUM JOB_SIZE).
Abbreviation start := (JobsSystem.start JOB_NUM).
Abbreviation tidy := (JobsTidy.tidy JOB_NUM).
Abbreviation act := (JobsRun.act add_const JOB_NUM JOB_SIZE).
Abbreviation run := (JobsRun.run add_const JOB_NUM JOB_SIZE).
Abbreviation inv := (JobsSystem.inv add_const JOB_NUM JOB_SIZE).
Abbreviation live := (JobsLive.live JOB_NUM).
Abbreviation no_faults := (JobsLive.no_faults add_const JOB_NUM JOB_SIZE).
Implicit Types (n : node) (ms : list message) (x y : sys).

(** ** Runs without queue lengths *)

Definition silent (m : message) : Prop := match m with State _ => False | _ => True end.
(** No reader is in [adaptor], and no queue length is noted or on its way. *)
Record idle n : Prop := {
  idle_reader : ¬ balancing (reader n);
  idle_noted : noted n = None;
}.
Record quiet y : Prop := {
  quiet_client : idle (client y);
  quiet_server : idle (server y);
  quiet_up : Forall silent (c2s y);
  quiet_down : Forall silent (s2c y);
}.

Ltac setters :=
  cbn [set_array set_todo set_tosend set_finished set_peer set_rebalance set_worker set_writer
       set_reader set_noted reader noted balancing id fst snd] in *.
Ltac quiet_solve n :=
  repeat match goal with
    | Hp : transfer _ _ _ _ = Ok _ |- _ => apply transfer_messages in Hp as (? & -> & _)
    end;
  setters; repeat match goal with Hq : _ n = _ |- _ => rewrite Hq in * end;
  repeat (case_decide; setters);
  (split; [split; setters; repeat match goal with Hq : _ n = _ |- _ => rewrite Hq end;
                 setters; first [done|tauto|congruence]|by repeat constructor]).

Lemma client_act_quiet h n n' ms :
  h ∈ tail (client_threads add_const JOB_NUM JOB_SIZE) → h n = Ok (Some (n', ms)) →
  idle n → idle n' ∧ Forall silent ms.
Proof.
  intros Hh He [Hr Hn]. unfold client_threads in Hh. cbn [tail] in Hh.
  rewrite !elem_of_cons, elem_of_nil in Hh. destruct Hh as [->|[->|[->|[->|[->|[->|[]]]]]]].
  - unfold send_state in He. by rewrite Hn in He.
  - unfold adaptor in He. by destruct (reader n).
  - unfold adaptor_loop in He. by destruct (reader n).
  - unfold client_worker in He. action_cases He; quiet_solve n.
  - unfold write_to_server in He. action_cases He; quiet_solve n.
  - unfold client_reader_check in He. action_cases He; quiet_solve n.
Qed.

Lemma server_act_quiet h n n' ms :
  h ∈ tail (server_threads add_const JOB_NUM JOB_SIZE) → h n = Ok (Some (n', ms)) →
  idle n → idle n' ∧ Forall silent ms.
Proof.
  intros Hh He [Hr Hn]. unfold server_threads in Hh. cbn [tail] in Hh.
  rewrite !elem_of_cons, elem_of_nil in Hh. destruct Hh as [->|[->|[->|[->|[->|[]]]]]].
  - unfold send_state in He. by rewrite Hn in He.
  - unfold adaptor in He. by destruct (reader n).
  - unfold adaptor_loop in He. by destruct (reader n).
  - unfold compute_worker in He. action_cases He; quiet_solve n.
  - unfold write_to_clients in He. action_cases He; quiet_solve n.
Qed.

Lemma client_receive_silent m n n' ms :
  client_receive JOB_NUM JOB_SIZE m n = Ok (Some (n', ms)) → silent m → idle n →
  idle n' ∧ Forall silent ms.
Proof.
  intros He Hm [Hi Hn]. unfold client_receive in He. destruct (reader n) eqn:Hr; try done.
  destruct m as [id p|k|]; [|done|]; action_cases He; quiet_solve n.
Qed.

Lemma server_receive_silent m n n' ms :
  server_receive JOB_NUM JOB_SIZE m n = Ok (Some (n', ms)) → silent m → idle n →
  idle n' ∧ Forall silent ms.
Proof.
  intros He Hm [Hi Hn]. unfold server_receive in He. destruct (reader n) eqn:Hr; try done.
  destruct m as [id p|k|]; [unfold transfer_handler in He|done|]; action_cases He; quiet_solve n.
Qed.

Lemma act_quiet x y : act x y → quiet x → quiet y.
Proof.
  intros Ha [Hc Hs Hup Hdn]. revert Hc Hs Hup Hdn.
  destruct Ha as [h c s up down c' ms Hh He|c s up m down c' ms He|
                  h c s up down s' ms Hh He|c s m up down s' ms He];
    cbn [client server c2s s2c]; intros Hc Hs Hup Hdn.
  - destruct (client_act_quiet h c c' ms Hh He Hc). split; [done|done| |done]. by apply Forall_app.
  - apply Forall_cons in Hdn as [Hm Hdn]. destruct (client_receive_silent m c c' ms He Hm Hc).
    split; [done|done| |done]. by apply Forall_app.
  - destruct (server_act_quiet h s s' ms Hh He Hs). split; [done|done|done|]. by apply Forall_app.
  - apply Forall_cons in Hup as [Hm Hup]. destruct (server_receive_silent m s s' ms He Hm Hs).
    split; [done|done|done|]. by apply Forall_app.
Qed.


Lemma start_quiet v w : quiet (start v w).
Proof. split; [split; [by intros []|done]..|constructor|constructor]. Qed.

Lemma rtc_quiet x y : rtc act x y → quiet x → quiet y.
Proof. induction 1 as [|x y z Hxy _ IH]; [done|]. intros Hx. apply IH. by eapply act_quiet. Qed.

Lemma quiet_not_stalled y : quiet y → ¬ stalled y.
Proof.
  intros [[Hc _] [Hs _] _ _] [(k & Hk & _)|[(k & Hk)|(k & Hk & _)]];
    first [apply Hc; by rewrite Hk|apply Hs; by rewrite Hk].
Qed.

Context (Hnum : (0 < JOB_NUM)%nat) (Hsize : (0 < JOB_SIZE)%nat).

(** ** The computation of a single process *)

Fixpoint compute_jobs (ids : list Z) (vec : list D) : outcome (list D) :=
  match ids with
  | [] => Ok vec
  | j :: ids' => vec' ← compute add_const JOB_SIZE vec j; compute_jobs ids' vec'
  end.

Lemma compute_jobs_ok (ids : list nat) v :
  NoDup ids → Forall (λ j, (j < JOB_NUM)%nat) ids → full v →
  ∃ w, compute_jobs (Z.of_nat <$> ids) v = Ok w ∧ full w ∧
    ∀ j, (j < JOB_NUM)%nat → slice JOB_SIZE w j =
      if decide (j ∈ ids) then work add_const <$> slice JOB_SIZE v j else slice JOB_SIZE v j.
Proof.
  intros Hnd. revert v. induction Hnd as [|i ids Hi Hnd IH]; intros v Hids Hv.
  - exists v. split; [done|]. split; [done|]. intros j _. by rewrite decide_False by apply not_elem_of_nil.
  - apply Forall_cons in Hids as [Hin Hids]. cbn [fmap list_fmap compute_jobs].
    rewrite (compute_ok _ JOB_NUM) by done. cbn [mbind outcome_bind].
    assert (Hl : length (work add_const <$> slice JOB_SIZE v i) = JOB_SIZE).
    { rewrite length_fmap. by apply (slice_length JOB_NUM). }
    destruct (IH (splice JOB_SIZE v i (work add_const <$> slice JOB_SIZE v i))) as (w & Hw & Hfw & Hs);
      [done|by apply splice_full|].
    exists w. split; [exact Hw|]. split; [done|]. intros j Hj. rewrite Hs by done.
    destruct (decide (i = j)) as [->|Hne].
    + rewrite decide_False by done. rewrite decide_True by (by left).
      by apply (slice_splice_eq JOB_NUM).
    + rewrite (slice_splice_ne JOB_NUM) by done. apply decide_ext. rewrite elem_of_cons. naive_solver.
Qed.

Definition sequential (vec : list D) : outcome (list D) := compute_jobs (all_jobs JOB_NUM) vec.

Lemma sequential_ok v : full v → sequential v = Ok (work add_const <$> v).
Proof.
  intros Hv. destruct (compute_jobs_ok (seq 0 JOB_NUM) v) as (w & Hw & Hfw & Hs).
  - apply NoDup_seq.
  - apply Forall_seq. lia.
  - done.
  - unfold sequential, all_jobs. rewrite Hw. f_equal.
    apply (slices_eq JOB_NUM JOB_SIZE); [done|done|unfold JobsData.full; by rewrite length_fmap|].
    intros j Hj. rewrite Hs by done. rewrite decide_True by (apply elem_of_seq; lia).
    symmetry. apply slice_fmap.
Qed.

(** ** A run that cannot go on *)

Lemma inv_no_faults v done y : full v → inv v done y → live y → no_faults y.
Proof.
  intros Hv Hi Hl.
  destruct (inv_valid add_const JOB_NUM JOB_SIZE Hnum Hsize v done y Hi) as [? ?].
  destruct Hi as [_ _ Hcf Hsf _ _ _ Hup Hdn]. rewrite Forall_forall in Hup, Hdn. split.
  - intros h Hh. by apply (client_no_fault add_const JOB_NUM JOB_SIZE Hnum Hsize).
  - intros h Hh. apply (server_no_fault add_const JOB_NUM JOB_SIZE Hnum Hsize); [done|apply Hl|done..].
  - intros m Hm. apply (server_receive_no_fault JOB_NUM JOB_SIZE Hnum Hsize v); auto.
  - intros m Hm. apply (client_receive_no_fault add_const JOB_NUM JOB_SIZE Hnum Hsize v); auto.
Qed.

(** An action that is neither a fault nor possible is blocked. *)
Lemma blocked_client h r y :
  nf act y → h ∈ tail (client_threads add_const JOB_NUM JOB_SIZE) → h (client y) = Ok r → r = None.
Proof.
  intros Hb Hh Hr. destruct r as [[c' ms]|]; [|done]. destruct y as [c s up down].
  destruct Hb. eexists. by eapply act_client.
Qed.

Lemma blocked_server h r y :
  nf act y → h ∈ tail (server_threads add_const JOB_NUM JOB_SIZE) → h (server y) = Ok r → r = None.
Proof.
  intros Hb Hh Hr. destruct r as [[s' ms]|]; [|done]. destruct y as [c s up down].
  destruct Hb. eexists. by eapply act_server.
Qed.

Lemma blocked_down m down r y :
  nf act y → s2c y = m :: down → client_receive JOB_NUM JOB_SIZE m (client y) = Ok r → r = None.
Proof.
  intros Hb Hm Hr. destruct r as [[c' ms]|]; [|done]. destruct y as [c s up d].
  cbn in Hm, Hr. subst d. destruct Hb. eexists. by apply act_client_receive.
Qed.

Lemma blocked_up m up r y :
  nf act y → c2s y = m :: up → server_receive JOB_NUM JOB_SIZE m (server y) = Ok r → r = None.
Proof.
  intros Hb Hm Hr. destruct r as [[s' ms]|]; [|done]. destruct y as [c s u down].
  cbn in Hm, Hr. subst u. destruct Hb. eexists. by apply act_server_receive.
Qed.

Lemma inv_empty v done y :
  inv v done y → outstanding JOB_NUM y = [] →
  job_finished (client y) = JN.
Proof.
  intros Hi Ho. destruct Hi as [Hp Hf _ _ _ _ _ _ _]. rewrite Ho in Hp. cbn [app] in Hp.
  rewrite Hf. apply Permutation_length in Hp. rewrite Hp. unfold all_jobs.
  by rewrite length_fmap, length_seq.
Qed.


Lemma nf_client h y :
  nf act y → no_faults y → ¬ takes_zero (client y) →
  h ∈ tail (client_threads add_const JOB_NUM JOB_SIZE) → h (client y) = Ok None.
Proof.
  intros Hb [Hn _ _ _] Hz Hh. destruct (Hn h) as [[r Hr]|[_ ?]]; [by right| |done].
  by rewrite Hr, (blocked_client h r y).
Qed.

Lemma nf_server h y :
  nf act y → no_faults y → h ∈ tail (server_threads add_const JOB_NUM JOB_SIZE) →
  h (server y) = Ok None.
Proof.
  intros Hb [_ Hn _ _] Hh. destruct (Hn h) as [r Hr]; [by right|].
  by rewrite Hr, (blocked_server h r y).
Qed.

Ltac in_threads := repeat first [apply list_elem_of_here|apply list_elem_of_further].

Lemma client_reader_acts v done y :
  inv v done y → live y → no_faults y → nf act y → job_finished (client y) < JN → ¬ stalled y →
  reader (client y) = Act.
Proof.
  intros Hi Hl Hn Hb Hf Hs. unfold stalled in Hs. pose proof (live_client _ _ Hl) as Hc.
  destruct (inv_valid add_const JOB_NUM JOB_SIZE Hnum Hsize v done y Hi) as [Hj _].
  apply (client_reader_blocked JOB_NUM).
  - apply nf_client; [done|done|tauto|in_threads].
  - intros Hr. apply (cl_reader_end _ _ Hc) in Hr. lia.
  - apply Hc.
  - intros Hbal.
    destruct (balancing_acts JOB_NUM JOB_SIZE Hnum Hsize (client y))
      as [|[|(h & r & Hh & Hr)]]; [apply Hi|done|done|tauto|tauto|].
    apply blocked_client in Hr; [done|done|]. unfold client_threads. cbn [tail].
    rewrite !elem_of_cons in *. tauto.
  - done.
Qed.

Lemma server_reader_checks v done y :
  inv v done y → live y → nf act y → ¬ stalled y → reader (server y) = Check.
Proof.
  intros Hi Hl Hb Hs. unfold stalled in Hs. pose proof (live_server _ _ Hl) as Hsl.
  destruct (inv_valid add_const JOB_NUM JOB_SIZE Hnum Hsize v done y Hi) as [_ Hj].
  assert (Hbal : ¬ balancing (reader (server y))).
  { intros Hbal.
    destruct (balancing_acts JOB_NUM JOB_SIZE Hnum Hsize (server y))
      as [|[Hz|(h & r & Hh & Hr)]]; [apply Hi|done|done|tauto|by destruct (no_zero _ Hsl)|].
    apply blocked_server in Hr; [done|done|]. unfold server_threads. cbn [tail].
    rewrite !elem_of_cons in *. tauto. }
  pose proof (sl_reader _ Hsl) as Hr. destruct (reader (server y)); done || by destruct Hbal.
Qed.

(** The threads that take from the queues are blocked only on empty queues. *)
Lemma client_drained y :
  tidy y → live y → no_faults y → nf act y → job_finished (client y) < JN →
  ¬ takes_zero (client y) →
  job_todo (client y) = [] ∧ hand (worker (client y)) = [] ∧ job_tosend (client y) = [].
Proof.
  intros Ht Hl Hn Hb Hf Hz. pose proof (live_client _ _ Hl) as Hc.
  rewrite (assoc (∧)). split.
  - eapply (client_worker_blocked add_const JOB_NUM JOB_SIZE); [| |apply Hc|done].
    + apply nf_client; [done..|in_threads].
    + intros ?%(tidy_end _ _ Ht). lia.
  - eapply (write_to_server_blocked JOB_NUM JOB_SIZE); [| |apply Hc].
    + apply nf_client; [done..|in_threads].
    + intros ?%(cl_writer_end _ _ Hc). lia.
Qed.

Lemma server_drained y :
  live y → no_faults y → nf act y → job_finished (client y) < JN →
  job_todo (server y) = [] ∧ hand (worker (server y)) = [] ∧ job_tosend (server y) = [].
Proof.
  intros Hl Hn Hb Hf.
  assert (E : job_tosend (server y) = []).
  { eapply (write_to_clients_blocked JOB_NUM JOB_SIZE); [apply nf_server; [done..|in_threads]|].
    intros ?%(live_writer _ _ Hl). lia. }
  rewrite (assoc (∧)). split; [|done].
  destruct (compute_worker_blocked add_const JOB_NUM JOB_SIZE (server y)) as [|Hfull];
    [|apply Hl|done|].
  - apply nf_server; [done..|in_threads].
  - rewrite E in Hfull. cbn in Hfull. lia.
Qed.

(** With every thread blocked all queues and channels are empty. *)
Lemma blocked_empty v done y :
  full v → inv v done y → tidy y → live y → nf act y → job_finished (client y) < JN →
  reader (client y) = Act → reader (server y) = Check → outstanding JOB_NUM y = [].
Proof.
  intros Hv Hi Ht Hl Hb Hf Hrc Hrs. pose proof (inv_no_faults v done y Hv Hi Hl) as Hn.
  assert (Hmark : ∀ m, m ∈ c2s y ∨ m ∈ s2c y → m ≠ mark).
  { intros m Hm ->. enough (JN ≤ job_finished (client y)) by lia.
    apply (tidy_end _ _ Ht), (tidy_mark _ _ Ht). tauto. }
  destruct (server_drained y) as (E1 & Eh1 & E2); [done..|].
  destruct (client_drained y) as (E3 & Eh3 & E4); [done..|intros (? & ?); congruence|].
  assert (E5 : s2c y = []).
  { destruct (s2c y) as [|m down] eqn:Hm; [done|].
    destruct (no_fault_down _ _ _ _ Hn m) as [r Hr]; [rewrite Hm; by left|].
    rewrite (blocked_down m down r y) in Hr by done.
    apply (client_receive_blocked add_const JOB_NUM JOB_SIZE v) in Hr; [|done|..].
    - rewrite E3 in Hr. cbn in Hr. lia.
    - pose proof (inv_down _ _ _ _ _ _ Hi) as Hdn. rewrite Hm in Hdn. by apply Forall_cons in Hdn as [].
    - apply Hmark. right. by left. }
  assert (E6 : c2s y = []).
  { destruct (c2s y) as [|m up] eqn:Hm; [done|].
    destruct (no_fault_up _ _ _ _ Hn m) as [r Hr]; [rewrite Hm; by left|].
    rewrite (blocked_up m up r y) in Hr by done.
    apply (server_receive_blocked JOB_NUM JOB_SIZE Hnum Hsize v) in Hr; [|done|..].
    - rewrite E1 in Hr. cbn in Hr. lia.
    - pose proof (inv_up _ _ _ _ _ _ Hi) as Hup. rewrite Hm in Hup. by apply Forall_cons in Hup as [].
    - apply Hmark. left. by left. }
  unfold outstanding, own. by rewrite E1, E2, E3, E4, E5, E6, Eh1, Eh3, Hrc, Hrs.
Qed.

(** ** Runs from the start *)

Lemma reachable_live v w y :
  Nat.Even JOB_NUM → full v → full w → rtc step (start v w) y →
  (∃ done, inv v done y) ∧ tidy y ∧ live y.
Proof.
  intros He Hv Hw Hr.
  assert (Hall : ∀ z, rtc step (start v w) z → (∃ done, inv v done z) ∧ tidy z).
  { intros z. by apply reachable_tidy. }
  split; [by apply Hall|]. split; [by apply Hall|]. revert y Hr.
  refine (rtc_ind_r _ _ (start_live _ v w Hnum He) _). intros y z Hy Hs Hl.
  destruct (Hall y Hy) as ((done & Hi) & Ht).
  apply step_cases in Hs as [Hs|Hs]; [by eapply tick_live|].
  eapply (act_live add_const JOB_NUM JOB_SIZE v); [done|apply Hi|done..].
Qed.

(** A run that cannot go on has stalled or is complete. *)
Lemma normal_run v w y :
  Nat.Even JOB_NUM → full v → full w → rtc step (start v w) y → nf act y → ¬ stalled y →
  job_finished (client y) = JN ∧ job_array (client y) = work add_const <$> v.
Proof.
  intros He Hv Hw Hr Hb Hs. destruct (reachable_live v w y He Hv Hw Hr) as ((done & Hi) & Ht & Hl).
  assert (Hfin : job_finished (client y) = JN).
  { pose proof (inv_le _ _ _ Hnum Hsize _ _ _ Hi).
    destruct (decide (job_finished (client y) < JN)) as [Hlt|]; [|lia].
    pose proof (inv_no_faults v done y Hv Hi Hl).
    apply (inv_empty v done); [done|]. apply (blocked_empty v done); try done.
    - by apply (client_reader_acts v done).
    - by apply (server_reader_checks v done). }
  split; [done|]. by apply (inv_result add_const JOB_NUM JOB_SIZE Hnum Hsize v Hv done).
Qed.

Lemma starved_dec n : starved n ∨ ¬ starved n.
Proof.
  unfold starved. destruct (reader n) as [| | | |k| |], (job_todo n); try (right; naive_solver).
  destruct (decide (0 < k)); [left; by exists k|right; naive_solver].
Qed.

Lemma takes_zero_dec n : takes_zero n ∨ ¬ takes_zero n.
Proof.
  unfold takes_zero. destruct (reader n) as [| | | | |k z|]; try (right; naive_solver).
  destruct (decide (z = 0)) as [->|]; [left; by exists k|right; naive_solver].
Qed.

Lemma stalled_dec y : stalled y ∨ ¬ stalled y.
Proof.
  unfold stalled. destruct (starved_dec (client y)), (takes_zero_dec (client y)),
    (starved_dec (server y)); tauto.
Qed.

Lemma normal_result v w y :
  Nat.Even JOB_NUM → full v → full w → rtc step (start v w) y → nf act y → ¬ stalled y →
  job_finished (client y) = JN ∧ sequential v = Ok (job_array (client y)).
Proof.
  intros He Hv Hw Hr Hb Hs. destruct (normal_run v w y) as [Hf Ha]; [done..|].
  by rewrite Ha, sequential_ok.
Qed.

(** ** Properties *)

(** C3: Without queue lengths on the way every run ends, whatever the
    interleaving, after at most [14 * (JOB_NUM / 2) + 18] actions, and a run
    that cannot go on has finished every job and holds on the client the vector
    that one process computes from the same numbers, job after job. *)
Theorem jobs_complete v w k x :
  Nat.Even JOB_NUM → JN ≤ INT_MAX → full v → full w → nsteps act k (start v w) x →
  (k ≤ 14 * (JOB_NUM / 2) + 18)%nat ∧
  (nf act x → job_finished (client x) = JN ∧ sequential v = Ok (job_array (client x))) ∧
  ∃ y, rtc act x y ∧ nf act y.
Proof.
  intros He Hmax Hv Hw Hk. pose proof (nsteps_run _ _ _ _ _ _ Hk) as Hr.
  assert (Hq : quiet x).
  { eapply rtc_quiet; [|apply start_quiet]. apply rtc_nsteps. by exists k. }
  pose proof (jobs_run_weight add_const JOB_NUM JOB_SIZE Hnum Hsize Hmax v w He Hv Hw k 0 x Hr).
  split; [lia|]. split.
  - intros Hb. apply (normal_result v w); try done; [by eapply run_rtc|by apply quiet_not_stalled].
  - destruct (run_normal add_const JOB_NUM JOB_SIZE Hnum Hsize Hmax v w He Hv Hw k 0 x Hr)
      as (a' & z & _ & Hz & Hb). by exists z.
Qed.
End complete.

(** ** Concrete instances *)

Lemma jobs_complete_witness :
  ∃ y, rtc (act Z.succ 2 2) ex_start y ∧ job_finished (client y) = 2 ∧
    sequential Z.succ 2 2 [1; 2; 3; 4] = Ok (job_array (client y)).
Proof.
  assert (Hall : ∀ k x, nsteps (act Z.succ 2 2) k ex_start x →
    (k ≤ 14 * (2 / 2) + 18)%nat ∧
    (nf (act Z.succ 2 2) x → job_finished (client x) = 2 ∧
       sequential Z.succ 2 2 [1; 2; 3; 4] = Ok (job_array (client x))) ∧
    ∃ y, rtc (act Z.succ 2 2) x y ∧ nf (act Z.succ 2 2) y).
  { intros k x Hx.
    apply (jobs_complete Z.succ 2 2 ltac:(lia) ltac:(lia) [1; 2; 3; 4] [0; 0; 0; 0] k x);
      [exists 1%nat; reflexivity|vm_compute; discriminate|reflexivity|reflexivity|exact Hx]. }
  destruct (Hall 0%nat ex_start (nsteps_O _ _)) as (_ & _ & y & Hy & Hnf).
  exists y. split; [exact Hy|]. apply rtc_nsteps in Hy as [k Hk].
  exact (proj1 (proj2 (Hall k y Hk)) Hnf).
Defined.
