(* ===== verification/JobsSockets.v ===== *)
(** * MP4: progress over sockets of any size

    A socket takes a message when it has room for it, or when it is empty and
    the peer's reader is waiting for its bytes; a thread that writes without
    room waits, and holds [transfer_mutex], which all sends of its process take,
    while it waits.  Whatever the room is, a run goes on until the computation is
    complete, unless a reader stalls in the loop of [adaptor] or both readers
    are about to write there, so that neither reads. *)
From stdpp Require Import prelude list_tactics.
From S2P Require Import Prelude CInt Jobs JobsData JobsSystem JobsTidy JobsRun JobsLive.
From S2P Require Import JobsComplete.
Open Scope Z_scope.

(** ** Writing to a socket *)

(** Whether a socket that holds these messages, or bytes, has room for any
    further message.  The thread that writes next may be any of those with a
    message, and while it waits the others wait for [transfer_mutex]; so room for
    one message only is no room. *)
Definition room (A : Type) : Type := list A → bool.

(** The messages [ms] can be written behind [chan]; [reading]: the peer's reader
    waits for bytes. *)
Definition takes {A D} (r : room A) (chan : list A) (reading : Prop) (ms : list (@message D)) : Prop :=
  ms = [] ∨ r chan = true ∨ (chan = [] ∧ reading).

(** A socket that only passes bytes to a waiting reader. *)
Definition no_room {A} : room A := λ _, false.

Section sockets.
Context {D : Type} (add_const : D → D) (JOB_NUM JOB_SIZE : nat).

Abbreviation node := (@Jobs.node D).
Abbreviation message := (@Jobs.message D).
Abbreviation sys := (@JobsSystem.sys D).
Abbreviation JN := (Z.of_nat JOB_NUM).
Abbreviation full := (JobsData.full JOB_NUM JOB_SIZE).
Abbreviation step := (JobsSystem.step add_const JOB_NUM JOB_SIZE).
Abbreviation start := (JobsSystem.start JOB_NUM).
Abbreviation tidy := (JobsTidy.tidy JOB_NUM).
Abbreviation act := (JobsRun.act add_const JOB_NUM JOB_SIZE).
Abbreviation run := (JobsRun.run add_const JOB_NUM JOB_SIZE).
Abbreviation inv := (JobsSystem.inv add_const JOB_NUM JOB_SIZE).
Abbreviation live := (JobsLive.live JOB_NUM).
Abbreviation no_faults := (JobsLive.no_faults add_const JOB_NUM JOB_SIZE).
Abbreviation sequential := (JobsComplete.sequential add_const JOB_NUM JOB_SIZE).
Implicit Types (n : node) (m : message) (ms : list message) (x y z : sys) (r : room message).

(** The actions that do not wait for a socket. *)
Inductive sact r : sys → sys → Prop :=
  | sact_client h c s up down c' ms :
      h ∈ tail (client_threads add_const JOB_NUM JOB_SIZE) → h c = Ok (Some (c', ms)) →
      takes r up (reader s = Check) ms →
      sact r (Sys c s up down) (Sys c' s (up ++ ms) down)
  | sact_client_receive c s up m down c' ms :
      client_receive JOB_NUM JOB_SIZE m c = Ok (Some (c', ms)) →
      sact r (Sys c s up (m :: down)) (Sys c' s (up ++ ms) down)
  | sact_server h c s up down s' ms :
      h ∈ tail (server_threads add_const JOB_NUM JOB_SIZE) → h s = Ok (Some (s', ms)) →
      takes r down (reader c = Act) ms →
      sact r (Sys c s up down) (Sys c s' up (down ++ ms))
  | sact_server_receive c s m up down s' ms :
      server_receive JOB_NUM JOB_SIZE m s = Ok (Some (s', ms)) →
      sact r (Sys c s (m :: up) down) (Sys c s' up (down ++ ms)).

Lemma sact_act r x y : sact r x y → act x y.
Proof.
  intros [h c s up down c' ms Hh He _|c s up m down c' ms He|
          h c s up down s' ms Hh He _|c s m up down s' ms He].
  - by eapply act_client.
  - by apply act_client_receive.
  - by eapply act_server.
  - by apply act_server_receive.
Qed.

Lemma sact_mono r x y : sact no_room x y → sact r x y.
Proof.
  assert (Ht : ∀ chan P ms, takes no_room chan P ms → takes r chan P ms).
  { intros chan P ms [?|[?|?]]; [by left|done|by right; right]. }
  intros []; [eapply sact_client|eapply sact_client_receive|eapply sact_server
             |eapply sact_server_receive]; eauto.
Qed.

(** A reader in [adaptor] with a message to write. *)
Definition writing n : Prop :=
  ∃ h n' ms, h ∈ [adaptor; adaptor_loop JOB_NUM JOB_SIZE] ∧ h n = Ok (Some (n', ms)) ∧ ms ≠ [].

(** Both readers are. *)
Definition crossed y : Prop := writing (client y) ∧ writing (server y).

(** ** Whether an action is possible is decidable *)

Lemma some_sure n (hs : list (@action D)) (P : list message → Prop) :
  (∀ ms, P ms ∨ ¬ P ms) →
  (∃ h n' ms, h ∈ hs ∧ h n = Ok (Some (n', ms)) ∧ P ms) ∨
  (∀ h n' ms, h ∈ hs → h n = Ok (Some (n', ms)) → ¬ P ms).
Proof.
  intros HP. induction hs as [|h hs [(h' & n' & ms & Hh & Hr & Hp)|IH]].
  - right. by intros h n' ms ?%not_elem_of_nil.
  - left. exists h', n', ms. split; [by right|done].
  - assert (Hh : (∃ n' ms, h n = Ok (Some (n', ms)) ∧ P ms) ∨
                 ∀ n' ms, h n = Ok (Some (n', ms)) → ¬ P ms).
    { destruct (h n) as [[[n' ms]|]|]; [|by right|by right].
      destruct (HP ms); [left; by exists n', ms|right; by intros ? ? [= <- <-]]. }
    destruct Hh as [(n' & ms & Hr & Hp)|Hh].
    + left. exists h, n', ms. by split; [left|].
    + right. intros h' n' ms [->|Hin]%elem_of_cons; [apply Hh|by apply IH].
Qed.

Lemma takes_dec r (chan : list message) (P : Prop) ms : P ∨ ¬ P → takes r chan P ms ∨ ¬ takes r chan P ms.
Proof.
  unfold takes. destruct ms as [|m ms]; [by left; left|].
  destruct (r chan) eqn:Hr; [by left; right; left|].
  destruct chan as [|m' chan]; [|right; naive_solver]. intros [?|?]; [by left; right; right|].
  right. naive_solver.
Qed.

Lemma sact_dec r y : red (sact r) y ∨ nf (sact r) y.
Proof.
  destruct y as [c s up down].
  assert (Hs : reader s = Check ∨ reader s ≠ Check) by (destruct (reader s); auto).
  assert (Hc : reader c = Act ∨ reader c ≠ Act) by (destruct (reader c); auto).
  destruct (some_sure c (tail (client_threads add_const JOB_NUM JOB_SIZE))
    (takes r up (reader s = Check))) as [(h & c' & ms & Hh & Hr & Ht)|Hcn];
    [by intros; apply takes_dec|left; eexists; by eapply sact_client|].
  destruct (some_receive (client_receive JOB_NUM JOB_SIZE) c down)
    as [(m & ms' & [c' ms] & -> & Hr)|Hcr]; [left; eexists; by apply sact_client_receive|].
  destruct (some_sure s (tail (server_threads add_const JOB_NUM JOB_SIZE))
    (takes r down (reader c = Act))) as [(h & s' & ms & Hh & Hr & Ht)|Hsn];
    [by intros; apply takes_dec|left; eexists; by eapply sact_server|].
  destruct (some_receive (server_receive JOB_NUM JOB_SIZE) s up)
    as [(m & ms' & [s' ms] & -> & Hr)|Hsr]; [left; eexists; by apply sact_server_receive|].
  right. intros [z Ha]. inversion Ha; subst; naive_solver.
Qed.

(** ** A state without such an action *)

(** No action that is left unwritten is silent, and none has a waiting reader. *)
Lemma nf_client_sends h c' ms y :
  nf (sact no_room) y → h ∈ tail (client_threads add_const JOB_NUM JOB_SIZE) →
  h (client y) = Ok (Some (c', ms)) → ms ≠ [] ∧ ¬ (c2s y = [] ∧ reader (server y) = Check).
Proof.
  destruct y as [c s up down]. intros Hb Hh Hr.
  split; [intros ->|intros H]; apply Hb; eexists; (eapply sact_client; [done|done|]);
    [by left|by right; right].
Qed.

Lemma nf_server_sends h s' ms y :
  nf (sact no_room) y → h ∈ tail (server_threads add_const JOB_NUM JOB_SIZE) →
  h (server y) = Ok (Some (s', ms)) → ms ≠ [] ∧ ¬ (s2c y = [] ∧ reader (client y) = Act).
Proof.
  destruct y as [c s up down]. intros Hb Hh Hr.
  split; [intros ->|intros H]; apply Hb; eexists; (eapply sact_server; [done|done|]);
    [by left|by right; right].
Qed.

Lemma nf_down r m down res y :
  nf (sact r) y → s2c y = m :: down → client_receive JOB_NUM JOB_SIZE m (client y) = Ok res →
  res = None.
Proof.
  intros Hb Hm Hr. destruct res as [[c' ms]|]; [|done]. destruct y as [c s up d].
  cbn in Hm, Hr. subst d. destruct Hb. eexists. by apply sact_client_receive.
Qed.

Lemma nf_up r m up res y :
  nf (sact r) y → c2s y = m :: up → server_receive JOB_NUM JOB_SIZE m (server y) = Ok res →
  res = None.
Proof.
  intros Hb Hm Hr. destruct res as [[s' ms]|]; [|done]. destruct y as [c s u down].
  cbn in Hm, Hr. subst u. destruct Hb. eexists. by apply sact_server_receive.
Qed.

Context (Hnum : (0 < JOB_NUM)%nat) (Hsize : (0 < JOB_SIZE)%nat).

(** A queue and the messages that bring its next jobs hold [JOB_NUM] jobs at
    most. *)
Lemma places v done y :
  inv v done y →
  (length (jobs (job_todo (client y))) + length (msg_jobs JOB_NUM (s2c y)) ≤ JOB_NUM)%nat ∧
  (length (jobs (job_todo (server y))) + length (msg_jobs JOB_NUM (c2s y)) ≤ JOB_NUM)%nat.
Proof.
  intros Hi. pose proof (Permutation_length (inv_perm _ _ _ _ _ _ Hi)) as Hp.
  unfold outstanding, own, all_jobs in Hp. rewrite !length_app, length_fmap, length_seq in Hp. lia.
Qed.

Lemma jobs_all q : -1 ∉ q → jobs q = q.
Proof.
  induction q as [|z q IH]; [done|]. intros [Hz Hq]%not_elem_of_cons.
  unfold jobs in *. rewrite filter_cons_True by congruence. by rewrite IH.
Qed.

(** So the queue has a place for the job of the message that comes next. *)
Lemma down_received v done m down y :
  full v → inv v done y → tidy y → live y → nf (sact no_room) y →
  job_finished (client y) < JN → reader (client y) = Act → s2c y = m :: down → False.
Proof.
  intros Hv Hi Ht Hl Hb Hf Hr Hm.
  assert (Hk : m ≠ mark).
  { intros ->. enough (JN ≤ job_finished (client y)) by lia. apply (tidy_end _ _ Ht), (tidy_mark _ _ Ht).
    rewrite Hm. do 3 right. by left. }
  destruct (no_fault_down _ _ _ _ (inv_no_faults add_const JOB_NUM JOB_SIZE Hnum Hsize v done y Hv Hi Hl) m)
    as [res He]; [rewrite Hm; by left|].
  rewrite (nf_down no_room m down res y) in He by done.
  pose proof (inv_down _ _ _ _ _ _ Hi) as Hdn. rewrite Hm in Hdn. apply Forall_cons in Hdn as [Hd _].
  pose proof (client_receive_blocked add_const JOB_NUM JOB_SIZE v m _ He Hr Hd Hk) as Hq.
  assert (Hj : ∃ j, msg_job JOB_NUM m = Some j).
  { destruct m as [id [p|]|k|]; [by eexists| |by unfold client_receive in He; rewrite Hr in He..].
    destruct Hd as [Hd|[(j & _ & Hd)|(j & _ & Hd)]]; [|done..]. cbn in Hd. by subst. }
  destruct Hj as [j Hj]. destruct (places v done y Hi) as [Hp _].
  rewrite Hm, msg_jobs_cons, Hj, jobs_all in Hp; [cbn [length] in Hp; lia|].
  intros Hin%(cl_todo _ _ (live_client _ _ Hl)). lia.
Qed.

Lemma up_received v done m up y :
  full v → inv v done y → tidy y → live y → nf (sact no_room) y →
  job_finished (client y) < JN → reader (server y) = Check → c2s y = m :: up → False.
Proof.
  intros Hv Hi Ht Hl Hb Hf Hr Hm.
  assert (Hk : m ≠ mark).
  { intros ->. enough (JN ≤ job_finished (client y)) by lia. apply (tidy_end _ _ Ht), (tidy_mark _ _ Ht).
    rewrite Hm. right. left. by left. }
  destruct (no_fault_up _ _ _ _ (inv_no_faults add_const JOB_NUM JOB_SIZE Hnum Hsize v done y Hv Hi Hl) m)
    as [res He]; [rewrite Hm; by left|].
  rewrite (nf_up no_room m up res y) in He by done.
  pose proof (inv_up _ _ _ _ _ _ Hi) as Hup. rewrite Hm in Hup. apply Forall_cons in Hup as [Hd _].
  pose proof (server_receive_blocked JOB_NUM JOB_SIZE Hnum Hsize v m _ He Hr Hd Hk) as Hq.
  assert (Hj : ∃ j, msg_job JOB_NUM m = Some j).
  { destruct Hd as [Hd|(id & j & -> & Hj & Hid)]; [|by eexists].
    destruct m as [id [p|]|k|]; [done| |by unfold server_receive in He; rewrite Hr in He..].
    cbn in Hd. by subst. }
  destruct Hj as [j Hj]. destruct (places v done y Hi) as [_ Hp].
  rewrite Hm, msg_jobs_cons, Hj, jobs_all in Hp; [cbn [length] in Hp; lia|].
  pose proof (sl_todo _ (live_server _ _ Hl)) as Hpos. rewrite Forall_forall in Hpos.
  intros Hin%Hpos. lia.
Qed.

Ltac in_threads := repeat first [apply list_elem_of_here|apply list_elem_of_further].

(** A reader of an unfinished run waits for a message, or is about to write. *)
Lemma server_reader v done y :
  inv v done y → live y → nf (sact no_room) y → ¬ stalled y →
  reader (server y) = Check ∨ writing (server y).
Proof.
  intros Hi Hl Hb Hs. unfold stalled in Hs. pose proof (live_server _ _ Hl) as Hsl.
  assert (Hr : reader (server y) = Check ∨ balancing (reader (server y))).
  { pose proof (sl_reader _ Hsl) as Hr. destruct (reader (server y)); cbn in *; tauto. }
  destruct Hr as [|Hr]; [by left|right].
  destruct (balancing_acts JOB_NUM JOB_SIZE Hnum Hsize (server y))
    as [|[Hz|(h & [n' ms] & Hh & Hr')]]; [apply Hi| |done|tauto|by destruct (no_zero _ Hsl)|].
  { by apply (inv_valid add_const JOB_NUM JOB_SIZE Hnum Hsize v done). }
  exists h, n', ms. split; [done|]. split; [done|].
  refine (proj1 (nf_server_sends h n' ms y Hb _ Hr')).
  unfold server_threads. cbn [tail]. rewrite !elem_of_cons in *. tauto.
Qed.

Lemma client_reader v done y :
  full v → inv v done y → live y → nf (sact no_room) y → job_finished (client y) < JN → ¬ stalled y →
  reader (client y) = Act ∨ writing (client y).
Proof.
  intros Hv Hi Hl Hb Hf Hs. unfold stalled in Hs. pose proof (live_client _ _ Hl) as Hc.
  assert (Hr : reader (client y) = Check ∨ reader (client y) = Act ∨ balancing (reader (client y))).
  { pose proof (cl_reader _ _ Hc) as Hr. destruct (reader (client y)) eqn:E; cbn in *; try tauto.
    pose proof (cl_reader_end _ _ Hc E). lia. }
  destruct Hr as [Hr|[Hr|Hr]]; [exfalso|by left|right].
  - destruct (nf_client_sends (client_reader_check JOB_NUM) (set_reader Act (client y)) [] y)
      as [[] _]; [done|in_threads| |done].
    unfold client_reader_check. rewrite Hr, decide_False by lia. done.
  - destruct (balancing_acts JOB_NUM JOB_SIZE Hnum Hsize (client y))
      as [|[Hz|(h & [n' ms] & Hh & Hr')]]; [apply Hi| |done|tauto|tauto|].
    { by apply (inv_valid add_const JOB_NUM JOB_SIZE Hnum Hsize v done). }
    exists h, n', ms. split; [done|]. split; [done|].
    refine (proj1 (nf_client_sends h n' ms y Hb _ Hr')).
    unfold client_threads. cbn [tail]. rewrite !elem_of_cons in *. tauto.
Qed.

Lemma writing_client_acts y :
  nf (sact no_room) y → writing (client y) → ¬ (c2s y = [] ∧ reader (server y) = Check).
Proof.
  intros Hb (h & n' & ms & Hh & Hr & _). refine (proj2 (nf_client_sends h n' ms y Hb _ Hr)).
  unfold client_threads. cbn [tail]. rewrite !elem_of_cons in *. tauto.
Qed.

Lemma writing_server_acts y :
  nf (sact no_room) y → writing (server y) → ¬ (s2c y = [] ∧ reader (client y) = Act).
Proof.
  intros Hb (h & n' & ms & Hh & Hr & _). refine (proj2 (nf_server_sends h n' ms y Hb _ Hr)).
  unfold server_threads. cbn [tail]. rewrite !elem_of_cons in *. tauto.
Qed.

(** With both channels empty and both readers waiting every action is possible
    over the sockets. *)
Lemma sact_all y :
  nf (sact no_room) y → c2s y = [] → s2c y = [] → reader (server y) = Check →
  reader (client y) = Act → nf act y.
Proof.
  intros Hb Hup Hdn Hs Hc [z Ha].
  destruct Ha as [h c s up down c' ms Hh He|c s up m down c' ms He|
                  h c s up down s' ms Hh He|c s m up down s' ms He];
    cbn [client server c2s s2c] in *; try done; apply Hb; eexists.
  - eapply sact_client; [done|done|by right; right].
  - eapply sact_server; [done|done|by right; right].
Qed.

(** A run that cannot go on has stalled, is complete, or both readers are about
    to write. *)
Lemma nf_crossed v w y :
  Nat.Even JOB_NUM → full v → full w → rtc step (start v w) y → nf (sact no_room) y →
  job_finished (client y) < JN → ¬ stalled y → crossed y.
Proof.
  intros He Hv Hw Hr Hb Hf Hs.
  destruct (reachable_live add_const JOB_NUM JOB_SIZE Hnum Hsize v w y He Hv Hw Hr)
    as ((done & Hi) & Ht & Hl).
  pose proof (client_reader v done y Hv Hi Hl Hb Hf Hs) as Hc.
  destruct (s2c y) as [|m down] eqn:Hdn; [|destruct Hc as [Hc|Hc];
    [by destruct (down_received v done m down y)|]].
  - destruct (server_reader v done y Hi Hl Hb Hs) as [Hrs|Hws].
    + destruct (c2s y) as [|m up] eqn:Hup; [|by destruct (up_received v done m up y)].
      destruct Hc as [Hc|Hc]; [|by destruct (writing_client_acts y)].
      destruct (normal_run add_const JOB_NUM JOB_SIZE Hnum Hsize v w y) as [Hfin _]; try done; [|lia].
      by apply sact_all.
    + destruct Hc as [Hc|Hc]; [by destruct (writing_server_acts y)|by split].
  - destruct (server_reader v done y Hi Hl Hb Hs) as [Hrs|Hws]; [exfalso|by split].
    destruct (c2s y) as [|m' up] eqn:Hup; [by destruct (writing_client_acts y)|].
    by destruct (up_received v done m' up y).
Qed.

Lemma complete_result v w y :
  Nat.Even JOB_NUM → full v → full w → rtc step (start v w) y → job_finished (client y) = JN →
  sequential v = Ok (job_array (client y)).
Proof.
  intros He Hv Hw Hr Hf.
  destruct (reachable_live add_const JOB_NUM JOB_SIZE Hnum Hsize v w y He Hv Hw Hr) as ((done & Hi) & _ & _).
  rewrite (inv_result add_const JOB_NUM JOB_SIZE Hnum Hsize v Hv done y Hi Hf).
  by apply sequential_ok.
Qed.

(** In every state. *)
Lemma sockets_cases r v w y :
  Nat.Even JOB_NUM → full v → full w → rtc step (start v w) y →
  job_finished (client y) = JN ∧ sequential v = Ok (job_array (client y)) ∨
  red (sact r) y ∨ stalled y ∨ crossed y.
Proof.
  intros He Hv Hw Hr.
  destruct (reachable_live add_const JOB_NUM JOB_SIZE Hnum Hsize v w y He Hv Hw Hr) as ((done & Hi) & _ & _).
  pose proof (inv_le _ _ _ Hnum Hsize _ _ _ Hi).
  destruct (decide (job_finished (client y) < JN)) as [Hlt|].
  - destruct (stalled_dec y); [by right; right; left|].
    destruct (sact_dec no_room y) as [[z Hz]|Hb].
    + right; left. exists z. by apply sact_mono.
    + right; right; right. by apply (nf_crossed v w).
  - left. split; [lia|]. apply (complete_result v w); [done..|lia].
Qed.

Lemma sockets_normal r v w a t y :
  JN ≤ INT_MAX → Nat.Even JOB_NUM → full v → full w → run a t (start v w) y →
  ∃ a' z, run a' t (start v w) z ∧ rtc (sact r) y z ∧ nf (sact r) z.
Proof.
  intros Hmax He Hv Hw. remember (weight JOB_NUM y) as k eqn:Hk. revert a y Hk.
  induction (lt_wf k) as [k _ IH]. intros a y -> Hr.
  destruct (sact_dec r y) as [[z Hz]|Hnf]; [|by exists a, y].
  pose proof (sact_act r y z Hz) as Ha.
  destruct (run_tidy add_const JOB_NUM JOB_SIZE Hnum Hsize v w He Hv Hw _ _ _ Hr) as [_ Hy].
  destruct (IH (weight JOB_NUM z)) with (a := S a) (y := z) as (a' & u & Hu & Hzu & Hnf).
  - by apply (act_weight add_const JOB_NUM JOB_SIZE).
  - done.
  - by eapply run_act.
  - exists a', u. split; [done|]. split; [by eapply rtc_l|done].
Qed.

(** ** Schedules over sockets *)

(** Whether the messages of a turn can be written. *)
Definition fits r (chan : list message) (reading : bool) ms : bool :=
  match ms, chan with
  | [], _ => true
  | _, [] => r chan || reading
  | _, _ => r chan
  end.
Definition reads (p q : pc) : bool :=
  match p, q with Check, Check | Act, Act => true | _, _ => false end.
Definition ready r (x : sys) (u : turn) : bool :=
  match u with
  | CThread i =>
      match client_threads add_const JOB_NUM JOB_SIZE !! i with
      | Some h => match h (client x) with
                  | Ok (Some (_, ms)) => fits r (c2s x) (reads (reader (server x)) Check) ms
                  | _ => false
                  end
      | None => false
      end
  | SThread i =>
      match server_threads add_const JOB_NUM JOB_SIZE !! i with
      | Some h => match h (server x) with
                  | Ok (Some (_, ms)) => fits r (s2c x) (reads (reader (client x)) Act) ms
                  | _ => false
                  end
      | None => false
      end
  | _ => true
  end.

(** A tick, or an action for which no thread waits. *)
Definition goes r x y : Prop := tick x y ∨ sact r x y.

Fixpoint socket_schedule r (us : list turn) (x : sys) : option sys :=
  match us with
  | [] => Some x
  | u :: us' =>
      if ready r x u then y ← turn_step add_const JOB_NUM JOB_SIZE x u; socket_schedule r us' y
      else None
  end.

Lemma fits_takes r chan reading (P : Prop) ms :
  (reading = true → P) → fits r chan reading ms = true → takes r chan P ms.
Proof.
  intros HP. unfold fits, takes. destruct ms as [|m ms]; [by left|].
  destruct chan; [|by right; left]. intros [Hr|Hr]%orb_true_iff; [by right; left|right; right; auto].
Qed.

Lemma reads_eq p q : reads p q = true → p = q.
Proof. by destruct p, q. Qed.

Lemma ready_goes r x u y :
  ready r x u = true → turn_step add_const JOB_NUM JOB_SIZE x u = Some y → goes r x y.
Proof.
  destruct x as [c s up down], u as [i| |i|]; unfold ready, turn_step; cbn [client server c2s s2c].
  - destruct i as [|i]; [|cbn [lookup list_lookup]].
    + change (client_threads _ _ _ !! 0%nat) with (Some (@state_manager D)).
      cbn [mbind option_bind]. unfold state_manager. destruct (noted c) eqn:Hn; [done|].
      intros _ [= <-]. rewrite app_nil_r.
      left. by constructor.
    + change (client_threads _ _ _ !! S i) with (tail (client_threads add_const JOB_NUM JOB_SIZE) !! i).
      destruct (tail _ !! i) as [h|] eqn:Hh; [|done]. apply list_elem_of_lookup_2 in Hh.
      cbn [mbind option_bind]. destruct (h c) as [[[c' ms]|]|] eqn:He; try done.
      intros Hf [= <-]. right. eapply sact_client; [done|done|].
      by eapply fits_takes; [apply reads_eq|].
  - destruct down as [|m down]; [done|].
    destruct (client_receive _ _ m c) as [[[c' ms]|]|] eqn:He; try done. intros _ [= <-].
    right. by apply sact_client_receive.
  - destruct i as [|i].
    + change (server_threads _ _ _ !! 0%nat) with (Some (@state_manager D)).
      cbn [mbind option_bind]. unfold state_manager. destruct (noted s) eqn:Hn; [done|].
      intros _ [= <-]. rewrite app_nil_r.
      left. by constructor.
    + change (server_threads _ _ _ !! S i) with (tail (server_threads add_const JOB_NUM JOB_SIZE) !! i).
      destruct (tail _ !! i) as [h|] eqn:Hh; [|done]. apply list_elem_of_lookup_2 in Hh.
      cbn [mbind option_bind]. destruct (h s) as [[[s' ms]|]|] eqn:He; try done.
      intros Hf [= <-]. right. eapply sact_server; [done|done|].
      by eapply fits_takes; [apply reads_eq|].
  - destruct up as [|m up]; [done|].
    destruct (server_receive _ _ m s) as [[[s' ms]|]|] eqn:He; try done. intros _ [= <-].
    right. by apply sact_server_receive.
Qed.

Lemma socket_schedule_ok r us x y : socket_schedule r us x = Some y → rtc (goes r) x y.
Proof.
  revert x. induction us as [|u us IH]; intros x; cbn [socket_schedule].
  - intros [= <-]. apply rtc_refl.
  - destruct (ready r x u) eqn:Hu; [|done].
    destruct (turn_step add_const JOB_NUM JOB_SIZE x u) as [z|] eqn:Hz; [|done]. cbn [mbind option_bind].
    intros Hy. eapply rtc_l; [by eapply ready_goes|]. by apply IH.
Qed.

(** ** Properties *)

(** C20: Under any interleaving, whatever jobs the load balancing moves and
    whatever room the two sockets have: [t] queue lengths allow at most
    [14 * (JOB_NUM / 2) + 18 + (4 * JOB_NUM + 6) * t] other actions; no thread
    faults and none would on the message it receives next, but for the client's
    move of job 0; and in every state the client has the result of a single
    process, or some action is possible for which no thread has to wait for a
    socket, or a reader has stalled in the loop of [adaptor], or both readers are
    about to write there.  Without further queue lengths every run goes on over
    the sockets to a state where nothing is possible without waiting, and there
    one of the other three holds. *)
Theorem jobs_progress r v w a t x :
  Nat.Even JOB_NUM → JN ≤ INT_MAX → full v → full w → run a t (start v w) x →
  (a ≤ 14 * (JOB_NUM / 2) + 18 + (4 * JOB_NUM + 6) * t)%nat ∧ no_faults x ∧
  (job_finished (client x) = JN ∧ sequential v = Ok (job_array (client x)) ∨
   red (sact r) x ∨ stalled x ∨ crossed x) ∧
  ∃ y, rtc (sact r) x y ∧ nf (sact r) y ∧
    (job_finished (client y) = JN ∧ sequential v = Ok (job_array (client y)) ∨
     stalled y ∨ crossed y).
Proof.
  intros He Hmax Hv Hw Hr. pose proof (run_rtc _ _ _ _ _ _ _ Hr) as Hs.
  destruct (reachable_live add_const JOB_NUM JOB_SIZE Hnum Hsize v w x He Hv Hw Hs) as ((done & Hi) & Ht & Hl).
  pose proof (jobs_run_weight add_const JOB_NUM JOB_SIZE Hnum Hsize Hmax v w He Hv Hw a t x Hr).
  split; [lia|]. split; [by apply (inv_no_faults add_const JOB_NUM JOB_SIZE Hnum Hsize v done)|].
  split; [by apply (sockets_cases r v w)|].
  destruct (sockets_normal r v w a t x) as (a' & z & Hz & Hxz & Hb); [done..|].
  exists z. split; [done|]. split; [done|].
  destruct (sockets_cases r v w z) as [|[[u Hu]|]]; [done..|by eapply run_rtc|tauto| |tauto].
  destruct Hb. by exists u.
Qed.
End sockets.

(** ** Concrete instances *)

(** The client reports its queue length, the server asks for a rebalance. *)
Definition ex_noted : @JobsSystem.sys Z :=
  Sys (set_noted (Some 1) (client ex_start)) (server ex_start) [] [].
Definition ex_told : @JobsSystem.sys Z := Sys (client ex_start) (server ex_start) [State 1] [].
Definition ex_adapting : @JobsSystem.sys Z :=
  Sys (client ex_start) (set_reader (Adapting (-1)) (set_peer 1 (server ex_start))) [] [].
Definition ex_answered : @JobsSystem.sys Z :=
  Sys (client ex_start) (set_peer 1 (server ex_start)) [] [Rebalance].

Lemma ex_answered_run : run Z.succ 2 2 3 1 ex_start ex_answered.
Proof.
  apply (run_act Z.succ 2 2 2 1 ex_start ex_adapting).
  - apply (run_act Z.succ 2 2 1 1 ex_start ex_told).
    + apply (run_act Z.succ 2 2 0 1 ex_start ex_noted).
      * apply (run_tick Z.succ 2 2 0 0 ex_start ex_start); [constructor|].
        by apply (tick_client (client ex_start) (server ex_start) [] []).
      * apply (act_client Z.succ 2 2 send_state (client ex_noted) (server ex_start) [] []
                 (client ex_start) [State 1]); [by left|reflexivity].
    + by apply (act_server_receive Z.succ 2 2 (client ex_start) (server ex_start) (State 1) [] []).
  - apply (act_server Z.succ 2 2 adaptor (client ex_start) (server ex_adapting) [] []
             (server ex_answered) [Rebalance]); [by right; left|reflexivity].
Qed.

Lemma jobs_progress_witness :
  (3 ≤ 14 * (2 / 2) + 18 + 14 * 1)%nat ∧ no_faults Z.succ 2 2 ex_answered ∧
  ∃ y, rtc (sact Z.succ 2 2 no_room) ex_answered y ∧ nf (sact Z.succ 2 2 no_room) y ∧
    (job_finished (client y) = 2 ∧ sequential Z.succ 2 2 [1; 2; 3; 4] = Ok (job_array (client y)) ∨
     stalled y ∨ crossed 2 2 y).
Proof.
  destruct (jobs_progress Z.succ 2 2 ltac:(lia) ltac:(lia) no_room [1; 2; 3; 4] [0; 0; 0; 0] 3 1
    ex_answered) as (Ha & Hn & _ & Hz).
  - exists 1%nat. reflexivity.
  - vm_compute. discriminate.
  - reflexivity.
  - reflexivity.
  - exact ex_answered_run.
  - split; [exact Ha|]. split; [exact Hn|exact Hz].
Defined.

(** Over the smallest sockets both processes report their queue, and both
    readers find it short and ask for a rebalance at the same time. *)
Definition ex_meet : list turn :=
  [CThread 5; CThread 5; SReceive; CThread 6; CThread 0; SThread 0; CThread 1; SThread 1;
   SReceive; CReceive; CThread 4; CThread 4; CThread 4; CThread 4; CThread 5; SThread 4; SThread 4].
Definition ex_met_client (k : option Z) : @node Z :=
  Node [6001; 6002; 3; 4] [] [] 1 1 false Act Act (Adapting 0) k.
Definition ex_met_server (k : option Z) : @node Z :=
  Node [0; 0; 6003; 6004] [] [1] 0 1 false Check Check (Adapting 0) k.
Definition ex_met (k l : option Z) : @JobsSystem.sys Z := Sys (ex_met_client k) (ex_met_server l) [] [].

Lemma ex_met_jammed k l : nf (sact Z.succ 2 2 no_room) (ex_met k l).
Proof.
  intros [z Ha]. unfold ex_met in Ha.
  inversion Ha as [h c s up down c' ms Hh He Ht| |h c s up down s' ms Hh He Ht|]; subst;
    unfold client_threads, server_threads in Hh; cbn [tail] in Hh;
    rewrite !elem_of_cons, elem_of_nil in Hh; clear Ha; unfold takes, no_room in Ht.
  - destruct Hh as [->|[->|[->|[->|[->|[->|[]]]]]]]; destruct k; vm_compute in He; try discriminate He;
      injection He as <- <-; destruct Ht as [Ht|[Ht|[_ Ht]]]; discriminate Ht.
  - destruct Hh as [->|[->|[->|[->|[->|[]]]]]]; destruct l; vm_compute in He; try discriminate He;
      injection He as <- <-; destruct Ht as [Ht|[Ht|[_ Ht]]]; discriminate Ht.
Qed.

(** There each waits until the other reads, and neither does again: job 1 is
    computed and its result is never sent. *)
Lemma sockets_deadlock :
  rtc (goes Z.succ 2 2 no_room) ex_start (ex_met None None) ∧
  ∀ y, rtc (goes Z.succ 2 2 no_room) (ex_met None None) y →
    crossed 2 2 y ∧ ¬ stalled y ∧ job_finished (client y) = 1 ∧ nf (sact Z.succ 2 2 no_room) y.
Proof.
  split; [apply socket_schedule_ok with (us := ex_meet); vm_compute; reflexivity|].
  intros y Hy. enough (∃ k l, y = ex_met k l) as (k & l & ->).
  { split; [|split; [|split; [done|apply ex_met_jammed]]].
    - split; exists adaptor; do 2 eexists; (split; [by left|]; split; [reflexivity|done]).
    - intros [(? & ? & _)|[(? & ?)|(? & ? & _)]]; discriminate. }
  remember (ex_met None None) as x eqn:Hx.
  assert (Hk : ∃ k l, x = ex_met k l) by (by eexists _, _). clear Hx.
  induction Hy as [x|x z y Hz _ IH]; [done|]. apply IH. destruct Hk as (k & l & ->).
  destruct Hz as [Ht|Ha]; [|destruct (ex_met_jammed k l); by exists z].
  unfold ex_met in Ht. inversion Ht; subst; by eexists _, _.
Qed.
