(* ===== verification/NetSystem.v ===== *)
(** * MP4: the whole system over the byte streams (src/MP4/client.c, server.c, utils.c)

    [JobsSystem] composes the threads of the two processes over channels of
    messages.  Here they are composed over the two byte streams of the socket:
    every send writes bytes and every receive takes a message apart with the
    reader of its process, in whatever pieces the socket moves them.  The two
    systems reach the same states, up to the moment when the client reads the
    end mark, which only happens when its work is done. *)
From stdpp Require Import prelude list_tactics.
From S2P Require Import Prelude CInt Wire Jobs Frames Streams JobsData JobsSystem JobsTidy JobsRun.
Open Scope Z_scope.

(** ** The processes over the streams *)

Section net.
(** The numbers are the bit patterns of doubles. *)
Context (add_const : Z → Z) (JOB_NUM JOB_SIZE : nat).

Abbreviation node := (@Jobs.node Z).
Abbreviation message := (@Jobs.message Z).
Abbreviation JN := (Z.of_nat JOB_NUM).
Abbreviation step := (JobsSystem.step add_const JOB_NUM JOB_SIZE).
Abbreviation valid := (Frames.valid JOB_SIZE).
Implicit Types (m : message) (ms : list message) (y : @JobsSystem.sys Z).

(** The bytes on their way to the server and to the client. *)
Record net : Type := Net { net_client : node; net_server : node; up : list byte; down : list byte }.
Implicit Types n : net.

(** Sending [ms] over a socket that neither closes nor fails turns the stream
    [bs] into [bs']. *)
Definition sent ms (bs bs' : list byte) : Prop :=
  ∃ throttle cpu l l', forallb works l = true ∧
    send_all throttle cpu ms (Socket [] bs l) = Some (Socket [] bs' l').

(** A reader takes [r] from the front of the stream. *)
Definition taken (frame : socket → option (option message * socket)) (bs : list byte)
    (r : option message) (bs' : list byte) : Prop :=
  ∃ l l', forallb works l = true ∧ frame (Socket bs [] l) = Some (r, Socket bs' [] l').

(** What a reader does with it: the client continues after a type it does not
    know, the server's thread returns. *)
Definition client_take (r : option message) : @action Z := λ c,
  match r with
  | Some m => client_receive JOB_NUM JOB_SIZE m c
  | None => Ok (Some (set_reader Check c, []))
  end.
Definition server_take (r : option message) : @action Z := λ s,
  match r with
  | Some m => server_receive JOB_NUM JOB_SIZE m s
  | None => Ok (Some (set_reader Exit s, []))
  end.

(** A message is in the stream once it is written, as in [JobsSystem.step]: a
    thread that waits for room has not taken its step. *)
Inductive net_step : net → net → Prop :=
  | net_client_thread h c s u d c' ms u' :
      h ∈ client_threads add_const JOB_NUM JOB_SIZE → h c = Ok (Some (c', ms)) → sent ms u u' →
      net_step (Net c s u d) (Net c' s u' d)
  | net_client_receive c s u d r d' c' ms u' :
      reader c = Act → taken (client_frame JOB_SIZE) d r d' →
      client_take r c = Ok (Some (c', ms)) → sent ms u u' →
      net_step (Net c s u d) (Net c' s u' d')
  | net_server_thread h c s u d s' ms d' :
      h ∈ server_threads add_const JOB_NUM JOB_SIZE → h s = Ok (Some (s', ms)) → sent ms d d' →
      net_step (Net c s u d) (Net c s' u d')
  | net_server_receive c s u d r u' s' ms d' :
      reader s = Check → taken (server_frame JOB_SIZE) u r u' →
      server_take r s = Ok (Some (s', ms)) → sent ms d d' →
      net_step (Net c s u d) (Net c s' u' d').

(** Its steps are ticks of the state managers and actions, as in JobsRun.v. *)
Inductive net_tick : net → net → Prop :=
  | net_tick_client c s u d :
      noted c = None →
      net_tick (Net c s u d) (Net (set_noted (Some (Z.of_nat (length (job_todo c)))) c) s u d)
  | net_tick_server c s u d :
      noted s = None →
      net_tick (Net c s u d) (Net c (set_noted (Some (Z.of_nat (length (job_todo s)))) s) u d).

Inductive net_act : net → net → Prop :=
  | net_act_client h c s u d c' ms u' :
      h ∈ tail (client_threads add_const JOB_NUM JOB_SIZE) → h c = Ok (Some (c', ms)) →
      sent ms u u' → net_act (Net c s u d) (Net c' s u' d)
  | net_act_client_receive c s u d r d' c' ms u' :
      reader c = Act → taken (client_frame JOB_SIZE) d r d' →
      client_take r c = Ok (Some (c', ms)) → sent ms u u' →
      net_act (Net c s u d) (Net c' s u' d')
  | net_act_server h c s u d s' ms d' :
      h ∈ tail (server_threads add_const JOB_NUM JOB_SIZE) → h s = Ok (Some (s', ms)) →
      sent ms d d' → net_act (Net c s u d) (Net c s' u d')
  | net_act_server_receive c s u d r u' s' ms d' :
      reader s = Check → taken (server_frame JOB_SIZE) u r u' →
      server_take r s = Ok (Some (s', ms)) → sent ms d d' →
      net_act (Net c s u d) (Net c s' u' d').

Definition net_start (v w : list Z) : net :=
  let y := start JOB_NUM v w in Net (client y) (server y) [] [].

(** The same processes, and the streams encode the channels. *)
Record represents n y : Prop := {
  rep_client : net_client n = client y;
  rep_server : net_server n = server y;
  rep_up : encodes (c2s y) (up n);
  rep_down : encodes (s2c y) (down n);
}.

(** The client has read the end mark, and with it bytes of later messages: it
    has its result and never reads again.  The server still understands all it
    is sent. *)
Record late (v : list Z) n : Prop := {
  late_finished : job_finished (net_client n) = JN;
  late_array : job_array (net_client n) = work add_const <$> v;
  late_worker : worker (net_client n) = Exit;
  late_reader : reader (net_client n) = Check ∨ reader (net_client n) = Exit;
  late_tosend : JobsSystem.valid JOB_NUM (job_tosend (net_client n));
  late_bounded : bounded JOB_NUM (net_client n);
  late_server : bounded JOB_NUM (net_server n) ∧ reader (net_server n) ≠ Exit;
  late_up : ∃ ms, Forall valid ms ∧ encodes ms (up n);
}.

(** ** Ticks and actions *)

Lemma sent_nothing bs bs' : sent [] bs bs' ↔ bs' = bs.
Proof.
  split.
  - by intros (throttle & cpu & l & l' & _ & [= <- _]).
  - intros ->. by exists 0, 0, [], [].
Qed.

Lemma net_step_cases n n' : net_step n n' ↔ net_tick n n' ∨ net_act n n'.
Proof.
  split.
  - intros [h c s u d c' ms u' Hh He Hs|c s u d r d' c' ms u' Hr Ht He Hs|
            h c s u d s' ms d' Hh He Hs|c s u d r u' s' ms d' Hr Ht He Hs].
    + apply elem_of_cons in Hh as [->|Hh]; [|right; by eapply net_act_client].
      apply state_manager_spec in He as (Hn & -> & ->). apply sent_nothing in Hs as ->.
      left. by constructor.
    + right. by eapply net_act_client_receive.
    + apply elem_of_cons in Hh as [->|Hh]; [|right; by eapply net_act_server].
      apply state_manager_spec in He as (Hn & -> & ->). apply sent_nothing in Hs as ->.
      left. by constructor.
    + right. by eapply net_act_server_receive.
  - intros [[c s u d Hn|c s u d Hn]|[h c s u d c' ms u' Hh He Hs|c s u d r d' c' ms u' Hr Ht He Hs|
            h c s u d s' ms d' Hh He Hs|c s u d r u' s' ms d' Hr Ht He Hs]].
    + eapply net_client_thread; [by left|by apply state_manager_spec|by apply sent_nothing].
    + eapply net_server_thread; [by left|by apply state_manager_spec|by apply sent_nothing].
    + eapply net_client_thread; [by right|done..].
    + by eapply net_client_receive.
    + eapply net_server_thread; [by right|done..].
    + by eapply net_server_receive.
Qed.

(** ** The messages of a run are valid *)

Context (Hnum : (0 < JOB_NUM)%nat) (Hsize : (0 < JOB_SIZE)%nat).
Context (Hjn : 2 * JN ≤ 2 ^ 31).
Context (Hadd : ∀ x, is_uint 64 x → is_uint 64 (add_const x)).
Context (v w : list Z) (Heven : Nat.Even JOB_NUM).
Context (Hv : full JOB_NUM JOB_SIZE v) (Hw : full JOB_NUM JOB_SIZE w).
Context (Hdoubles : Forall (is_uint 64) v).

Abbreviation inv := (JobsSystem.inv add_const JOB_NUM JOB_SIZE v).
Abbreviation reachable := (rtc step (start JOB_NUM v w)).
Abbreviation net_reachable := (rtc net_step (net_start v w)).

Lemma sint32 z : -1 ≤ z < 2 * JN → is_sint 32 z.
Proof. unfold is_sint. change (2 ^ (32 - 1)) with (2 ^ 31). lia. Qed.

Lemma work_uint64 x : is_uint 64 x → is_uint 64 (work add_const x).
Proof. intros Hx. unfold work. apply Nat.iter_invariant; auto. Qed.

Lemma data_valid id (f : Z → Z) j :
  (∀ x, is_uint 64 x → is_uint 64 (f x)) → (j < JOB_NUM)%nat → -1 < id < 2 * JN →
  valid (Data id (Some (f <$> slice JOB_SIZE v j))).
Proof.
  intros Hf Hj Hid. split_and!; [apply sint32; lia|lia| |].
  - rewrite length_fmap. by apply (slice_length JOB_NUM).
  - apply Forall_fmap. eapply Forall_impl; [|exact Hf]. unfold slice. by apply Forall_take, Forall_drop.
Qed.

Lemma no_job_valid m : no_job m → short JOB_NUM m → valid m.
Proof.
  destruct m as [id [p|]|k|]; cbn; try done. intros _ Hk. apply sint32. lia.
Qed.

Lemma up_valid m : up_ok JOB_NUM JOB_SIZE v m → short JOB_NUM m → valid m.
Proof.
  intros [Hm|(id & j & -> & Hj & Hid)] Hs; [by apply no_job_valid|].
  unfold before. rewrite <-(list_fmap_id (slice JOB_SIZE v j)).
  apply data_valid; [done|done|lia].
Qed.

Lemma down_valid m : down_ok add_const JOB_NUM JOB_SIZE v m → short JOB_NUM m → valid m.
Proof.
  intros [Hm|[(j & Hj & ->)|(j & Hj & ->)]] Hs; [by apply no_job_valid|..].
  - apply data_valid; [apply work_uint64|done|lia].
  - unfold before. rewrite <-(list_fmap_id (slice JOB_SIZE v j)).
    apply data_valid; [done|lia|lia].
Qed.

Lemma reachable_inv y : reachable y → (∃ done, inv done y) ∧ tidy JOB_NUM y.
Proof. by apply (reachable_tidy add_const JOB_NUM JOB_SIZE Hnum Hsize v w Heven). Qed.

Lemma reachable_valid y : reachable y → Forall valid (c2s y) ∧ Forall valid (s2c y).
Proof.
  intros Hr. destruct (reachable_inv y Hr) as ((done & Hi) & Ht).
  pose proof (inv_up _ _ _ _ _ _ Hi) as Hu. pose proof (inv_down _ _ _ _ _ _ Hi) as Hd.
  pose proof (tidy_up _ _ Ht) as Hus. pose proof (tidy_down _ _ Ht) as Hds.
  rewrite Forall_forall in Hu, Hd, Hus, Hds. split; apply Forall_forall; intros m Hm;
    [apply up_valid|apply down_valid]; auto.
Qed.

(** ** Sending and taking on streams that encode channels *)

Lemma sent_encodes ms ms0 bs bs' :
  Forall valid ms → encodes ms0 bs → sent ms bs bs' → encodes (ms0 ++ ms) bs'.
Proof.
  intros Hms He (throttle & cpu & l & l' & Hl & Hs).
  apply (send_all_works JOB_SIZE Hsize) in Hs; [|done..]. cbn [outbox] in Hs. subst bs'.
  apply encodes_app; [done|apply encodes_concat].
Qed.

Lemma sent_exists ms bs : Forall valid ms → ∃ bs', sent ms bs bs'.
Proof.
  intros Hms. destruct (send_all_moves JOB_SIZE Hsize 0 0 ms bs Hms) as (l & l' & Hl & Hs).
  by eexists _, 0, 0, l, l'.
Qed.

Lemma server_taken ms bs r bs' :
  Forall valid ms → encodes ms bs → taken (server_frame JOB_SIZE) bs r bs' →
  ∃ m ms', ms = m :: ms' ∧ r = Some m ∧ encodes ms' bs'.
Proof.
  intros Hms He. revert Hms. destruct He as [|throttle cpu m ms' bs0 He];
    intros Hms (l & l' & Hl & Hf).
  - by rewrite server_frame_nothing in Hf.
  - apply Forall_cons in Hms as [Hm _]. apply server_frame_works in Hf as [-> Hb]; [|done..].
    cbn [inbox] in Hb. subst. eauto.
Qed.

Lemma client_taken ms bs r bs' :
  Forall valid ms → encodes ms bs → taken (client_frame JOB_SIZE) bs r bs' →
  ∃ m ms', ms = m :: ms' ∧ ((r = Some m ∧ encodes ms' bs') ∨
    (m = end_mark ∧ ∃ buffer, r = Some (Data (-1) (Some buffer)))).
Proof.
  intros Hms He. revert Hms. destruct He as [|throttle cpu m ms' bs0 He];
    intros Hms (l & l' & Hl & Hf).
  - by rewrite client_frame_nothing in Hf.
  - apply Forall_cons in Hms as [Hm _]. exists m, ms'. split; [done|].
    destruct (decide (m = end_mark)) as [->|Hne].
    + right. split; [done|]. by eapply client_frame_end_mark.
    + left. apply client_frame_works in Hf as [-> Hb]; [|done..]. cbn [inbox] in Hb. by subst.
Qed.

Lemma server_takes m ms bs :
  valid m → encodes (m :: ms) bs →
  ∃ bs', taken (server_frame JOB_SIZE) bs (Some m) bs' ∧ encodes ms bs'.
Proof.
  intros Hm He. inversion He as [|throttle cpu ? ? bs' He']; subst. exists bs'. split; [|done].
  pose proof (moves_ready (length (encode throttle cpu m) + 0) [] eq_refl) as Hr.
  destruct (server_frame_ok JOB_SIZE Hsize throttle cpu m bs' [] _ 0 Hm Hr) as (l' & Hf & _).
  eexists _, l'. split; [apply Hr|exact Hf].
Qed.

Lemma client_takes m ms bs :
  valid m → m ≠ end_mark → encodes (m :: ms) bs →
  ∃ bs', taken (client_frame JOB_SIZE) bs (Some m) bs' ∧ encodes ms bs'.
Proof.
  intros Hm Hne He. inversion He as [|throttle cpu ? ? bs' He']; subst. exists bs'. split; [|done].
  pose proof (moves_ready (length (encode throttle cpu m) + 0) [] eq_refl) as Hr.
  destruct (client_frame_ok JOB_SIZE Hsize throttle cpu m bs' [] _ 0 Hm Hne Hr) as (l' & Hf & _).
  eexists _, l'. split; [apply Hr|exact Hf].
Qed.

(** ** The streams follow the channels *)

Lemma valid_step y y' :
  reachable y → step y y' → Forall valid (c2s y') ∧ Forall valid (s2c y').
Proof. intros Hr Hs. apply reachable_valid. by eapply rtc_r. Qed.

(** The client has its result when the end mark is under way. *)
Lemma mark_late n y c' d :
  reachable y → represents n y → end_mark ∈ s2c y → c' = set_reader Check (net_client n) →
  late v (Net c' (net_server n) (up n) d).
Proof.
  intros Hr [Hc Hs Hu Hd] Hm ->. destruct (reachable_inv y Hr) as ((done & Hi) & Ht).
  destruct (reachable_valid y Hr) as [Hvu _].
  assert (Hw' : worker (client y) = Exit) by (apply (tidy_mark _ _ Ht); auto).
  pose proof (tidy_end _ _ Ht Hw') as Hge. pose proof (inv_valid _ _ _ Hnum Hsize _ _ _ Hi) as [(_ & Hvs & _) _].
  assert (Hfin : job_finished (client y) = JN) by (pose proof (inv_le _ _ _ Hnum Hsize _ _ _ Hi); lia).
  rewrite Hc, Hs. split; cbn [net_client net_server up down set_reader job_finished job_array worker
    reader job_tosend job_todo]; try done.
  - by apply (inv_result _ _ _ Hnum Hsize _ Hv done).
  - by left.
  - destruct (tidy_client _ _ Ht). by split.
  - split; apply Ht.
  - by exists (c2s y).
Qed.

Lemma act_valid y y' :
  reachable y → act add_const JOB_NUM JOB_SIZE y y' → Forall valid (c2s y') ∧ Forall valid (s2c y').
Proof. intros Hr Ha. apply (valid_step y); [done|]. apply step_cases. by right. Qed.

Lemma forward_act n n' y :
  reachable y → represents n y → net_act n n' →
  (∃ y', act add_const JOB_NUM JOB_SIZE y y' ∧ represents n' y') ∨
  (end_mark ∈ s2c y ∧ reader (net_client n) = Act ∧
   ∃ d, n' = Net (set_reader Check (net_client n)) (net_server n) (up n) d).
Proof.
  intros Hr Hn Hs. pose proof (act_valid y) as Hva. destruct (reachable_valid y Hr) as [Hvu Hvd].
  destruct y as [yc ys yu yd]. destruct Hn as [Hc0 Hs0 Hu0 Hd0]. cbn [client server c2s s2c] in *.
  destruct Hs as [h c s u d c' ms u' Hh He Hsent|c s u d r d' c' ms u' Hrd Ht He Hsent|
                  h c s u d s' ms d' Hh He Hsent|c s u d r u' s' ms d' Hrd Ht He Hsent];
    cbn [net_client net_server up down] in *; subst yc ys.
  - left. pose proof (act_client add_const JOB_NUM JOB_SIZE h c s yu yd c' ms Hh He) as Hst.
    eexists. split; [exact Hst|]. split; try done. cbn [c2s up].
    eapply sent_encodes; [|done|done]. by apply (Hva _ Hr) in Hst as [[_ ?]%Forall_app _].
  - destruct (client_taken yd d r d' Hvd Hd0 Ht) as (m & ms' & -> & [[-> Hd']|[-> (buffer & ->)]]).
    + left. pose proof (act_client_receive add_const JOB_NUM JOB_SIZE c s yu m ms' c' ms He) as Hst.
      eexists. split; [exact Hst|]. split; try done. cbn [c2s up].
      eapply sent_encodes; [|done|done]. by apply (Hva _ Hr) in Hst as [[_ ?]%Forall_app _].
    + right. split; [by left|]. split; [done|]. cbn [client_take] in He. unfold client_receive in He.
      rewrite Hrd, decide_False, decide_False in He by lia. injection He as <- <-.
      apply sent_nothing in Hsent as ->. by exists d'.
  - left. pose proof (act_server add_const JOB_NUM JOB_SIZE h c s yu yd s' ms Hh He) as Hst.
    eexists. split; [exact Hst|]. split; try done. cbn [s2c down].
    eapply sent_encodes; [|done|done]. by apply (Hva _ Hr) in Hst as [_ [_ ?]%Forall_app].
  - destruct (server_taken yu u r u' Hvu Hu0 Ht) as (m & ms' & -> & -> & Hu'). left.
    pose proof (act_server_receive add_const JOB_NUM JOB_SIZE c s m ms' yd s' ms He) as Hst.
    eexists. split; [exact Hst|]. split; try done. cbn [s2c down].
    eapply sent_encodes; [|done|done]. by apply (Hva _ Hr) in Hst as [_ [_ ?]%Forall_app].
Qed.

Lemma forward_tick n n' y :
  represents n y → net_tick n n' → ∃ y', tick y y' ∧ represents n' y'.
Proof.
  intros Hn Ht. destruct y as [yc ys yu yd]. destruct Hn as [Hc Hs Hu Hd].
  destruct Ht; cbn [net_client net_server up down client server c2s s2c] in *; subst;
    (eexists; split; [by constructor|by split]).
Qed.

Lemma forward_step n n' y :
  reachable y → represents n y → net_step n n' →
  (∃ y', step y y' ∧ represents n' y') ∨ late v n'.
Proof.
  intros Hr Hn [Ht|Ha]%net_step_cases.
  - destruct (forward_tick n n' y Hn Ht) as (y' & Hy & Hn'). left. exists y'.
    split; [apply step_cases; by left|done].
  - destruct (forward_act n n' y Hr Hn Ha) as [(y' & Hy & Hn')|(Hm & _ & d & ->)].
    + left. exists y'. split; [apply step_cases; by right|done].
    + right. by eapply mark_late.
Qed.

(** What the client still does and sends once it is late. *)
Lemma late_client_thread h c c' ms s u d :
  late v (Net c s u d) → h ∈ client_threads add_const JOB_NUM JOB_SIZE →
  h c = Ok (Some (c', ms)) →
  Forall valid ms ∧ job_finished c' = JN ∧ job_array c' = job_array c ∧ worker c' = Exit ∧
  (reader c' = Check ∨ reader c' = Exit) ∧ JobsSystem.valid JOB_NUM (job_tosend c') ∧
  bounded JOB_NUM c'.
Proof.
  intros [Hf Ha Hw' Hr Hts Htd _ _] Hh He. cbn [net_client] in *.
  destruct (client_tame add_const JOB_NUM JOB_SIZE h c c' ms Htd Hh He) as [[Htd' Hsh _ _ _] _].
  unfold client_threads in Hh. rewrite !elem_of_cons, elem_of_nil in Hh.
  destruct Hh as [->|[->|[->|[->|[->|[->|[->|[]]]]]]]].
  - apply state_manager_spec in He as (_ & -> & ->). by split_and!.
  - unfold send_state in He. destruct (noted c) as [k|] eqn:Hk; [|done]. injection He as <- <-.
    split_and!; try done. apply Forall_singleton, no_job_valid; [done|].
    exact (bounded_noted _ _ Htd k Hk).
  - unfold adaptor in He. by destruct Hr as [Hr|Hr]; rewrite Hr in He.
  - unfold adaptor_loop in He. by destruct Hr as [Hr|Hr]; rewrite Hr in He.
  - unfold client_worker in He. by rewrite Hw' in He.
  - unfold write_to_server in He. destruct (writer c); try done.
    { injection He as <- <-. by split_and!. }
    destruct (job_tosend c) as [|z q] eqn:Hq; [done|].
    destruct (Jobs.transfer JOB_NUM JOB_SIZE z c) as [ms'|] eqn:Ht; [|done].
    injection He as <- <-. apply Forall_cons in Hts as [Hz Hts]. split_and!; try done.
    destruct (decide (z = -1)) as [->|Hne].
    + unfold Jobs.transfer in Ht. rewrite decide_True in Ht by done. injection Ht as <-.
      by apply Forall_singleton.
    + destruct (Hz Hne) as (j & -> & Hj). rewrite transfer_send in Ht by
        (done || (unfold full; by rewrite Ha, length_fmap)).
      injection Ht as <-. apply Forall_singleton. rewrite Ha, slice_fmap.
      apply data_valid; [apply work_uint64|done|lia].
  - unfold client_reader_check in He. destruct (reader c); try done.
    rewrite decide_True in He by done.
    destruct (queue_push JOB_NUM (job_todo c) (-1)) as [q|]; [|done]. injection He as <- <-.
    split_and!; try done. by right.
Qed.

Lemma late_step n n' : late v n → net_step n n' → late v n'.
Proof.
  intros Hn Hs. destruct Hs as [h c s u d c' ms u' Hh He Hsent|c s u d r d' c' ms u' Hrd Ht He Hsent|
                  h c s u d s' ms d' Hh He Hsent|c s u d r u' s' ms d' Hrd Ht He Hsent].
  - destruct (late_client_thread h c c' ms s u d Hn Hh He) as (Hms & Hf & Ha & Hw' & Hr & Hts & Htd).
    destruct Hn as [_ Ha0 _ _ _ _ Hsv (ms0 & Hv0 & Hu0)]. cbn [net_client net_server up] in *.
    split; cbn [net_client net_server up]; try done; [congruence|].
    exists (ms0 ++ ms). split; [by apply Forall_app|by eapply sent_encodes].
  - exfalso. destruct Hn as [_ _ _ Hr _ _ _ _]. cbn [net_client] in Hr. destruct Hr; congruence.
  - destruct Hn as [Hf Ha Hw' Hr Hts Htd [Hsv Hsr] Hu]. cbn [net_client net_server up] in *.
    apply (server_tame add_const JOB_NUM JOB_SIZE) in He as [Htd' _ _ _ Hrd]; [|done..].
    split; cbn [net_client net_server up]; try done. split; [done|]. naive_solver.
  - destruct Hn as [Hf Ha Hw' Hr Hts Htd [Hsv Hsr] (ms0 & Hv0 & Hu0)].
    cbn [net_client net_server up] in *.
    destruct (server_taken ms0 u r u' Hv0 Hu0 Ht) as (m & ms' & -> & -> & Hu').
    apply Forall_cons in Hv0 as [Hm Hv0]. cbn [server_take] in He.
    apply (server_receive_tame JOB_NUM JOB_SIZE) in He as [Htd' _ _ _ Hrd']; [|done|].
    + split; cbn [net_client net_server up]; try done; [|by exists ms'].
      split; [done|]. naive_solver.
    + destruct m as [id [p|]|k|]; [|by left..]. right. eexists _, _. split; [done|]. apply Hm.
Qed.

Lemma forward n :
  net_reachable n → (∃ y, reachable y ∧ represents n y) ∨ late v n.
Proof.
  revert n. refine (rtc_ind_r _ _ _ _).
  - left. exists (start JOB_NUM v w). split; [done|]. split; try done; constructor.
  - intros x z _ Hs [(y & Hr & Hy)|Hl]; [|right; by eapply late_step].
    destruct (forward_step x z y Hr Hy Hs) as [(y' & Hs' & Hy')|]; [|by right].
    left. exists y'. split; [by eapply rtc_r|done].
Qed.

Lemma backward_act n y y' :
  reachable y → represents n y → act add_const JOB_NUM JOB_SIZE y y' →
  ∃ n', net_act n n' ∧ represents n' y'.
Proof.
  intros Hr Hn Hs. destruct (act_valid y y' Hr Hs) as [Hvu' Hvd'].
  destruct (reachable_valid y Hr) as [Hvu Hvd]. destruct n as [nc ns u d]. destruct Hn as [Hc Hsv Hu Hd].
  cbn [net_client net_server up down] in *. subst nc ns.
  destruct Hs as [h c s yu yd c' ms Hh He|c s yu m yd c' ms He|
                  h c s yu yd s' ms Hh He|c s m yu yd s' ms He]; cbn [client server c2s s2c] in *.
  - apply Forall_app in Hvu' as [_ Hms]. destruct (sent_exists ms u Hms) as (u' & Hsent).
    eexists. split; [by eapply net_act_client|]. split; try done. by eapply sent_encodes.
  - apply Forall_app in Hvu' as [_ Hms]. destruct (sent_exists ms u Hms) as (u' & Hsent).
    apply Forall_cons in Hvd as [Hm _].
    destruct (reader c) eqn:Hrd; try (by unfold client_receive in He; rewrite Hrd in He).
    destruct (client_takes m yd d) as (d' & Ht & Hd'); [done| |done|].
    { intros ->. unfold client_receive, end_mark in He. by rewrite Hrd in He. }
    eexists. split; [by eapply net_act_client_receive|]. split; try done. by eapply sent_encodes.
  - apply Forall_app in Hvd' as [_ Hms]. destruct (sent_exists ms d Hms) as (d' & Hsent).
    eexists. split; [by eapply net_act_server|]. split; try done. by eapply sent_encodes.
  - apply Forall_app in Hvd' as [_ Hms]. destruct (sent_exists ms d Hms) as (d' & Hsent).
    apply Forall_cons in Hvu as [Hm _].
    destruct (reader s) eqn:Hrd; try (by unfold server_receive in He; rewrite Hrd in He).
    destruct (server_takes m yu u) as (u' & Ht & Hu'); [done|done|].
    eexists. split; [by eapply net_act_server_receive|]. split; try done. by eapply sent_encodes.
Qed.

Lemma backward_step n y y' :
  reachable y → represents n y → step y y' → ∃ n', net_step n n' ∧ represents n' y'.
Proof.
  intros Hr Hn [Ht|Ha]%step_cases.
  - destruct n as [nc ns u d]. destruct Hn as [Hc Hs Hu Hd].
    destruct Ht as [c s yu yd Hno|c s yu yd Hno]; cbn [net_client net_server up down client server c2s s2c] in *;
      subst nc ns; (eexists; split; [apply net_step_cases; left; by constructor|by split]).
  - destruct (backward_act n y y' Hr Hn Ha) as (n' & Hn' & Hy').
    exists n'. split; [apply net_step_cases; by right|done].
Qed.

Lemma backward y : reachable y → ∃ n, net_reachable n ∧ represents n y.
Proof.
  revert y. refine (rtc_ind_r _ _ _ _).
  - exists (net_start v w). split; [done|]. split; try done; constructor.
  - intros x z Hr Hs (n & Hn & Hx). destruct (backward_step n x z Hr Hx Hs) as (n' & Hs' & Hz).
    exists n'. split; [by eapply rtc_r|done].
Qed.

(** ** Properties *)

(** C4: The two processes over the byte streams of their socket, whatever
    pieces it moves and however often it is interrupted, implement the system
    of messages: every state they reach is a state of the message system whose
    channels the streams encode, or one in which the client has read the end
    mark and, with it, a part of what follows; then it has the whole result
    and never reads again.  In no state has the server met a message it does
    not know; and once the client counts all jobs its vector is the one a
    single process would have computed.  Conversely every state of the message
    system, with all its interleavings, is reached over the streams. *)
Theorem byte_system_refines :
  (∀ n, net_reachable n →
     ((∃ y, reachable y ∧ represents n y) ∨ late v n) ∧
     reader (net_server n) ≠ Exit ∧
     (job_finished (net_client n) = JN → job_array (net_client n) = work add_const <$> v)) ∧
  (∀ y, reachable y → ∃ n, net_reachable n ∧ represents n y).
Proof.
  split; [|apply backward]. intros n Hn. pose proof (forward n Hn) as H. split; [done|].
  destruct H as [(y & Hr & [Hc Hs _ _])|[Hf Ha _ _ _ _ [_ Hsr] _]]; [|done].
  destruct (reachable_inv y Hr) as ((done & Hi) & Ht). rewrite Hc, Hs. split; [apply Ht|].
  by apply (inv_result _ _ _ Hnum Hsize _ Hv done).
Qed.

(** ** Schedules *)

(** One turn over a socket that moves three bytes at a time. *)
Definition pieces : list answer := replicate 200 (Moves 3).
Definition net_send ms (bs : list byte) : option (list byte) :=
  match send_all 0 0 ms (Socket [] bs pieces) with
  | Some (Socket [] bs' _) => Some bs'
  | _ => None
  end.
Definition net_take (frame : socket → option (option message * socket)) (bs : list byte) :
    option (option message * list byte) :=
  match frame (Socket bs [] pieces) with
  | Some (r, Socket bs' [] _) => Some (r, bs')
  | _ => None
  end.

Definition net_turn (t : turn) (x : net) : option net :=
  match t with
  | CThread i =>
      h ← client_threads add_const JOB_NUM JOB_SIZE !! i;
      match h (net_client x) with
      | Ok (Some (c', ms)) =>
          u' ← net_send ms (up x); Some (Net c' (net_server x) u' (down x))
      | _ => None
      end
  | CReceive =>
      '(r, d') ← net_take (client_frame JOB_SIZE) (down x);
      match reader (net_client x), client_take r (net_client x) with
      | Act, Ok (Some (c', ms)) =>
          u' ← net_send ms (up x); Some (Net c' (net_server x) u' d')
      | _, _ => None
      end
  | SThread i =>
      h ← server_threads add_const JOB_NUM JOB_SIZE !! i;
      match h (net_server x) with
      | Ok (Some (s', ms)) =>
          d' ← net_send ms (down x); Some (Net (net_client x) s' (up x) d')
      | _ => None
      end
  | SReceive =>
      '(r, u') ← net_take (server_frame JOB_SIZE) (up x);
      match reader (net_server x), server_take r (net_server x) with
      | Check, Ok (Some (s', ms)) =>
          d' ← net_send ms (down x); Some (Net (net_client x) s' u' d')
      | _, _ => None
      end
  end.

Fixpoint net_schedule (ts : list turn) (x : net) : option net :=
  match ts with
  | [] => Some x
  | t :: ts' => y ← net_turn t x; net_schedule ts' y
  end.

Lemma net_send_sent ms bs bs' : net_send ms bs = Some bs' → sent ms bs bs'.
Proof.
  unfold net_send. destruct (send_all _ _ _ _) as [[[|] out l]|] eqn:E; try done. intros [= <-].
  exists 0, 0, pieces, l. by split; [vm_compute|].
Qed.

Lemma net_take_taken frame bs r bs' : net_take frame bs = Some (r, bs') → taken frame bs r bs'.
Proof.
  unfold net_take. destruct (frame _) as [[r' [inb [|] l]]|] eqn:E; try done. intros [= <- <-].
  exists pieces, l. by split; [vm_compute|].
Qed.

Lemma net_turn_ok t (x y : net) : net_turn t x = Some y → net_step x y.
Proof.
  destruct x as [c s u d], t as [i| |i|]; unfold net_turn; cbn [net_client net_server up down].
  - destruct (_ !! i) as [h|] eqn:Hh; [|done]. cbn [mbind option_bind].
    destruct (h c) as [[[c' ms]|]|] eqn:He; try done.
    destruct (net_send ms u) as [u'|] eqn:Hs; [|done]. intros [= <-].
    eapply net_client_thread; [by eapply list_elem_of_lookup_2|done|by apply net_send_sent].
  - destruct (net_take _ d) as [[r d']|] eqn:Ht; [|done]. cbn [mbind option_bind].
    destruct (reader c) eqn:Hr; try done.
    destruct (client_take r c) as [[[c' ms]|]|] eqn:He; try done.
    destruct (net_send ms u) as [u'|] eqn:Hs; [|done]. intros [= <-].
    eapply net_client_receive; [done|by apply net_take_taken|done|by apply net_send_sent].
  - destruct (_ !! i) as [h|] eqn:Hh; [|done]. cbn [mbind option_bind].
    destruct (h s) as [[[s' ms]|]|] eqn:He; try done.
    destruct (net_send ms d) as [d'|] eqn:Hs; [|done]. intros [= <-].
    eapply net_server_thread; [by eapply list_elem_of_lookup_2|done|by apply net_send_sent].
  - destruct (net_take _ u) as [[r u']|] eqn:Ht; [|done]. cbn [mbind option_bind].
    destruct (reader s) eqn:Hr; try done.
    destruct (server_take r s) as [[[s' ms]|]|] eqn:He; try done.
    destruct (net_send ms d) as [d'|] eqn:Hs; [|done]. intros [= <-].
    eapply net_server_receive; [done|by apply net_take_taken|done|by apply net_send_sent].
Qed.

Lemma net_schedule_ok ts (x y : net) : net_schedule ts x = Some y → rtc net_step x y.
Proof.
  revert x. induction ts as [|t ts IH]; intros x; cbn [net_schedule].
  - by intros [= <-].
  - destruct (net_turn t x) as [z|] eqn:Hz; [|done]. cbn [mbind option_bind]. intros Hy.
    eapply rtc_l; [by eapply net_turn_ok|by apply IH].
Qed.
End net.

(** ** Concrete instances *)

(** Two jobs of one number each.  The reader of the client waits for a message
    while the client computes the last job; the server then passes the end mark
    on, followed by a queue length. *)
Definition ex_succ (x : Z) : Z := uint64 (x + 1).
Definition ex_misread : list turn :=
  [CThread 5; CThread 5; SReceive; SThread 4; SThread 4; SThread 5; CThread 6; CReceive; CThread 6;
   CThread 5; CThread 4; CThread 4; CThread 4; CThread 4; CThread 5; SReceive; SThread 5; SThread 0;
   SThread 1; CReceive].

Lemma ex_bounded (n : @Jobs.node Z) :
  job_todo n = [] → noted n = None → reader n = Check → bounded 2 n.
Proof. intros Ht Hn Hr. split; rewrite ?Ht, ?Hn, ?Hr; [cbn [length]; lia|done..]. Qed.

(** The client reads the end mark and eight of the twenty bytes behind it: what
    remains in its stream is no message. *)
Lemma end_mark_misread :
  ∃ n, rtc (net_step ex_succ 2 1) (net_start 2 [1; 2] [0; 0]) n ∧
    late ex_succ 2 1 [1; 2] n ∧ down n = replicate 12 0.
Proof.
  assert (E : ∃ n, net_schedule ex_succ 2 1 ex_misread (net_start 2 [1; 2] [0; 0]) = Some n ∧
    job_array (net_client n) = work ex_succ <$> [1; 2] ∧ down n = replicate 12 0 ∧
    net_client n = Node (job_array (net_client n)) [] [] 2 (-1) false Exit Check Check None ∧
    job_todo (net_server n) = [] ∧ noted (net_server n) = None ∧
    reader (net_server n) = Check ∧ up n = []).
  { eexists. split; [vm_compute; reflexivity|]. split_and!; vm_compute; reflexivity. }
  destruct E as (n & Hn & Ha & Hd & Hc & Hst & Hsn & Hsr & Hu). exists n.
  split; [by eapply net_schedule_ok|]. split; [|done].
  split; [by rewrite Hc|exact Ha|by rewrite Hc|rewrite Hc; by left|by rewrite Hc; constructor
    |rewrite Hc; apply ex_bounded; done| |].
  { split; [by apply ex_bounded|by rewrite Hsr]. }
  exists []. rewrite Hu. split; constructor.
Qed.

Lemma byte_system_refines_witness :
  (∀ n, rtc (net_step ex_succ 2 1) (net_start 2 [1; 2] [0; 0]) n →
     ((∃ y, rtc (JobsSystem.step ex_succ 2 1) (start 2 [1; 2] [0; 0]) y ∧ represents n y) ∨
      late ex_succ 2 1 [1; 2] n) ∧
     reader (net_server n) ≠ Exit ∧
     (job_finished (net_client n) = 2 → job_array (net_client n) = work ex_succ <$> [1; 2])) ∧
  (∀ y, rtc (JobsSystem.step ex_succ 2 1) (start 2 [1; 2] [0; 0]) y →
     ∃ n, rtc (net_step ex_succ 2 1) (net_start 2 [1; 2] [0; 0]) n ∧ represents n y).
Proof.
  apply (byte_system_refines ex_succ 2 1).
  - lia.
  - lia.
  - vm_compute. discriminate.
  - intros x _. unfold ex_succ. apply wrap_range. lia.
  - exists 1%nat. reflexivity.
  - reflexivity.
  - reflexivity.
  - repeat (apply Forall_cons; split; [split; vm_compute; [discriminate|reflexivity]|]).
    apply Forall_nil. exact I.
Defined.
