(* ===== verification/NetRun.v ===== *)
(** * MP4: the runs over the byte streams end

    JobsRun.v bounds the actions of the message system by its queue lengths.
    The same bound holds over the byte streams, also for what the processes
    still do when the client has read the end mark; and while a job is missing
    some action is possible over streams of any capacity, or the readers have
    stalled, or both are about to write (JobsSockets.v). *)
From stdpp Require Import prelude list_tactics.
From S2P Require Import Prelude CInt Wire Jobs Frames Streams JobsData JobsSystem JobsTidy.
From S2P Require Import JobsRun JobsLive JobsComplete JobsSockets NetSystem.
Open Scope Z_scope.

Section net.
Context (add_const : Z → Z) (JOB_NUM JOB_SIZE : nat).

Abbreviation node := (@Jobs.node Z).
Abbreviation message := (@Jobs.message Z).
Abbreviation JN := (Z.of_nat JOB_NUM).
Abbreviation valid := (Frames.valid JOB_SIZE).
Abbreviation act := (JobsRun.act add_const JOB_NUM JOB_SIZE).
Abbreviation net_act := (NetSystem.net_act add_const JOB_NUM JOB_SIZE).
Abbreviation net_step := (NetSystem.net_step add_const JOB_NUM JOB_SIZE).
Abbreviation net_start := (NetSystem.net_start JOB_NUM).
Abbreviation late := (NetSystem.late add_const JOB_NUM JOB_SIZE).
Abbreviation weight := (JobsRun.weight JOB_NUM).
Implicit Types (m : message) (ms : list message) (y : @JobsSystem.sys Z) (n : net).

(** A run of [a] actions and [t] ticks over the streams. *)
Inductive net_run : nat → nat → net → net → Prop :=
  | net_run_refl n : net_run 0 0 n n
  | net_run_act a t n n' n'' : net_run a t n n' → net_act n' n'' → net_run (S a) t n n''
  | net_run_tick a t n n' n'' : net_run a t n n' → net_tick n' n'' → net_run a (S t) n n''.

Lemma net_run_rtc a t n n' : net_run a t n n' → rtc net_step n n'.
Proof.
  induction 1 as [n|a t n n' n'' _ IH Ha|a t n n' n'' _ IH Ht]; [done|..];
    (eapply rtc_r; [exact IH|]; apply net_step_cases); [by right|by left].
Qed.

(** The actions for which no thread waits for a socket: it writes nothing, its
    stream has room, or the peer's reader is waiting at an empty stream. *)
Inductive net_sact (r : room byte) : net → net → Prop :=
  | net_sact_client h c s u d c' ms u' :
      h ∈ tail (client_threads add_const JOB_NUM JOB_SIZE) → h c = Ok (Some (c', ms)) →
      takes r u (reader s = Check) ms → sent ms u u' →
      net_sact r (Net c s u d) (Net c' s u' d)
  | net_sact_client_receive c s u d res d' c' ms u' :
      reader c = Act → taken (client_frame JOB_SIZE) d res d' →
      client_take JOB_NUM JOB_SIZE res c = Ok (Some (c', ms)) → sent ms u u' →
      net_sact r (Net c s u d) (Net c' s u' d')
  | net_sact_server h c s u d s' ms d' :
      h ∈ tail (server_threads add_const JOB_NUM JOB_SIZE) → h s = Ok (Some (s', ms)) →
      takes r d (reader c = Act) ms → sent ms d d' →
      net_sact r (Net c s u d) (Net c s' u d')
  | net_sact_server_receive c s u d res u' s' ms d' :
      reader s = Check → taken (server_frame JOB_SIZE) u res u' →
      server_take JOB_NUM JOB_SIZE res s = Ok (Some (s', ms)) → sent ms d d' →
      net_sact r (Net c s u d) (Net c s' u' d').

Lemma net_sact_act r n n' : net_sact r n n' → net_act n n'.
Proof.
  intros []; [by eapply net_act_client|by eapply net_act_client_receive|by eapply net_act_server
             |by eapply net_act_server_receive].
Qed.

Context (Hnum : (0 < JOB_NUM)%nat) (Hsize : (0 < JOB_SIZE)%nat).
Context (Hjn : 2 * JN ≤ 2 ^ 31).
Context (Hadd : ∀ x, is_uint 64 x → is_uint 64 (add_const x)).
Context (v w : list Z) (Heven : Nat.Even JOB_NUM).
Context (Hv : full JOB_NUM JOB_SIZE v) (Hw : full JOB_NUM JOB_SIZE w).
Context (Hdoubles : Forall (is_uint 64) v).

Abbreviation reachable := (rtc (step add_const JOB_NUM JOB_SIZE) (start JOB_NUM v w)).

Lemma jn_int : JN ≤ INT_MAX.
Proof. unfold INT_MAX. lia. Qed.

(** ** The weight over the streams *)

(** Once the client has read the end mark, what the server has sent is
    irrelevant. *)
Definition late_weight n ms : nat :=
  client_weight (net_client n) + up_weights ms + server_weight JOB_NUM (net_server n).

Record weighs_late (k : nat) n ms : Prop := {
  wl_valid : Forall valid ms;
  wl_encodes : encodes ms (up n);
  wl_weight : (late_weight n ms ≤ k)%nat;
}.

Definition weighs (k : nat) n : Prop :=
  (∃ y, reachable y ∧ represents n y ∧ (weight y ≤ k)%nat) ∨
  (late v n ∧ ∃ ms, weighs_late k n ms).

Lemma late_act_weight k n n' ms :
  late v n → weighs_late k n ms → net_act n n' →
  ∃ ms' k', weighs_late k' n' ms' ∧ (k' < k)%nat.
Proof.
  intros Hl [Hms He Hk] Ha. unfold late_weight in Hk.
  destruct Ha as [h c s u d c' ms1 u' Hh Hc Hs|c s u d r d' c' ms1 u' Hr Ht Hc Hs|
                  h c s u d s' ms1 d' Hh Hc Hs|c s u d r u' s' ms1 d' Hr Ht Hc Hs];
    cbn [net_client net_server up down] in *.
  - pose proof (client_act_weight add_const JOB_NUM JOB_SIZE h c c' ms1 (late_bounded _ _ _ _ _ Hl) Hh Hc).
    destruct (late_client_thread add_const JOB_NUM JOB_SIZE Hnum Hsize Hjn Hadd v Hv Hdoubles
      h c c' ms1 s u d Hl) as (Hms1 & _); [by right|done|].
    eexists (ms ++ ms1), _. split; [split; [by apply Forall_app|by eapply sent_encodes|reflexivity]|].
    unfold late_weight, up_weights in *. cbn [net_client net_server]. rewrite sum_list_with_app. lia.
  - exfalso. destruct Hl as [_ _ _ Hrd _ _ _ _]. cbn [net_client] in Hrd. destruct Hrd; congruence.
  - pose proof (server_act_weight add_const JOB_NUM JOB_SIZE h s s' ms1 Hh Hc).
    eexists ms, _. split; [split; [done|done|reflexivity]|].
    unfold late_weight. cbn [net_client net_server]. lia.
  - destruct (server_taken JOB_SIZE Hsize ms u r u' Hms He Ht) as (m & ms' & -> & -> & Hu').
    apply Forall_cons in Hms as [_ Hms]. cbn [server_take] in Hc.
    pose proof (server_receive_weight JOB_NUM JOB_SIZE m s s' ms1 Hc).
    eexists ms', _. split; [split; [done|done|reflexivity]|].
    unfold late_weight, up_weights in *. cbn [net_client net_server sum_list_with] in *. lia.
Qed.

(** Reading the end mark makes the state lighter as well. *)
Lemma mark_weight n y d :
  represents n y → end_mark ∈ s2c y → reader (net_client n) = Act →
  (late_weight (Net (set_reader Check (net_client n)) (net_server n) (up n) d) (c2s y) < weight y)%nat.
Proof.
  intros [Hc Hs _ _] Hm Hr. unfold late_weight, JobsRun.weight, down_weights. rewrite <-Hc, <-Hs.
  pose proof (sum_list_with_in _ (down_weight JOB_NUM) _ Hm) as Hd. unfold end_mark in Hd.
  cbn [down_weight] in Hd. unfold client_weight, noted_weight.
  cbn [net_client net_server set_reader job_todo job_tosend worker writer reader noted].
  rewrite Hr. cbn [client_reader_weight]. lia.
Qed.

Lemma act_weighs k n n' : weighs k n → net_act n n' → ∃ k', weighs k' n' ∧ (k' < k)%nat.
Proof.
  intros [(y & Hr & Hn & Hk)|(Hl & ms & Hms)] Ha.
  - destruct (forward_act add_const JOB_NUM JOB_SIZE Hnum Hsize Hjn Hadd v w Heven Hv Hw Hdoubles
      n n' y Hr Hn Ha) as [(y' & Hy & Hn')|(Hm & Hrd & d & ->)].
    + destruct (reachable_tidy add_const JOB_NUM JOB_SIZE Hnum Hsize v w Heven Hv Hw y Hr) as [_ Ht].
      pose proof (act_weight add_const JOB_NUM JOB_SIZE y y' jn_int Ht Hy).
      exists (weight y'). split; [|lia]. left. exists y'. split; [|done].
      eapply rtc_r; [exact Hr|]. apply step_cases. by right.
    + pose proof (mark_weight n y d Hn Hm Hrd).
      eexists. split; [right; split|].
      * by eapply (mark_late add_const JOB_NUM JOB_SIZE Hnum Hsize Hjn Hadd v w Heven Hv Hw Hdoubles n y).
      * exists (c2s y). split; [|apply Hn|reflexivity].
        by apply (reachable_valid add_const JOB_NUM JOB_SIZE Hnum Hsize Hjn Hadd v w Heven Hv Hw Hdoubles).
      * lia.
  - destruct (late_act_weight k n n' ms Hl Hms Ha) as (ms' & k' & Hms' & Hlt).
    exists k'. split; [|done]. right. split; [|by exists ms'].
    eapply (late_step add_const JOB_NUM JOB_SIZE Hnum Hsize Hjn Hadd v Hv Hdoubles); [exact Hl|].
    apply net_step_cases. by right.
Qed.

Lemma tick_weighs k n n' : weighs k n → net_tick n n' → weighs (k + (4 * JOB_NUM + 6)) n'.
Proof.
  intros [(y & Hr & Hn & Hk)|(Hl & ms & [Hms He Hk])] Ht.
  - destruct (forward_tick n n' y Hn Ht) as (y' & Hy & Hn').
    pose proof (tick_weight JOB_NUM y y' Hy). left. exists y'. split; [|split; [done|lia]].
    eapply rtc_r; [exact Hr|]. apply step_cases. by left.
  - right. split.
    + eapply (late_step add_const JOB_NUM JOB_SIZE Hnum Hsize Hjn Hadd v Hv Hdoubles); [exact Hl|].
      apply net_step_cases. by left.
    + exists ms. unfold late_weight, client_weight, server_weight, noted_weight in Hk.
      destruct Ht as [c s u d Hno|c s u d Hno]; cbn [net_client net_server] in Hk; rewrite Hno in Hk;
        (split; [done|done|]); unfold late_weight, client_weight, server_weight, noted_weight;
        cbn [net_client net_server set_noted job_todo job_tosend worker writer reader noted]; lia.
Qed.

Lemma run_weighs a t n :
  net_run a t (net_start v w) n →
  ∃ k, weighs k n ∧ (a + k ≤ 14 * (JOB_NUM / 2) + 18 + (4 * JOB_NUM + 6) * t)%nat.
Proof.
  remember (net_start v w) as n0 eqn:Hn0. intros Hr. revert Hn0.
  induction Hr as [n|a t n n' n'' Hr IH Ha|a t n n' n'' Hr IH Ht]; intros ->.
  - exists (weight (start JOB_NUM v w)). split.
    + left. exists (start JOB_NUM v w). split; [done|]. split; [by split; try constructor|done].
    + rewrite start_weight. lia.
  - destruct (IH eq_refl) as (k & Hk & Hle). destruct (act_weighs k n' n'' Hk Ha) as (k' & Hk' & Hlt).
    exists k'. split; [done|lia].
  - destruct (IH eq_refl) as (k & Hk & Hle). exists (k + (4 * JOB_NUM + 6))%nat.
    split; [by eapply tick_weighs|lia].
Qed.

(** ** Actions over sockets of any room *)

Abbreviation sact := (JobsSockets.sact add_const JOB_NUM JOB_SIZE).

Lemma takes_bytes r ms u (P : Prop) (l : list message) :
  encodes ms u → takes no_room ms P l → takes r u P l.
Proof.
  intros He [->|[?|[-> HP]]]; [by left|done|]. right; right. split; [|done]. by inversion He.
Qed.

Lemma backward_sact r n y y' :
  reachable y → represents n y → sact no_room y y' → red (net_sact r) n.
Proof.
  intros Hr Hn Hs. pose proof (sact_act _ _ _ _ _ _ Hs) as Ha.
  destruct (act_valid add_const JOB_NUM JOB_SIZE Hnum Hsize Hjn Hadd v w Heven Hv Hw Hdoubles y y' Hr Ha)
    as [Hvu' Hvd'].
  destruct (reachable_valid add_const JOB_NUM JOB_SIZE Hnum Hsize Hjn Hadd v w Heven Hv Hw Hdoubles y Hr)
    as [Hvu Hvd].
  destruct n as [nc ns u d]. destruct Hn as [Hc Hsv Hu Hd].
  cbn [net_client net_server up down] in *. subst nc ns. clear Ha.
  destruct Hs as [h c s yu yd c' ms Hh He Ht|c s yu m yd c' ms He|
                  h c s yu yd s' ms Hh He Ht|c s m yu yd s' ms He]; cbn [client server c2s s2c] in *.
  - apply Forall_app in Hvu' as [_ Hms]. destruct (sent_exists JOB_SIZE Hsize ms u Hms) as (u' & Hsent).
    eexists. eapply net_sact_client; [done|done|by eapply takes_bytes|done].
  - apply Forall_app in Hvu' as [_ Hms]. destruct (sent_exists JOB_SIZE Hsize ms u Hms) as (u' & Hsent).
    apply Forall_cons in Hvd as [Hm _].
    destruct (reader c) eqn:Hrd; try (by unfold client_receive in He; rewrite Hrd in He).
    destruct (client_takes JOB_SIZE Hsize m yd d) as (d' & Ht & Hd'); [done| |done|].
    { intros ->. unfold client_receive, end_mark in He. by rewrite Hrd in He. }
    eexists. by eapply net_sact_client_receive.
  - apply Forall_app in Hvd' as [_ Hms]. destruct (sent_exists JOB_SIZE Hsize ms d Hms) as (d' & Hsent).
    eexists. eapply net_sact_server; [done|done|by eapply takes_bytes|done].
  - apply Forall_app in Hvd' as [_ Hms]. destruct (sent_exists JOB_SIZE Hsize ms d Hms) as (d' & Hsent).
    apply Forall_cons in Hvu as [Hm _].
    destruct (reader s) eqn:Hrd; try (by unfold server_receive in He; rewrite Hrd in He).
    destruct (server_takes JOB_SIZE Hsize m yu u) as (u' & Ht & Hu'); [done|done|].
    eexists. by eapply net_sact_server_receive.
Qed.

(** ** Properties *)

(** C22: The distributed computation over the byte streams makes progress,
    whatever pieces and whatever room the sockets have, under any interleaving
    and whatever jobs the load balancing moves: [t] queue lengths allow at most
    [14 * (JOB_NUM / 2) + 18 + (4 * JOB_NUM + 6) * t] other actions of the two
    processes, also when the client has read the end mark; and in every state
    the client has the result of a single process, or some action is possible
    for which no thread has to wait for a full socket, or a reader has stalled in
    the loop of [adaptor], or both readers are about to write there. *)
Theorem byte_runs_end r a t n :
  net_run a t (net_start v w) n →
  (a ≤ 14 * (JOB_NUM / 2) + 18 + (4 * JOB_NUM + 6) * t)%nat ∧
  ((job_finished (net_client n) = JN ∧
    sequential add_const JOB_NUM JOB_SIZE v = Ok (job_array (net_client n))) ∨
   red (net_sact r) n ∨
   starved (net_client n) ∨ takes_zero (net_client n) ∨ starved (net_server n) ∨
   (writing JOB_NUM JOB_SIZE (net_client n) ∧ writing JOB_NUM JOB_SIZE (net_server n))).
Proof.
  intros Hr. destruct (run_weighs a t n Hr) as (k & Hk & Hle). split; [lia|].
  destruct Hk as [(y & Hy & Hn & _)|(Hl & _)].
  - destruct (sockets_cases add_const JOB_NUM JOB_SIZE Hnum Hsize no_room v w y Heven Hv Hw Hy)
      as [Hres|[(y' & Ha)|Hst]].
    + left. by destruct Hn as [-> _ _ _].
    + right; left. by apply (backward_sact r n y y').
    + right; right. destruct Hn as [-> -> _ _]. unfold stalled, crossed in Hst. tauto.
  - left. split; [apply Hl|]. rewrite (late_array _ _ _ _ _ Hl). by apply sequential_ok.
Qed.
End net.

(** ** Concrete instances *)

(** The client's state manager has noted its queue length and sent it in pieces
    of three bytes. *)
Definition ex_net : net := NetSystem.net_start 2 [1; 2] [0; 0].
Definition ex_reported : net :=
  default ex_net (net_schedule ex_succ 2 1 [CThread 0; CThread 1] ex_net).

Lemma ex_reported_run : net_run ex_succ 2 1 1 1 ex_net ex_reported.
Proof.
  apply (net_run_act ex_succ 2 1 0 1 ex_net
    (Net (set_noted (Some 1) (net_client ex_net)) (net_server ex_net) [] [])).
  - apply (net_run_tick ex_succ 2 1 0 0 ex_net ex_net); [constructor|].
    by apply (net_tick_client (net_client ex_net) (net_server ex_net) [] []).
  - replace ex_reported with (Net (net_client ex_net) (net_server ex_net) (up ex_reported) [])
      by (vm_compute; reflexivity).
    apply (net_act_client ex_succ 2 1 send_state _ _ _ _ _ [State 1]); [by left|reflexivity|].
    apply net_send_sent. vm_compute. reflexivity.
Qed.

Lemma byte_runs_end_witness :
  (1 ≤ 14 * (2 / 2) + 18 + (4 * 2 + 6) * 1)%nat ∧ red (net_sact ex_succ 2 1 no_room) ex_reported.
Proof.
  destruct (byte_runs_end ex_succ 2 1 ltac:(lia) ltac:(lia) ltac:(vm_compute; discriminate))
    with (v := [1; 2]) (w := [0; 0]) (r := @no_room Z) (a := 1%nat) (t := 1%nat) (n := ex_reported)
    as [Hb [[Hf _]|[Hred|[(k & Hk & _)|[(k & Hk)|[(k & Hk & _)|[(h & n' & ms & Hh & He & _) _]]]]]]].
  - intros x _. unfold ex_succ. apply wrap_range. lia.
  - exists 1%nat. reflexivity.
  - reflexivity.
  - reflexivity.
  - repeat (apply Forall_cons; split; [split; vm_compute; [discriminate|reflexivity]|]).
    apply Forall_nil. exact I.
  - exact ex_reported_run.
  - vm_compute in Hf. discriminate Hf.
  - split; [exact Hb|exact Hred].
  - vm_compute in Hk. discriminate Hk.
  - vm_compute in Hk. discriminate Hk.
  - vm_compute in Hk. discriminate Hk.
  - apply elem_of_cons in Hh as [->|Hh]; [|apply list_elem_of_singleton in Hh as ->];
      vm_compute in He; discriminate He.
Defined.
