(* ===== verification/LostPeer.v ===== *)
(** * MP4: the client without its server (src/MP4/client.c, utils.c)

    The server is gone, between two of its writes or in the middle of one.  The
    client is not told: its reader ignores what it cannot read and tries again,
    its other threads run on.  What its result is then: the one a single
    process would have computed, unless the last payload was cut short, which
    is stored, filled up with zeros, and counted as finished. *)
From stdpp Require Import prelude list_tactics.
From S2P Require Import Prelude CInt Wire Jobs Frames Streams LostStream JobsData JobsSystem.
From S2P Require Import JobsTidy JobsRun NetSystem.
Open Scope Z_scope.

(** ** The client and the rest of its stream *)

Section lost.
Context (add_const : Z → Z) (JOB_NUM JOB_SIZE : nat).

Abbreviation node := (@Jobs.node Z).
Abbreviation message := (@Jobs.message Z).
Abbreviation JN := (Z.of_nat JOB_NUM).
Abbreviation client_threads := (JobsSystem.client_threads add_const JOB_NUM JOB_SIZE).
Abbreviation zero_padded := (LostStream.zero_padded JOB_SIZE).
Implicit Types (n : net) (m : message) (ms : list message) (c : node) (d : list byte).

(** The server's last bytes, and nothing behind them. *)
Record lost : Type := Lost { lost_client : node; lost_stream : list byte }.

(** The reader takes [r] while the kernel has enough bytes, or it takes all
    that is left and meets the end of the stream. *)
Definition lost_taken d (r : option message) d' : Prop :=
  ∃ l l', fading l = true ∧ (forallb works l = true ∨ d' = []) ∧
    client_frame JOB_SIZE (Socket d [] l) = Some (r, Socket d' [] l').

(** What the client sends reaches nobody. *)
Inductive lost_step : lost → lost → Prop :=
  | lost_thread h c d c' ms :
      h ∈ client_threads → h c = Ok (Some (c', ms)) → lost_step (Lost c d) (Lost c' d)
  | lost_receive c d r d' c' ms :
      reader c = Act → lost_taken d r d' →
      client_take JOB_NUM JOB_SIZE r c = Ok (Some (c', ms)) →
      lost_step (Lost c d) (Lost c' d').

(** The server goes when [k] bytes of what it has sent will still arrive. *)
Definition lose (k : nat) n : lost := Lost (net_client n) (take k (down n)).

(** The vector with the numbers of one job cut short after [i] bytes. *)
Definition cut_result (v : list Z) (cut : option (nat * nat)) : list Z :=
  match cut with
  | None => work add_const <$> v
  | Some (j, i) =>
      let result := work add_const <$> v in
      splice JOB_SIZE result j (zero_padded (take i (doubles_image (slice JOB_SIZE result j))))
  end.

Context (Hnum : (0 < JOB_NUM)%nat) (Hsize : (0 < JOB_SIZE)%nat).
Context (v : list Z) (Hv : full JOB_NUM JOB_SIZE v).

Abbreviation slice := (JobsData.slice JOB_SIZE).
Abbreviation full := (JobsData.full JOB_NUM JOB_SIZE).
Abbreviation finished := (JobsSystem.finished add_const JOB_SIZE v).
Abbreviation before := (JobsSystem.before JOB_SIZE v).
Abbreviation inv := (JobsSystem.inv add_const JOB_NUM JOB_SIZE v).

(** ** The client on its own *)

(** The numbers of a finished job, if that of [cut] was cut short. *)
Definition result_of (cut : option (nat * nat)) (j : nat) : list Z :=
  slice (cut_result v cut) j.

(** The jobs [done] are finished, with the result of [cut], and the jobs the
    client holds are not. *)
Record alone (cut : option (nat * nat)) (done : list Z) c : Prop := {
  alone_full : full (job_array c);
  alone_slices j : (j < JOB_NUM)%nat →
    slice (job_array c) j = if decide (Z.of_nat j ∈ done) then result_of cut j else before j;
  alone_finished : job_finished c = Z.of_nat (length done);
  alone_jobs : own c ++ jobs (job_tosend c) ++ done ⊆+ all_jobs JOB_NUM;
  alone_cut j i : cut = Some (j, i) → (j < JOB_NUM)%nat ∧ Z.of_nat j ∈ done;
}.

Lemma result_full : full (work add_const <$> v).
Proof. unfold JobsData.full. by rewrite length_fmap. Qed.

Lemma cut_result_full cut j i :
  cut = Some (j, i) → (j < JOB_NUM)%nat → full (cut_result v cut).
Proof. intros -> Hj. apply splice_full; [apply result_full|done|apply doubles_of_length]. Qed.

Lemma result_of_none j : result_of None j = finished j.
Proof. apply slice_fmap. Qed.

Lemma result_of_cut j i :
  (j < JOB_NUM)%nat → result_of (Some (j, i)) j = zero_padded (take i (doubles_image (finished j))).
Proof.
  intros Hj. unfold result_of, cut_result. rewrite slice_fmap.
  rewrite (slice_splice_eq JOB_NUM); [done|apply result_full|done|apply doubles_of_length].
Qed.

Lemma result_of_other cut k :
  (∀ j i, cut = Some (j, i) → (j < JOB_NUM)%nat ∧ j ≠ k) → result_of cut k = finished k.
Proof.
  destruct cut as [[j i]|]; intros Hc; [|apply result_of_none].
  destruct (Hc j i eq_refl) as [Hj Hne]. unfold result_of, cut_result.
  rewrite (slice_splice_ne JOB_NUM); [apply slice_fmap|apply result_full|done|apply doubles_of_length|done].
Qed.

(** The jobs that are not with the client. *)
Lemma alone_rest cut done c :
  alone cut done c → ∃ l, all_jobs JOB_NUM ≡ₚ (own c ++ jobs (job_tosend c) ++ done) ++ l.
Proof. intros Ha. by apply submseteq_Permutation, (alone_jobs cut). Qed.

(** A job in [done] is nowhere else. *)
Lemma alone_NoDup cut done c :
  alone cut done c → NoDup (own c ++ jobs (job_tosend c) ++ done).
Proof.
  intros Ha. destruct (alone_rest _ _ _ Ha) as [l Hl].
  pose proof (all_jobs_NoDup JOB_NUM) as Hnd. rewrite Hl in Hnd. by apply NoDup_app in Hnd as [? _].
Qed.

Lemma alone_ok cut done c : alone cut done c → jobs_ok JOB_NUM c.
Proof.
  intros Ha. destruct (alone_rest _ _ _ Ha) as [l Hl].
  eapply (own_valid JOB_NUM JOB_SIZE Hnum Hsize); [symmetry; exact Hl|].
  intros z Hz. rewrite !elem_of_app. tauto.
Qed.

(** All jobs finished: the array is the result. *)
Lemma alone_result cut done c :
  alone cut done c → job_finished c = JN → job_array c = cut_result v cut.
Proof.
  intros Ha Hf. rewrite (alone_finished _ _ _ Ha) in Hf.
  assert (Hall : ∀ z, z ∈ all_jobs JOB_NUM → z ∈ done).
  { destruct (alone_rest _ _ _ Ha) as [l Hl].
    pose proof (Permutation_length Hl) as Hlen. unfold all_jobs in Hlen.
    rewrite !length_app, length_fmap, length_seq in Hlen.
    intros z Hz. rewrite Hl in Hz. rewrite !elem_of_app in Hz.
    assert (Ho : own c = []) by (apply length_zero_iff_nil; lia).
    assert (Ht : jobs (job_tosend c) = []) by (apply length_zero_iff_nil; lia).
    assert (Hn : l = []) by (apply length_zero_iff_nil; lia).
    rewrite Ho, Ht, Hn in Hz. rewrite !elem_of_nil in Hz. tauto. }
  apply (slices_eq JOB_NUM JOB_SIZE); [done|apply Ha| |].
  - destruct cut as [[j i]|]; [|apply result_full].
    eapply cut_result_full; [done|]. by apply (alone_cut _ _ _ Ha j i).
  - intros j Hj. rewrite (alone_slices _ _ _ Ha) by done. rewrite decide_True; [done|].
    apply Hall. unfold all_jobs. apply list_elem_of_fmap. exists j. split; [done|].
    apply elem_of_seq. lia.
Qed.

(** The jobs an action hands on leave the client. *)
Lemma alone_effect cut done c c' ms :
  alone cut done c → effect JOB_NUM JOB_SIZE c c' ms → alone cut done c'.
Proof.
  intros [Hf Hs Hn Hj Hc] He.
  destruct He as [ms (Ha & Ht & Hts & Hfin) Hq|j Hjn Ha Ht Hts Hfin|j Hjn Ha Ht Hts Hfin].
  - split; rewrite ?Ha, ?Hfin; try done. by rewrite Ht, Hts.
  - split; rewrite ?Ha, ?Hfin; try done. rewrite Hts. etrans; [|exact Hj].
    rewrite Ht. cbn [app]. by apply submseteq_cons.
  - split; rewrite ?Ha, ?Hfin; try done. rewrite Ht. etrans; [|exact Hj].
    apply submseteq_app; [done|]. rewrite Hts. cbn [app]. by apply submseteq_cons.
Qed.

(** A job finished on the client, by its own thread or by the server. *)
Lemma alone_finish cut cut' done c c' (j : nat) p :
  alone cut done c → (j < JOB_NUM)%nat → length p = JOB_SIZE →
  job_array c' = splice JOB_SIZE (job_array c) j p → job_finished c' = job_finished c + 1 →
  own c' ++ jobs (job_tosend c') ++ Z.of_nat j :: done ⊆+ all_jobs JOB_NUM →
  result_of cut' j = p → (∀ k, Z.of_nat k ∈ done → result_of cut' k = result_of cut k) →
  (∀ k i, cut' = Some (k, i) → (k < JOB_NUM)%nat ∧ Z.of_nat k ∈ Z.of_nat j :: done) →
  alone cut' (Z.of_nat j :: done) c'.
Proof.
  intros [Hf Hs Hn Hjs Hc] Hj Hp Ha Hfin Hall Hr Hr' Hc'. split; try done.
  - rewrite Ha. by apply splice_full.
  - intros k Hk. rewrite Ha. destruct (decide (j = k)) as [<-|Hne].
    + rewrite (slice_splice_eq JOB_NUM) by done. rewrite decide_True; [done|]. by left.
    + rewrite (slice_splice_ne JOB_NUM) by done. rewrite Hs by done. case_decide as Hin.
      * rewrite decide_True by (by right). by rewrite Hr'.
      * rewrite decide_False; [done|]. rewrite elem_of_cons. intros [?|?]; [lia|done].
  - rewrite Hfin, Hn. cbn [length]. lia.
Qed.
(** The jobs that the client has finished, or can still compute. *)
Definition held c : Z := Z.of_nat (length (own c)) + job_finished c.

Lemma alone_thread cut done c h c' ms :
  alone cut done c → h ∈ client_threads → h c = Ok (Some (c', ms)) →
  (∃ done', alone cut done' c') ∧ held c' ≤ held c.
Proof.
  intros Ha Hh He. unfold held.
  apply (client_thread_effect add_const JOB_NUM JOB_SIZE Hnum Hsize) in He
    as [He|(j & [Hj Ht Har] & -> & Hts & Hf)]; [| |apply Ha|by eapply alone_ok|done].
  - split; [exists done; by eapply alone_effect|].
    destruct He as [ms (_ & Ho & _ & ->)|j _ _ Ho _ ->|j _ _ Ho _ ->]; rewrite Ho; cbn [length]; lia.
  - rewrite Ht, Hf. cbn [length]. split; [|lia]. exists (Z.of_nat j :: done).
    pose proof (alone_NoDup _ _ _ Ha) as Hnd. rewrite Ht in Hnd. cbn [app] in Hnd.
    apply NoDup_cons in Hnd as [Hnin _]. rewrite !not_elem_of_app in Hnin.
    assert (Hne : ∀ k i, cut = Some (k, i) → (k < JOB_NUM)%nat ∧ k ≠ j).
    { intros k i Hc. destruct (alone_cut _ _ _ Ha k i Hc) as [Hk Hin]. split; [done|].
      intros ->. tauto. }
    eapply (alone_finish cut cut done c c' j); [done|done| |exact Har|done| | |done|].
    + rewrite length_fmap. apply (slice_length JOB_NUM); [apply Ha|done].
    + etrans; [|apply (alone_jobs _ _ _ Ha)]. rewrite Ht, Hts. cbn [app].
      apply Permutation_submseteq. solve_Permutation.
    + rewrite result_of_other by done. rewrite (alone_slices _ _ _ Ha) by done.
      by rewrite decide_False by tauto.
    + intros k i Hc. destruct (alone_cut _ _ _ Ha k i Hc). split; [done|by right].
Qed.

(** What the reader does with what it ignores. *)
Lemma take_ignored r c c' ms :
  reader c = Act → ignored r → client_take JOB_NUM JOB_SIZE r c = Ok (Some (c', ms)) →
  c' = set_reader Check c ∧ ms = [].
Proof.
  intros Hr Hi. destruct r as [[id [p|]|k|]|]; try done; cbn [client_take ignored] in *.
  - unfold client_receive. rewrite Hr. rewrite decide_False, decide_False by lia.
    by intros [= <- <-].
  - by intros [= <- <-].
Qed.

Lemma alone_check cut done c :
  alone cut done c → reader c = Act →
  alone cut done (set_reader Check c) ∧ held (set_reader Check c) = held c.
Proof.
  intros Ha Hr. assert (Ho : own (set_reader Check c) = own c) by (unfold own; by rewrite Hr).
  split; [|unfold held; by rewrite Ho]. apply (alone_effect _ _ c _ []); [done|].
  apply eff_quiet; [|done]. unfold same_jobs. by rewrite Ho.
Qed.
(** What the invariant of the whole system says of the client. *)
Lemma inv_alone done y : inv done y → alone None done (client y).
Proof.
  intros Hi. split; [apply Hi| |apply Hi| |done].
  - intros j Hj. rewrite result_of_none. by apply (inv_client _ _ _ _ _ _ Hi).
  - rewrite <-(inv_perm _ _ _ _ _ _ Hi). unfold outstanding. rewrite <-!app_assoc.
    do 2 apply submseteq_skips_l. by do 4 apply submseteq_inserts_l.
Qed.

(** A result of which only [i] bytes arrive. *)
Lemma cut_alone done c s up down (j i : nat) p c' ms :
  inv done (Sys c s up (Data (Z.of_nat j) (Some p) :: down)) → (j < JOB_NUM)%nat →
  client_receive JOB_NUM JOB_SIZE
    (Data (Z.of_nat j) (Some (zero_padded (take i (doubles_image (finished j)))))) c = Ok (Some (c', ms)) →
  alone (Some (j, i)) (Z.of_nat j :: done) c'.
Proof.
  intros Hi Hj Hr. pose proof (inv_alone _ _ Hi) as Ha. cbn [client] in Ha.
  apply (client_receive_result JOB_NUM JOB_SIZE Hnum Hsize) in Hr as (Har & Ho & Hts & Hf & ->);
    [|apply Ha|done|apply doubles_of_length].
  assert (Hall : own c ++ jobs (job_tosend c) ++ Z.of_nat j :: done ⊆+ all_jobs JOB_NUM).
  { rewrite <-(inv_perm _ _ _ _ _ _ Hi). unfold outstanding. cbn [client s2c].
    rewrite (msg_jobs_cons JOB_NUM). cbn [msg_job]. rewrite decide_False by lia. rewrite <-!app_assoc.
    do 2 apply submseteq_skips_l. do 3 apply submseteq_inserts_l. cbn [app].
    by apply submseteq_skip, submseteq_inserts_l. }
  assert (Hnin : Z.of_nat j ∉ done).
  { pose proof (all_jobs_NoDup JOB_NUM) as Hnd. apply submseteq_Permutation in Hall as [l Hl].
    rewrite Hl in Hnd. rewrite !NoDup_app, NoDup_cons in Hnd. tauto. }
  apply (alone_finish None _ done c c' j (zero_padded (take i (doubles_image (finished j)))));
    [done|done|apply doubles_of_length|done|done|by rewrite Ho, Hts|by apply result_of_cut| |].
  - intros k Hk. rewrite result_of_none. apply result_of_other. intros j' i' [= <- <-].
    split; [done|]. by intros ->.
  - intros k i' [= <- <-]. split; [done|by left].
Qed.

(** ** The phases of the run *)

Context (Hjn : 2 * JN ≤ 2 ^ 31).
Context (Hadd : ∀ x, is_uint 64 x → is_uint 64 (add_const x)).
Context (w : list Z) (Heven : Nat.Even JOB_NUM) (Hw : full w).
Context (Hdoubles : Forall (is_uint 64) v).

Abbreviation reachable := (rtc (JobsSystem.step add_const JOB_NUM JOB_SIZE) (start JOB_NUM v w)).
Abbreviation late := (NetSystem.late add_const JOB_NUM JOB_SIZE v).

(** While whole messages arrive, the client is that of a run of the whole
    system; it may read the end mark; or it has met the end of the stream.
    [short] says that the stream is cut. *)
Inductive phase (short : Prop) : node → list byte → Prop :=
  | phase_follows y i bs :
      reachable y → encodes (s2c y) bs → ((i < length bs)%nat → short) →
      phase short (client y) (take i bs)
  | phase_late c s u d d' : late (Net c s u d) → phase short c d'
  | phase_ended cut done c :
      alone cut done c → (∀ j i, cut = Some (j, i) → (i < 8 * JOB_SIZE)%nat ∧ short) →
      phase short c [].

Lemma phase_thread short c d h c' ms :
  phase short c d → h ∈ client_threads → h c = Ok (Some (c', ms)) → phase short c' d.
Proof.
  intros Hp Hh He. destruct Hp as [y i bs Hr Hb Hs|c s u d0 d' Hl|cut done c Ha Hc].
  - destruct y as [yc ys up down]. cbn [client s2c] in *.
    apply (phase_follows short (Sys c' ys (up ++ ms) down)); [|done..].
    eapply rtc_r; [exact Hr|]. by eapply step_client.
  - destruct (late_client_thread add_const JOB_NUM JOB_SIZE Hnum Hsize Hjn Hadd v Hv Hdoubles
      h c c' ms s u d0 Hl Hh He) as (Hms & _).
    destruct (sent_exists JOB_SIZE Hsize ms u Hms) as (u' & Hu).
    apply (phase_late _ _ s u' d0). eapply late_step; [done..| |by eapply net_client_thread]. done.
  - destruct (alone_thread _ _ _ _ _ _ Ha Hh He) as [(done' & Ha') _]. by eapply phase_ended.
Qed.

(** The reader of a client that follows takes what is left of the first
    message. *)
Lemma lost_taken_reads d r d' :
  lost_taken d r d' → ∃ k healthy, d' = drop k d ∧ frame_reads JOB_SIZE healthy k d r ∧
    (healthy = true ∨ d' = []).
Proof.
  intros (l & l' & Hl & Hd & Hf). apply (client_frame_fading JOB_SIZE Hsize) in Hf as (k & Hk & Hr); [|done].
  by exists k, (forallb works l).
Qed.

Lemma ended_ignored short y c' :
  reachable y → reader (client y) = Act → c' = set_reader Check (client y) → phase short c' [].
Proof.
  intros Hr Hrd ->. destruct (reachable_inv add_const JOB_NUM JOB_SIZE Hnum Hsize v w Heven Hv Hw y Hr)
    as ((done & Hi) & _). apply inv_alone in Hi.
  eapply phase_ended; [by apply alone_check|done].
Qed.

(** A message of which a part arrives, the last one. *)
Lemma follows_cut short y m ms0 i throttle cpu c' ms :
  reachable y → s2c y = m :: ms0 → reader (client y) = Act →
  (i < length (encode throttle cpu m))%nat → short →
  client_take JOB_NUM JOB_SIZE (last_frame JOB_SIZE (take i (encode throttle cpu m))) (client y) =
    Ok (Some (c', ms)) → phase short c' [].
Proof.
  intros Hr Hm Hrd Hi Hs He. destruct (reachable_valid add_const JOB_NUM JOB_SIZE Hnum Hsize Hjn Hadd v w
    Heven Hv Hw Hdoubles y Hr) as [_ Hvd].
  destruct (reachable_inv add_const JOB_NUM JOB_SIZE Hnum Hsize v w Heven Hv Hw y Hr) as ((done & Hinv) & _).
  rewrite Hm in Hvd. apply Forall_cons in Hvd as [Hvm _].
  destruct (last_frame_cut JOB_SIZE Hsize throttle cpu m i Hvm Hi) as [Hig|(id & p & k & -> & Hk & Hf)].
  { apply take_ignored in He as [-> _]; [|done..]. by eapply ended_ignored. }
  rewrite Hf in He. cbn [client_take] in He. pose proof (inv_down _ _ _ _ _ _ Hinv) as Hd.
  rewrite Hm in Hd. apply Forall_cons in Hd as [[[]|[(j & Hj & [= -> ->])|(j & Hj & [= -> ->])]] _];
    destruct y as [c s up down]; cbn [client s2c] in *; subst down.
  - eapply phase_ended; [by eapply cut_alone|]. by intros j' i' [= <- <-].
  - apply (inv_client_receive add_const JOB_NUM JOB_SIZE Hnum Hsize v Hv done c s up _ ms0 c' ms) in Hinv
      as (done' & Hi').
    + apply inv_alone in Hi'. by eapply phase_ended.
    + revert He. unfold client_receive. by rewrite Hrd, !(decide_False (P := -1 < _ < _)) by lia.
Qed.

Lemma follows_receive short y i bs k healthy r c' ms :
  reachable y → encodes (s2c y) bs → ((i < length bs)%nat → short) → reader (client y) = Act →
  frame_reads JOB_SIZE healthy k (take i bs) r → healthy = true ∨ drop k (take i bs) = [] →
  client_take JOB_NUM JOB_SIZE r (client y) = Ok (Some (c', ms)) → phase short c' (drop k (take i bs)).
Proof.
  intros Hr Hb Hs Hrd Hk Hend He.
  destruct (reachable_valid add_const JOB_NUM JOB_SIZE Hnum Hsize Hjn Hadd v w
    Heven Hv Hw Hdoubles y Hr) as [_ Hvd].
  inversion Hb as [Hm HB|throttle cpu m ms0 bs0 Hb0 Hm HB]; subst bs.
  - rewrite take_nil in *. destruct Hk as (Hk & -> & _). apply Nat.le_0_r in Hk as ->.
    apply take_ignored in He as [-> _]; [|done|apply last_frame_short; cbn; lia]. by eapply ended_ignored.
  - rewrite <-Hm in Hvd. apply Forall_cons in Hvd as [Hvm _].
    destruct (decide (m = end_mark)) as [->|Hne].
    + destruct Hk as (Hk & -> & _). rewrite take_take in He.
      apply take_ignored in He as [-> _]; [|done|by apply ignored_end_mark].
      pose proof (encodes_concat 0 0 (c2s y)) as Hu.
      eapply (phase_late _ _ _ _ []), (mark_late add_const JOB_NUM JOB_SIZE Hnum Hsize Hjn Hadd v w Heven Hv Hw
        Hdoubles (Net (client y) (server y) _ _)); [exact Hr|by split|by rewrite <-Hm; left|done].
    + destruct (frame_reads_message JOB_SIZE Hsize healthy k i throttle cpu m bs0 r)
        as [(-> & Hle & ->)|(Hi & -> & ->)]; [done..| |].
      * destruct y as [c s up down]. cbn [client s2c] in *. subst down.
        apply (phase_follows short (Sys c' s (up ++ ms) ms0)); [|done|].
        -- eapply rtc_r; [exact Hr|]. by apply step_client_receive.
        -- intros Hlt. apply Hs. rewrite length_app. lia.
      * eapply follows_cut; [done|by symmetry|done..| |done]. apply Hs. rewrite length_app. lia.
Qed.

Lemma phase_receive short c d r d' c' ms :
  phase short c d → reader c = Act → lost_taken d r d' →
  client_take JOB_NUM JOB_SIZE r c = Ok (Some (c', ms)) → phase short c' d'.
Proof.
  intros Hp Hrd (k & healthy & -> & Hk & Hend)%lost_taken_reads He.
  destruct Hp as [y i bs Hr Hb Hs|c s u d0 d' Hl|cut done c Ha Hc].
  - by eapply follows_receive.
  - exfalso. destruct Hl as [_ _ _ Hl _ _ _ _]. cbn [net_client] in Hl. destruct Hl; congruence.
  - destruct Hk as (Hk & -> & _). apply Nat.le_0_r in Hk as ->.
    apply take_ignored in He as [-> _]; [|done|apply last_frame_short; cbn; lia].
    apply alone_check in Ha as [Ha _]; [|done]. by eapply phase_ended.
Qed.
Lemma phase_run short x y :
  rtc lost_step x y → phase short (lost_client x) (lost_stream x) →
  phase short (lost_client y) (lost_stream y).
Proof.
  induction 1 as [x|x z y Hs _ IH]; [done|]. intros Hp. apply IH. clear IH.
  destruct Hs; [by eapply phase_thread|by eapply phase_receive].
Qed.

Lemma phase_lose k n :
  rtc (net_step add_const JOB_NUM JOB_SIZE) (net_start JOB_NUM v w) n →
  phase (k < length (down n))%nat (net_client n) (take k (down n)).
Proof.
  intros Hn. destruct (forward add_const JOB_NUM JOB_SIZE Hnum Hsize Hjn Hadd v w Heven Hv Hw Hdoubles n Hn)
    as [(y & Hr & [-> _ _ Hd])|Hl]; [by eapply phase_follows|].
  destruct n as [c s u d]. by eapply phase_late.
Qed.

(** What the client has counted, and what its array is at the end. *)
Lemma phase_result short c d :
  phase short c d → job_finished c ≤ JN ∧
  (job_finished c = JN → ∃ cut, job_array c = cut_result v cut ∧
     ∀ j i, cut = Some (j, i) → (j < JOB_NUM)%nat ∧ (i < 8 * JOB_SIZE)%nat ∧ short).
Proof.
  intros [y i bs Hr _ _|c0 s u d0 d' Hl|cut done c0 Ha Hc].
  - destruct (reachable_inv add_const JOB_NUM JOB_SIZE Hnum Hsize v w Heven Hv Hw y Hr) as ((done & Hi) & _).
    split; [by apply (inv_le _ _ _ Hnum Hsize _ _ _ Hi)|]. intros Hf. exists None. split; [|done].
    by apply (inv_result _ _ _ Hnum Hsize _ Hv done).
  - destruct Hl as [Hf Har _ _ _ _ _ _]. cbn [net_client] in *. split; [lia|]. by exists None.
  - split.
    + rewrite (alone_finished _ _ _ Ha). destruct (alone_rest _ _ _ Ha) as [l Hl].
      apply Permutation_length in Hl. unfold all_jobs in Hl.
      rewrite !length_app, length_fmap, length_seq in Hl. lia.
    + intros Hf. exists cut. split; [by eapply alone_result|]. intros j i ->.
      destruct (alone_cut _ _ _ Ha j i eq_refl), (Hc j i eq_refl). done.
Qed.

(** Once the stream has ended, a job that is not with the client is never
    finished. *)
Lemma ended_run x y :
  rtc lost_step x y → lost_stream x = [] → (∃ cut done, alone cut done (lost_client x)) →
  held (lost_client y) ≤ held (lost_client x).
Proof.
  induction 1 as [x|x z y Hs _ IH]; [done|]. intros Hx (cut & done & Ha).
  destruct Hs as [h c d c' ms Hh He|c d r d' c' ms Hrd Ht He]; cbn [lost_client lost_stream] in *; subst d.
  - destruct (alone_thread _ _ _ _ _ _ Ha Hh He) as [(done' & Ha') Hle].
    etrans; [|exact Hle]. apply IH; [done|by exists cut, done'].
  - apply lost_taken_reads in Ht as (k & healthy & -> & (Hk & -> & _) & _).
    apply Nat.le_0_r in Hk as ->. apply take_ignored in He as [-> _];
      [|done|apply last_frame_short; cbn; lia].
    destruct (alone_check _ _ _ Ha Hrd) as [Ha' <-]. apply IH; [done|by exists cut, done].
Qed.

Lemma phase_ended_inv short c :
  phase short c [] → job_finished c ≠ JN → ∃ cut done, alone cut done c.
Proof.
  intros Hp. remember [] as d eqn:Hd.
  destruct Hp as [y i bs Hr _ _|c0 s u d0 d' Hl|cut done c0 Ha Hc]; intros Hh; [|exfalso|by eauto].
  - destruct (reachable_inv add_const JOB_NUM JOB_SIZE Hnum Hsize v w Heven Hv Hw y Hr) as ((done & Hi) & _).
    exists None, done. by apply inv_alone.
  - by destruct Hl as [Hf _ _ _ _ _ _ _].
Qed.

(** A read at the end of the stream returns at once, and the reader tries
    again. *)
Lemma ended_reads c :
  reader c = Act → lost_step (Lost c []) (Lost (set_reader Check c) []).
Proof.
  intros Hr. eapply (lost_receive c [] None []); [done| |done].
  exists [Closed], []. by split_and!; [|right|].
Qed.

(** ** What the client can still finish *)

(** Where its main thread can be. *)
Definition standing c : Prop :=
  match worker c with
  | Check | Act | Working _ => True
  | Exit => JN ≤ job_finished c
  | _ => False
  end.

Lemma standing_thread h c c' ms :
  standing c → h ∈ client_threads → h c = Ok (Some (c', ms)) → standing c'.
Proof.
  unfold standing. intros Hc Hh He. unfold JobsSystem.client_threads in Hh.
  rewrite !elem_of_cons, elem_of_nil in Hh. destruct Hh as [->|[->|[->|[->|[->|[->|[->|[]]]]]]]].
  - unfold state_manager in He. by action_cases He.
  - unfold send_state in He. by action_cases He.
  - unfold adaptor in He. by action_cases He.
  - unfold adaptor_loop in He. by action_cases He.
  - unfold client_worker in He. action_cases He; cbn; try case_decide; try done. lia.
  - unfold write_to_server in He. by action_cases He.
  - unfold client_reader_check in He. by action_cases He.
Qed.

Lemma standing_take r c c' ms :
  standing c → client_take JOB_NUM JOB_SIZE r c = Ok (Some (c', ms)) → standing c'.
Proof.
  unfold standing. intros Hc He. destruct r as [m|]; [|by injection He as <- <-].
  cbn [client_take] in He. unfold client_receive, state_handle in He.
  action_cases He; try case_decide; cbn; try done; destruct (worker c); try done; lia.
Qed.

Lemma standing_run x y : rtc lost_step x y → standing (lost_client x) → standing (lost_client y).
Proof.
  induction 1 as [|x z y Hs _ IH]; [done|]. intros Hx. apply IH.
  destruct Hs; [by eapply standing_thread|by eapply standing_take].
Qed.

Lemma standing_net n :
  rtc (net_step add_const JOB_NUM JOB_SIZE) (net_start JOB_NUM v w) n → standing (net_client n).
Proof.
  revert n. refine (rtc_ind_r _ _ _ _); [done|]. intros x z _ Hs Hx.
  destruct Hs; [by eapply standing_thread|by eapply standing_take|done..].
Qed.

(** The steps of the main thread until its queue is empty. *)
Definition rank c : nat :=
  (3 * length (job_todo c) + match worker c with Working _ => 3 | Check => 2 | _ => 1 end)%nat.

Lemma worker_progress cut done c :
  alone cut done c → standing c → reader c = Check ∨ reader c = Act → held c = JN →
  job_finished c < JN →
  ∃ c', client_worker add_const JOB_NUM JOB_SIZE c = Ok (Some (c', [])) ∧
    held c' = JN ∧ reader c' = reader c ∧ (rank c' < rank c)%nat.
Proof.
  intros Ha Hst Hrd Hh Hf. destruct (alone_ok _ _ _ Ha) as (Hv' & _ & Hhand).
  assert (Hr : hand (reader c) = []) by (by destruct Hrd as [-> | ->]).
  unfold held, own, rank, standing, client_worker in *. rewrite Hr in *.
  destruct (worker c) as [| |z| | | |] eqn:Hwk; try done; [..|lia]; cbn [hand app] in *.
  - rewrite decide_True by done. eexists. split; [done|]. cbn. rewrite Hr. split_and!; [done..|lia].
  - destruct (job_todo c) as [|z q] eqn:Hq; [cbn in Hh; lia|]. eexists. split; [done|].
    cbn. rewrite Hr. destruct (decide (z = -1)) as [->|Hne]; cbn.
    + rewrite jobs_mark in Hh. split_and!; [done..|lia].
    + destruct (valid_head JOB_NUM z q Hv' Hne) as (j & -> & _).
      rewrite (jobs_job JOB_NUM JOB_SIZE) in Hh by done. cbn in Hh.
      split_and!; [done..|lia].
  - apply Forall_cons in Hhand as [(j & -> & Hj) _].
    rewrite (compute_ok add_const JOB_NUM) by (done || apply Ha). eexists. split; [done|].
    cbn in Hh |- *. rewrite Hr. split_and!; [cbn [app]; fold (jobs (job_todo c)); lia|done|lia].
Qed.

(** Every job is finished or with the client, and its reader moves none: the
    client can finish. *)
Lemma ended_finishes c :
  (∃ cut done, alone cut done c) → standing c → reader c = Check ∨ reader c = Act → held c = JN →
  ∃ c', rtc lost_step (Lost c []) (Lost c' []) ∧ job_finished c' = JN.
Proof.
  induction c as [c IH] using (induction_ltof1 _ rank). intros (cut & done & Ha) Hst Hrd Hh.
  destruct (decide (job_finished c < JN)) as [Hf|Hf].
  - destruct (worker_progress cut done c Ha Hst Hrd Hh Hf) as (c1 & He & Hh1 & Hr1 & Hlt).
    assert (Hin : client_worker add_const JOB_NUM JOB_SIZE ∈ client_threads).
    { unfold JobsSystem.client_threads. rewrite !elem_of_cons. tauto. }
    destruct (alone_thread _ _ _ _ _ _ Ha Hin He) as [(done' & Ha') _].
    destruct (IH c1) as (c' & Hrun & Hf'); [done|by exists cut, done'|by eapply standing_thread|
      by rewrite Hr1|done|]. exists c'. split; [|done].
    eapply rtc_l; [by eapply lost_thread|done].
  - exists c. split; [done|]. unfold held in Hh. lia.
Qed.

(** ** Properties *)

(** C21: The server goes in any state of the two processes, also in the middle
    of a write, so that only the first [k] bytes on their way to the client
    arrive.  However the client runs on: it never counts more jobs than there
    are; when it counts all of them, its vector is the one a single process
    would have computed, except that, if the stream was cut, the numbers of at
    most one job can end in zeros, the job whose result was cut short.  At the
    end of the stream its reader returns from every read at once and tries
    again, without noticing.  If a job is then neither finished nor with the
    client, the client never ends; otherwise it can still finish, unless its
    reader is moving jobs. *)
Theorem lost_connection k n c d :
  rtc (net_step add_const JOB_NUM JOB_SIZE) (net_start JOB_NUM v w) n →
  rtc lost_step (lose k n) (Lost c d) →
  job_finished c ≤ JN ∧
  (job_finished c = JN → ∃ cut, job_array c = cut_result v cut ∧
     ∀ j i, cut = Some (j, i) →
       (j < JOB_NUM)%nat ∧ (i < 8 * JOB_SIZE)%nat ∧ (k < length (down n))%nat) ∧
  (d = [] → reader c = Act → lost_step (Lost c []) (Lost (set_reader Check c) [])) ∧
  (d = [] → held c < JN → ∀ c' d', rtc lost_step (Lost c d) (Lost c' d') → job_finished c' < JN) ∧
  (d = [] → held c = JN → reader c = Check ∨ reader c = Act →
     ∃ c', rtc lost_step (Lost c []) (Lost c' []) ∧ job_finished c' = JN).
Proof.
  intros Hn Hr. pose proof (phase_run _ _ _ Hr (phase_lose k n Hn)) as Hp.
  cbn [lost_client lost_stream] in Hp.
  destruct (phase_result _ _ _ Hp) as [Hle Hres]. split; [done|]. split; [done|].
  split; [intros _; apply ended_reads|]. split.
  - intros -> Hh c' d' Hr'. assert (Ha : ∃ cut done, alone cut done c).
    { apply (phase_ended_inv _ _ Hp). unfold held in Hh. lia. }
    pose proof (ended_run _ _ Hr' eq_refl Ha) as Hheld. cbn [lost_client] in Hheld. unfold held in *. lia.
  - intros -> Hh Hrd. destruct (decide (job_finished c = JN)) as [Hf|Hf]; [by exists c|].
    apply ended_finishes; [by apply (phase_ended_inv _ _ Hp)| |done..].
    apply (standing_run _ _ Hr), (standing_net n Hn).
Qed.

(** ** Schedules *)

(** A thread of the client acts, or its reader takes a message with the given
    answers of the kernel. *)
Inductive lost_move : Type := LThread (i : nat) | LReceive (l : list answer).

Definition lost_turn (t : lost_move) (x : lost) : option lost :=
  match t with
  | LThread i =>
      h ← client_threads !! i;
      match h (lost_client x) with
      | Ok (Some (c', _)) => Some (Lost c' (lost_stream x))
      | _ => None
      end
  | LReceive l =>
      match client_frame JOB_SIZE (Socket (lost_stream x) [] l), reader (lost_client x) with
      | Some (r, Socket d' [] _), Act =>
          if decide (fading l = true ∧ (forallb works l = true ∨ d' = [])) then
            match client_take JOB_NUM JOB_SIZE r (lost_client x) with
            | Ok (Some (c', _)) => Some (Lost c' d')
            | _ => None
            end
          else None
      | _, _ => None
      end
  end.

Fixpoint lost_schedule (ts : list lost_move) (x : lost) : option lost :=
  match ts with
  | [] => Some x
  | t :: ts' => y ← lost_turn t x; lost_schedule ts' y
  end.

Lemma lost_turn_ok t x y : lost_turn t x = Some y → lost_step x y.
Proof.
  destruct x as [c d], t as [i|l]; unfold lost_turn; cbn [lost_client lost_stream].
  - destruct (_ !! i) as [h|] eqn:Hh; [|done]. cbn [mbind option_bind].
    destruct (h c) as [[[c' ms]|]|] eqn:He; try done. intros [= <-].
    eapply lost_thread; [by eapply list_elem_of_lookup_2|done].
  - destruct (client_frame _ _) as [[r [d' [|] l']]|] eqn:Hf; try done.
    destruct (reader c) eqn:Hr; try done. case_decide as Hl; [|done].
    destruct (client_take _ _ r c) as [[[c' ms]|]|] eqn:He; try done. intros [= <-].
    eapply lost_receive; [done| |done]. exists l, l'. by destruct Hl.
Qed.

Lemma lost_schedule_ok ts x y : lost_schedule ts x = Some y → rtc lost_step x y.
Proof.
  revert x. induction ts as [|t ts IH]; intros x; cbn [lost_schedule].
  - by intros [= <-].
  - destruct (lost_turn t x) as [z|] eqn:Hz; [|done]. cbn [mbind option_bind]. intros Hy.
    eapply rtc_l; [by eapply lost_turn_ok|by apply IH].
Qed.
End lost.

(** ** Concrete instances *)

Lemma lost_eta x : Lost (lost_client x) (lost_stream x) = x.
Proof. by destruct x. Qed.

(** Two jobs of one number each.  The server has written the result of job 1,
    of which one byte of eight arrives. *)
Definition ex_served : list turn :=
  [CThread 5; CThread 5; SReceive; SThread 4; SThread 4; SThread 5; CThread 6].
Definition ex_crash : net :=
  default (net_start 2 [1; 2] [0; 0]) (net_schedule ex_succ 2 1 ex_served (net_start 2 [1; 2] [0; 0])).
Definition ex_lost : list lost_move :=
  [LReceive [Moves 4; Moves 4; Moves 8; Closed]; LThread 4; LThread 4; LThread 4; LThread 4].
Definition ex_left : lost :=
  default (lose 9 ex_crash) (lost_schedule ex_succ 2 1 ex_lost (lose 9 ex_crash)).

(** All jobs are counted, and the second number is the low byte of 6002. *)
Lemma ex_left_result :
  job_finished (lost_client ex_left) = 2 ∧ worker (lost_client ex_left) = Exit ∧
  job_array (lost_client ex_left) = [6001; 114] ∧ work ex_succ <$> [1; 2] = [6001; 6002].
Proof. split_and!; vm_compute; reflexivity. Qed.

(** The server goes before its first write: job 1 is never finished. *)
Definition ex_alone : lost := lose 0 ex_crash.

Lemma lost_connection_witness :
  (job_finished (lost_client ex_left) = 2 → ∃ cut,
     job_array (lost_client ex_left) = cut_result ex_succ 1 [1; 2] cut ∧
     ∀ j i, cut = Some (j, i) → (j < 2)%nat ∧ (i < 8 * 1)%nat ∧ (9 < length (down ex_crash))%nat) ∧
  (∀ c' d', rtc (lost_step ex_succ 2 1) ex_alone (Lost c' d') → job_finished c' < 2).
Proof.
  assert (Hn : rtc (net_step ex_succ 2 1) (net_start 2 [1; 2] [0; 0]) ex_crash).
  { apply net_schedule_ok with (ts := ex_served). vm_compute. reflexivity. }
  assert (Hx : rtc (lost_step ex_succ 2 1) (lose 9 ex_crash) ex_left).
  { apply lost_schedule_ok with (ts := ex_lost). vm_compute. reflexivity. }
  assert (Hj : 2 * 2 ≤ 2 ^ 31) by (vm_compute; discriminate).
  assert (Ha : ∀ x, is_uint 64 x → is_uint 64 (ex_succ x)).
  { intros x _. unfold ex_succ. apply wrap_range. lia. }
  assert (He : Nat.Even 2) by (exists 1%nat; reflexivity).
  assert (Hd : Forall (is_uint 64) [1; 2]).
  { repeat (apply Forall_cons; split; [split; vm_compute; [discriminate|reflexivity]|]).
    apply Forall_nil. exact I. }
  split.
  - destruct (lost_connection ex_succ 2 1 ltac:(lia) ltac:(lia) [1; 2] eq_refl Hj Ha [0; 0] He eq_refl Hd
      9 ex_crash (lost_client ex_left) (lost_stream ex_left) Hn) as (_ & H & _); [|exact H].
    by rewrite lost_eta.
  - destruct (lost_connection ex_succ 2 1 ltac:(lia) ltac:(lia) [1; 2] eq_refl Hj Ha [0; 0] He eq_refl Hd
      0 ex_crash (lost_client ex_alone) (lost_stream ex_alone) Hn) as (_ & _ & _ & H & _).
    { by rewrite lost_eta. }
    rewrite lost_eta in H. apply H; vm_compute; reflexivity.
Defined.
