(* ===== verification/Server.v ===== *)
(** * MP4: the life of the server process (src/MP4/server.c)

    What [main], [run_server], the signal handler and the reader thread do to
    the globals of the process: the listening socket, the one client descriptor,
    the two queues and the threads.  What the threads compute is in Jobs.v. *)
From stdpp Require Import prelude.
From S2P Require Import Prelude CInt Jobs.
Open Scope Z_scope.

(** A queue before [queue_create], in use, and after [queue_destroy]. *)
Inductive queue_life : Type := Unset | Created | Destroyed.

Inductive thread : Type :=
  | Process_client | Compute_worker | Write_to_clients | State_manager | Update_throttle.

#[export] Instance thread_eq_dec : EqDecision thread.
Proof. solve_decision. Defined.

(** Where the main thread stands: in the set-up, before the test of the accept
    loop, inside [accept], or out of [main] with an exit code. *)
Inductive main_pc : Type := Starting | Testing | Accepting | Ended (code : Z).

Inductive scall : Type :=
  | Signal (signum : Z)
  | Socket | Getaddrinfo | Bind | Listen | Freeaddrinfo
  | Shutdown (fd : Z) | Close (fd : Z)
  | Pthread_create (t : thread)
  | Handle (msg_type : Z).

Section server.
Context {D : Type} (one : D) (ARRAY_SIZE : nat).

(** The globals; [fds] are the client descriptors the process holds open. *)
Record server : Type := Server {
  at_ : main_pc;
  sessionEnd : Z;
  serverSocket : Z;
  clientFd : Z;
  fds : list Z;
  job_todo : queue_life;
  job_tosend : queue_life;
  job_array : list D;
  threads : list thread;
}.

Definition set_at p (s : server) : server :=
  Server p (sessionEnd s) (serverSocket s) (clientFd s) (fds s) (job_todo s) (job_tosend s)
    (job_array s) (threads s).
Definition set_sessionEnd z (s : server) : server :=
  Server (at_ s) z (serverSocket s) (clientFd s) (fds s) (job_todo s) (job_tosend s)
    (job_array s) (threads s).
Definition set_serverSocket z (s : server) : server :=
  Server (at_ s) (sessionEnd s) z (clientFd s) (fds s) (job_todo s) (job_tosend s)
    (job_array s) (threads s).
Definition set_clientFd z (s : server) : server :=
  Server (at_ s) (sessionEnd s) (serverSocket s) z (fds s) (job_todo s) (job_tosend s)
    (job_array s) (threads s).
Definition set_fds l (s : server) : server :=
  Server (at_ s) (sessionEnd s) (serverSocket s) (clientFd s) l (job_todo s) (job_tosend s)
    (job_array s) (threads s).
Definition set_queues q r (s : server) : server :=
  Server (at_ s) (sessionEnd s) (serverSocket s) (clientFd s) (fds s) q r (job_array s) (threads s).
Definition set_job_array v (s : server) : server :=
  Server (at_ s) (sessionEnd s) (serverSocket s) (clientFd s) (fds s) (job_todo s) (job_tosend s)
    v (threads s).
Definition set_threads l (s : server) : server :=
  Server (at_ s) (sessionEnd s) (serverSocket s) (clientFd s) (fds s) (job_todo s) (job_tosend s)
    (job_array s) l.

(** The initial globals; the array is zero in the program's image. *)
Definition init_server (zero : D) : server :=
  Server Starting 0 0 (-1) [] Unset Unset (replicate ARRAY_SIZE zero) [].

Abbreviation serving := (cmd server scall).

Definition pthread_create (t : thread) : serving unit :=
  emit (Pthread_create t) ;; modify (λ s, set_threads (threads s ++ [t]) s).
Definition close_fd (fd : Z) : serving unit :=
  emit (Close fd) ;; modify (λ s, set_fds (filter (.≠ fd) (fds s)) s).
(** A queue that a thread uses. *)
Definition use_queue (q : queue_life) : outcome unit :=
  match q with
  | Unset => Fault NullDeref
  | Created => Ok tt
  | Destroyed => Fault UseAfterFree
  end.

(** ** The signal handler *)

Definition close_server : serving unit :=
  modify (set_sessionEnd 1) ;;
  s ← get;
  (if decide (clientFd s ≠ -1) then
     emit (Shutdown (clientFd s)) ;; close_fd (clientFd s)
   else mret tt) ;;
  emit (Shutdown (serverSocket s)) ;;
  emit (Close (serverSocket s)) ;;
  _ ← lift (use_queue (job_todo s));
  modify (λ s, set_queues Destroyed (job_tosend s) s) ;;
  _ ← lift (use_queue (job_tosend s));
  modify (λ s, set_queues (job_todo s) Destroyed s).

(** ** [run_server] *)

(** What the calls of the set-up return. *)
Record answers : Type := Answers { socket : Z; getaddrinfo : Z; bind : Z; listen : Z }.

Definition exit (code : Z) : serving unit := modify (set_at (Ended code)).

(** Up to the accept loop. *)
Definition run_server_start (a : answers) : serving unit :=
  emit Socket ;;
  modify (set_serverSocket (socket a)) ;;
  emit Getaddrinfo ;;
  if decide (getaddrinfo a ≠ 0) then exit 1
  else
    emit Bind ;;
    if decide (bind a ≠ 0) then exit 1
    else
      emit Listen ;;
      if decide (listen a ≠ 0) then exit 1
      else
        modify (set_job_array (replicate ARRAY_SIZE one)) ;;
        modify (λ s, set_queues Created (job_tosend s) s) ;;
        modify (λ s, set_queues (job_todo s) Created s) ;;
        modify (set_at Testing).

(** The test of the loop, and the end of [run_server] and [main]. *)
Definition run_server_test : serving unit :=
  s ← get;
  if decide (sessionEnd s = 0) then modify (set_at Accepting)
  else emit Freeaddrinfo ;; exit 0.

(** The rest of an iteration: what [accept] and the first [pthread_create]
    return. *)
Definition run_server_accept (tmp_clientFd retval : Z) : serving unit :=
  modify (λ s, if decide (tmp_clientFd ≠ -1) then set_fds (tmp_clientFd :: fds s) s else s) ;;
  s ← get;
  if decide (clientFd s = -1) then
    modify (set_clientFd tmp_clientFd) ;;
    (if decide (retval = 0) then pthread_create Process_client
     else emit (Pthread_create Process_client)) ;;
    pthread_create Compute_worker ;;
    pthread_create Write_to_clients ;;
    pthread_create State_manager ;;
    pthread_create Update_throttle ;;
    if decide (retval ≠ 0) then exit 1 else modify (set_at Testing)
  else modify (set_at Testing).

Definition SIGINT : Z := 2.

(** [main]: a negative code for a wrong number of arguments. *)
Definition main (a : answers) (argc : Z) : serving unit :=
  if decide (argc ≠ 2) then exit (-1) else emit (Signal SIGINT) ;; run_server_start a.

(** ** The reader thread *)

Definition leave (t : thread) : serving unit :=
  modify (λ s, set_threads (filter (.≠ t) (threads s)) s).

(** One iteration of [process_client] with the type [get_msg_type] returns; -2
    is the end of the connection. *)
Definition process_client (msg_type : Z) : serving unit :=
  s ← get;
  if decide (sessionEnd s = 0) then
    if decide (msg_type = 0 ∨ msg_type = -1 ∨ msg_type = 2) then emit (Handle msg_type)
    else leave Process_client
  else
    close_fd (clientFd s) ;;
    modify (set_clientFd (-1)) ;;
    leave Process_client.

(** The first thing the computing thread and the writer do. *)
Definition compute_worker_pull : serving unit := s ← get; lift (use_queue (job_todo s)).
Definition write_to_clients_pull : serving unit := s ← get; lift (use_queue (job_tosend s)).

(** ** The process as a transition system *)

(** [accept] answers a descriptor that is not in use, or -1; on a socket that
    was shut down it fails. *)
Definition accepted (fd : Z) (s : server) : Prop :=
  fd = -1 ∨ (0 ≤ fd ∧ fd ∉ fds s ∧ sessionEnd s = 0).

Definition ended (s : server) : bool := match at_ s with Ended _ => true | _ => false end.

(** A step of the main thread, of the reader thread, or SIGINT. *)
Inductive step : server → server → Prop :=
  | step_main a argc s s' t :
      at_ s = Starting → main a argc s = Ok (tt, s', t) → step s s'
  | step_test s s' t : at_ s = Testing → run_server_test s = Ok (tt, s', t) → step s s'
  | step_accept fd retval s s' t :
      at_ s = Accepting → accepted fd s → run_server_accept fd retval s = Ok (tt, s', t) → step s s'
  | step_client msg_type s s' t :
      ended s = false → Process_client ∈ threads s → process_client msg_type s = Ok (tt, s', t) →
      step s s'
  | step_signal s s' t : ended s = false → close_server s = Ok (tt, s', t) → step s s'.

(** ** What a step changes *)

(** [sessionEnd] is set once and for all. *)
Lemma close_server_end s s' t : close_server s = Ok (tt, s', t) → sessionEnd s' = 1.
Proof.
  unfold close_server. run. destruct (decide _); cbn; destruct (job_todo s), (job_tosend s); cbn;
    try done; by intros [= <- _].
Qed.

Lemma step_session x y : step x y → sessionEnd y = sessionEnd x ∨ sessionEnd y = 1.
Proof.
  intros Hs. destruct Hs as [a argc s s' t _ H|s s' t _ H|fd r s s' t _ _ H|
    m s s' t _ _ H|s s' t _ H]; [left..|right; by eapply close_server_end].
  - revert H. unfold main, run_server_start, exit. repeat case_decide; run; by intros [= <- _].
  - revert H. unfold run_server_test, exit. run. case_decide; run; by intros [= <- _].
  - revert H. unfold run_server_accept, pthread_create, exit. run. cbn.
    repeat case_decide; run; by intros [= <- _].
  - revert H. unfold process_client, leave, close_fd. run. repeat case_decide; run; by intros [= <- _].
Qed.

Lemma step_end x y : step x y → sessionEnd x = 1 → sessionEnd y = 1.
Proof. intros [->| ->]%step_session; done. Qed.

Lemma run_end x y : rtc step x y → sessionEnd x = 1 → sessionEnd y = 1.
Proof. induction 1 as [|x z y Hs _ IH]; [done|]. intros Hx. apply IH. by eapply step_end. Qed.

(** What holds from a state with a client on, until SIGINT. *)
Record served (x y : server) : Prop := {
  served_client : clientFd y = clientFd x;
  served_threads : ∀ t, t ∈ threads y → t ∈ threads x;
  served_fds : ∃ l, fds y = l ++ fds x;
}.

Lemma step_served x y :
  step x y → clientFd x ≠ -1 → sessionEnd x = 0 → sessionEnd y = 0 → served x y.
Proof.
  intros Hs Hc Hx Hy. destruct Hs as [a argc s s' t _ H|s s' t _ H|fd r s s' t _ _ H|
    m s s' t _ _ H|s s' t _ H].
  - revert H. unfold main, run_server_start, exit. repeat case_decide; run; intros [= <- _];
      (split; [done|done|by exists []]).
  - revert H. unfold run_server_test, exit. run. case_decide; run; intros [= <- _];
      (split; [done|done|by exists []]).
  - revert H. unfold run_server_accept. run.
    destruct (decide (fd ≠ -1)); cbn; rewrite decide_False by done; run; intros [= <- _];
      (split; [done|done|first [by exists [fd]|by exists []]]).
  - revert H. unfold process_client, leave. run. rewrite decide_True by done.
    case_decide; run; intros [= <- _]; (split; [done| |by exists []]); [done|].
    by intros t' [_ ?]%list_elem_of_filter.
  - apply close_server_end in H. congruence.
Qed.

(** ** Properties *)

(** C19: The server serves one client in its life.  From the moment a client is
    accepted until SIGINT, whatever happens: [clientFd] stays that client's, no
    thread is started any more (so once the reader thread has left, because the
    client is gone or sent an unknown type, nobody is served), and every
    descriptor accepted afterwards stays open. *)
Theorem server_serves_one x y :
  rtc step x y → clientFd x ≠ -1 → sessionEnd x = 0 → sessionEnd y = 0 →
  clientFd y = clientFd x ∧ (∀ t, t ∈ threads y → t ∈ threads x) ∧ (∃ l, fds y = l ++ fds x).
Proof.
  intros Hr. induction Hr as [x|x z y Hs Hr IH]; intros Hc Hx Hy; [by split; [|split; [|exists []]]|].
  assert (Hz : sessionEnd z = 0).
  { destruct (step_session x z Hs) as [Hz|Hz]; [congruence|].
    pose proof (run_end z y Hr Hz). congruence. }
  destruct (step_served x z Hs Hc Hx Hz) as [Hcz Htz [l Hl]].
  destruct (IH ltac:(congruence) Hz Hy) as (Hcy & Hty & l' & Hl').
  split; [congruence|]. split; [by auto|]. exists (l' ++ l). by rewrite Hl', Hl, app_assoc.
Qed.

(** Three ways to interrupt the server end badly.  SIGINT during the set-up
    destroys a queue that is not there; a second SIGINT destroys the queues
    again; and SIGINT while the server waits for its first client makes [accept]
    fail, whose -1 passes for a client: all five threads are started, and the
    computing thread and the writer use the destroyed queues. *)
Theorem server_interrupted zero x :
  close_server (init_server zero) = Fault NullDeref ∧
  (clientFd x = -1 → job_todo x = Created → job_tosend x = Created →
   ∃ x1 t1 x2 t2, close_server x = Ok (tt, x1, t1) ∧ sessionEnd x1 = 1 ∧
     close_server x1 = Fault UseAfterFree ∧
     run_server_accept (-1) 0 x1 = Ok (tt, x2, t2) ∧
     threads x2 = threads x ++
       [Process_client; Compute_worker; Write_to_clients; State_manager; Update_throttle] ∧
     compute_worker_pull x2 = Fault UseAfterFree ∧ write_to_clients_pull x2 = Fault UseAfterFree).
Proof.
  split; [done|]. intros Hc Hq Hr. destruct x as [a e sk c fs q r v ts]. cbn in Hc, Hq, Hr.
  subst c q r. do 4 eexists. split; [reflexivity|]. split; [done|]. split; [done|].
  split; [reflexivity|]. cbn. rewrite <-!app_assoc. done.
Qed.
End server.

(** ** Concrete instances *)

Definition ok_answers : answers := Answers 3 0 0 0.
(** The server after its first client got descriptor 5. *)
Definition ex_serving : @server Z :=
  Server Testing 0 3 5 [5] Created Created [1; 1]
    [Process_client; Compute_worker; Write_to_clients; State_manager; Update_throttle].
(** A second connection, then the first client goes. *)
Definition ex_deserted : @server Z :=
  Server Testing 0 3 5 [6; 5] Created Created [1; 1]
    [Compute_worker; Write_to_clients; State_manager; Update_throttle].

Lemma ex_serving_reached : rtc (step 1 2) (init_server 2 0) ex_serving.
Proof.
  eapply rtc_l; [by eapply (step_main 1 2 ok_answers 2)|].
  eapply rtc_l; [by eapply step_test|]. eapply rtc_l; [|apply rtc_refl].
  apply (step_accept 1 2 5 0 _ _ [Pthread_create Process_client; Pthread_create Compute_worker;
    Pthread_create Write_to_clients; Pthread_create State_manager; Pthread_create Update_throttle]);
    [done|right; split; [done|split; [apply not_elem_of_nil|done]]|reflexivity].
Qed.

Lemma ex_deserted_reached : rtc (step 1 2) ex_serving ex_deserted.
Proof.
  eapply rtc_l; [by eapply step_test|].
  eapply rtc_l; [apply (step_accept 1 2 6 0 _
    (Server Testing 0 3 5 [6; 5] Created Created [1; 1]
      [Process_client; Compute_worker; Write_to_clients; State_manager; Update_throttle]) []);
    [done|right; split; [done|split; [by intros ?%list_elem_of_singleton|done]]|reflexivity]|].
  eapply rtc_l; [|apply rtc_refl].
  apply (step_client 1 2 (-2) _ _ []); [done|by left|reflexivity].
Qed.

Lemma server_serves_one_witness :
  clientFd ex_deserted = 5 ∧ (∀ t, t ∈ threads ex_deserted → t ∈ threads ex_serving) ∧
  (∃ l, fds ex_deserted = l ++ [5]).
Proof.
  apply (server_serves_one 1 2 ex_serving ex_deserted);
    [exact ex_deserted_reached|discriminate|reflexivity|reflexivity].
Defined.

(** The server waits for its first client. *)
Definition ex_waiting : @server Z := Server Accepting 0 3 (-1) [] Created Created [1; 1] [].

Lemma server_interrupted_witness :
  rtc (step 1 2) (init_server 2 0) ex_waiting ∧
  ∃ x1 t1 x2 t2, close_server ex_waiting = Ok (tt, x1, t1) ∧ sessionEnd x1 = 1 ∧
     close_server x1 = Fault UseAfterFree ∧
     run_server_accept (-1) 0 x1 = Ok (tt, x2, t2) ∧
     threads x2 =
       [Process_client; Compute_worker; Write_to_clients; State_manager; Update_throttle] ∧
     compute_worker_pull x2 = Fault UseAfterFree ∧ write_to_clients_pull x2 = Fault UseAfterFree.
Proof.
  split.
  - eapply rtc_l; [by eapply (step_main 1 2 ok_answers 2)|].
    eapply rtc_l; [by eapply step_test|apply rtc_refl].
  - apply (server_interrupted 2 0 ex_waiting); reflexivity.
Defined.
