(* ===== verification/Client.v ===== *)
(** * MP4: the life of the client process (src/MP4/client.c)

    [main], [run_client] and the signal handler: what is set up before the
    threads of Jobs.v run, and what is left when they are done. *)
From Stdlib Require Import Ascii String.
From stdpp Require Import prelude relations.
From S2P Require Import Prelude CInt CText Jobs JobsData JobsSystem JobsRun JobsLive JobsComplete.
Open Scope Z_scope.

(** A queue before [queue_create], in use, and after [queue_destroy]. *)
Inductive queue : Type := Unset | Queue (q : list Z) | Destroyed.

Inductive thread : Type :=
  | Write_to_server | Read_from_server | State_manager | Update_throttle.

Inductive ccall : Type :=
  | Signal (signum : Z) | Sscanf_throttle
  | Socket | Getaddrinfo | Connect | Freeaddrinfo
  | Shutdown (fd : Z) | Close (fd : Z)
  | Pthread_create (t : thread) | Pthread_cancel (t : thread) | Pthread_join (t : thread)
  | Fopen (path : text) | Fprintf (line : text)
  | Exit (code : Z).

Section client.
Context {D : Type} (add_const : D → D) (one : D) (show : D → text) (JOB_NUM JOB_SIZE : nat).

Definition ARRAY_SIZE : nat := JOB_NUM * JOB_SIZE.

(** The globals of the process. *)
Record client : Type := Client {
  serverSocket : Z;
  job_todo : queue;
  job_tosend : queue;
  job_array : list D;
  job_finished : Z;
}.

Definition init_client (zero : D) : client :=
  Client 0 Unset Unset (replicate ARRAY_SIZE zero) 0.

Abbreviation running := (cmd client ccall).

(** [queue_push] on a queue of [JOB_NUM] places; none of the pushes of
    [bootstrap] finds it full. *)
Definition push (q : queue) (x : Z) : outcome queue :=
  match q with
  | Unset => Fault NullDeref
  | Destroyed => Fault UseAfterFree
  | Queue l => Ok (Queue (l ++ [x]))
  end.
(** [queue_pull]; [None] while the queue is empty. *)
Definition pull (q : queue) : outcome (option (Z * queue)) :=
  match q with
  | Unset => Fault NullDeref
  | Destroyed => Fault UseAfterFree
  | Queue [] => Ok None
  | Queue (x :: l) => Ok (Some (x, Queue l))
  end.
Definition queue_destroy (q : queue) : outcome queue :=
  match q with
  | Unset => Fault NullDeref
  | Destroyed => Fault UseAfterFree
  | Queue _ => Ok Destroyed
  end.

Definition set_socket z (c : client) : client :=
  Client z (job_todo c) (job_tosend c) (job_array c) (job_finished c).
Definition set_queues q r (c : client) : client :=
  Client (serverSocket c) q r (job_array c) (job_finished c).
Definition set_job_array v (c : client) : client :=
  Client (serverSocket c) (job_todo c) (job_tosend c) v (job_finished c).
Definition set_job_finished z (c : client) : client :=
  Client (serverSocket c) (job_todo c) (job_tosend c) (job_array c) z.

(** ** The signal handler *)

Definition close_client : running unit :=
  emit (Pthread_cancel Write_to_server) ;;
  emit (Pthread_cancel Read_from_server) ;;
  c ← get;
  emit (Shutdown (serverSocket c)) ;;
  emit (Close (serverSocket c)) ;;
  q ← lift (queue_destroy (job_todo c));
  modify (λ c, set_queues q (job_tosend c) c) ;;
  r ← lift (queue_destroy (job_tosend c));
  modify (λ c, set_queues (job_todo c) r c).

Definition SIGINT : Z := 2.
Definition close_program (signal : Z) : running unit :=
  if decide (signal = SIGINT) then close_client else mret tt.

(** ** [run_client] *)

Definition bootstrap : running unit :=
  for_each (seq 0 (JOB_NUM / 2)) (λ i,
    c ← get;
    q ← lift (push (job_todo c) (Z.of_nat i));
    modify (λ c, set_queues q (job_tosend c) c) ;;
    c ← get;
    r ← lift (push (job_tosend c) (Z.of_nat i + Z.of_nat (JOB_NUM / 2)));
    modify (λ c, set_queues (job_todo c) r c)).

(** What the calls return. *)
Record answers : Type := Answers {
  socket : Z; getaddrinfo : Z; connect : Z; fopen : bool }.

(** Up to the loop of the main thread; an exit code if it ends before. *)
Definition run_client_start (a : answers) : running (option Z) :=
  emit Socket ;;
  modify (set_socket (socket a)) ;;
  emit Getaddrinfo ;;
  if decide (getaddrinfo a ≠ 0) then emit (Exit 1) ;; mret (Some 1)
  else
    emit Connect ;;
    if decide (connect a ≠ 0) then emit (Exit 1) ;; mret (Some 1)
    else
      modify (set_job_array (replicate ARRAY_SIZE one)) ;;
      modify (set_queues (Queue []) (Queue [])) ;;
      modify (set_job_finished 0) ;;
      bootstrap ;;
      emit (Pthread_create Write_to_server) ;;
      emit (Pthread_create Read_from_server) ;;
      emit (Pthread_create State_manager) ;;
      emit (Pthread_create Update_throttle) ;;
      mret None.

(** One line per number; a stream that could not be opened is only noticed at
    its first use. *)
Definition save (a : answers) (xs : list D) : running unit :=
  for_each xs (λ x, if fopen a then emit (Fprintf (show x ++ [NL])) else failwith NullDeref).

(** What follows the loop: the end mark, the joins and the output file; the
    stream is never checked nor closed.  [rest] is what the other threads do to
    the globals until they are joined. *)
Definition run_client_end (a : answers) (rest : running unit) : running unit :=
  c ← get;
  r ← lift (push (job_tosend c) (-1));
  modify (λ c, set_queues (job_todo c) r c) ;;
  rest ;;
  emit (Pthread_join Write_to_server) ;;
  emit (Pthread_join Read_from_server) ;;
  emit (Fopen (lit "mp4_output.txt")) ;;
  c ← get;
  save a (job_array c) ;;
  emit Freeaddrinfo.

(** [main]: [threads] is what the threads do to the globals until the loop of the
    main thread ends.  The throttle that is scanned is an argument of Throttle.v. *)
Definition main (a : answers) (argc : Z) (threads rest : running unit) : running Z :=
  if decide (argc < 4 ∨ 5 < argc) then emit (Exit 1) ;; mret 1
  else
    emit (Signal SIGINT) ;;
    emit Sscanf_throttle ;;
    code ← run_client_start a;
    match code with
    | Some z => mret z
    | None => threads ;; run_client_end a rest ;; mret 0
    end.

(** The first thing an iteration of the main thread's loop does. *)
Definition main_loop_pull : running (option (Z * queue)) := c ← get; lift (pull (job_todo c)).

(** The lines written to the output file. *)
Definition written (t : list ccall) : list text :=
  omap (λ e, match e with Fprintf l => Some l | _ => None end) t.
End client.

Section theory.
Context {D : Type} (add_const : D → D) (one : D) (show : D → text) (JOB_NUM JOB_SIZE : nat).
Context (Hnum : (0 < JOB_NUM)%nat) (Hsize : (0 < JOB_SIZE)%nat).
Implicit Types c : @client D.

Abbreviation array_size := (ARRAY_SIZE JOB_NUM JOB_SIZE).
Abbreviation bootstrapped := (JobsSystem.bootstrap JOB_NUM (replicate array_size one)).

(** The globals of a process whose threads left them as in [n]. *)
Definition globals_of (sock : Z) (n : @Jobs.node D) : client :=
  Client sock (Queue (Jobs.job_todo n)) (Queue (Jobs.job_tosend n)) (Jobs.job_array n)
    (Jobs.job_finished n).

Lemma bootstrap_loop js k q r c :
  for_each js (λ i,
    c ← get;
    q ← lift (push (job_todo c) (Z.of_nat i));
    modify (λ c, set_queues q (job_tosend c) c) ;;
    c ← get;
    r ← lift (push (job_tosend c) (Z.of_nat i + Z.of_nat k));
    modify (λ c, set_queues (job_todo c) r c)) (set_queues (Queue q) (Queue r) c) =
  Ok (tt, set_queues (Queue (q ++ (Z.of_nat <$> js))) (Queue (r ++ (Z.of_nat <$> (Nat.add k <$> js)))) c,
      [] : list ccall).
Proof.
  revert q r. induction js as [|j js IH]; intros q r; [by rewrite !app_nil_r|].
  cbn [for_each]. erewrite bind_ok; [|reflexivity].
  specialize (IH (q ++ [Z.of_nat j]) (r ++ [Z.of_nat j + Z.of_nat k])).
  rewrite <-!app_assoc in IH. cbn [app] in IH.
  replace (Z.of_nat j + Z.of_nat k) with (Z.of_nat (k + j)) in IH at 2 by lia.
  unfold set_queues in *. cbn in *. by rewrite IH.
Qed.

Lemma bootstrap_ok c :
  bootstrap JOB_NUM (set_queues (Queue []) (Queue []) c) =
  Ok (tt, set_queues (Queue (Z.of_nat <$> seq 0 (JOB_NUM / 2)))
            (Queue (Z.of_nat <$> seq (JOB_NUM / 2) (JOB_NUM / 2))) c, []).
Proof.
  unfold bootstrap. rewrite bootstrap_loop. cbn [app].
  by rewrite fmap_add_seq, Nat.add_0_r.
Qed.

Lemma run_client_start_ok a zero :
  getaddrinfo a = 0 → connect a = 0 →
  ∃ t, run_client_start one JOB_NUM JOB_SIZE a (init_client JOB_NUM JOB_SIZE zero) =
    Ok (None, globals_of (socket a) bootstrapped, t) ∧ written t = [].
Proof.
  intros Hg Hc. set (c0 := set_job_finished 0 (set_queues (Queue []) (Queue [])
    (set_job_array (replicate array_size one)
      (set_socket (socket a) (init_client JOB_NUM JOB_SIZE zero))))).
  assert (Hb : bootstrap JOB_NUM c0 = Ok (tt, globals_of (socket a) bootstrapped, [])).
  { exact (bootstrap_ok (Client (socket a) Unset Unset (replicate array_size one) 0)). }
  unfold run_client_start. rewrite !decide_False by (by intros []). run.
  fold c0. run. eexists. split; reflexivity.
Qed.

Lemma run_client_start_fails a zero :
  getaddrinfo a ≠ 0 ∨ connect a ≠ 0 →
  ∃ c t, run_client_start one JOB_NUM JOB_SIZE a (init_client JOB_NUM JOB_SIZE zero) =
    Ok (Some 1, c, t ++ [Exit 1]) ∧ job_todo c = Unset.
Proof.
  intros H. unfold run_client_start. destruct (decide (getaddrinfo a ≠ 0)) as [Hg|Hg]; run.
  - eexists _, [Socket; Getaddrinfo]. by split.
  - rewrite decide_True by naive_solver. run. eexists _, [Socket; Getaddrinfo; Connect]. by split.
Qed.

Lemma save_ok a c xs :
  fopen a = true →
  save show a xs c = Ok (tt, c, (λ x, Fprintf (show x ++ [NL])) <$> xs).
Proof.
  intros Hf. unfold save. induction xs as [|x xs IH]; [done|]. cbn [for_each].
  rewrite (bind_ok _ _ _ tt c [Fprintf (show x ++ [NL])]) by (by rewrite Hf). by rewrite IH.
Qed.

Lemma written_lines (xs : list D) :
  written ((λ x, Fprintf (show x ++ [NL])) <$> xs) = (λ x, show x ++ [NL]) <$> xs.
Proof. induction xs as [|x xs IH]; [done|]. cbn. by f_equal. Qed.

(** The loop of the main thread ends with the push of the end mark. *)
Lemma client_worker_end n n' ms :
  client_worker add_const JOB_NUM JOB_SIZE n = Ok (Some (n', ms)) → worker n' = Jobs.Exit →
  n' = set_worker Jobs.Exit (set_tosend (Jobs.job_tosend n ++ [-1]) n) ∧ ms = [].
Proof.
  intros He Hw. unfold client_worker in He. action_cases He; try done; [|by case_decide].
  by match goal with Hp : Jobs.queue_push _ _ _ = Some _ |- _ => apply queue_push_some in Hp as -> end.
Qed.

Lemma run_client_end_ok a sock n nx ms n' rest :
  fopen a = true →
  client_worker add_const JOB_NUM JOB_SIZE n = Ok (Some (nx, ms)) → worker nx = Jobs.Exit →
  rest (globals_of sock nx) = Ok (tt, globals_of sock n', []) →
  ∃ t, run_client_end show a rest (globals_of sock n) = Ok (tt, globals_of sock n', t) ∧
    written t = (λ x, show x ++ [NL]) <$> Jobs.job_array n'.
Proof.
  intros Hf He Hw Hr. destruct (client_worker_end n nx ms He Hw) as [-> _].
  pose proof (save_ok a (globals_of sock n') (Jobs.job_array n') Hf) as Hs.
  change (rest (set_queues (job_todo (globals_of sock n)) (Queue (Jobs.job_tosend n ++ [-1]))
    (globals_of sock n)) = Ok (tt, globals_of sock n', [])) in Hr.
  unfold run_client_end. run. cbn [globals_of job_tosend push]. run.
  change (job_array (globals_of sock n')) with (Jobs.job_array n').
  run. eexists. split; [reflexivity|]. cbn. rewrite !(omap_app). cbn.
  by rewrite app_nil_r, <-written_lines.
Qed.

(** The reader of the client ends only when it has the result. *)
Lemma joined_result v w x nx ms y :
  Nat.Even JOB_NUM → full JOB_NUM JOB_SIZE v → full JOB_NUM JOB_SIZE w →
  rtc (step add_const JOB_NUM JOB_SIZE) (start JOB_NUM v w) x →
  client_worker add_const JOB_NUM JOB_SIZE (JobsSystem.client x) = Ok (Some (nx, ms)) →
  rtc (step add_const JOB_NUM JOB_SIZE) (Sys nx (JobsSystem.server x) (c2s x ++ ms) (s2c x)) y →
  reader (JobsSystem.client y) = Jobs.Exit →
  Jobs.job_array (JobsSystem.client y) = work add_const <$> v.
Proof.
  intros He Hv Hw Hx Hc Hy Hr.
  assert (Hs : step add_const JOB_NUM JOB_SIZE x (Sys nx (JobsSystem.server x) (c2s x ++ ms) (s2c x))).
  { destruct x as [c s up down]. eapply step_client; [|exact Hc]. unfold client_threads.
    rewrite !elem_of_cons. tauto. }
  destruct (reachable_live add_const JOB_NUM JOB_SIZE Hnum Hsize v w y He Hv Hw) as ((done & Hi) & _ & Hl).
  { etrans; [exact Hx|]. by eapply rtc_l. }
  pose proof (cl_reader_end _ _ (live_client _ _ Hl) Hr).
  pose proof (inv_le _ _ _ Hnum Hsize _ _ _ Hi).
  apply (inv_result add_const JOB_NUM JOB_SIZE Hnum Hsize v Hv done); [done|lia].
Qed.

(** ** Properties *)

(** C18: The whole client: a failed [getaddrinfo] or [connect] ends it with exit
    code 1 before any queue exists.  Otherwise the set-up leaves the globals in
    the initial state of the distributed computation; and when the threads have
    brought that to a state [x] in which the loop of the main thread ends, and
    go on, whatever jobs the load balancing moves, to a state [y] in which the
    writer and the reader are joined, the process exits with 0 and has written
    the number one process computes, once per element of the array. *)
Theorem client_session a argc zero w x nx ms y threads rest :
  let v := replicate array_size one in
  let run := main one show JOB_NUM JOB_SIZE a argc threads rest (init_client JOB_NUM JOB_SIZE zero) in
  Nat.Even JOB_NUM → full JOB_NUM JOB_SIZE w → 4 ≤ argc ≤ 5 → fopen a = true →
  rtc (step add_const JOB_NUM JOB_SIZE) (start JOB_NUM v w) x →
  client_worker add_const JOB_NUM JOB_SIZE (JobsSystem.client x) = Ok (Some (nx, ms)) →
  worker nx = Jobs.Exit →
  rtc (step add_const JOB_NUM JOB_SIZE) (Sys nx (JobsSystem.server x) (c2s x ++ ms) (s2c x)) y →
  writer (JobsSystem.client y) = Jobs.Exit → reader (JobsSystem.client y) = Jobs.Exit →
  threads (globals_of (socket a) (JobsSystem.client (start JOB_NUM v w))) =
    Ok (tt, globals_of (socket a) (JobsSystem.client x), []) →
  rest (globals_of (socket a) nx) = Ok (tt, globals_of (socket a) (JobsSystem.client y), []) →
  (getaddrinfo a ≠ 0 ∨ connect a ≠ 0 →
     ∃ c t, run = Ok (1, c, t ++ [Exit 1]) ∧ job_todo c = Unset) ∧
  (getaddrinfo a = 0 → connect a = 0 →
     ∃ t, run = Ok (0, globals_of (socket a) (JobsSystem.client y), t) ∧
       written t = replicate array_size (show (work add_const one) ++ [NL])).
Proof.
  intros v threads' He Hw Hargc Hf Hx Hc Hce Hy Hwr Hrd Hth Hre.
  assert (Hv : full JOB_NUM JOB_SIZE v) by apply length_replicate.
  pose proof (joined_result v w x nx ms y He Hv Hw Hx Hc Hy Hrd) as Harr.
  unfold threads', main. rewrite decide_False by lia. split.
  - intros H. destruct (run_client_start_fails a zero H) as (c & t & Hs & Hq). run.
    exists c, (Signal SIGINT :: Sscanf_throttle :: t). split; [|done]. cbn. by rewrite app_nil_r.
  - intros Hg Hcn. destruct (run_client_start_ok a zero Hg Hcn) as (t1 & H1 & Hw1).
    destruct (run_client_end_ok a (socket a) _ nx ms _ rest Hf Hc Hce Hre) as (t2 & H2 & Hw2).
    exists (Signal SIGINT :: Sscanf_throttle :: t1 ++ t2).
    change (threads (globals_of (socket a) bootstrapped) = Ok (tt, globals_of (socket a)
      (JobsSystem.client x), [])) in Hth.
    run. split; [cbn; by rewrite !app_nil_r|].
    unfold written in *. cbn. rewrite omap_app, Hw1, Hw2, Harr. cbn [app].
    unfold v. rewrite fmap_replicate. by rewrite fmap_replicate.
Qed.

(** SIGINT does not end the client but destroys its queues: the main thread
    goes on and uses a destroyed queue in its next iteration, as the handler does
    when the signal comes again; before the queues exist the handler faults. *)
Theorem client_interrupted (zero : D) q r c :
  close_program SIGINT (init_client JOB_NUM JOB_SIZE zero) = Fault NullDeref ∧
  (job_todo c = Queue q → job_tosend c = Queue r →
   ∃ c1 t, close_program SIGINT c = Ok (tt, c1, t) ∧
     main_loop_pull c1 = Fault UseAfterFree ∧ close_program SIGINT c1 = Fault UseAfterFree).
Proof.
  split; [done|]. intros Hq Hr. destruct c as [sk tq ts v f]. cbn in Hq, Hr. subst tq ts.
  do 2 eexists. split; [reflexivity|]. split; reflexivity.
Qed.
End theory.

(** ** Concrete instances *)

Definition ex_show (z : Z) : text := dec z.
Definition ok_answers : answers := Answers 3 0 0 true.

(** The client computes job 0 while the server computes job 1; the reader counts
    the last job and ends, the main thread leaves its loop, the writer ends. *)
Definition ex_ones : @JobsSystem.sys Z := start 2 [1; 1; 1; 1] [0; 0; 0; 0].
Definition ex_loop : list turn :=
  [CThread 5; CThread 5; SReceive; SThread 4; SThread 4; SThread 5; CThread 4; CThread 4; CThread 4;
   CThread 6; CReceive; CThread 6].
Definition ex_counted : @JobsSystem.sys Z := default ex_ones (schedule Z.succ 2 2 ex_loop ex_ones).
Definition ex_over : @JobsSystem.sys Z :=
  Sys (set_worker Jobs.Exit (set_tosend [-1] (JobsSystem.client ex_counted)))
    (JobsSystem.server ex_counted) [] [].
Definition ex_joined : @JobsSystem.sys Z :=
  Sys (set_writer Jobs.Exit (JobsSystem.client ex_over)) (JobsSystem.server ex_over) [] [].

Lemma client_session_witness :
  ∃ t, main 1 ex_show 2 2 ok_answers 4
     (modify (λ c, globals_of (serverSocket c) (JobsSystem.client ex_counted)))
     (modify (λ c, globals_of (serverSocket c) (JobsSystem.client ex_joined))) (init_client 2 2 0) =
     Ok (0, globals_of 3 (JobsSystem.client ex_joined), t) ∧
   written t = replicate 4 (lit "6001" ++ [NL]).
Proof.
  destruct (client_session Z.succ 1 ex_show 2 2 ltac:(lia) ltac:(lia) ok_answers 4 0
    [0; 0; 0; 0] ex_counted (JobsSystem.client ex_over) [] ex_joined
    (modify (λ c, globals_of (serverSocket c) (JobsSystem.client ex_counted)))
    (modify (λ c, globals_of (serverSocket c) (JobsSystem.client ex_joined)))) as (_ & H).
  - exists 1%nat. reflexivity.
  - reflexivity.
  - lia.
  - reflexivity.
  - apply schedule_ok with (us := ex_loop). vm_compute. reflexivity.
  - vm_compute. reflexivity.
  - reflexivity.
  - apply schedule_ok with (us := [CThread 5]). vm_compute. reflexivity.
  - reflexivity.
  - vm_compute. reflexivity.
  - reflexivity.
  - reflexivity.
  - destruct H as (t & Hmain & Hlines); [reflexivity|reflexivity|].
    exists t. split; [exact Hmain|]. rewrite Hlines. vm_compute. reflexivity.
Defined.

Lemma client_interrupted_witness :
  let c := globals_of 3 (JobsSystem.client ex_start) in
  ∃ c1 t, close_program SIGINT c = Ok (tt, c1, t) ∧
     main_loop_pull c1 = Fault UseAfterFree ∧ close_program SIGINT c1 = Fault UseAfterFree.
Proof.
  intros c. apply (client_interrupted 2 2 0 [0] [1] c); reflexivity.
Defined.
